(* ===== verification/_CoqProject ===== *)
-Q . S2P
Prelude.v
NetMsg.v
FlatBuilder.v
FlatMemory.v
FlatTable.v
FlatOps.v
NetGenerated.v
FlatSorted.v
NetStream.v
NetBuffer.v
NetText.v
Rocks.v
Hash.v
TimeWheel.v
TimeWheelThreads.v
ThreadPool.v
ThreadPoolCv.v
Config.v
Gtm.v
GtmSpec.v
GtmThreads.v
App.v
Es.v
Dbs.v
DbsThreads.v
DbsPool.v
Dbtl.v
DbtlThreads.v
System.v
Cluster.v
ClusterAgree.v
WireCluster.v
ClusterShipped.v
