(* ===== verification/Prelude.v ===== *)
(** * GRIT: a verification library for the distributed-transaction prototype

    The program (src/) is a prototype of GRIT-style distributed transactions:
    five processes that exchange FlatBuffers messages over muduo TCP
    connections.

    - The application (src/transaction/app) asks the GTM for a transaction id
      and the endpoints of the entity services, sends statements to the first
      of them and a commit to all.
    - The entity service (src/transaction/entity_service) turns statements
      into read and write sets and forwards commits to the database service.
    - The database service (src/transaction/dbservice) collects the sets of a
      transaction, asks DBTL for a sequence number, checks conflicts against
      earlier writes ([Dbtm], with the hash table of src/base/hash.h), asks
      the GTM for a global decision where several services take part, and
      sends the log.
    - The GTM (src/transaction/gtm) hands out ids and decides global conflicts
      by the disjunction of the votes.
    - DBTL (src/transaction/dbtl) hands out sequence numbers, stores logs and
      lets its [LogPlayer] send them to the databases, with retries on the
      time wheel of src/base/timeWheel.h.

    ** How code is modelled

    A handler is a function of type [prog S event A]: it runs on the state [S]
    of its process, emits events (messages sent, connections opened, SQL
    statements, file operations, log lines) and returns or stops with a
    [fault].  Undefined behaviour of C++ is a fault of its own kind: null
    dereference, access outside an array, use of freed memory, failed
    assertion, uncaught exception.  What was emitted before a fault stays
    emitted.  Maps are [gmap]s whose subscript operator inserts a default, as
    [unordered_map] does; integers are [Z] with their wrap-around written out;
    strings are [string], buffers lists of bytes.  Reading through a pointer to
    a destroyed object goes through the class [Stale], so that a theorem can
    say what happens when the bytes are still there ([stale_kept]), when the
    read is caught ([stale_caught]), or in every case.  Only WireCluster asks
    anything of such reads: that an [int32] field read from freed memory still
    has 32 bits ([stale_int32]).  Handlers, tasks of a
    pool and the thread of the wheel interleave as whole steps; GtmThreads,
    DbsThreads, DbsPool, DbtlThreads, TimeWheelThreads and ThreadPoolCv cut the
    handlers of the GTM, the handlers and tasks of the database service, those
    of the log service with its replays, the tick of the wheel and the loop of
    the pool at their accesses to shared memory and say what the whole steps
    hide.  There one operation of a container (a lookup or an insertion in an
    [unordered_map], [remove] of a [std::list], [push_back], an operation of the
    conflict table) is one step: two such operations that overlap in time, which
    the code does not exclude, are outside the model.

    What is not under src/ is a parameter: [std::hash], the boost property
    tree behind the configuration, the outcome of MySQL, RocksDB and file
    operations, the clock readings, [std::sort] and the key functions that a
    schema with keys would generate (FlatSorted).

    ** Files

    - Prelude: faults, results, the program monad with its partial-correctness
      triples and weakest preconditions, machine integers, strings, maps.
    - NetMsg: src/base/headerCmd.h and the tables of src/flatbuffer/net.fbs.
    - FlatBuilder, FlatTable: the parts of the FlatBuffers headers that the
      generated code uses, on lists of bytes: the builder with its vtable
      sharing, the accessors and the verifier.
    - FlatMemory: the block of memory under the builder ([vector_downward])
      with reallocation, release and moves, and its refinement to two lists.
    - FlatOps: the library around it: changes in place, iterators, scalar and
      string vectors, shared strings, the life cycle of a builder.
    - NetGenerated: src/flatbuffer/net_generated.h, table by table, and the
      class [Codec] through which the round trip is proved.
    - FlatSorted: sorted vectors of tables, with the classes [StdSort] and
      [KeyOrder], and their binary search.
    - NetStream: the tags and casts of the root message, and the size-prefixed
      form that the generated code offers for streams.
    - NetBuffer: muduo's Buffer and Endian, and the first lines of every
      message handler.
    - NetText: the line searches of Buffer, and StringPiece.
    - Rocks: the inline parts of RocksDB that dbtl.cc uses, [Status] and [Slice].
    - Hash, TimeWheel, ThreadPool, Config: src/base; ThreadPoolCv: the pool with
      its condition variable; TimeWheelThreads: the wheel with its own thread.
    - Gtm, App, Es, Dbs, Dbtl: the five processes, their state as a record and
      one definition per function of the source, under the source's names.
    - GtmSpec: what the GTM answers as a function of the messages it has got,
      without state.
    - GtmThreads, DbsThreads: the GTM and the database service with several I/O
      threads ([setThreadNum]); DbsPool: the database service with the workers
      of its pool beside them.
    - DbtlThreads: the log service with its I/O threads, the worker of its pool
      and the thread of the wheel, and every list of positions as nodes.
    - System: the class [Transport] between processes with the byte-level
      implementation, the [main] functions, and properties of several
      processes together.
    - Cluster: all processes as nodes of one network, a step relation over their
      handlers, and what every run of it keeps.
    - ClusterAgree: runs of the network seen from one node, and the agreement
      on the outcome of a transaction.
    - WireCluster: the same network with bytes in flight and receive buffers.
    - ClusterShipped: the runs in which the entity service of this repository
      is the only one.

    ** What is proved

    - Messages: every message comes back from its bytes (net_roundtrip); bytes
      that pass the verifier are read without leaving the buffer
      (net_verify_safe), and the handlers do not call it
      (net_unverified_overreads); the socket buffer is a byte queue
      (buffer_refines_queue, buffer_int_roundtrip); messages that arrive
      together are lost (buffer_drops_coalesced), and would not be with the
      size prefix of the library (net_stream_roundtrip); of a message that
      arrives in pieces the handler reads the message or faults
      (buffer_split_message); sorted vectors are searched correctly
      (sorted_lookup_finds); the memory of the
      builder keeps its two ends through every reallocation
      (vector_downward_refines); shared strings, string vectors, iteration and
      the order of StringPiece (FlatOps, NetText).
    - GTM: ids are distinct, decisions are the disjunction of the votes, come
      once, after the last vote and to every voter, whatever the interleaving;
      the GTM is the function of its history that GtmSpec gives
      (gtm_refines_history); the parser of the transactions file (gtm_...).
    - Database service: sets are collected in order, one number is requested
      per transaction, and a message that lacks a set or a string stops the
      service (dbs_collects); commit and number in either order start one check
      (dbs_judges_once); the branches of the local check; with handlers and
      tasks one at a time every log is empty (dbs_commits_nothing), and nothing
      is written to disk (dbs_log_never_on_disk); the SQL statements.
    - DBTL: replies to number requests, storage of logs, replay to exactly the
      databases that have not answered, exponential retries (dbtl_...).
    - Application and entity service: statements, commits, results (app_...,
      es_...).
    - Containers: the conflict table, the time wheel and the thread pool
      (mhash_..., timewheel_..., threadpool_...).
    - Database service with threads: a handler alone is the whole handler
      (dbs_handler_alone); one commit and one number start at most one check,
      whatever else arrives (dbs_threads_one_check), but can miss each other, and data can be lost
      (dbs_threads_lost_check, dbs_threads_lost_data).  A task alone is the whole
      task (dbs_task_alone); with any number of workers every log stays empty
      (dbs_pool_commits_nothing) unless an item arrives for a transaction that
      has passed its check, and such an item is logged unchecked
      (dbs_pool_logs_unchecked).
    - Log service with threads: a message, task or replay that nobody disturbs
      ends and is the whole step (dbtl_thread_alone); an answer can free the
      node that a replay is at (dbtl_answer_frees_node), and two failures can be
      counted once (dbtl_threads_lost_retry); while list operations do not
      overlap in time, a replay whose node is spared reaches every database that
      does not answer meanwhile (dbtl_replay_reaches_unanswered).
    - Time wheel with its thread: every interleaving that leaves the served
      slot alone is one of whole ticks and insertions
      (timewheel_threads_linearize), a tick ends (timewheel_tick_terminates),
      and a timer for the served slot can free the memory under the tick
      (timewheel_push_frees_iterator).
    - Threads: one I/O thread is the sequential GTM (gtm_one_thread); with
      several, ids stay in range but can be given twice, and votes can be lost
      (gtm_threads_...); the pool with its condition variable refines the pool
      without and loses no wake-up (threadpool_cv_refines,
      threadpool_no_lost_wakeup); after the stop it can be joined up to the
      workers inside a task that never returns, as TimeWheel::start
      (threadpool_cv_join).
    - RocksDB: [Status] has value semantics and owns its memory, [Slice] is
      compared as bytes (status_value_semantics, slice_compares_bytes).
    - Whole system: endpoints, an insertion and a sequence number followed
      through several processes (mains_..., system_...); in every run of the
      network messages have the type their receiver casts to (cluster_typed);
      the application keeps to the client's side of that contract
      (app_is_client).  The network takes handlers, tasks and timers one at a
      time, and its clients ask the GTM for ids only, which the GTM does not
      check; what several threads of one process do is in the files on threads
      (gtm_threads_lost_vote, dbs_pool_logs_unchecked).  Seen from one node
      a run is a run of its handlers on messages that were sent before
      (cluster_projects), all decisions on a transaction agree and come from
      votes that were cast (cluster_agreement), the network of bytes, in which
      messages arrive whole, does nothing else and reads no byte outside its
      buffers (wire_refines_cluster, wire_reads_in_bounds), and with the entity
      service
      of this repository nothing gets past the database service
      (cluster_shipped_inert).

    ** Bounds and fuel

    [Hash.insert_chain] recurses through rehash, which moves [numPoint_]
    forward in an array of 17 primes: 17 is enough, and mhash_insert_terminates
    shows that the fuel never runs out: an insertion returns a table or stops
    with an access out of bounds.  [Hash.rehash_loop] runs at most 97
    rounds, the largest prime.  [GtmThreads.run_alone] and [drive] count turns of
    a thread; [cost] is enough for a handler, and gtm_one_thread speaks of runs
    of any length.  [DbsThreads.run_alone] takes one access per item and nine
    more ([cost], dbs_handler_alone); for [DbtlThreads.run_alone] there is enough
    fuel for every job (dbtl_thread_alone), and for [DbsPool.run_alone] for every
    task (dbs_task_alone); [FlatSorted.bsearch] halves a range, for
    which the length of the vector is enough; a tick takes at most five
    accesses per timer and three more ([TimeWheelThreads.left]).  Everything
    else is structural.  net_roundtrip
    asks for messages below the 2 GB limit of FlatBuffers;
    dbtl_retry_backoff asks for a retry limit of at most 33, beyond which the
    number of turns of the wheel no longer fits an [int].  [Buffer] computes in
    [size_t]; its theorems bound what is appended, reserved and delivered by
    2^60 bytes ([Buffer.memory]), and [shrink] needs fewer than 2^31 readable
    bytes, because [toStringPiece] casts their number to [int]
    (buffer_shrink_large).

    ** Not modelled

    muduo's event loop, the client and server classes (only headers are
    present), glog, the RocksDB database, MySQL and boost; allocations that
    fail; a log that grows while a replay reads its records (they are read in
    one step); operations on containers that overlap in time (each is one step);
    the overflow of the counter [sum_] of the conflict table; memory orders weaker than sequential consistency; messages in pieces
    in the network of bytes (NetBuffer treats one of them); vectors of structs
    and uninitialised vectors of FlatBuffers; the texts of log lines that only
    print addresses; build
    files. *)

From Stdlib Require Import ZArith Lia Ascii DecimalPos DecimalString.
From stdpp Require Import base gmap strings list fin_maps.

#[global] Open Scope Z_scope.

Create HintDb grit.
Declare Scope grit_scope.
Delimit Scope grit_scope with grit.

(** ** Faults and results

    What a C++ statement can do besides finishing: dereference a null
    pointer, index outside an array, use freed memory, read an
    indeterminate value, divide by zero, fail an [assert], convert a number
    out of the range of its new type, throw a standard exception, call [exit],
    or use a union member of the wrong type. *)

Inductive exn :=
| InvalidArgument
| OutOfRange
| LengthError
| RuntimeError
| PtreeBadPath
| PtreeBadData.

Inductive fault :=
| NullDeref
| OutOfBounds
| UseAfterFree
| BadCast
| Uninit
| DivByZero
| AssertFail
| Overflow
| OutOfFuel
| Throw (e : exn)
| Exit (code : Z).

Inductive result (A : Type) :=
| Ok (a : A)
| Err (f : fault).
Arguments Ok {A} _.
Arguments Err {A} _.

#[global] Instance exn_eq_dec : EqDecision exn.
Proof. solve_decision. Defined.
#[global] Instance fault_eq_dec : EqDecision fault.
Proof. solve_decision. Defined.

Definition rbind {A B} (r : result A) (k : A → result B) : result B :=
  match r with Ok a => k a | Err f => Err f end.

Definition of_option {A} (o : option A) (f : fault) : result A :=
  match o with Some a => Ok a | None => Err f end.

Definition is_ok {A} (r : result A) : bool :=
  match r with Ok _ => true | Err _ => false end.

Notation "'let?' x ':=' r 'in' k" := (rbind r (λ x, k))
  (at level 10, x pattern, r at level 100, k at level 200) : grit_scope.
#[global] Open Scope grit_scope.

(** ** Programs: state, emitted events, faults

    A handler runs on the state [S] of its process, emits events of type
    [E] (messages sent, SQL statements, log lines, ...) and either returns
    or faults; what was emitted before a fault has been emitted. *)

Definition prog (S E A : Type) : Type := S → list E * result (A * S).

Section prog_ops.
Context {S E : Type}.

Definition ret {A} (a : A) : prog S E A := λ s, ([], Ok (a, s)).
Definition throw {A} (f : fault) : prog S E A := λ s, ([], Err f).
Definition get : prog S E S := λ s, ([], Ok (s, s)).
Definition put (s' : S) : prog S E unit := λ _, ([], Ok (tt, s')).
Definition modify (f : S → S) : prog S E unit := λ s, ([], Ok (tt, f s)).
Definition emit (e : E) : prog S E unit := λ s, ([e], Ok (tt, s)).
Definition lift {A} (r : result A) : prog S E A :=
  λ s, ([], match r with Ok a => Ok (a, s) | Err f => Err f end).

Definition bind {A B} (m : prog S E A) (k : A → prog S E B) : prog S E B :=
  λ s,
    match m s with
    | (es, Err f) => (es, Err f)
    | (es, Ok (a, s')) =>
        match k a s' with (es', r) => (es ++ es', r) end
    end.

(** [for (x : l) body(x)], the body able to change the state. *)
Fixpoint for_each {A} (l : list A) (body : A → prog S E unit) : prog S E unit :=
  match l with
  | [] => ret tt
  | x :: l' => bind (body x) (λ _, for_each l' body)
  end.

End prog_ops.

Notation "'let*' x ':=' m 'in' k" := (bind m (λ x, k))
  (at level 10, x pattern, m at level 100, k at level 200) : grit_scope.
Notation "m ;;; k" := (bind m (λ _, k))
  (at level 199, right associativity) : grit_scope.

(** What a run returned, and what it emitted. *)
Definition outcome {S E A} (x : list E * result (A * S)) : result (A * S) := snd x.
Definition emitted {S E A} (x : list E * result (A * S)) : list E := fst x.

(** ** Objects whose lifetime has ended

    Reading through a pointer to a destroyed object is undefined; the class
    stands for what such a read does in a run. Two instances matter: the read
    is caught, or the bytes are still there. *)
Class Stale := stale : ∀ {A : Type}, A → result A.
Definition stale_caught : Stale := λ _ _, Err UseAfterFree.
Definition stale_kept : Stale := λ _ a, Ok a.

(** ** Machine integers *)

Definition wrap_u (n z : Z) : Z := z mod 2 ^ n.
Definition wrap_s (n z : Z) : Z := (z + 2 ^ (n - 1)) mod 2 ^ n - 2 ^ (n - 1).

Abbreviation int32 := (wrap_s 32).
Abbreviation uint16 := (wrap_u 16).
Abbreviation uint32 := (wrap_u 32).
Abbreviation uint64 := (wrap_u 64).

Definition int32_ok (z : Z) : Prop := - 2 ^ 31 ≤ z < 2 ^ 31.
Definition int32_okb (z : Z) : bool := (- 2 ^ 31 <=? z) && (z <? 2 ^ 31).

(** ** std::unordered_map::operator[]

    [m\[k\]] inserts the default value when the key is absent. *)
Definition subscript {V} (d : V) (k : Z) (m : gmap Z V) : V * gmap Z V :=
  match m !! k with
  | Some v => (v, m)
  | None => (d, <[k := d]> m)
  end.

(** ** std::string *)

#[global] Arguments String.append !_ _ : simpl nomatch.

Abbreviation strlen s := (Z.of_nat (String.length s)).

(** [s.substr(pos, n)]: throws when [pos > size()], else at most [n] bytes. *)
Definition substr (s : string) (pos n : Z) : result string :=
  if strlen s <? pos then Err (Throw OutOfRange)
  else Ok (String.substring (Z.to_nat pos) (Z.to_nat (Z.min n (strlen s - pos))) s).

(** [std::to_string(int)] *)
Definition to_string (z : Z) : string := NilZero.string_of_int (Z.to_int z).

Definition is_space (c : ascii) : bool :=
  let n := Ascii.N_of_ascii c in (N.eqb n 32) || ((N.leb 9 n) && (N.leb n 13)).

Definition digit_of (c : ascii) : option Z :=
  let n := Z.of_N (Ascii.N_of_ascii c) in
  if (48 <=? n) && (n <=? 57) then Some (n - 48) else None.

Fixpoint skip_spaces (s : string) : string :=
  match s with
  | String c s' => if is_space c then skip_spaces s' else s
  | EmptyString => EmptyString
  end.

(** The digits at the front of [s], accumulated after [acc]; [None] when
    there is no digit at all. *)
Fixpoint scan_digits (s : string) (acc : option Z) : option Z :=
  match s with
  | EmptyString => acc
  | String c s' =>
      match digit_of c with
      | Some d => scan_digits s' (Some (10 * default 0 acc + d))
      | None => acc
      end
  end.

(** [std::stoi]: leading white space, an optional sign, digits; trailing
    characters are ignored. *)
Definition stoi (s : string) : result Z :=
  let s := skip_spaces s in
  let '(neg, s) :=
    match s with
    | String "-" s' => (true, s')
    | String "+" s' => (false, s')
    | _ => (false, s)
    end in
  match scan_digits s None with
  | None => Err (Throw InvalidArgument)
  | Some z =>
      let z := if neg : bool then - z else z in
      if int32_okb z then Ok z else Err (Throw OutOfRange)
  end.

(** ** Lemmas on programs *)

Section prog_lemmas.
Context {S E : Type}.

Lemma bind_ok {A B} (m : prog S E A) (k : A → prog S E B) s es b s' :
  bind m k s = (es, Ok (b, s')) ↔
  ∃ a s1 es1 es2, m s = (es1, Ok (a, s1)) ∧ k a s1 = (es2, Ok (b, s')) ∧ es = es1 ++ es2.
Proof.
  unfold bind. destruct (m s) as [es1 [[a s1]|f]]; cycle 1.
  { split; [done|]. by intros (? & ? & ? & ? & [=] & _). }
  destruct (k a s1) as [es2 r] eqn:Hk. split.
  - intros [= <- ->]. eauto 10.
  - intros (a' & s2 & e1 & e2 & [= -> -> ->] & Hk' & ->). congruence.
Qed.

Lemma bind_ret_l {A B} (a : A) (k : A → prog S E B) s : bind (ret a) k s = k a s.
Proof. unfold bind, ret. by destruct (k a s). Qed.

Lemma bind_assoc {A B C} (m : prog S E A) (k : A → prog S E B) (h : B → prog S E C) s :
  bind (bind m k) h s = bind m (λ a, bind (k a) h) s.
Proof.
  unfold bind. destruct (m s) as [es1 [[a s1]|f]]; [|done].
  destruct (k a s1) as [es2 [[b s2]|f]]; [|done].
  destruct (h b s2) as [es3 r]. by rewrite app_assoc.
Qed.

(** A run that returns, as an equation to rewrite with. *)
Lemma bind_step {A B} (m : prog S E A) (k : A → prog S E B) s es a s' :
  m s = (es, Ok (a, s')) → bind m k s = (es ++ (k a s').1, (k a s').2).
Proof. intros H. unfold bind. rewrite H. by destruct (k a s'). Qed.

Lemma bind_quiet {A B} (m : prog S E A) (k : A → prog S E B) s a s' :
  m s = ([], Ok (a, s')) → bind m k s = k a s'.
Proof. intros H. unfold bind. rewrite H. by destruct (k a s'). Qed.

Lemma bind_fault {A B} (m : prog S E A) (k : A → prog S E B) s es f :
  m s = (es, Err f) → bind m k s = (es, Err f).
Proof. intros H. unfold bind. by rewrite H. Qed.

Lemma bind_ext {A B} (m : prog S E A) (k k' : A → prog S E B) s : (∀ a s', k a s' = k' a s') → bind m k s = bind m k' s.
Proof. intros Hk. unfold bind. destruct (m s) as [es [[a s']|f]]; [|done]. by rewrite Hk. Qed.

Lemma bind_ret_r (m : prog S E unit) s : bind m (λ _, ret tt) s = m s.
Proof. unfold bind. destruct (m s) as [es [[[] s']|f]]; [|done]. cbn. by rewrite app_nil_r. Qed.

(** Partial-correctness triples: when [m] returns, [Q] holds. *)
Definition triple {A} (P : S → Prop) (m : prog S E A) (Q : A → S → list E → Prop) : Prop :=
  ∀ s es a s', P s → m s = (es, Ok (a, s')) → Q a s' es.

(** [m] keeps the invariant [I] whenever it returns. *)
Definition preserves {A} (I : S → Prop) (m : prog S E A) : Prop :=
  triple I m (λ _ s _, I s).

Lemma preserves_ret {A} I (a : A) : preserves I (ret a).
Proof. intros s es a' s' HI [= _ _ <-]. done. Qed.
Lemma preserves_throw {A} I f : preserves I (throw (A:=A) f).
Proof. intros s es a' s' HI [=]. Qed.
Lemma preserves_get I : preserves I get.
Proof. intros s es a' s' HI [= _ _ <-]. done. Qed.
Lemma preserves_emit I e : preserves I (emit e).
Proof. intros s es a' s' HI [= _ _ <-]. done. Qed.
Lemma preserves_lift {A} I (r : result A) : preserves I (lift r).
Proof. intros s es a' s' HI. unfold lift. destruct r; intros [=]; by subst. Qed.
Lemma preserves_modify (I : S → Prop) f : (∀ s, I s → I (f s)) → preserves I (modify f).
Proof. intros Hf s es a' s' HI [= _ _ <-]. auto. Qed.
Lemma preserves_bind {A B} I (m : prog S E A) (k : A → prog S E B) :
  preserves I m → (∀ a, preserves I (k a)) → preserves I (bind m k).
Proof.
  intros Hm Hk s es b s' HI (a & s1 & es1 & es2 & H1 & H2 & ->)%bind_ok.
  eapply Hk; [|exact H2]. eapply Hm; [|exact H1]. done.
Qed.
(** Reading the state first: the continuation may use that [I] holds of it. *)
Lemma preserves_get_bind {B} (I : S → Prop) (k : S → prog S E B) :
  (∀ s0, I s0 → ∀ es b s', k s0 s0 = (es, Ok (b, s')) → I s') →
  preserves I (bind get k).
Proof.
  intros Hk s es b s' HI (a & s1 & es1 & es2 & [= <- <- <-] & H2 & ->)%bind_ok.
  eapply Hk; eauto.
Qed.
Lemma preserves_for_each {A} I (l : list A) (body : A → prog S E unit) :
  (∀ x, preserves I (body x)) → preserves I (for_each l body).
Proof.
  intros Hb. induction l as [|x l IH]; cbn.
  - apply preserves_ret.
  - by apply preserves_bind.
Qed.

(** Weakest preconditions: run from [s], [m] emits only events of [Q], and if
    it returns, [Φ] holds of the result and the state. *)
Definition wp (Q : E → Prop) {A} (m : prog S E A) (Φ : A → S → Prop) (s : S) : Prop :=
  Forall Q (m s).1 ∧ ∀ a s', (m s).2 = Ok (a, s') → Φ a s'.

Lemma wp_ret Q {A} (a : A) (Φ : A → S → Prop) s : Φ a s → wp Q (ret a) Φ s.
Proof. intros HΦ. split; [constructor|]. cbn. naive_solver. Qed.
Lemma wp_throw Q {A} f (Φ : A → S → Prop) s : wp Q (throw f) Φ s.
Proof. split; [constructor|done]. Qed.
Lemma wp_get Q (Φ : S → S → Prop) s : Φ s s → wp Q get Φ s.
Proof. intros HΦ. split; [constructor|]. cbn. naive_solver. Qed.
Lemma wp_modify Q f (Φ : unit → S → Prop) s : Φ tt (f s) → wp Q (modify f) Φ s.
Proof. intros HΦ. split; [constructor|]. cbn. naive_solver. Qed.
Lemma wp_emit (Q : E → Prop) e (Φ : unit → S → Prop) s : Q e → Φ tt s → wp Q (emit e) Φ s.
Proof. intros He HΦ. split; [by constructor|]. by intros a' s' [= <- <-]. Qed.
Lemma wp_lift Q {A} (r : result A) (Φ : A → S → Prop) s :
  (∀ a, r = Ok a → Φ a s) → wp Q (lift r) Φ s.
Proof. intros HΦ. split; [constructor|]. destruct r; [|done]. intros a' s' [= <- <-]. by apply HΦ. Qed.
Lemma wp_bind Q {A B} (m : prog S E A) (k : A → prog S E B) Φ s :
  wp Q m (λ a s', wp Q (k a) Φ s') s → wp Q (bind m k) Φ s.
Proof.
  unfold wp, bind. destruct (m s) as [es [[a s1]|f]]; cbn; intros [HQ Hk]; [|done].
  destruct (Hk a s1 eq_refl) as [HQ' Hk']. destruct (k a s1) as [es' r]. cbn in *. split; [by apply Forall_app|done].
Qed.
Lemma wp_mono Q {A} (m : prog S E A) (Φ Ψ : A → S → Prop) s :
  wp Q m Φ s → (∀ a s', Φ a s' → Ψ a s') → wp Q m Ψ s.
Proof. intros [HQ HΦ] Himp. split; [done|]. intros a s' Hr. by apply Himp, HΦ. Qed.
Lemma wp_for_each Q {A} (l : list A) (body : A → prog S E unit) (I : S → Prop) s :
  (∀ x s, x ∈ l → I s → wp Q (body x) (λ _, I) s) → I s → wp Q (for_each l body) (λ _, I) s.
Proof.
  revert s. induction l as [|x l IH]; intros s Hb HI; cbn; [by apply wp_ret|].
  apply wp_bind. eapply wp_mono; [apply Hb; [by left|done]|]. intros [] s' HI'. apply IH; [|done].
  intros y s0 Hy. apply Hb. by right.
Qed.

(** Two facts about the same run, and a weaker fact about its events. *)
Lemma wp_and (Q Q' : E → Prop) {A} (m : prog S E A) (Φ Ψ : A → S → Prop) s :
  wp Q m Φ s → wp Q' m Ψ s → wp (λ e, Q e ∧ Q' e) m (λ a s', Φ a s' ∧ Ψ a s') s.
Proof.
  intros [HQ HΦ] [HQ' HΨ]. split; [|auto]. rewrite Forall_lookup in HQ, HQ' |- *. eauto.
Qed.
Lemma wp_events (Q Q' : E → Prop) {A} (m : prog S E A) (Φ : A → S → Prop) s :
  wp Q m Φ s → (∀ e, Q e → Q' e) → wp Q' m Φ s.
Proof. intros [HQ HΦ] Himp. split; [|done]. by eapply Forall_impl. Qed.

(** [m] keeps the invariant [I] and emits only events of [Q]. *)
Definition keeps (Q : E → Prop) (I : S → Prop) {A} (m : prog S E A) : Prop :=
  ∀ s, I s → wp Q m (λ _, I) s.

Lemma keeps_ret Q I {A} (a : A) : keeps Q I (ret a).
Proof. intros s HI. by apply wp_ret. Qed.
Lemma keeps_throw Q I {A} f : keeps Q I (throw (A := A) f).
Proof. intros s HI. apply wp_throw. Qed.
Lemma keeps_modify Q (I : S → Prop) f : (∀ s, I s → I (f s)) → keeps Q I (modify f).
Proof. intros Hf s HI. apply wp_modify. auto. Qed.
Lemma keeps_emit (Q : E → Prop) I e : Q e → keeps Q I (emit e).
Proof. intros He s HI. by apply wp_emit. Qed.
Lemma keeps_seq Q I {A B} (m : prog S E A) (k : A → prog S E B) :
  keeps Q I m → (∀ a, keeps Q I (k a)) → keeps Q I (bind m k).
Proof. intros Hm Hk s HI. apply wp_bind. eapply wp_mono; [by apply Hm|]. intros a s' HI'. by apply Hk. Qed.
Lemma keeps_get Q (I : S → Prop) {B} (k : S → prog S E B) :
  (∀ s0, I s0 → keeps Q I (k s0)) → keeps Q I (bind get k).
Proof. intros Hk s HI. apply wp_bind, wp_get. by apply Hk. Qed.
Lemma keeps_lift Q (I : S → Prop) {A B} (r : result A) (k : A → prog S E B) :
  (∀ a, r = Ok a → keeps Q I (k a)) → keeps Q I (bind (lift r) k).
Proof. intros Hk s HI. apply wp_bind, wp_lift. intros a Ha. by apply Hk. Qed.
Lemma keeps_for_each Q I {A} (l : list A) (body : A → prog S E unit) :
  (∀ x, x ∈ l → keeps Q I (body x)) → keeps Q I (for_each l body).
Proof. intros Hb s HI. apply wp_for_each; [|done]. intros x s' Hx HI'. by apply Hb. Qed.

End prog_lemmas.

#[export] Hint Resolve preserves_ret preserves_throw preserves_get preserves_emit
  preserves_lift preserves_modify preserves_bind preserves_for_each : grit.

(** Decompose every [bind ... = (_, Ok _)] in the context. *)
Ltac bind_inv :=
  repeat match goal with
  | H : bind _ _ _ = (_, Ok _) |- _ =>
      apply bind_ok in H;
      let a := fresh "a" in let s := fresh "s" in
      let e1 := fresh "es" in let e2 := fresh "es" in
      let H1 := fresh "Hm" in let H2 := fresh "Hk" in
      destruct H as (a & s & e1 & e2 & H1 & H2 & ->)
  | H : ret _ _ = (_, Ok _) |- _ => injection H as <- <- <-
  | H : get _ = (_, Ok _) |- _ => injection H as <- <- <-
  | H : put _ _ = (_, Ok _) |- _ => injection H as <- <- <-
  | H : modify _ _ = (_, Ok _) |- _ => injection H as <- <- <-
  | H : emit _ _ = (_, Ok _) |- _ => injection H as <- <- <-
  | H : throw _ _ = (_, Ok _) |- _ => discriminate H
  end.

(** One step of a weakest-precondition proof. *)
Ltac wp_step :=
  lazymatch goal with
  | |- wp _ (bind _ _) _ _ => apply wp_bind
  | |- wp _ (ret _) _ _ => apply wp_ret
  | |- wp _ (throw _) _ _ => apply wp_throw
  | |- wp _ get _ _ => apply wp_get
  | |- wp _ (modify _) _ _ => apply wp_modify
  | |- wp _ (emit _) _ _ => apply wp_emit
  | |- wp _ (lift _) _ _ => apply wp_lift
  end.

(** One step of a proof of [keeps]. *)
Ltac keeps_step :=
  lazymatch goal with
  | |- keeps _ _ (bind get _) => apply keeps_get; let s := fresh "s" in let Hs := fresh "Hs" in intros s Hs
  | |- keeps _ _ (bind (lift _) _) => apply keeps_lift; let a := fresh "a" in let Ha := fresh "Ha" in intros a Ha
  | |- keeps _ _ (bind _ _) => apply keeps_seq; [|let a := fresh "a" in intros a]
  | |- keeps _ _ (ret _) => apply keeps_ret
  | |- keeps _ _ (throw _) => apply keeps_throw
  | |- keeps _ _ (modify _) => apply keeps_modify
  | |- keeps _ _ (emit _) => apply keeps_emit
  | |- keeps _ _ (match ?x with _ => _ end) => destruct x eqn:?
  | |- keeps _ _ (let '(_, _) := ?x in _) => destruct x eqn:?
  end.

(** ** Lemmas on machine integers *)

Lemma wrap_s_small n z : 0 < n → - 2 ^ (n - 1) ≤ z < 2 ^ (n - 1) → wrap_s n z = z.
Proof.
  intros Hn Hz. unfold wrap_s.
  assert (2 ^ n = 2 * 2 ^ (n - 1)).
  { rewrite <- Z.pow_succ_r by lia. f_equal. lia. }
  rewrite Z.mod_small; lia.
Qed.

Lemma wrap_s_range n z : 0 < n → - 2 ^ (n - 1) ≤ wrap_s n z < 2 ^ (n - 1).
Proof.
  intros Hn. unfold wrap_s.
  assert (2 ^ n = 2 * 2 ^ (n - 1)).
  { rewrite <- Z.pow_succ_r by lia. f_equal. lia. }
  assert (0 < 2 ^ (n - 1)) by (apply Z.pow_pos_nonneg; lia).
  pose proof (Z.mod_pos_bound (z + 2 ^ (n - 1)) (2 ^ n)). lia.
Qed.

Lemma wrap_u_small n z : 0 ≤ z < 2 ^ n → wrap_u n z = z.
Proof. apply Z.mod_small. Qed.

Lemma int32_id z : int32_ok z → int32 z = z.
Proof. intros H. apply wrap_s_small; unfold int32_ok in H; simpl; lia. Qed.

Lemma int32_range z : int32_ok (int32 z).
Proof. apply (wrap_s_range 32 z). lia. Qed.

Lemma int32_eqm x y : (x - y) mod 2 ^ 32 = 0 → int32 x = int32 y.
Proof.
  intros H. unfold wrap_s. f_equal.
  apply Z.mod_divide in H as [k Hk]; [|lia].
  replace (x + 2 ^ (32 - 1)) with (y + 2 ^ (32 - 1) + k * 2 ^ 32) by lia.
  apply Z_mod_plus_full.
Qed.

Lemma int32_add_l x y : int32 (int32 x + y) = int32 (x + y).
Proof.
  apply int32_eqm. unfold wrap_s.
  replace ((x + 2 ^ (32 - 1)) mod 2 ^ 32 - 2 ^ (32 - 1) + y - (x + y))
    with ((x + 2 ^ (32 - 1)) mod 2 ^ 32 - (x + 2 ^ (32 - 1))) by lia.
  rewrite Zminus_mod_idemp_l, Z.sub_diag. done.
Qed.

Lemma int32_okb_spec z : int32_okb z = true ↔ int32_ok z.
Proof. unfold int32_okb, int32_ok. rewrite andb_true_iff, Z.leb_le, Z.ltb_lt. done. Qed.

(** ** Lemmas on maps *)

Lemma subscript_some {V} (d v : V) k m : m !! k = Some v → subscript d k m = (v, m).
Proof. unfold subscript. by intros ->. Qed.

Lemma subscript_none {V} (d : V) k m : m !! k = None → subscript d k m = (d, <[k := d]> m).
Proof. unfold subscript. by intros ->. Qed.

Lemma subscript_fst {V} (d : V) k m : (subscript d k m).1 = default d (m !! k).
Proof. unfold subscript. by destruct (m !! k). Qed.

Lemma subscript_lookup {V} (d : V) k m : (subscript d k m).2 !! k = Some (default d (m !! k)).
Proof.
  unfold subscript. destruct (m !! k) eqn:H; cbn; [done|]. by rewrite lookup_insert_eq.
Qed.

Lemma subscript_lookup_ne {V} (d : V) k k' m :
  k ≠ k' → (subscript d k m).2 !! k' = m !! k'.
Proof.
  intros. unfold subscript. destruct (m !! k); cbn; [done|]. by rewrite lookup_insert_ne.
Qed.

(** ** Lemmas on strings *)

Lemma string_length_app a b : String.length (a +:+ b) = (String.length a + String.length b)%nat.
Proof. induction a; cbn; [done|]. by f_equal. Qed.

Lemma string_app_assoc a b c : (a +:+ b) +:+ c = a +:+ (b +:+ c).
Proof. induction a; cbn; [done|]. by f_equal. Qed.

Lemma string_app_nil_r a : a +:+ "" = a.
Proof. induction a; cbn; [done|]. by f_equal. Qed.

Lemma substring_prefix b c : String.substring 0 (String.length b) (b +:+ c) = b.
Proof. induction b; cbn; [by destruct c|]. by f_equal. Qed.

Lemma substring_app a b c :
  String.substring (String.length a) (String.length b) (a +:+ b +:+ c) = b.
Proof. induction a; cbn; [apply substring_prefix|done]. Qed.

(** [substr] reads back the middle of a concatenation. *)
Lemma substr_app a b c :
  substr (a +:+ b +:+ c) (strlen a) (strlen b) = Ok b.
Proof.
  unfold substr. rewrite !string_length_app.
  destruct (Z.ltb_spec (Z.of_nat (String.length a + (String.length b + String.length c)))
    (strlen a)); [lia|].
  f_equal. rewrite Z.min_l by lia. rewrite !Nat2Z.id. apply substring_app.
Qed.

(** Evaluate the class of a literal digit. *)
Ltac eval_digit :=
  repeat match goal with
  | |- context [digit_of (Ascii.Ascii ?a ?b ?c ?d ?e ?f ?g ?h)] =>
      let v := eval vm_compute in (digit_of (Ascii.Ascii a b c d e f g h)) in
      change (digit_of (Ascii.Ascii a b c d e f g h)) with v
  end.

(** The decimal digits written by [to_string] are read back by [stoi]. *)
Lemma scan_digits_uint d (p : positive) s :
  digit_of (default "!"%char (String.get 0 s)) = None →
  scan_digits (NilEmpty.string_of_uint d +:+ s) (Some (Z.pos p)) =
    Some (Z.pos (Pos.of_uint_acc d p)).
Proof.
  intros Hs. revert p. induction d; intros p; cbn [NilEmpty.string_of_uint].
  { destruct s as [|c s]; [done|]. change (digit_of c = None) in Hs.
    cbn [String.append scan_digits]. by rewrite Hs. }
  all: cbn -[Z.mul Z.add digit_of]; eval_digit; cbv beta iota;
    rewrite <- IHd; f_equal; f_equal; cbn [from_option id]; lia.
Qed.

Lemma scan_digits_zero s :
  scan_digits s (Some 0) =
    match scan_digits s None with Some z => Some z | None => Some 0 end.
Proof.
  assert (∀ x, ∃ y, scan_digits s (Some x) = Some y) as Hsome.
  { induction s as [|c s IH]; intros x; [by exists x|]. cbn [scan_digits].
    destruct (digit_of c); [apply IH|by exists x]. }
  destruct s as [|c s]; [done|]. cbn [scan_digits] in *.
  destruct (digit_of c) as [d|]; [|done]. cbn [from_option id] in *.
  destruct (Hsome 0) as [y ->]. done.
Qed.

Lemma scan_digits_first d s :
  d ≠ Decimal.Nil →
  digit_of (default "!"%char (String.get 0 s)) = None →
  scan_digits (NilEmpty.string_of_uint d +:+ s) None =
    Some (Z.of_N (Pos.of_uint d)).
Proof.
  intros Hd Hs. induction d; [done|..].
  { cbn -[Z.mul Z.add digit_of Pos.of_uint]. eval_digit. cbn [from_option id].
    change (10 * 0 + 0) with 0. rewrite scan_digits_zero.
    destruct d; [|by rewrite IHd by done..].
    destruct s as [|c s]; [done|]. change (digit_of c = None) in Hs.
    cbn [NilEmpty.string_of_uint String.append scan_digits]. by rewrite Hs. }
  all: cbn -[Z.mul Z.add digit_of]; eval_digit; cbv beta iota; cbn [from_option id];
    by apply (scan_digits_uint d).
Qed.

Lemma string_of_uint_head d :
  d ≠ Decimal.Nil →
  ∃ c s, NilEmpty.string_of_uint d = String c s ∧ is_space c = false ∧ c ≠ "-"%char ∧ c ≠ "+"%char.
Proof. destruct d; [done|..]; intros _; cbn; eexists _, _; repeat split; done. Qed.

Lemma to_uint_not_nil p : Pos.to_uint p ≠ Decimal.Nil.
Proof. apply DecimalPos.Unsigned.to_uint_nonnil. Qed.

(** Reading back what [to_string] wrote, with any non-digit tail. *)
Lemma stoi_to_string z s :
  0 ≤ z → int32_ok z →
  digit_of (default "!"%char (String.get 0 s)) = None →
  stoi (to_string z +:+ s) = Ok z.
Proof.
  intros Hz Hok Hs.
  assert (∃ d, d ≠ Decimal.Nil ∧ to_string z = NilEmpty.string_of_uint d ∧
    Z.of_N (Pos.of_uint d) = z) as (d & Hd & -> & Hv).
  { destruct z as [|p|p]; [by exists (Decimal.D0 Decimal.Nil)| |lia].
    exists (Pos.to_uint p). split; [apply to_uint_not_nil|]. split.
    - unfold to_string. cbn. pose proof (to_uint_not_nil p).
      by destruct (Pos.to_uint p).
    - by rewrite DecimalPos.Unsigned.of_to. }
  destruct (string_of_uint_head d Hd) as (c & t & Hc & Hsp & Hm & Hp).
  unfold stoi. rewrite Hc. cbn [String.append skip_spaces]. rewrite Hsp.
  assert (scan_digits (String c (t +:+ s)) None = Some z) as Hscan.
  { change (String c (t +:+ s)) with (String c t +:+ s). rewrite <- Hc, <- Hv.
    by apply scan_digits_first. }
  apply int32_okb_spec in Hok.
  destruct c as [[] [] [] [] [] [] [] []]; try done; by rewrite Hscan, Hok.
Qed.

(** ** Lemmas on lists *)

Lemma sum_list_with_insert {A} (f : A → nat) l i x y :
  l !! i = Some x → (sum_list_with f (<[i := y]> l) + f x = sum_list_with f l + f y)%nat.
Proof.
  revert i. induction l as [|z l IH]; intros [|i] Hi; try done; cbn in *.
  - injection Hi as ->. lia.
  - specialize (IH i Hi). unfold insert in *. lia.
Qed.

Lemma sum_list_with_le {A} (f : A → nat) l i x : l !! i = Some x → (f x ≤ sum_list_with f l)%nat.
Proof.
  revert i. induction l as [|z l IH]; intros [|i] Hi; try done; cbn in *; [injection Hi as ->; lia|].
  specialize (IH i Hi). lia.
Qed.

Lemma list_elem_of_concat {A} (x : A) (ls : list (list A)) :
  x ∈ concat ls ↔ ∃ l, x ∈ l ∧ l ∈ ls.
Proof.
  induction ls as [|l ls IH]; cbn.
  - split; [by intros ?%not_elem_of_nil|]. by intros (? & _ & ?%not_elem_of_nil).
  - rewrite elem_of_app, IH. setoid_rewrite elem_of_cons. naive_solver.
Qed.

Lemma elem_of_concat_lookup {A} (ls : list (list A)) i l x :
  ls !! i = Some l → x ∈ l → x ∈ concat ls.
Proof. intros Hi Hx. apply list_elem_of_concat. eauto using list_elem_of_lookup_2. Qed.

(** ** Characters of a string *)

Fixpoint string_forallb (p : ascii → bool) (s : string) : bool :=
  match s with
  | EmptyString => true
  | String c s' => p c && string_forallb p s'
  end.

Lemma to_string_digits z :
  0 ≤ z → string_forallb (λ c, match digit_of c with Some _ => true | None => false end) (to_string z) = true.
Proof.
  intros Hz. unfold to_string, NilZero.string_of_int.
  assert (∀ d, string_forallb (λ c, match digit_of c with Some _ => true | None => false end)
    (NilEmpty.string_of_uint d) = true) as Hd by (induction d; cbn in *; auto).
  destruct z as [|p|p]; [done| |lia]. cbn. unfold NilZero.string_of_uint.
  destruct (Pos.to_uint p) eqn:Hp; [done|..]; apply Hd.
Qed.

Lemma string_forallb_impl (p q : ascii → bool) s :
  (∀ c, p c = true → q c = true) → string_forallb p s = true → string_forallb q s = true.
Proof.
  intros Hpq. induction s as [|c s IH]; cbn; [done|].
  rewrite !andb_true_iff. intros [? ?]. auto.
Qed.
