(* ===== verification/NetMsg.v ===== *)
(** * The messages of the protocol

    The command numbers of src/base/headerCmd.h and the tables of
    src/flatbuffer/net.fbs as the generated accessors of
    src/flatbuffer/net_generated.h present them to the handlers: scalars
    with their default when absent, strings and vectors as pointers that
    are null when absent ([None]).  The byte format of these tables is the
    subject of the FlatBuffers files; the handlers of the servers are
    written against this view. *)

From stdpp Require Import base gmap strings list.
From S2P Require Import Prelude.

(** ** headerCmd.h *)

Definition kGetTxid : Z := 101.
Definition kTxid : Z := 103.
Definition kStartTran : Z := 102.
Definition kAdd : Z := 104.
Definition kChange : Z := 105.
Definition kDelete : Z := 106.
Definition kSearch : Z := 107.
Definition kCommit : Z := 108.
Definition kData : Z := 109.
Definition kTranSuccess : Z := 110.
Definition kTranFail : Z := 111.
Definition kJudgeConflit : Z := 112.
Definition kLsn : Z := 113.
Definition kExecTranSucc : Z := 114.
Definition kExecTranFail : Z := 115.
Definition kLog : Z := 116.

(** Every command number, for the dispatch lemmas. *)
Definition commands : list Z :=
  [kGetTxid; kTxid; kStartTran; kAdd; kChange; kDelete; kSearch; kCommit; kData;
   kTranSuccess; kTranFail; kJudgeConflit; kLsn; kExecTranSucc; kExecTranFail; kLog].

(** ** The tables of net.fbs *)

Record GtmMsg := mkGtmMsg {
  GtmMsg_cmd : Z;
  GtmMsg_txid : Z;
  GtmMsg_isLocalConflict : bool;
  GtmMsg_transType : option string }.

Record ipAndPort := mkipAndPort {
  ipAndPort_ip : option string;
  ipAndPort_port : Z }.

Record AppMsg := mkAppMsg {
  AppMsg_cmd : Z;
  AppMsg_txid : Z;
  AppMsg_list : option (list ipAndPort) }.

Record ESMsg := mkESMsg {
  ESMsg_cmd : Z;
  ESMsg_txid : Z;
  ESMsg_needGlobalConflict : bool;
  ESMsg_type : Z;
  ESMsg_key : option string;
  ESMsg_attr : option string;
  ESMsg_val : option string }.

Record Data := mkData {
  Data_key : option string;
  Data_attribute : option string;
  Data_value : option string }.

Record DbMsg := mkDbMsg {
  DbMsg_txid : Z;
  DbMsg_writeSet : option (list Data) }.

Record DbServiceMsg := mkDbServiceMsg {
  DbServiceMsg_cmd : Z;
  DbServiceMsg_txid : Z;
  DbServiceMsg_needGlobalConflict : bool;
  DbServiceMsg_readSet : option (list Data);
  DbServiceMsg_writeSet : option (list Data) }.

Record DbtlMsg := mkDbtlMsg {
  DbtlMsg_cmd : Z;
  DbtlMsg_txid : Z;
  DbtlMsg_data : option (list Data) }.

Record DbtmMsg := mkDbtmMsg {
  DbtmMsg_cmd : Z;
  DbtmMsg_txid : Z;
  DbtmMsg_isGlobalConflict : bool;
  DbtmMsg_lsn : Z }.

Record DbtlAckMsg := mkDbtlAckMsg {
  DbtlAckMsg_lsn : Z;
  DbtlAckMsg_txid : Z }.

Record LogPlayerMsg := mkLogPlayerMsg {
  LogPlayerMsg_cmd : Z;
  LogPlayerMsg_txid : Z;
  LogPlayerMsg_id : Z }.

(** [table RootMsg { any : Msg; }]: the union with its type tag. *)
Inductive RootMsg :=
| Msg_NONE
| Msg_GtmMsg (m : GtmMsg)
| Msg_AppMsg (m : AppMsg)
| Msg_DbServiceMsg (m : DbServiceMsg)
| Msg_DbtlMsg (m : DbtlMsg)
| Msg_DbtlAckMsg (m : DbtlAckMsg)
| Msg_ESMsg (m : ESMsg)
| Msg_DbtmMsg (m : DbtmMsg)
| Msg_DbMsg (m : DbMsg)
| Msg_LogPlayerMsg (m : LogPlayerMsg).

(** [RootMsg::any_type()] *)
Definition any_type (r : RootMsg) : Z :=
  match r with
  | Msg_NONE => 0
  | Msg_GtmMsg _ => 1
  | Msg_AppMsg _ => 2
  | Msg_DbServiceMsg _ => 3
  | Msg_DbtlMsg _ => 4
  | Msg_DbtlAckMsg _ => 5
  | Msg_ESMsg _ => 6
  | Msg_DbtmMsg _ => 7
  | Msg_DbMsg _ => 8
  | Msg_LogPlayerMsg _ => 9
  end.

(** [static_cast<const T *>(msg->any())] without a test of the tag: reading
    the members of another table through the cast pointer is undefined. *)
Definition as_GtmMsg (r : RootMsg) : result GtmMsg :=
  match r with Msg_GtmMsg m => Ok m | Msg_NONE => Err NullDeref | _ => Err BadCast end.
Definition as_AppMsg (r : RootMsg) : result AppMsg :=
  match r with Msg_AppMsg m => Ok m | Msg_NONE => Err NullDeref | _ => Err BadCast end.
Definition as_ESMsg (r : RootMsg) : result ESMsg :=
  match r with Msg_ESMsg m => Ok m | Msg_NONE => Err NullDeref | _ => Err BadCast end.

(** [p->str()] on a [flatbuffers::String] pointer. *)
Definition str (p : option string) : result string := of_option p NullDeref.

(** ** Connections and events

    A [TcpConnectionPtr] is a shared pointer that may be null. *)

Abbreviation conn := nat.
Abbreviation TcpConnectionPtr := (option nat).

Inductive severity := INFO | WARNING | ERROR.

Inductive event :=
| ESend (c : conn) (m : RootMsg)
| EConnect (ip : string) (port : Z)
| ELog (s : severity) (text : string)
| ESql (query : string)
| ERocksWrite (batch : list (string * string))
| EOpen (path : string) (writable : bool)
| EWrite (path : string) (writable : bool) (m : RootMsg)
| ETextWrite (path : string) (writable : bool) (text : string)
| ERemove (path : string)
| EListen (ip : string) (port : Z).

(** What the files hold in the end: a write through a descriptor that was
    opened for reading only fails and leaves the file as it was. *)
Fixpoint written (es : list event) : list (string * RootMsg) :=
  match es with
  | [] => []
  | EWrite path true m :: es' => (path, m) :: written es'
  | _ :: es' => written es'
  end.
Fixpoint text_written (es : list event) : list (string * string) :=
  match es with
  | [] => []
  | ETextWrite path true text :: es' => (path, text) :: text_written es'
  | _ :: es' => text_written es'
  end.

(** [conn->send(ptr, size)] *)
Definition send {S} (p : TcpConnectionPtr) (m : RootMsg) : prog S event unit :=
  match p with
  | Some c => emit (ESend c m)
  | None => throw NullDeref
  end.

Definition LOG {S} (s : severity) (text : string) : prog S event unit := emit (ELog s text).

(** The messages sent, in order, with their connection. *)
Fixpoint sent (es : list event) : list (conn * RootMsg) :=
  match es with
  | [] => []
  | ESend c m :: es' => (c, m) :: sent es'
  | _ :: es' => sent es'
  end.

(** The statements handed to MySQL, in order. *)
Fixpoint queries (es : list event) : list string :=
  match es with
  | [] => []
  | ESql q :: es' => q :: queries es'
  | _ :: es' => queries es'
  end.

Lemma sent_app es1 es2 : sent (es1 ++ es2) = sent es1 ++ sent es2.
Proof. induction es1 as [|[] es1 IH]; cbn; by rewrite ?IH. Qed.

Lemma queries_app es1 es2 : queries (es1 ++ es2) = queries es1 ++ queries es2.
Proof. induction es1 as [|[] es1 IH]; cbn; by rewrite ?IH. Qed.

Lemma send_ok {S} p m (s s' : S) es u :
  send p m s = (es, Ok (u, s')) → ∃ c, p = Some c ∧ es = [ESend c m] ∧ s' = s.
Proof. destruct p as [c|]; intros [=]; subst; eauto. Qed.

Lemma preserves_send {S} (I : S → Prop) p m : preserves I (send p m).
Proof. intros s es u s' HI (c & _ & _ & ->)%send_ok. done. Qed.

Lemma preserves_LOG {S} (I : S → Prop) sev t : preserves I (LOG sev t).
Proof. apply preserves_emit. Qed.

#[export] Hint Resolve preserves_send preserves_LOG : grit.

Lemma wp_send {S} Q p m (Φ : unit → S → Prop) s :
  (∀ c, p = Some c → Q (ESend c m) ∧ Φ tt s) → wp Q (send p m) Φ s.
Proof. intros HΦ. destruct p as [c|]; [|apply wp_throw]. destruct (HΦ c eq_refl). by apply wp_emit. Qed.

(** No two commands share a number. *)
Lemma commands_nodup : NoDup commands.
Proof. apply (bool_decide_unpack _). vm_compute. done. Qed.
