(* ===== verification/FlatBuilder.v ===== *)
(** * FlatBufferBuilder (src/third_part/include/flatbuffers)

    The part of the FlatBuffers library the generated code of
    src/flatbuffer/net_generated.h runs on: scalars in little-endian byte
    buffers (base.h), and the builder that writes strings, vectors and tables
    from the end of a buffer towards its start (flatbuffers.h).

    A buffer is the list of its bytes from the lowest address to the highest.
    The builder grows it at the front, so an object is named by its distance
    from the end, which later writes do not change.  The scratch area below
    the data holds two stacks, the vtable offsets seen so far and the field
    locations of the open table; they are two lists here.  The memory behind
    both is reallocated on demand by [vector_downward]; only its limit,
    [FLATBUFFERS_MAX_BUFFER_SIZE], can be observed. *)

From Stdlib Require Import ZArith Lia.
From Stdlib.Strings Require Import Byte.
From coqutil Require Import Byte Word.LittleEndianList.
From stdpp Require Import base gmap strings list.
From S2P Require Import Prelude.

Abbreviation byte := Init.Byte.byte.
#[export] Instance byte_eq_dec : EqDecision byte := Byte.byte_eq_dec.

Abbreviation len m := (Z.of_nat (length m)).

(** ** Memory: base.h *)

Definition load (n : nat) (m : list byte) (a : Z) : result (list byte) :=
  if (0 <=? a) && (a + Z.of_nat n <=? len m)
  then Ok (take n (drop (Z.to_nat a) m)) else Err OutOfBounds.

Definition store (m : list byte) (a : Z) (bs : list byte) : result (list byte) :=
  if (0 <=? a) && (a + len bs <=? len m)
  then Ok (take (Z.to_nat a) m ++ bs ++ drop (Z.to_nat a + length bs) m) else Err OutOfBounds.

(** [ReadScalar<T>] for an unsigned and for a signed [T] of [n] bytes. *)
Definition ReadScalar (n : nat) (m : list byte) (a : Z) : result Z :=
  let? bs := load n m a in Ok (le_combine bs).
Definition ReadScalarS (n : nat) (m : list byte) (a : Z) : result Z :=
  let? z := ReadScalar n m a in Ok (wrap_s (8 * Z.of_nat n) z).

(** [WriteScalar<T>] *)
Definition WriteScalar (n : nat) (m : list byte) (a v : Z) : result (list byte) :=
  store m a (le_split n v).

(** [PaddingBytes]: [((~buf_size) + 1) & (scalar_size - 1)] in [size_t]. *)
Definition PaddingBytes (buf_size scalar_size : Z) : Z :=
  Z.land (uint64 (uint64 (Z.lnot buf_size) + 1)) (scalar_size - 1).

Definition FLATBUFFERS_MAX_BUFFER_SIZE : Z := 2 ^ 31 - 1.

(** ** The builder *)

Record FlatBufferBuilder := mkFbb {
  buf_ : list byte;
  field_locs : list (Z * Z);   (** [FieldLoc]: offset, id *)
  vtables : list Z;
  max_voffset_ : Z;
  nested : bool;
  finished : bool;
  minalign_ : Z;
  force_defaults_ : bool;
  dedup_vtables_ : bool }.

Definition FlatBufferBuilder_new : FlatBufferBuilder :=
  mkFbb [] [] [] 0 false false 1 false true.

Definition set_buf f b := mkFbb (f (buf_ b)) (field_locs b) (vtables b) (max_voffset_ b)
  (nested b) (finished b) (minalign_ b) (force_defaults_ b) (dedup_vtables_ b).
Definition set_fields fl mv b := mkFbb (buf_ b) fl (vtables b) mv
  (nested b) (finished b) (minalign_ b) (force_defaults_ b) (dedup_vtables_ b).
Definition set_vtables v b := mkFbb (buf_ b) (field_locs b) v (max_voffset_ b)
  (nested b) (finished b) (minalign_ b) (force_defaults_ b) (dedup_vtables_ b).
Definition set_nested x b := mkFbb (buf_ b) (field_locs b) (vtables b) (max_voffset_ b)
  x (finished b) (minalign_ b) (force_defaults_ b) (dedup_vtables_ b).
Definition set_finished x b := mkFbb (buf_ b) (field_locs b) (vtables b) (max_voffset_ b)
  (nested b) x (minalign_ b) (force_defaults_ b) (dedup_vtables_ b).
Definition set_minalign x b := mkFbb (buf_ b) (field_locs b) (vtables b) (max_voffset_ b)
  (nested b) (finished b) x (force_defaults_ b) (dedup_vtables_ b).

Definition GetSize (b : FlatBufferBuilder) : Z := len (buf_ b).

(** The assertion of [vector_downward::ensure_space]. *)
Definition ensure_space (b : FlatBufferBuilder) : result unit :=
  if GetSize b <? FLATBUFFERS_MAX_BUFFER_SIZE then Ok tt else Err AssertFail.

(** [vector_downward::make_space] followed by the write of the new bytes. *)
Definition push_small (bs : list byte) (b : FlatBufferBuilder) : result FlatBufferBuilder :=
  let? _ := ensure_space b in Ok (set_buf (λ m, bs ++ m) b).

(** [vector_downward::push] *)
Definition PushBytes (bs : list byte) (b : FlatBufferBuilder) : result FlatBufferBuilder :=
  match bs with [] => Ok b | _ => push_small bs b end.

(** [vector_downward::fill] and [fill_big] *)
Definition fill (zero_pad_bytes : Z) (b : FlatBufferBuilder) : result FlatBufferBuilder :=
  push_small (replicate (Z.to_nat zero_pad_bytes) Byte.x00) b.

Definition TrackMinAlign (elem_size : Z) (b : FlatBufferBuilder) : FlatBufferBuilder :=
  if minalign_ b <? elem_size then set_minalign elem_size b else b.

Definition Align (elem_size : Z) (b : FlatBufferBuilder) : result FlatBufferBuilder :=
  let b := TrackMinAlign elem_size b in
  fill (PaddingBytes (GetSize b) elem_size) b.

Definition PreAlign (n alignment : Z) (b : FlatBufferBuilder) : result FlatBufferBuilder :=
  let b := TrackMinAlign alignment b in
  fill (PaddingBytes (GetSize b + n) alignment) b.

(** [PushElement] of a scalar of [n] bytes *)
Definition PushElement (n : nat) (element : Z) (b : FlatBufferBuilder)
    : result (Z * FlatBufferBuilder) :=
  let? b := Align (Z.of_nat n) b in
  let? b := push_small (le_split n element) b in
  Ok (GetSize b, b).

Definition ReferTo (off : Z) (b : FlatBufferBuilder) : result (Z * FlatBufferBuilder) :=
  let? b := Align 4 b in
  if negb (off =? 0) && (off <=? GetSize b)
  then Ok (uint32 (GetSize b - off + 4), b) else Err AssertFail.

(** [PushElement(Offset<T>)] *)
Definition PushOffset (off : Z) (b : FlatBufferBuilder) : result (Z * FlatBufferBuilder) :=
  let? (r, b) := ReferTo off b in PushElement 4 r b.

Definition TrackField (field off : Z) (b : FlatBufferBuilder) : result FlatBufferBuilder :=
  let? _ := ensure_space b in
  Ok (set_fields (field_locs b ++ [(off, field)]) (Z.max (max_voffset_ b) field) b).

Definition AddElement (n : nat) (field e def : Z) (b : FlatBufferBuilder) : result FlatBufferBuilder :=
  if (e =? def) && negb (force_defaults_ b) then Ok b
  else let? (off, b) := PushElement n e b in TrackField field off b.

Definition AddOffset (field off : Z) (b : FlatBufferBuilder) : result FlatBufferBuilder :=
  if off =? 0 then Ok b
  else let? (r, b) := ReferTo off b in AddElement 4 field r 0 b.

Definition NotNested (b : FlatBufferBuilder) : result unit :=
  if nested b then Err AssertFail
  else match field_locs b with [] => Ok tt | _ => Err AssertFail end.

Definition StartTable (b : FlatBufferBuilder) : result (Z * FlatBufferBuilder) :=
  let? _ := NotNested b in
  let b := set_nested true b in Ok (GetSize b, b).

Definition ClearOffsets (b : FlatBufferBuilder) : FlatBufferBuilder := set_fields [] 0 b.

(** The loop of [EndTable] that writes the field positions into the vtable
    at the front of the buffer. *)
Fixpoint write_fields (vtableoffsetloc : Z) (fl : list (Z * Z)) (m : list byte) : result (list byte) :=
  match fl with
  | [] => Ok m
  | (off, id) :: fl' =>
      let pos := uint16 (vtableoffsetloc - off) in
      let? old := ReadScalar 2 m id in
      if old =? 0
      then let? m' := WriteScalar 2 m id pos in write_fields vtableoffsetloc fl' m'
      else Err AssertFail
  end.

(** The loop of [EndTable] that looks for an equal vtable. *)
Fixpoint find_vtable (vt1_size : Z) (vts : list Z) (m : list byte) : result (option Z) :=
  match vts with
  | [] => Ok None
  | o :: vts' =>
      let vt2 := len m - o in
      let? vt2_size := ReadScalar 2 m vt2 in
      if negb (vt1_size =? vt2_size) then find_vtable vt1_size vts' m
      else
        let? b2 := load (Z.to_nat vt1_size) m vt2 in
        let? b1 := load (Z.to_nat vt1_size) m 0 in
        if bool_decide (b2 = b1) then Ok (Some o) else find_vtable vt1_size vts' m
  end.

Definition EndTable (start : Z) (b : FlatBufferBuilder) : result (Z * FlatBufferBuilder) :=
  if negb (nested b) then Err AssertFail else
  let? (vtableoffsetloc, b) := PushElement 4 0 b in
  let max_voffset := Z.max (uint16 (max_voffset_ b + 2)) 4 in
  let? b := fill max_voffset b in
  let table_object_size := uint32 (vtableoffsetloc - start) in
  if negb (table_object_size <? 65536) then Err AssertFail else
  let? m := WriteScalar 2 (buf_ b) 2 table_object_size in
  let? m := WriteScalar 2 m 0 max_voffset in
  let? m := write_fields vtableoffsetloc (field_locs b) m in
  let b := ClearOffsets (set_buf (λ _, m) b) in
  let? vt1_size := ReadScalar 2 m 0 in
  let? dup := (if dedup_vtables_ b then find_vtable vt1_size (vtables b) m else Ok None) in
  let '(vt_use, b) :=
    match dup with
    | Some o => (o, set_buf (drop (Z.to_nat (GetSize b - vtableoffsetloc))) b)
    | None => (GetSize b, b)
    end in
  let? b := (if vt_use =? GetSize b
             then let? _ := ensure_space b in Ok (set_vtables (vtables b ++ [vt_use]) b)
             else Ok b) in
  let? m := WriteScalar 4 (buf_ b) (GetSize b - vtableoffsetloc) (vt_use - vtableoffsetloc) in
  Ok (vtableoffsetloc, set_nested false (set_buf (λ _, m) b)).

Definition CreateString (s : string) (b : FlatBufferBuilder) : result (Z * FlatBufferBuilder) :=
  let bs := String.list_byte_of_string s in
  let? _ := NotNested b in
  let? b := PreAlign (len bs + 1) 4 b in
  let? b := fill 1 b in
  let? b := PushBytes bs b in
  let? (_, b) := PushElement 4 (uint32 (len bs)) b in
  Ok (GetSize b, b).

Definition StartVector (n elemsize : Z) (b : FlatBufferBuilder) : result FlatBufferBuilder :=
  let? _ := NotNested b in
  let b := set_nested true b in
  let? b := PreAlign (n * elemsize) 4 b in
  PreAlign (n * elemsize) elemsize b.

Definition EndVector (n : Z) (b : FlatBufferBuilder) : result (Z * FlatBufferBuilder) :=
  if negb (nested b) then Err AssertFail else PushElement 4 (uint32 n) (set_nested false b).

(** [for (auto i = len; i > 0;) PushElement(v\[--i\])] *)
Fixpoint push_offsets (v : list Z) (b : FlatBufferBuilder) : result FlatBufferBuilder :=
  match v with
  | [] => Ok b
  | off :: v' => let? b := push_offsets v' b in let? (_, b) := PushOffset off b in Ok b
  end.

(** [CreateVector] of offsets *)
Definition CreateVector (v : list Z) (b : FlatBufferBuilder) : result (Z * FlatBufferBuilder) :=
  let? b := StartVector (len v) 4 b in
  let? b := push_offsets v b in
  EndVector (len v) b.

(** [Finish(root)], without a file identifier or size prefix *)
Definition Finish (root : Z) (b : FlatBufferBuilder) : result FlatBufferBuilder :=
  let? _ := NotNested b in
  let b := set_vtables [] b in
  let? b := PreAlign 4 (minalign_ b) b in
  let? (_, b) := PushOffset root b in
  Ok (set_finished true b).

(** [GetBufferPointer] with [GetSize]: the finished bytes *)
Definition GetBufferPointer (b : FlatBufferBuilder) : result (list byte) :=
  if finished b then Ok (buf_ b) else Err AssertFail.

(** ** Tables as sequences of field additions

    The generated [Create] functions open a table, add fields in a fixed
    order and close it. *)

Inductive field_add :=
| FElement (n : nat) (id e def : Z)
| FOffset (id off : Z).

Definition add_field (f : field_add) (b : FlatBufferBuilder) : result FlatBufferBuilder :=
  match f with
  | FElement n id e def => AddElement n id e def b
  | FOffset id off => AddOffset id off b
  end.

Fixpoint add_fields (fs : list field_add) (b : FlatBufferBuilder) : result FlatBufferBuilder :=
  match fs with
  | [] => Ok b
  | f :: fs' => let? b := add_field f b in add_fields fs' b
  end.

Definition build_table (fs : list field_add) (b : FlatBufferBuilder) : result (Z * FlatBufferBuilder) :=
  let? (start, b) := StartTable b in
  let? b := add_fields fs b in
  EndTable start b.

Definition field_id (f : field_add) : Z :=
  match f with FElement _ id _ _ | FOffset id _ => id end.

(** Whether the field is written. *)
Definition live (f : field_add) : bool :=
  match f with FElement _ _ e d => negb (e =? d) | FOffset _ off => negb (off =? 0) end.

(** ** What a buffer holds, counted from its end *)

(** The bytes [bs] start at distance [off] from the end of [m]. *)
Definition region (m : list byte) (off : Z) (bs : list byte) : Prop :=
  ∃ p q, m = p ++ bs ++ q ∧ off = len (bs ++ q).

(** A written field at distance [loc]: the scalar, or a forward offset that
    leads to the object at distance [off]. *)
Definition stored (m : list byte) (f : field_add) (loc : Z) : Prop :=
  match f with
  | FElement n _ e _ => region m loc (le_split n e)
  | FOffset _ off => ∃ u, 0 ≤ u < 2 ^ 32 ∧ region m loc (le_split 4 u) ∧ loc - u = off
  end.

(** The vtable [VT] of a table at distance [t] with fields at [locs]. *)
Definition vtable_ok (VT : list byte) (t : Z) (locs : gmap Z Z) : Prop :=
  4 ≤ len VT < 65536 ∧ ReadScalar 2 VT 0 = Ok (len VT) ∧
  (∀ id, 4 ≤ id → id mod 2 = 0 → id < len VT →
    ReadScalar 2 VT id = Ok (match locs !! id with Some loc => t - loc | None => 0 end)) ∧
  (∀ id loc, locs !! id = Some loc → id < len VT ∧ 0 < t - loc < 65536).

Definition table_at (m : list byte) (t : Z) (locs : gmap Z Z) : Prop :=
  0 < t ≤ len m ∧ t < 2 ^ 31 ∧
  ∃ vt VT, region m t (le_split 4 (vt - t)) ∧ region m vt VT ∧ 0 < vt < 2 ^ 31 ∧ vtable_ok VT t locs.

(** The table at [t] holds what the additions [fs] wrote. *)
Definition has_table (m : list byte) (t : Z) (fs : list field_add) : Prop :=
  ∃ locs, table_at m t locs ∧
    ∀ f, f ∈ fs → if live f then ∃ loc, locs !! field_id f = Some loc ∧ stored m f loc
                  else locs !! field_id f = None.

Definition has_string (m : list byte) (off : Z) (s : string) : Prop :=
  let bs := String.list_byte_of_string s in
  len bs < 2 ^ 31 ∧ region m off (le_split 4 (len bs) ++ bs ++ [Byte.x00]).

(** The [i]-th element of a vector at [off] leads to [offs !! i]. *)
Definition has_vector (m : list byte) (off : Z) (offs : list Z) : Prop :=
  len offs < 2 ^ 31 ∧ region m off (le_split 4 (len offs)) ∧
  ∀ i o, offs !! i = Some o →
    ∃ u, 0 ≤ u < 2 ^ 32 ∧ region m (off - 4 - 4 * Z.of_nat i) (le_split 4 u) ∧
      off - 4 - 4 * Z.of_nat i - u = o.

(** Sizes of scalars and alignments in use. *)
Definition align_ok (n : Z) : Prop := n = 1 ∨ n = 2 ∨ n = 4 ∨ n = 8.

(** Between two objects: no table is open, and the remembered vtables are in
    the buffer. *)
Record wf (b : FlatBufferBuilder) : Prop := {
  wf_nested : nested b = false;
  wf_fields : field_locs b = [];
  wf_max : max_voffset_ b = 0;
  wf_force : force_defaults_ b = false;
  wf_minalign : align_ok (minalign_ b);
  wf_vtables : ∀ o, o ∈ vtables b → ∃ VT, region (buf_ b) o VT ∧ 4 ≤ len VT < 65536 ∧
    ReadScalar 2 VT 0 = Ok (len VT) }.

Definition extends (b b' : FlatBufferBuilder) : Prop := ∃ p, buf_ b' = p ++ buf_ b.

(** A field the builder can add to a table over [b]: the id is one of a
    small vtable, the scalar is 1, 2 or 4 bytes, the offset names something
    already written. *)
Definition field_ok (b : FlatBufferBuilder) (f : field_add) : Prop :=
  4 ≤ field_id f < 64 ∧ field_id f mod 2 = 0 ∧
  match f with
  | FElement n _ _ _ => n = 1%nat ∨ n = 2%nat ∨ n = 4%nat
  | FOffset _ off => 0 ≤ off ≤ GetSize b
  end.

(** Bytes a table of [n] fields can take. *)
Definition table_bound (n : nat) : Z := 7 * Z.of_nat n + 73.

(** ** Lemmas on memory *)

Lemma load_ok n m a :
  0 ≤ a → a + Z.of_nat n ≤ len m → load n m a = Ok (take n (drop (Z.to_nat a) m)).
Proof.
  intros. unfold load. destruct (Z.leb_spec 0 a), (Z.leb_spec (a + Z.of_nat n) (len m)); done || lia.
Qed.

Lemma load_inv n m a bs :
  load n m a = Ok bs → 0 ≤ a ∧ a + Z.of_nat n ≤ len m ∧ bs = take n (drop (Z.to_nat a) m).
Proof.
  unfold load. destruct (Z.leb_spec 0 a), (Z.leb_spec (a + Z.of_nat n) (len m)); cbn; [|done..].
  by intros [= <-].
Qed.

Lemma load_app_l n x y a :
  a + Z.of_nat n ≤ len x → load n (x ++ y) a = load n x a.
Proof.
  intros. unfold load. rewrite length_app.
  destruct (Z.leb_spec 0 a); [|done]. cbn.
  destruct (Z.leb_spec (a + Z.of_nat n) (len x)); [|lia].
  destruct (Z.leb_spec (a + Z.of_nat n) (Z.of_nat (length x + length y))); [|lia].
  rewrite drop_app_le, take_app_le by (rewrite ?length_drop; lia). done.
Qed.

Lemma load_app_r n p m a :
  0 ≤ a → load n (p ++ m) (len p + a) = load n m a.
Proof.
  intros. unfold load. rewrite length_app.
  destruct (Z.leb_spec 0 a); [|lia]. destruct (Z.leb_spec 0 (len p + a)); [|lia]. cbn.
  replace (len p + a + Z.of_nat n <=? Z.of_nat (length p + length m)) with (a + Z.of_nat n <=? len m)
    by (destruct (Z.leb_spec (a + Z.of_nat n) (len m)),
          (Z.leb_spec (len p + a + Z.of_nat n) (Z.of_nat (length p + length m))); lia).
  replace (Z.to_nat (len p + a)) with (length p + Z.to_nat a)%nat by lia.
  by rewrite <- drop_drop, drop_app_length.
Qed.

Lemma load_app_ge n p m a : len p ≤ a → load n (p ++ m) a = load n m (a - len p).
Proof. intros. rewrite <- (load_app_r n p m (a - len p)) by lia. f_equal. lia. Qed.

Lemma ReadScalar_app_l n x y a :
  a + Z.of_nat n ≤ len x → ReadScalar n (x ++ y) a = ReadScalar n x a.
Proof. intros. unfold ReadScalar. by rewrite load_app_l. Qed.

Lemma store_app_l x y a bs x' :
  store x a bs = Ok x' → store (x ++ y) a bs = Ok (x' ++ y) ∧ length x' = length x.
Proof.
  unfold store. rewrite length_app.
  destruct (Z.leb_spec 0 a), (Z.leb_spec (a + len bs) (len x)); cbn; [|done..].
  intros [= <-]. destruct (Z.leb_spec (a + len bs) (Z.of_nat (length x + length y))); [|lia]. split.
  - f_equal. rewrite take_app_le, drop_app_le by lia. by rewrite <- !app_assoc.
  - rewrite !length_app, length_take, length_drop. lia.
Qed.

Lemma store_at p old q bs :
  length old = length bs → store (p ++ old ++ q) (len p) bs = Ok (p ++ bs ++ q).
Proof.
  intros Hl. unfold store. rewrite !length_app.
  destruct (Z.leb_spec 0 (len p)); [|lia].
  destruct (Z.leb_spec (len p + len bs) (Z.of_nat (length p + (length old + length q)))); [|lia].
  cbn. rewrite Nat2Z.id, take_app_length, <- drop_drop, drop_app_length.
  by rewrite <- Hl, drop_app_length.
Qed.

Lemma le_mod n z : le_combine (le_split n z) = z mod 2 ^ (8 * Z.of_nat n).
Proof. rewrite le_combine_split. f_equal. f_equal. lia. Qed.

(** Writing one scalar and reading it, or another one, back. *)
Lemma WriteScalar_ok n m a v :
  0 ≤ a → a + Z.of_nat n ≤ len m →
  ∃ m', WriteScalar n m a v = Ok m' ∧ length m' = length m ∧
    ReadScalar n m' a = Ok (v mod 2 ^ (8 * Z.of_nat n)) ∧
    ∀ k a', a' + Z.of_nat k ≤ a ∨ a + Z.of_nat n ≤ a' → ReadScalar k m' a' = ReadScalar k m a'.
Proof.
  intros Ha Hb.
  assert (∃ p old q, m = p ++ old ++ q ∧ len p = a ∧ length old = n) as (p & old & q & -> & <- & Ho).
  { exists (take (Z.to_nat a) m), (take n (drop (Z.to_nat a) m)), (drop n (drop (Z.to_nat a) m)).
    rewrite !take_drop, !length_take, length_drop. split; [done|]. lia. }
  exists (p ++ le_split n v ++ q). unfold WriteScalar.
  rewrite store_at by (by rewrite length_le_split). split; [done|].
  rewrite !length_app, length_le_split, Ho. split; [done|]. split.
  - unfold ReadScalar. replace (len p) with (len p + 0) by lia. rewrite load_app_r by lia.
    rewrite load_app_l by (rewrite length_le_split; lia). rewrite load_ok by (rewrite ?length_le_split; lia).
    cbn [rbind]. f_equal. rewrite drop_0, take_ge by (by rewrite length_le_split). apply le_mod.
  - intros k a' [Hlt|Hgt]; unfold ReadScalar.
    + by rewrite !load_app_l by lia.
    + rewrite !(load_app_ge _ p) by lia. rewrite (load_app_ge _ old), (load_app_ge _ (le_split n v))
        by (rewrite ?length_le_split; lia). by rewrite length_le_split, Ho.
Qed.

(** ** Lemmas on regions *)

Lemma region_app p m off bs : region m off bs → region (p ++ m) off bs.
Proof. intros (x & q & -> & ->). exists (p ++ x), q. by rewrite <- app_assoc. Qed.

Lemma region_bounds m off bs : region m off bs → len bs ≤ off ≤ len m.
Proof. intros (x & q & -> & ->). rewrite !length_app. lia. Qed.

Lemma region_front bs q : region (bs ++ q) (len (bs ++ q)) bs.
Proof. by exists [], q. Qed.

Lemma region_split m off a c :
  region m off (a ++ c) → region m off a ∧ region m (off - len a) c.
Proof.
  intros (x & q & -> & ->). split.
  - exists x, (c ++ q). rewrite <- !app_assoc. done.
  - exists (x ++ a), q. rewrite <- !app_assoc. split; [done|]. rewrite !length_app. lia.
Qed.

Lemma region_load m off bs : region m off bs → load (length bs) m (len m - off) = Ok bs.
Proof.
  intros (x & q & -> & ->).
  replace (len (x ++ bs ++ q) - len (bs ++ q)) with (len x + 0) by (rewrite !length_app; lia).
  rewrite load_app_r by lia. rewrite load_app_l by lia. rewrite load_ok by lia.
  by rewrite drop_0, take_ge by lia.
Qed.

Lemma load_region n m a bs : load n m a = Ok bs → region m (len m - a) bs ∧ length bs = n.
Proof.
  intros (H1 & H2 & ->)%load_inv. split; [|rewrite length_take, length_drop; lia].
  exists (take (Z.to_nat a) m), (drop n (drop (Z.to_nat a) m)). rewrite !take_drop. split; [done|].
  rewrite length_drop. lia.
Qed.

Lemma region_read m off n v :
  region m off (le_split n v) → ReadScalar n m (len m - off) = Ok (v mod 2 ^ (8 * Z.of_nat n)).
Proof.
  intros H. unfold ReadScalar. pose proof (region_load _ _ _ H) as Hl.
  rewrite length_le_split in Hl. rewrite Hl. cbn. by rewrite le_mod.
Qed.

(** A scalar inside a region is read through the region. *)
Lemma region_ReadScalar m off bs n a :
  region m off bs → 0 ≤ a → a + Z.of_nat n ≤ len bs →
  ReadScalar n m (len m - off + a) = ReadScalar n bs a.
Proof.
  intros (x & q & -> & ->) Ha Hn. unfold ReadScalar.
  replace (len (x ++ bs ++ q) - len (bs ++ q) + a) with (len x + a) by (rewrite !length_app; lia).
  by rewrite load_app_r, load_app_l by lia.
Qed.

#[export] Hint Resolve region_app region_front : grit.

(** ** Lemmas on the builder *)

Lemma PaddingBytes_spec s k :
  0 ≤ k ≤ 3 → PaddingBytes s (2 ^ k) = (- s) mod 2 ^ k.
Proof.
  intros Hk. unfold PaddingBytes, wrap_u.
  replace (2 ^ k - 1) with (Z.ones k) by (rewrite Z.ones_equiv; lia).
  rewrite Z.land_ones by lia. rewrite Zplus_mod_idemp_l.
  replace (Z.lnot s + 1) with (- s) by (unfold Z.lnot; lia).
  rewrite Z.mod_mod_divide; [done|]. exists (2 ^ (64 - k)). rewrite <- Z.pow_add_r by lia. f_equal. lia.
Qed.

Lemma padding_eq s n : align_ok n → PaddingBytes s n = (- s) mod n.
Proof.
  intros [-> | [-> | [-> | ->]]];
    [apply (PaddingBytes_spec s 0)|apply (PaddingBytes_spec s 1)
    |apply (PaddingBytes_spec s 2)|apply (PaddingBytes_spec s 3)]; lia.
Qed.

Lemma padding_range s n : align_ok n → 0 ≤ PaddingBytes s n < n.
Proof. intros Hn. rewrite padding_eq by done. apply Z.mod_pos_bound. unfold align_ok in Hn. lia. Qed.

Lemma padding_aligned s n : align_ok n → (s + PaddingBytes s n) mod n = 0.
Proof.
  intros Hn. rewrite padding_eq by done. rewrite Zplus_mod_idemp_r.
  replace (s + - s) with 0 by lia. apply Z.mod_0_l. unfold align_ok in Hn. lia.
Qed.

Lemma padding_none s n : align_ok n → s mod n = 0 → PaddingBytes s n = 0.
Proof.
  intros Hn Hs. rewrite padding_eq by done. apply Z.mod_opp_l_z; [unfold align_ok in Hn; lia|done].
Qed.

(** Everything but the bytes, the alignment and the finished flag. *)
Definition ctl (b : FlatBufferBuilder) :=
  (field_locs b, vtables b, max_voffset_ b, nested b, force_defaults_ b, dedup_vtables_ b).

(** [b'] is [b] with the bytes [p] in front. *)
Definition grown (b b' : FlatBufferBuilder) (p : list byte) : Prop :=
  buf_ b' = p ++ buf_ b ∧ ctl b' = ctl b ∧ (align_ok (minalign_ b) → align_ok (minalign_ b')).

Lemma grown_size b b' p : grown b b' p → GetSize b' = GetSize b + len p.
Proof. intros [H _]. unfold GetSize. rewrite H, length_app. lia. Qed.

Lemma grown_trans b1 b2 b3 p q : grown b1 b2 p → grown b2 b3 q → grown b1 b3 (q ++ p).
Proof.
  intros (H1 & H2 & H3) (H4 & H5 & H6). split; [by rewrite H4, H1, app_assoc|]. split; [congruence|auto].
Qed.

Lemma ensure_space_ok b : GetSize b < FLATBUFFERS_MAX_BUFFER_SIZE → ensure_space b = Ok tt.
Proof. intros. unfold ensure_space. by destruct (Z.ltb_spec (GetSize b) FLATBUFFERS_MAX_BUFFER_SIZE); [|lia]. Qed.

Lemma push_small_ok bs b :
  GetSize b < FLATBUFFERS_MAX_BUFFER_SIZE → ∃ b', push_small bs b = Ok b' ∧ grown b b' bs.
Proof. intros H. unfold push_small. rewrite ensure_space_ok by done. eexists. split; done. Qed.

Lemma fill_ok n b :
  GetSize b < FLATBUFFERS_MAX_BUFFER_SIZE →
  ∃ b', fill n b = Ok b' ∧ grown b b' (replicate (Z.to_nat n) Byte.x00).
Proof. apply push_small_ok. Qed.

Lemma TrackMinAlign_same n b :
  buf_ (TrackMinAlign n b) = buf_ b ∧ ctl (TrackMinAlign n b) = ctl b ∧
  (align_ok n → align_ok (minalign_ b) → align_ok (minalign_ (TrackMinAlign n b))).
Proof. unfold TrackMinAlign. by destruct (minalign_ b <? n). Qed.

Lemma PreAlign_ok k n b :
  align_ok n → GetSize b < FLATBUFFERS_MAX_BUFFER_SIZE →
  ∃ b' p, PreAlign k n b = Ok b' ∧ grown b b' p ∧ len p < n ∧ (GetSize b' + k) mod n = 0.
Proof.
  intros Hn Hs. unfold PreAlign. destruct (TrackMinAlign_same n b) as (Hb & Hc & Hma).
  destruct (fill_ok (PaddingBytes (GetSize (TrackMinAlign n b) + k) n) (TrackMinAlign n b))
    as (b' & -> & Hg1 & Hg2 & Hg3). { unfold GetSize in *. by rewrite Hb. }
  pose proof (padding_range (GetSize (TrackMinAlign n b) + k) n Hn) as Hr.
  pose proof (padding_aligned (GetSize (TrackMinAlign n b) + k) n Hn) as Ha.
  eexists _, _. split; [done|]. split; [split; [rewrite Hg1, Hb; done|split; [congruence|auto]]|].
  unfold GetSize in *. rewrite Hg1, length_app, length_replicate in *. rewrite Hb in *.
  split; [lia|]. rewrite <- Ha. f_equal. lia.
Qed.

Lemma Align_ok n b :
  align_ok n → GetSize b < FLATBUFFERS_MAX_BUFFER_SIZE →
  ∃ b' p, Align n b = Ok b' ∧ grown b b' p ∧ len p < n ∧ GetSize b' mod n = 0 ∧
    (GetSize b mod n = 0 → p = []).
Proof.
  intros Hn Hs. unfold Align. destruct (TrackMinAlign_same n b) as (Hb & Hc & Hma).
  destruct (fill_ok (PaddingBytes (GetSize (TrackMinAlign n b)) n) (TrackMinAlign n b))
    as (b' & -> & Hg1 & Hg2 & Hg3). { unfold GetSize in *. by rewrite Hb. }
  pose proof (padding_range (GetSize (TrackMinAlign n b)) n Hn) as Hr.
  pose proof (padding_aligned (GetSize (TrackMinAlign n b)) n Hn) as Ha.
  pose proof (padding_none (GetSize (TrackMinAlign n b)) n Hn) as Hz.
  eexists _, _. split; [done|]. split; [split; [rewrite Hg1, Hb; done|split; [congruence|auto]]|].
  unfold GetSize in *. rewrite Hg1, length_app, length_replicate in *. rewrite Hb in *.
  split_and!; [lia| |].
  - rewrite <- Ha. f_equal. lia.
  - intros Hm. by rewrite Hz.
Qed.

Lemma PushElement_ok n v b :
  align_ok (Z.of_nat n) → GetSize b + Z.of_nat n ≤ FLATBUFFERS_MAX_BUFFER_SIZE →
  ∃ b' p, PushElement n v b = Ok (GetSize b', b') ∧ grown b b' (le_split n v ++ p) ∧
    len p < Z.of_nat n ∧ (GetSize b mod Z.of_nat n = 0 → p = []) ∧ GetSize b' mod Z.of_nat n = 0.
Proof.
  intros Hn Hs. unfold PushElement. destruct (Align_ok (Z.of_nat n) b Hn) as (b1 & p & -> & Hg1 & Hp & Ha & Hz).
  { destruct Hn as [?|[?|[?|?]]]; lia. }
  cbn [rbind]. destruct (push_small_ok (le_split n v) b1) as (b2 & -> & Hg2).
  { rewrite (grown_size _ _ _ Hg1). lia. }
  cbn [rbind]. exists b2, p. split; [done|]. split; [by eapply grown_trans|]. split; [done|]. split; [done|].
  rewrite (grown_size _ _ _ Hg2), length_le_split.
  replace (GetSize b1 + Z.of_nat n) with (GetSize b1 + 1 * Z.of_nat n) by lia. by rewrite Z_mod_plus_full.
Qed.

Lemma ReferTo_ok off b :
  GetSize b + 4 ≤ FLATBUFFERS_MAX_BUFFER_SIZE → 0 < off ≤ GetSize b →
  ∃ b' p, ReferTo off b = Ok (GetSize b' - off + 4, b') ∧ grown b b' p ∧ len p < 4 ∧ GetSize b' mod 4 = 0 ∧
    (GetSize b mod 4 = 0 → p = []).
Proof.
  intros Hs Ho. unfold ReferTo. destruct (Align_ok 4 b) as (b1 & p & -> & Hg1 & Hp & Ha & Hn);
    [unfold align_ok; lia|lia|].
  cbn [rbind]. pose proof (grown_size _ _ _ Hg1) as Hz.
  destruct (Z.eqb_spec off 0); [lia|]. destruct (Z.leb_spec off (GetSize b1)); [|lia]. cbn [negb andb].
  exists b1, p. split; [|done]. unfold FLATBUFFERS_MAX_BUFFER_SIZE in *. rewrite wrap_u_small; [done|lia].
Qed.

(** A forward offset to [off]: where it lands and what it says. *)
Lemma PushOffset_ok off b :
  GetSize b + 7 ≤ FLATBUFFERS_MAX_BUFFER_SIZE → 0 < off ≤ GetSize b →
  ∃ b' p u, PushOffset off b = Ok (GetSize b', b') ∧ grown b b' (le_split 4 u ++ p) ∧ len p < 4 ∧
    0 < u < 2 ^ 32 ∧ GetSize b' - u = off ∧ (GetSize b mod 4 = 0 → p = []) ∧ GetSize b' mod 4 = 0.
Proof.
  intros Hs Ho. unfold PushOffset. destruct (ReferTo_ok off b) as (b1 & p & -> & Hg1 & Hp & Ha & Hn); [lia..|].
  cbn [rbind]. pose proof (grown_size _ _ _ Hg1) as Hz.
  destruct (PushElement_ok 4 (GetSize b1 - off + 4) b1) as (b2 & p2 & -> & Hg2 & Hp2 & Hn2 & Ha2);
    [unfold align_ok; lia|lia|]. specialize (Hn2 Ha) as ->. rewrite app_nil_r in Hg2.
  pose proof (grown_size _ _ _ Hg2) as Hz2. rewrite length_le_split in Hz2.
  exists b2, p, (GetSize b1 - off + 4). unfold FLATBUFFERS_MAX_BUFFER_SIZE in *.
  split; [done|]. split; [by eapply grown_trans|]. split; [done|]. split; [lia|]. split; [lia|].
  done.
Qed.

(** ** Building a table *)

Lemma stored_app p m f loc : stored m f loc → stored (p ++ m) f loc.
Proof. destruct f; cbn; [apply region_app|]. intros (u & ? & ? & ?). eauto using region_app. Qed.

(** The builder inside a table opened over [b0], after the additions [fs]. *)
Record open_table (b0 b : FlatBufferBuilder) (fs : list field_add) : Prop := {
  ot_buf : ∃ p, buf_ b = p ++ buf_ b0 ∧ len p ≤ 7 * len fs;
  ot_vtables : vtables b = vtables b0;
  ot_nested : nested b = true;
  ot_force : force_defaults_ b = false;
  ot_minalign : align_ok (minalign_ b);
  ot_max : 0 ≤ max_voffset_ b < 64 ∧ max_voffset_ b mod 2 = 0;
  ot_fields : Forall2 (λ f l, l.2 = field_id f ∧ stored (buf_ b) f l.1 ∧
      GetSize b0 < l.1 ≤ GetSize b ∧ l.2 ≤ max_voffset_ b)
    (filter (λ f, live f = true) fs) (field_locs b) }.

Lemma open_table_start b0 :
  wf b0 → open_table b0 (set_nested true b0) [].
Proof.
  intros [Hn Hf Hm Hd Ha Hv]. split; cbn; rewrite ?Hf, ?Hm; try done; [by exists []|lia..].
Qed.

(** One field pushed: [p] in front, its location on the stack. *)
Lemma open_table_push b0 b b' fs f p :
  open_table b0 b fs → live f = true → 4 ≤ field_id f < 64 → field_id f mod 2 = 0 →
  grown b b' p → 0 < len p ≤ 7 → stored (buf_ b') f (GetSize b') →
  open_table b0 (set_fields (field_locs b' ++ [(GetSize b', field_id f)])
    (Z.max (max_voffset_ b') (field_id f)) b') (fs ++ [f]).
Proof.
  intros [[q [Hq Hql]] Hv Hn Hf Ha [Hm Hm2] HF] Hl Hid Hev Hg Hp Hs.
  pose proof (grown_size _ _ _ Hg) as Hsz. destruct Hg as (Hb & [= E1 E2 E3 E4 E5 E6] & Hga).
  split; cbn; rewrite ?E1, ?E2, ?E3, ?E4, ?E5; try done; [|by apply Hga| |].
  - exists (p ++ q). rewrite Hb, Hq, app_assoc. split; [done|]. rewrite !length_app. cbn. lia.
  - split; [lia|]. by destruct (Z.max_spec (max_voffset_ b) (field_id f)) as [[_ ->]|[_ ->]].
  - rewrite filter_app, filter_cons_True by done. apply Forall2_app.
    + eapply Forall2_impl; [exact HF|]. cbn. intros f' [l id] (H1 & H2 & H3 & H4). cbn in *.
      rewrite Hb. unfold GetSize in *. cbn in *. split_and!; [done|by apply stored_app|lia|lia|lia].
    + constructor; [|constructor]. cbn. split_and!; [done|done| |unfold GetSize in *; cbn; lia|lia].
      assert (GetSize b0 ≤ GetSize b) by (unfold GetSize; rewrite Hq, length_app; lia). lia.
Qed.

Lemma open_table_skip b0 b fs f :
  open_table b0 b fs → live f = false → open_table b0 b (fs ++ [f]).
Proof.
  intros [[q [Hq Hql]] Hv Hn Hf Ha Hm HF] Hl. split; try done.
  - exists q. split; [done|]. rewrite length_app. cbn. lia.
  - rewrite filter_app, filter_cons_False, app_nil_r by congruence. done.
Qed.

Lemma open_table_size b0 b fs : open_table b0 b fs → GetSize b0 ≤ GetSize b ≤ GetSize b0 + 7 * len fs.
Proof. intros [[q [Hq Hql]] _ _ _ _ _ _]. unfold GetSize. rewrite Hq, length_app. lia. Qed.

Lemma add_field_ok b0 b fs f :
  open_table b0 b fs → field_ok b0 f →
  GetSize b + 8 ≤ FLATBUFFERS_MAX_BUFFER_SIZE →
  ∃ b', add_field f b = Ok b' ∧ open_table b0 b' (fs ++ [f]).
Proof.
  intros Ho (Hid & Hev & Hf) Hs. pose proof (open_table_size _ _ _ Ho) as Hb0.
  destruct f as [n id e d|id off]; cbn [add_field field_id] in *.
  - unfold AddElement. rewrite (ot_force _ _ _ Ho), andb_true_r.
    destruct (Z.eqb_spec e d) as [->|Hne].
    { exists b. split; [done|]. apply open_table_skip; [done|]. cbn. by rewrite Z.eqb_refl. }
    destruct (PushElement_ok n e b) as (b1 & p & -> & Hg & Hp & _); [unfold align_ok; lia|lia|].
    cbn [rbind]. unfold TrackField. pose proof (grown_size _ _ _ Hg) as Hsz.
    rewrite length_app, length_le_split in Hsz. rewrite ensure_space_ok by lia. cbn [rbind].
    eexists. split; [done|]. eapply (open_table_push b0 b b1 fs (FElement n id e d)); try done.
    + cbn. by destruct (Z.eqb_spec e d).
    + rewrite length_app, length_le_split. lia.
    + cbn. destruct Hg as [Hb _]. unfold GetSize. rewrite Hb, <- app_assoc. apply region_front.
  - unfold AddOffset. destruct (Z.eqb_spec off 0) as [->|Hne].
    { exists b. split; [done|]. by apply open_table_skip. }
    pose proof (PushOffset_ok off b ltac:(lia) ltac:(lia)) as (b1 & p & u & Hpush & Hg & Hp & Hu & Hoff & _).
    unfold PushOffset in Hpush. destruct (ReferTo off b) as [[r b2]|] eqn:Href; [|done]. cbn [rbind] in *.
    unfold AddElement.
    destruct (ReferTo_ok off b) as (b2' & p2 & Href' & Hg2 & _); [lia..|].
    rewrite Href' in Href. injection Href as <- <-. pose proof (grown_size _ _ _ Hg2).
    destruct (Z.eqb_spec (GetSize b2' - off + 4) 0); [lia|]. cbn [andb]. rewrite Hpush. cbn [rbind].
    unfold TrackField. pose proof (grown_size _ _ _ Hg) as Hsz. rewrite length_app, length_le_split in Hsz.
    rewrite ensure_space_ok by lia. cbn [rbind]. eexists. split; [done|].
    eapply (open_table_push b0 b b1 fs (FOffset id off)); try done.
    + cbn. by destruct (Z.eqb_spec off 0).
    + rewrite length_app, length_le_split. lia.
    + cbn. exists u. split; [lia|]. split; [|done].
      destruct Hg as [Hb _]. unfold GetSize. rewrite Hb, <- app_assoc. apply region_front.
Qed.

Lemma field_ok_size b b' f : GetSize b = GetSize b' → field_ok b f → field_ok b' f.
Proof. intros H. unfold field_ok. destruct f; [done|]. by rewrite H. Qed.

Lemma add_fields_ok b0 fs b prev :
  open_table b0 b prev → Forall (field_ok b0) fs →
  GetSize b0 + 7 * (len prev + len fs) + 8 ≤ FLATBUFFERS_MAX_BUFFER_SIZE →
  ∃ b', add_fields fs b = Ok b' ∧ open_table b0 b' (prev ++ fs).
Proof.
  intros Ho HF. revert b prev Ho. induction HF as [|f fs Hf HF IH]; intros b prev Ho Hs.
  { exists b. by rewrite app_nil_r. }
  pose proof (open_table_size _ _ _ Ho). cbn [length] in *.
  destruct (add_field_ok b0 b prev f) as (b1 & Hadd & Ho1); [done|done|lia|].
  cbn [add_fields]. rewrite Hadd. cbn [rbind].
  destruct (IH b1 (prev ++ [f])) as (b' & -> & Ho'); [done|rewrite length_app; cbn; lia|].
  exists b'. by rewrite <- app_assoc in Ho'.
Qed.

(** ** Closing a table *)

Lemma read_zeros n k a :
  0 ≤ a → a + Z.of_nat k ≤ Z.of_nat n → ReadScalar k (replicate n Byte.x00) a = Ok 0.
Proof.
  intros Ha Hk. unfold ReadScalar. rewrite load_ok by (rewrite ?length_replicate; lia). cbn [rbind].
  rewrite drop_replicate, take_replicate, Nat.min_l by lia. f_equal. clear.
  induction k as [|k IH]; [done|]. cbn [replicate]. unfold le_combine in *. cbn [fold_right].
  by rewrite IH.
Qed.

Lemma even_apart a c : a mod 2 = 0 → c mod 2 = 0 → a ≠ c → a + 2 ≤ c ∨ c + 2 ≤ a.
Proof. intros. Z.div_mod_to_equations. lia. Qed.

Definition locs_of (fl : list (Z * Z)) : gmap Z Z := list_to_map (prod_swap <$> fl).

Lemma locs_of_cons off id fl : locs_of ((off, id) :: fl) = <[id := off]> (locs_of fl).
Proof. done. Qed.

(** Positions written into the vtable at the front of the buffer. *)
Lemma write_fields_ok loc fl X :
  NoDup fl.*2 →
  (∀ off id, (off, id) ∈ fl → 4 ≤ id ∧ id mod 2 = 0 ∧ id + 2 ≤ len X ∧
    ReadScalar 2 X id = Ok 0 ∧ 0 < loc - off < 65536) →
  ∃ X', (∀ rest, write_fields loc fl (X ++ rest) = Ok (X' ++ rest)) ∧ length X' = length X ∧
    ∀ a, 0 ≤ a → a mod 2 = 0 → a + 2 ≤ len X →
      ReadScalar 2 X' a = match locs_of fl !! a with Some off => Ok (loc - off) | None => ReadScalar 2 X a end.
Proof.
  revert X. induction fl as [|[off id] fl IH]; intros X Hnd Hfl.
  { exists X. split; [done|]. split; [done|]. intros a _ _ _. unfold locs_of. cbn. by rewrite lookup_empty. }
  apply NoDup_cons in Hnd as [Hnew Hnd].
  destruct (Hfl off id) as (Hid & Hev & Hlen & Hz & Hpos); [left|].
  destruct (WriteScalar_ok 2 X id (uint16 (loc - off))) as (X1 & Hw & Hl1 & Hr1 & Hr1'); [lia..|].
  destruct (IH X1 Hnd) as (X' & Hwf & Hl' & Hr').
  { intros off' id' Hin. destruct (Hfl off' id') as (? & Hev' & ? & Hz' & ?); [by right|].
    rewrite Hl1. split_and!; try done || lia. rewrite Hr1'; [done|].
    assert (id' ≠ id). { intros ->. apply Hnew. apply list_elem_of_fmap. by exists (off', id). }
    destruct (even_apart id id' Hev Hev'); [done|right; lia|left; lia]. }
  exists X'. split; [|split; [lia|]].
  - intros rest. cbn [write_fields]. rewrite ReadScalar_app_l by lia. rewrite Hz. cbn [rbind Z.eqb].
    unfold WriteScalar in *. destruct (store_app_l X rest _ _ _ Hw) as [-> _]. cbn [rbind]. apply Hwf.
  - intros a Ha Hae Hla. rewrite Hr' by lia. rewrite locs_of_cons.
    destruct (decide (id = a)) as [<-|Hne].
    + rewrite lookup_insert_eq.
      assert (locs_of fl !! id = None) as ->.
      { apply not_elem_of_list_to_map. rewrite <- list_fmap_compose. done. }
      rewrite Hr1. f_equal. rewrite wrap_u_small by lia. apply Z.mod_small. cbn. lia.
    + rewrite lookup_insert_ne by done. destruct (locs_of fl !! a); [done|]. apply Hr1'.
      destruct (even_apart id a Hev Hae); [done|right; lia|left; lia].
Qed.

(** The three writes of [EndTable] into a zeroed vtable of [mv] bytes. *)
Lemma vtable_written loc tos mv fl :
  4 ≤ mv < 65536 → NoDup fl.*2 →
  (∀ off id, (off, id) ∈ fl → 4 ≤ id ∧ id mod 2 = 0 ∧ id + 2 ≤ mv ∧ 0 < loc - off < 65536) →
  mv mod 2 = 0 →
  ∃ VT, len VT = mv ∧ vtable_ok VT loc (locs_of fl) ∧ ∀ rest,
    (let? m := WriteScalar 2 (replicate (Z.to_nat mv) Byte.x00 ++ rest) 2 tos in
     let? m := WriteScalar 2 m 0 mv in write_fields loc fl m) = Ok (VT ++ rest).
Proof.
  intros Hmv Hnd Hfl Hmve. set (Z0 := replicate (Z.to_nat mv) Byte.x00).
  assert (len Z0 = mv) as HZ by (unfold Z0; rewrite length_replicate; lia).
  destruct (WriteScalar_ok 2 Z0 2 tos) as (X1 & Hw1 & Hl1 & _ & Hr1); [lia..|].
  destruct (WriteScalar_ok 2 X1 0 mv) as (X2 & Hw2 & Hl2 & Hr2 & Hr2'); [lia..|].
  assert (∀ id, 4 ≤ id → id + 2 ≤ mv → ReadScalar 2 X2 id = Ok 0) as Hz.
  { intros id Hid Hl. rewrite Hr2', Hr1 by lia. apply read_zeros; lia. }
  destruct (write_fields_ok loc fl X2 Hnd) as (VT & Hwf & Hl & Hr).
  { intros off id Hin. destruct (Hfl _ _ Hin) as (? & ? & ? & ?). split_and!; try done || lia. apply Hz; lia. }
  assert (∀ id, locs_of fl !! id = None ∨ ∃ off, (off, id) ∈ fl ∧ locs_of fl !! id = Some off) as Hlocs.
  { intros id. destruct (locs_of fl !! id) as [off|] eqn:E; [right|by left]. exists off. split; [|done].
    apply elem_of_list_to_map_2, list_elem_of_fmap in E as ([o i] & [= -> ->] & Hin). done. }
  exists VT. split; [lia|]. split.
  - split; [lia|]. split; [|split].
    + rewrite Hr by (done || lia). destruct (Hlocs 0) as [->|(off & Hin & _)].
      * rewrite Hr2. f_equal. rewrite Hl, Hl2, Hl1, HZ. apply Z.mod_small. cbn. lia.
      * apply Hfl in Hin. lia.
    + intros id Hid Hev Hlt. assert (id + 2 ≤ mv) by (Z.div_mod_to_equations; lia).
      rewrite Hr by lia. destruct (locs_of fl !! id); [done|]. apply Hz; lia.
    + intros id off E. destruct (Hlocs id) as [E'|(off' & Hin & E')]; [congruence|].
      rewrite E in E'. injection E' as <-. apply Hfl in Hin. split; lia.
  - intros rest. unfold WriteScalar in *. destruct (store_app_l Z0 rest _ _ _ Hw1) as [-> _]. cbn [rbind].
    destruct (store_app_l X1 rest _ _ _ Hw2) as [-> _]. cbn [rbind]. apply Hwf.
Qed.

(** The search for an equal vtable ends, and only finds an equal one. *)
Lemma find_vtable_ok VT x base vts :
  4 ≤ len VT →
  (∀ o, o ∈ vts → ∃ V, region base o V ∧ 4 ≤ len V < 65536 ∧ ReadScalar 2 V 0 = Ok (len V)) →
  ∃ r, find_vtable (len VT) vts (VT ++ x ++ base) = Ok r ∧
    match r with Some o => o ∈ vts ∧ region base o VT | None => True end.
Proof.
  intros HV. induction vts as [|o vts IH]; intros Hvts; [by exists None|].
  destruct IH as (r & Hr & Hspec). { intros o' Ho'. apply Hvts. by right. }
  destruct (Hvts o) as (V & Hreg & HlV & HrV); [left|]. cbn [find_vtable].
  pose proof (region_app VT _ _ _ (region_app x _ _ _ Hreg)) as Hreg'.
  cbv zeta. assert (ReadScalar 2 (VT ++ x ++ base) (len (VT ++ x ++ base) - o) = Ok (len V)) as ->.
  { rewrite <- HrV, <- (region_ReadScalar _ _ _ 2 0 Hreg') by lia. f_equal. lia. }
  cbn [rbind].
  assert (∃ r', find_vtable (len VT) vts (VT ++ x ++ base) = Ok r' ∧
    match r' with Some o0 => o0 ∈ o :: vts ∧ region base o0 VT | None => True end) as Hskip.
  { exists r. split; [done|]. destruct r; [|done]. destruct Hspec. split; [by right|done]. }
  destruct (Z.eqb_spec (len VT) (len V)) as [Heq|]; cbn [negb]; [|exact Hskip].
  rewrite Nat2Z.id. assert (length VT = length V) as HlVT by lia.
  assert (load (length VT) (VT ++ x ++ base) (len (VT ++ x ++ base) - o) = Ok V) as ->
    by (rewrite HlVT; by apply region_load).
  cbn [rbind].
  rewrite load_app_l by lia. rewrite load_ok by lia. rewrite drop_0, take_ge by lia. cbn [rbind].
  case_bool_decide as Hsame; [|exact Hskip]. exists (Some o). split; [done|]. split; [left|]. by subst.
Qed.

(** What an open table hands to [EndTable]. *)
Lemma open_table_locs b0 b fs loc :
  open_table b0 b fs → NoDup (field_id <$> fs) → (∀ f, f ∈ fs → 4 ≤ field_id f ∧ field_id f mod 2 = 0) →
  GetSize b < loc → loc - GetSize b0 < 65536 →
  NoDup (field_locs b).*2 ∧
  (∀ off id, (off, id) ∈ field_locs b → 4 ≤ id ∧ id mod 2 = 0 ∧ id ≤ max_voffset_ b ∧ 0 < loc - off < 65536) ∧
  ∀ f, f ∈ fs → if live f then ∃ o, locs_of (field_locs b) !! field_id f = Some o ∧ stored (buf_ b) f o
                else locs_of (field_locs b) !! field_id f = None.
Proof.
  intros [_ _ _ _ _ _ HF] Hnd Hids Hlt Hsz.
  assert ((field_locs b).*2 = field_id <$> filter (λ f, live f = true) fs) as Hsnd.
  { symmetry. clear -HF. induction HF as [|f l fs' ls H HF IH]; [done|]. rewrite !fmap_cons, IH. destruct H as [-> _]. done. }
  assert (NoDup (field_locs b).*2) as Hnd2.
  { rewrite Hsnd. clear -Hnd. induction fs as [|f fs IH]; [done|]. rewrite fmap_cons, NoDup_cons in Hnd.
    destruct Hnd as [Hn Hnd]. rewrite filter_cons. case_decide; [|auto]. rewrite fmap_cons, NoDup_cons. split; [|auto].
    intros (f' & Hf' & Hin)%list_elem_of_fmap. apply Hn, list_elem_of_fmap. exists f'.
    apply list_elem_of_filter in Hin as [_ ?]. done. }
  assert (∀ l, l ∈ field_locs b → ∃ f, f ∈ fs ∧ live f = true ∧ l.2 = field_id f ∧ stored (buf_ b) f l.1 ∧
    GetSize b0 < l.1 ≤ GetSize b ∧ l.2 ≤ max_voffset_ b) as Hback.
  { intros l [i Hi]%list_elem_of_lookup. eapply Forall2_lookup_r in Hi as (f & Hf & H); [|exact HF].
    exists f. apply list_elem_of_lookup_2, list_elem_of_filter in Hf as [??]. naive_solver. }
  split; [done|]. split.
  - intros off id Hin. destruct (Hback _ Hin) as (f & Hf & _ & Hid & _ & H1 & H2). cbn in *. subst id.
    destruct (Hids f Hf). split_and!; lia.
  - intros f Hf. destruct (live f) eqn:Hl.
    + assert (f ∈ filter (λ f, live f = true) fs) as [i Hi]%list_elem_of_lookup by (apply list_elem_of_filter; done).
      destruct (Forall2_lookup_l _ _ _ _ _ HF Hi) as ([o id] & Hil & H1 & H2 & _). cbn in *. subst id.
      exists o. split; [|done]. apply elem_of_list_to_map.
      * rewrite <- list_fmap_compose. exact Hnd2.
      * apply list_elem_of_fmap. exists (o, field_id f). split; [done|]. by apply list_elem_of_lookup_2 in Hil.
    + apply not_elem_of_list_to_map. rewrite <- list_fmap_compose. intros ([o id] & Hid & Hin)%list_elem_of_fmap.
      cbn in Hid. destruct (Hback _ Hin) as (f' & Hf' & Hl' & Hid' & _). cbn in *. subst id.
      assert (f = f'); [|congruence]. apply list_elem_of_lookup in Hf as [i Hi], Hf' as [j Hj].
      assert (i = j) as ->; [|congruence]. apply (NoDup_lookup _ i j (field_id f) Hnd);
        rewrite list_lookup_fmap; [rewrite Hi|rewrite Hj]; cbn; congruence.
Qed.

(** The last step: the vtable offset is written over its placeholder. *)
Lemma patch_vtable p pad rest loc v :
  loc = len (le_split 4 0 ++ pad ++ rest) →
  WriteScalar 4 (p ++ le_split 4 0 ++ pad ++ rest) (len (p ++ le_split 4 0 ++ pad ++ rest) - loc) v =
    Ok (p ++ le_split 4 v ++ pad ++ rest).
Proof.
  intros ->. unfold WriteScalar. replace (len _ - len _) with (len p) by (rewrite !length_app; lia).
  apply store_at. by rewrite !length_le_split.
Qed.

(** The closed table, with its vtable in front or shared with an older one. *)
Lemma closed_table b0 b b3 fs p pad vt VT :
  open_table b0 b fs →
  (vt = len (p ++ le_split 4 0 ++ pad ++ buf_ b) ∧ p = VT ∨ region (buf_ b0) vt VT) →
  0 < vt < 2 ^ 31 → len pad < 4 → GetSize b + 7 < 2 ^ 31 →
  let t := 4 + len pad + GetSize b in
  buf_ b3 = p ++ le_split 4 (vt - t) ++ pad ++ buf_ b →
  vtable_ok VT t (locs_of (field_locs b)) →
  (∀ f, f ∈ fs → if live f then ∃ o, locs_of (field_locs b) !! field_id f = Some o ∧ stored (buf_ b) f o
                else locs_of (field_locs b) !! field_id f = None) →
  extends b0 b3 ∧ 0 < t ≤ GetSize b3 ∧ GetSize b3 = len p + t ∧ has_table (buf_ b3) t fs.
Proof.
  intros Ho Hvt Hvtr Hpad Hsz t Hb3 HVT Hlive. destruct (ot_buf _ _ _ Ho) as (q & Hq & _).
  assert (t = len (le_split 4 (vt - t) ++ pad ++ buf_ b)) as Ht
    by (unfold t, GetSize; rewrite !length_app, length_le_split; lia).
  assert (GetSize b3 = len p + t) as Hsz3
    by (unfold GetSize; rewrite Hb3, length_app, Nat2Z.inj_add, <- Ht; done).
  split. { exists (p ++ le_split 4 (vt - t) ++ pad ++ q). rewrite Hb3, Hq. by rewrite <- !app_assoc. }
  split; [unfold GetSize in *; lia|]. split; [done|]. exists (locs_of (field_locs b)). split.
  - split; [unfold GetSize in *; lia|]. split; [unfold t; lia|]. exists vt, VT.
    split. { rewrite Hb3. apply region_app. by exists [], (pad ++ buf_ b). }
    split; [|done]. rewrite Hb3. destruct Hvt as [[Hvt ->]|Hreg].
    + exists [], (le_split 4 (vt - t) ++ pad ++ buf_ b). split; [done|].
      rewrite Hvt at 1. by rewrite !length_app, !length_le_split.
    + rewrite Hq. by repeat apply region_app.
  - intros f Hf. specialize (Hlive f Hf). destruct (live f); [|done]. destruct Hlive as (o & ? & ?).
    exists o. split; [done|]. rewrite Hb3. by repeat apply stored_app.
Qed.

Lemma wf_intro b0 b3 p (vts : list Z) :
  wf b0 → buf_ b3 = p ++ buf_ b0 → align_ok (minalign_ b3) →
  ctl b3 = ([], vtables b0 ++ vts, 0, false, false, dedup_vtables_ b3) →
  (∀ o, o ∈ vts → ∃ VT, region (buf_ b3) o VT ∧ 4 ≤ len VT < 65536 ∧ ReadScalar 2 VT 0 = Ok (len VT)) →
  wf b3.
Proof.
  intros Hwf Hb Ha [= E1 E2 E3 E4 E5] Hvts. split; try done. rewrite E2. intros o [Ho|Ho]%elem_of_app; [|auto].
  destruct (wf_vtables _ Hwf o Ho) as (V & HV & ?). exists V. split; [|done]. rewrite Hb. by apply region_app.
Qed.

(** The second half of [EndTable], once the vtable is written: share an
    equal vtable or keep this one, and point the table to it. *)
Lemma EndTable_share b0 b b1 VT pad q :
  wf b0 → buf_ b1 = le_split 4 0 ++ pad ++ buf_ b → buf_ b = q ++ buf_ b0 →
  field_locs b1 = [] → max_voffset_ b1 = 0 → align_ok (minalign_ b1) → force_defaults_ b1 = false → vtables b1 = vtables b0 →
  4 ≤ len VT < 65536 → ReadScalar 2 VT 0 = Ok (len VT) → GetSize b1 + len VT < FLATBUFFERS_MAX_BUFFER_SIZE →
  let bv := set_buf (λ m, VT ++ m) b1 in
  let loc := GetSize b1 in
  ∃ b3 vt p,
    (let? dup := (if dedup_vtables_ bv then find_vtable (len VT) (vtables bv) (VT ++ buf_ b1) else Ok None) in
     let '(vt_use, b) :=
       match dup with
       | Some o => (o, set_buf (drop (Z.to_nat (GetSize bv - loc))) bv)
       | None => (GetSize bv, bv)
       end in
     let? b := (if vt_use =? GetSize b
                then let? _ := ensure_space b in Ok (set_vtables (vtables b ++ [vt_use]) b)
                else Ok b) in
     let? m := WriteScalar 4 (buf_ b) (GetSize b - loc) (vt_use - loc) in
     Ok (loc, set_nested false (set_buf (λ _, m) b))) = Ok (loc, b3) ∧
    wf b3 ∧ buf_ b3 = p ++ le_split 4 (vt - loc) ++ pad ++ buf_ b ∧ 0 < vt < 2 ^ 31 ∧ len p ≤ len VT ∧
    (vt = len (p ++ le_split 4 0 ++ pad ++ buf_ b) ∧ p = VT ∨ region (buf_ b0) vt VT).
Proof.
  intros Hwf Hb1 Hb Hfl Hmx Hma Hfd Hvts HV1 HV2 Hs bv loc.
  assert (loc = len (le_split 4 0 ++ pad ++ buf_ b)) as Hloc by (unfold loc, GetSize; by rewrite Hb1).
  assert (GetSize bv = len VT + loc) as Hbv by (unfold bv, loc, GetSize; cbn; rewrite length_app; lia).
  unfold FLATBUFFERS_MAX_BUFFER_SIZE in *.
  assert (∃ r, (if dedup_vtables_ bv then find_vtable (len VT) (vtables bv) (VT ++ buf_ b1) else Ok None) = Ok r ∧
    match r with Some o => o ∈ vtables b0 ∧ region (buf_ b0) o VT | None => True end) as (r & Hfind & Hr).
  { destruct (dedup_vtables_ bv); [|by exists None]. unfold bv. cbn [vtables set_buf]. rewrite Hvts, Hb1, Hb.
    destruct (find_vtable_ok VT (le_split 4 0 ++ pad ++ q) (buf_ b0) (vtables b0)) as (r & Hr & ?);
      [lia|apply (wf_vtables _ Hwf)|]. exists r. split; [|done]. rewrite <- Hr. f_equal. by rewrite <- !app_assoc. }
  rewrite Hfind. cbn [rbind]. destruct r as [o|].
  - destruct Hr as [Hin Hreg]. pose proof (region_bounds _ _ _ Hreg) as Hrb.
    assert (len (buf_ b0) < loc) as Hlt by (rewrite Hloc, Hb, !length_app, length_le_split; lia).
    replace (Z.to_nat (GetSize bv - loc)) with (length VT) by lia.
    set (b4 := set_buf (drop (length VT)) bv).
    assert (buf_ b4 = [] ++ le_split 4 0 ++ pad ++ buf_ b) as Hb4.
    { unfold b4, bv. cbn [buf_ set_buf]. by rewrite drop_app_length, Hb1. }
    assert (GetSize b4 = loc) as Hsz4 by (unfold GetSize; rewrite Hb4, Hloc; done).
    destruct (Z.eqb_spec o (GetSize b4)); [lia|]. cbn [rbind]. unfold GetSize. rewrite Hb4.
    rewrite patch_vtable by done. cbn [rbind]. eexists _, o, []. split; [done|]. split; [|split; [done|split; [lia|split; [cbn; lia|by right]]]].
    eapply (wf_intro b0 _ (le_split 4 (o - loc) ++ pad ++ q) []); [done| |done| |by intros ? ?%not_elem_of_nil].
    + cbn [buf_ set_nested set_buf app]. rewrite Hb. by rewrite <- !app_assoc.
    + unfold ctl, b4, bv. cbn. by rewrite Hfl, Hmx, Hfd, Hvts, app_nil_r.
  - rewrite Z.eqb_refl, ensure_space_ok by (unfold FLATBUFFERS_MAX_BUFFER_SIZE; lia). cbn [rbind].
    set (b4 := set_vtables _ bv).
    assert (buf_ b4 = VT ++ le_split 4 0 ++ pad ++ buf_ b) as Hb4 by (unfold b4, bv; cbn; by rewrite Hb1).
    unfold GetSize at 1. rewrite Hb4, patch_vtable by done. cbn [rbind].
    eexists _, (GetSize bv), VT. split; [done|]. split; [|split; [done|split; [lia|split; [lia|left]]]].
    + eapply (wf_intro b0 _ (VT ++ le_split 4 (GetSize bv - loc) ++ pad ++ q) [GetSize bv]); [done| |done| |].
      * cbn [buf_ set_nested set_buf app]. rewrite Hb. by rewrite <- !app_assoc.
      * unfold ctl, b4, bv. cbn. by rewrite Hfl, Hmx, Hfd, Hvts.
      * intros o ->%list_elem_of_singleton. exists VT. split; [|done]. cbn [buf_ set_nested set_buf].
        exists [], (le_split 4 (GetSize bv - loc) ++ pad ++ buf_ b). split; [done|].
        rewrite Hbv, Hloc, !length_app, !length_le_split. lia.
    + split; [|done]. rewrite Hbv, Hloc, !length_app. lia.
Qed.

Lemma EndTable_ok b0 b fs :
  wf b0 → open_table b0 b fs → NoDup (field_id <$> fs) →
  (∀ f, f ∈ fs → 4 ≤ field_id f ∧ field_id f mod 2 = 0) →
  (length fs ≤ 1000)%nat → GetSize b0 + table_bound (length fs) < FLATBUFFERS_MAX_BUFFER_SIZE →
  ∃ t b', EndTable (GetSize b0) b = Ok (t, b') ∧ wf b' ∧ extends b0 b' ∧ 0 < t ≤ GetSize b' ∧
    GetSize b' ≤ GetSize b0 + table_bound (length fs) ∧ has_table (buf_ b') t fs.
Proof.
  intros Hwf Ho Hnd Hids Hn Hs. pose proof (open_table_size _ _ _ Ho) as Hsz.
  unfold table_bound, FLATBUFFERS_MAX_BUFFER_SIZE in *. destruct (ot_max _ _ _ Ho) as [Hm Hme].
  destruct (PushElement_ok 4 0 b) as (b1 & pad & Hpush & Hg & Hp & _ & _);
    [unfold align_ok; lia|unfold FLATBUFFERS_MAX_BUFFER_SIZE; lia|].
  pose proof (grown_size _ _ _ Hg) as Hsz1. rewrite length_app, length_le_split in Hsz1.
  destruct (open_table_locs b0 b fs (GetSize b1) Ho Hnd Hids) as (Hnd2 & Hfl & Hlive); [lia..|].
  destruct (ot_buf _ _ _ Ho) as (q & Hq & Hql).
  destruct Hg as (Hb1 & [= E1 E2 E3 E4 E5 E6] & Hga). rewrite <- app_assoc in Hb1.
  set (mv := Z.max (uint16 (max_voffset_ b + 2)) 4).
  assert (max_voffset_ b + 2 ≤ mv ∧ 4 ≤ mv ≤ 66 ∧ mv mod 2 = 0) as (Hmv1 & Hmv2 & Hmve).
  { unfold mv. rewrite wrap_u_small by lia. split; [lia|]. split; [lia|].
    destruct (Z.max_spec (max_voffset_ b + 2) 4) as [[_ ->]|[_ ->]]; [done|].
    by rewrite <- Zplus_mod_idemp_l, Hme. }
  destruct (vtable_written (GetSize b1) (uint32 (GetSize b1 - GetSize b0)) mv (field_locs b))
    as (VT & HlV & Hvt & Hwr); [lia|done| |done|].
  { intros off id Hin. destruct (Hfl _ _ Hin) as (? & ? & ? & ?). split_and!; done || lia. }
  destruct (EndTable_share b0 b (ClearOffsets b1) VT pad q) as (b3 & vt & p & Hend & Hwf3 & Hb3 & Hvtr & Hlp & Hor);
    [done|done|done|done|done| | | | | | |].
  { cbn. apply Hga, (ot_minalign _ _ _ Ho). }
  { cbn. rewrite E5. apply (ot_force _ _ _ Ho). }
  { cbn. rewrite E2. apply (ot_vtables _ _ _ Ho). }
  { lia. }
  { apply Hvt. }
  { unfold FLATBUFFERS_MAX_BUFFER_SIZE, GetSize in *. cbn. lia. }
  exists (GetSize b1), b3.
  assert (GetSize b1 = 4 + len pad + GetSize b) as Hloc by lia.
  destruct (closed_table b0 b b3 fs p pad vt VT) as (? & ? & Hsz3 & ?); try done || lia;
    [by rewrite <- Hloc|by rewrite <- Hloc|]. rewrite <- Hloc in *.
  split; [|split_and!; try done; lia]. etransitivity; [|exact Hend].
  unfold EndTable. rewrite (ot_nested _ _ _ Ho). cbn [negb]. rewrite Hpush. cbn [rbind].
  rewrite E3. fold mv. unfold fill, push_small. rewrite ensure_space_ok by (unfold FLATBUFFERS_MAX_BUFFER_SIZE; lia).
  cbn [rbind]. destruct (Z.ltb_spec (uint32 (GetSize b1 - GetSize b0)) 65536); [|rewrite wrap_u_small in *; lia].
  cbn [negb buf_ set_buf field_locs]. rewrite E1. specialize (Hwr (buf_ b1)).
  destruct (WriteScalar 2 (replicate (Z.to_nat mv) Byte.x00 ++ buf_ b1) 2 _) as [m1|]; [|done]. cbn [rbind] in *.
  destruct (WriteScalar 2 m1 0 mv) as [m2|]; [|done]. cbn [rbind] in *. rewrite Hwr. cbn [rbind].
  rewrite ReadScalar_app_l by lia. destruct Hvt as (_ & -> & _). done.
Qed.

(** A table built over a well-formed builder: it is there, with its fields. *)
Lemma build_table_ok b fs :
  wf b → NoDup (field_id <$> fs) → Forall (field_ok b) fs → (length fs ≤ 1000)%nat →
  GetSize b + table_bound (length fs) < FLATBUFFERS_MAX_BUFFER_SIZE →
  ∃ t b', build_table fs b = Ok (t, b') ∧ wf b' ∧ extends b b' ∧ 0 < t ≤ GetSize b' ∧
    GetSize b' ≤ GetSize b + table_bound (length fs) ∧ has_table (buf_ b') t fs.
Proof.
  intros Hwf Hnd HF Hn Hs. unfold build_table, StartTable, NotNested.
  rewrite (wf_nested _ Hwf), (wf_fields _ Hwf). cbn [rbind].
  destruct (add_fields_ok b fs _ [] (open_table_start b Hwf) HF) as (b1 & -> & Ho).
  { unfold table_bound in Hs. cbn. lia. }
  cbn [rbind]. destruct (EndTable_ok b b1 fs) as (t & b' & H); try done.
  - intros f Hf. rewrite Forall_forall in HF. destruct (HF f Hf) as (? & ? & _). split; [lia|done].
  - eauto.
Qed.

(** ** Strings, vectors, the root *)

Lemma builder_wf_new : wf FlatBufferBuilder_new.
Proof. split; try done; [by left|by intros ? ?%not_elem_of_nil]. Qed.

Lemma wf_grown b b' p : wf b → grown b b' p → wf b'.
Proof.
  intros [Hn Hf Hm Hd Ha Hv] (Hb & [= E1 E2 E3 E4 E5 E6] & Hga). split; try congruence; [auto|].
  rewrite E2. intros o Ho. destruct (Hv o Ho) as (V & HV & ?). exists V. split; [|done].
  rewrite Hb. by apply region_app.
Qed.

Lemma NotNested_wf b : wf b → NotNested b = Ok tt.
Proof. intros Hwf. unfold NotNested. by rewrite (wf_nested _ Hwf), (wf_fields _ Hwf). Qed.

Lemma grown_extends b b' p : grown b b' p → extends b b'.
Proof. intros [H _]. by exists p. Qed.

Lemma extends_refl b : extends b b.
Proof. by exists []. Qed.

Lemma extends_trans b1 b2 b3 : extends b1 b2 → extends b2 b3 → extends b1 b3.
Proof. intros [p Hp] [q Hq]. exists (q ++ p). by rewrite Hq, Hp, app_assoc. Qed.

Lemma extends_size b b' : extends b b' → GetSize b ≤ GetSize b'.
Proof. intros [p Hp]. unfold GetSize. rewrite Hp, length_app. lia. Qed.

Lemma list_byte_length s : length (String.list_byte_of_string s) = String.length s.
Proof.
  unfold String.list_byte_of_string. rewrite List.length_map. induction s as [|c s IH]; cbn; auto.
Qed.

Lemma PushBytes_ok bs b :
  GetSize b < FLATBUFFERS_MAX_BUFFER_SIZE → ∃ b', PushBytes bs b = Ok b' ∧ grown b b' bs.
Proof. intros H. destruct bs; [|by apply push_small_ok]. exists b. by split. Qed.

Lemma CreateString_ok s b :
  wf b → GetSize b + strlen s + 12 < FLATBUFFERS_MAX_BUFFER_SIZE →
  ∃ off b', CreateString s b = Ok (off, b') ∧ wf b' ∧ extends b b' ∧ 0 < off ≤ GetSize b' ∧
    GetSize b' ≤ GetSize b + strlen s + 12 ∧ has_string (buf_ b') off s.
Proof.
  intros Hwf Hs. unfold CreateString. rewrite NotNested_wf by done. cbn [rbind].
  pose proof (list_byte_length s) as Hl. set (bs := String.list_byte_of_string s) in *.
  assert (0 ≤ GetSize b) by (unfold GetSize; lia). unfold FLATBUFFERS_MAX_BUFFER_SIZE in Hs.
  destruct (PreAlign_ok (len bs + 1) 4 b) as (b1 & p & -> & Hg1 & Hp & Ha);
    [unfold align_ok; lia|unfold FLATBUFFERS_MAX_BUFFER_SIZE; lia|]. pose proof (grown_size _ _ _ Hg1).
  cbn [rbind]. destruct (fill_ok 1 b1) as (b2 & -> & Hg2); [unfold FLATBUFFERS_MAX_BUFFER_SIZE; lia|].
  pose proof (grown_size _ _ _ Hg2) as Hz2. rewrite length_replicate in Hz2. change (Z.of_nat (Z.to_nat 1)) with 1 in Hz2. cbn [rbind].
  destruct (PushBytes_ok bs b2) as (b3 & -> & Hg3); [unfold FLATBUFFERS_MAX_BUFFER_SIZE; lia|].
  pose proof (grown_size _ _ _ Hg3). cbn [rbind].
  destruct (PushElement_ok 4 (uint32 (len bs)) b3) as (b4 & p4 & -> & Hg4 & _ & Hp4 & _);
    [unfold align_ok; lia|unfold FLATBUFFERS_MAX_BUFFER_SIZE; lia|].
  rewrite Hp4 in Hg4; [clear Hp4|].
  2: { replace (GetSize b3) with (GetSize b1 + (len bs + 1)) by lia. done. }
  rewrite app_nil_r in Hg4. pose proof (grown_size _ _ _ Hg4) as Hz4. rewrite length_le_split in Hz4.
  assert (grown b b4 (le_split 4 (uint32 (len bs)) ++ bs ++ replicate (Z.to_nat 1) Byte.x00 ++ p)) as Hg.
  { eapply grown_trans, Hg4. eapply grown_trans, Hg3. by eapply grown_trans, Hg2. }
  cbn [rbind]. exists (GetSize b4), b4. split; [done|]. split; [by eapply wf_grown|].
  split; [by eapply grown_extends|]. split; [lia|]. split; [lia|].
  unfold has_string. fold bs. split; [lia|]. destruct Hg as [Hg _].
  rewrite wrap_u_small in Hg by lia.
  exists [], (p ++ buf_ b). unfold GetSize. rewrite Hg, <- !app_assoc. done.
Qed.

Lemma push_offsets_ok v b :
  GetSize b mod 4 = 0 → Forall (λ o, 0 < o ≤ GetSize b) v →
  GetSize b + 4 * len v + 7 ≤ FLATBUFFERS_MAX_BUFFER_SIZE →
  ∃ b' p, push_offsets v b = Ok b' ∧ grown b b' p ∧ len p = 4 * len v ∧ GetSize b' mod 4 = 0 ∧
    ∀ i o, v !! i = Some o → ∃ u, 0 ≤ u < 2 ^ 32 ∧
      region (buf_ b') (GetSize b' - 4 * Z.of_nat i) (le_split 4 u) ∧ GetSize b' - 4 * Z.of_nat i - u = o.
Proof.
  intros Ha HF Hs. induction HF as [|o v Ho HF IH].
  { exists b, []. split; [done|]. split; [by split|]. split; [done|]. split; [done|]. by intros i ? ?. }
  cbn [length] in *. destruct IH as (b1 & p & Hpush & Hg1 & Hp & Ha1 & Hi); [lia|].
  pose proof (grown_size _ _ _ Hg1) as Hz1.
  cbn [push_offsets]. rewrite Hpush. cbn [rbind].
  destruct (PushOffset_ok o b1) as (b2 & p2 & u & -> & Hg2 & _ & Hu & Hoff & Hp2 & Ha2); [lia..|].
  rewrite (Hp2 Ha1), app_nil_r in Hg2. pose proof (grown_size _ _ _ Hg2) as Hz2. rewrite length_le_split in Hz2.
  cbn [rbind]. exists b2, (le_split 4 u ++ p). split; [done|]. split; [by eapply grown_trans|].
  split; [rewrite length_app, length_le_split; lia|]. split; [done|].
  destruct Hg2 as [Hb2 _]. intros [|i] o' Hlk; cbn in Hlk.
  - injection Hlk as <-. exists u. rewrite Z.sub_0_r. split; [lia|]. split; [|done].
    unfold GetSize. rewrite Hb2. apply region_front.
  - destruct (Hi i o' Hlk) as (u' & Hu' & Hr' & Ho'). exists u'. split; [done|].
    replace (GetSize b2 - 4 * Z.of_nat (S i)) with (GetSize b1 - 4 * Z.of_nat i) by lia.
    split; [|done]. rewrite Hb2. by apply region_app.
Qed.

Lemma CreateVector_ok v b :
  wf b → Forall (λ o, 0 < o ≤ GetSize b) v →
  GetSize b + 4 * len v + 20 < FLATBUFFERS_MAX_BUFFER_SIZE →
  ∃ off b', CreateVector v b = Ok (off, b') ∧ wf b' ∧ extends b b' ∧ 0 < off ≤ GetSize b' ∧
    GetSize b' ≤ GetSize b + 4 * len v + 20 ∧ has_vector (buf_ b') off v.
Proof.
  intros Hwf HF Hs. unfold CreateVector, StartVector. rewrite NotNested_wf by done. cbn [rbind].
  assert (0 ≤ GetSize b) by (unfold GetSize; lia). unfold FLATBUFFERS_MAX_BUFFER_SIZE in Hs.
  set (b0 := set_nested true b). change (GetSize b) with (GetSize b0) in *.
  destruct (PreAlign_ok (len v * 4) 4 b0) as (b1 & p1 & -> & Hg1 & Hp1 & _);
    [unfold align_ok; lia|unfold FLATBUFFERS_MAX_BUFFER_SIZE; lia|]. pose proof (grown_size _ _ _ Hg1). cbn [rbind].
  destruct (PreAlign_ok (len v * 4) 4 b1) as (b2 & p2 & -> & Hg2 & Hp2 & Ha);
    [unfold align_ok; lia|unfold FLATBUFFERS_MAX_BUFFER_SIZE; lia|]. pose proof (grown_size _ _ _ Hg2). cbn [rbind].
  rewrite Z_mod_plus_full in Ha.
  destruct (push_offsets_ok v b2) as (b3 & p3 & -> & Hg3 & Hp3 & Ha3 & Hi); [done| | |].
  { eapply Forall_impl; [exact HF|]. intros o ?. cbn in *. lia. }
  { unfold FLATBUFFERS_MAX_BUFFER_SIZE. lia. }
  pose proof (grown_size _ _ _ Hg3). cbn [rbind].
  pose proof (grown_trans _ _ _ _ _ Hg1 (grown_trans _ _ _ _ _ Hg2 Hg3)) as Hg.
  unfold EndVector. destruct Hg as (Hb3 & [= E1 E2 E3 E4 E5 E6] & Hga). rewrite E4. cbn [negb].
  destruct (PushElement_ok 4 (uint32 (len v)) (set_nested false b3)) as (b4 & p4 & -> & Hg4 & _ & Hp4 & _);
    [unfold align_ok; lia|change (GetSize (set_nested false b3)) with (GetSize b3);
      unfold FLATBUFFERS_MAX_BUFFER_SIZE; lia|].
  specialize (Hp4 Ha3) as ->. rewrite app_nil_r in Hg4. pose proof (grown_size _ _ _ Hg4) as Hz4.
  rewrite length_le_split in Hz4. change (GetSize (set_nested false b3)) with (GetSize b3) in Hz4.
  rewrite wrap_u_small in Hg4 by lia.
  exists (GetSize b4), b4. split; [done|].
  assert (grown b (set_nested false b3) ((p3 ++ p2) ++ p1)) as Hgb.
  { split; [by rewrite <- app_assoc in *|]. split; [|done]. unfold ctl. cbn.
    by rewrite E1, E2, E3, E5, E6, (wf_nested _ Hwf). }
  pose proof (grown_trans _ _ _ _ _ Hgb Hg4) as Hg'.
  split; [by eapply wf_grown|]. split; [by eapply grown_extends|]. split; [lia|]. split; [lia|].
  destruct Hg4 as [Hb4 _]. cbn in Hb4. unfold has_vector. split; [lia|]. split.
  - unfold GetSize. rewrite Hb4. apply region_front.
  - intros i o Hlk. destruct (Hi i o Hlk) as (u & ? & Hr & ?). exists u. split; [done|].
    replace (GetSize b4 - 4 - 4 * Z.of_nat i) with (GetSize b3 - 4 * Z.of_nat i) by lia.
    split; [|done]. rewrite Hb4. by apply region_app.
Qed.

(** [GetRoot] finds the root of a finished buffer. *)
Lemma Finish_ok root b :
  wf b → 0 < root ≤ GetSize b → GetSize b + 20 < FLATBUFFERS_MAX_BUFFER_SIZE →
  ∃ b' p, Finish root b = Ok b' ∧ finished b' = true ∧ buf_ b' = p ++ buf_ b ∧ len p ≤ 18 ∧
    ReadScalar 4 (buf_ b') 0 = Ok (len (buf_ b') - root).
Proof.
  intros Hwf Hr Hs. unfold Finish. rewrite NotNested_wf by done. cbn [rbind].
  unfold FLATBUFFERS_MAX_BUFFER_SIZE in *. set (b0 := set_vtables [] b).
  change (GetSize b) with (GetSize b0) in *. pose proof (wf_minalign _ Hwf) as Hma.
  change (minalign_ b) with (minalign_ b0) in *.
  destruct (PreAlign_ok 4 (minalign_ b0) b0 Hma) as (b1 & p1 & -> & Hg1 & Hp1 & _);
    [unfold FLATBUFFERS_MAX_BUFFER_SIZE; lia|]. pose proof (grown_size _ _ _ Hg1). cbn [rbind].
  destruct (PushOffset_ok root b1) as (b2 & p2 & u & -> & Hg2 & Hp2 & Hu & Hoff & _);
    [unfold FLATBUFFERS_MAX_BUFFER_SIZE; unfold align_ok in Hma; lia|lia|]. cbn [rbind].
  pose proof (grown_trans _ _ _ _ _ Hg1 Hg2) as [Hb _]. destruct Hg2 as [Hb2 _].
  exists (set_finished true b2), ((le_split 4 u ++ p2) ++ p1). split; [done|]. split; [done|]. split; [done|].
  cbn [buf_ set_finished]. unfold align_ok in Hma. rewrite !length_app, length_le_split. split; [lia|].
  replace 0 with (len (buf_ b2) - GetSize b2) at 1 by (unfold GetSize; lia).
  rewrite (region_read _ _ 4 u); [|unfold GetSize; rewrite Hb2, <- app_assoc; apply region_front].
  f_equal. rewrite Z.mod_small by (cbn; lia). unfold GetSize in Hoff. lia.
Qed.
