(* ===== verification/FlatMemory.v ===== *)
(** * The memory of the builder (flatbuffers.h, [vector_downward])

    The buffer of a [FlatBufferBuilder] is one allocation used from both ends:
    data grows from the end towards lower addresses, a scratchpad from the
    front.  The model keeps the allocation as a block of bytes and the three
    pointers as offsets into it; a null [buf_] is [None], with the other
    pointers null.  Fresh memory holds arbitrary bytes.  The refinement at the
    end shows that the builder files may treat the data as a list of bytes. *)

From Stdlib Require Import ZArith Lia.
From stdpp Require Import base list.
From S2P Require Import Prelude FlatBuilder.

Module VectorDownward.

Section memory.

(** [new uint8_t\[size\]]: the indeterminate bytes it holds. *)
Context (fresh_bytes : nat → list byte).
Hypothesis fresh_length : ∀ n, length (fresh_bytes n) = n.

(** [Allocate] with the default allocator *)
Definition allocate (size : Z) : list byte := fresh_bytes (Z.to_nat size).

(** [memcpy(dst + at, src + from, n)] between two blocks *)
Definition copy_between (dst : list byte) (at_ : Z) (src : list byte) (from n : Z) : result (list byte) :=
  let? bs := load (Z.to_nat n) src from in store dst at_ bs.

(** [Allocator::memcpy_downward] *)
Definition memcpy_downward (old_p new_p : list byte) (old_size new_size in_use_back in_use_front : Z) : result (list byte) :=
  let? m := copy_between new_p (new_size - in_use_back) old_p (old_size - in_use_back) in_use_back in
  copy_between m 0 old_p 0 in_use_front.

(** [Allocator::reallocate_downward] *)
Definition reallocate_downward (old_p : list byte) (old_size new_size in_use_back in_use_front : Z) : result (list byte) :=
  if negb (old_size <? new_size) then Err AssertFail
  else memcpy_downward old_p (allocate new_size) old_size new_size in_use_back in_use_front.

(** [class vector_downward] *)
Record vector_downward := mkVd {
  initial_size_ : Z;
  buffer_minalign_ : Z;
  reserved_ : Z;
  buf_ : option (list byte);
  cur_ : Z;
  scratch_ : Z }.

Definition vd_new (initial_size buffer_minalign : Z) : vector_downward :=
  mkVd initial_size buffer_minalign 0 None 0 0.

Definition size (v : vector_downward) : Z := uint32 (reserved_ v - cur_ v).
Definition scratch_size (v : vector_downward) : Z := uint32 (scratch_ v).
Definition capacity (v : vector_downward) : Z := reserved_ v.

(** The position [data_at(offset)], and the asserted [data()]. *)
Definition data_at (offset : Z) (v : vector_downward) : Z := reserved_ v - offset.
Definition data (v : vector_downward) : result (list byte) :=
  match buf_ v with Some m => Ok (drop (Z.to_nat (cur_ v)) m) | None => Err AssertFail end.

Definition set_ptrs (m : option (list byte)) (c s : Z) (v : vector_downward) : vector_downward :=
  mkVd (initial_size_ v) (buffer_minalign_ v) (reserved_ v) m c s.

Definition clear_scratch (v : vector_downward) : vector_downward := set_ptrs (buf_ v) (cur_ v) 0 v.

Definition clear (v : vector_downward) : vector_downward :=
  clear_scratch
    match buf_ v with
    | Some m => set_ptrs (Some m) (reserved_ v) (scratch_ v) v
    | None => mkVd (initial_size_ v) (buffer_minalign_ v) 0 None 0 (scratch_ v)
    end.

Definition clear_buffer (v : vector_downward) : vector_downward := set_ptrs None (cur_ v) (scratch_ v) v.
Definition reset (v : vector_downward) : vector_downward := clear (clear_buffer v).

(** [release_raw]: the block, its size and the offset of the data; the
    vector is empty afterwards. *)
Definition release_raw (v : vector_downward) : option (list byte) * Z * Z * vector_downward :=
  (buf_ v, reserved_ v, cur_ v, clear (clear_buffer v)).

(** [class DetachedBuffer]: a block that has left its vector.  The builders of
    the program have no allocator of their own. *)
Record DetachedBuffer := mkDb {
  db_buf_ : option (list byte);
  db_reserved_ : Z;
  db_cur_ : Z;
  db_size_ : Z }.

Definition DetachedBuffer_new : DetachedBuffer := mkDb None 0 0 0.
Definition db_reset (d : DetachedBuffer) : DetachedBuffer := mkDb None 0 0 0.

(** The blocks that [destroy] and [clear_buffer] give back. *)
Definition db_destroy (d : DetachedBuffer) : list (list byte) * DetachedBuffer :=
  (match db_buf_ d with Some m => [m] | None => [] end, db_reset d).
Definition freed_by_clear_buffer (v : vector_downward) : list (list byte) :=
  match buf_ v with Some m => [m] | None => [] end.

(** [DetachedBuffer(DetachedBuffer &&)]: the new object and what is left of
    [other]; and the assignment, with the blocks it gives back. *)
Definition db_move (other : DetachedBuffer) : DetachedBuffer * DetachedBuffer :=
  (mkDb (db_buf_ other) (db_reserved_ other) (db_cur_ other) (db_size_ other), db_reset other).
Definition db_assign (this other : DetachedBuffer) : list (list byte) * (DetachedBuffer * DetachedBuffer) :=
  let '(freed, _) := db_destroy this in (freed, db_move other).

(** The bytes between [data()] and [data() + size()]. *)
Definition db_bytes (d : DetachedBuffer) : result (list byte) :=
  match db_buf_ d with
  | Some m => load (Z.to_nat (db_size_ d)) m (db_cur_ d)
  | None => if db_size_ d =? 0 then Ok [] else Err NullDeref
  end.

(** [release] *)
Definition release (v : vector_downward) : DetachedBuffer * vector_downward :=
  (mkDb (buf_ v) (reserved_ v) (cur_ v) (size v), clear (set_ptrs None (cur_ v) (scratch_ v) v)).

(** [vector_downward(vector_downward &&)], [swap] and the assignment *)
Definition vd_move (other : vector_downward) : vector_downward * vector_downward :=
  (mkVd (initial_size_ other) (buffer_minalign_ other) (reserved_ other) (buf_ other) (cur_ other) (scratch_ other),
   mkVd (initial_size_ other) (buffer_minalign_ other) 0 None 0 0).
Definition vd_swap (this other : vector_downward) : vector_downward * vector_downward := (other, this).

(** [operator=]: [this], [other] and the blocks that the temporary gives back
    when it is destroyed. *)
Definition vd_assign (this other : vector_downward) : vector_downward * vector_downward * list (list byte) :=
  let '(temp, other) := vd_move other in
  let '(this, temp) := vd_swap this temp in
  (this, other, freed_by_clear_buffer temp).

(** [reallocate] *)
Definition reallocate (n : Z) (v : vector_downward) : result vector_downward :=
  let old_reserved := reserved_ v in
  let old_size := size v in
  let old_scratch_size := scratch_size v in
  let reserved := uint64 (old_reserved + Z.max n (if old_reserved =? 0 then initial_size_ v else old_reserved / 2)) in
  let reserved := Z.land (uint64 (reserved + buffer_minalign_ v - 1)) (uint64 (Z.lnot (buffer_minalign_ v - 1))) in
  let? m := match buf_ v with
            | Some old => reallocate_downward old old_reserved reserved old_size old_scratch_size
            | None => Ok (allocate reserved)
            end in
  Ok (mkVd (initial_size_ v) (buffer_minalign_ v) reserved (Some m) (reserved - old_size) old_scratch_size).

(** [ensure_space] and [make_space] *)
Definition vd_ensure_space (n : Z) (v : vector_downward) : result vector_downward :=
  if negb ((scratch_ v <=? cur_ v) && (0 <=? scratch_ v)) then Err AssertFail else
  let? v := (if cur_ v - scratch_ v <? n then reallocate n v else Ok v) in
  if size v <? FLATBUFFERS_MAX_BUFFER_SIZE then Ok v else Err AssertFail.

Definition make_space (n : Z) (v : vector_downward) : result vector_downward :=
  let? v := vd_ensure_space n v in Ok (set_ptrs (buf_ v) (cur_ v - n) (scratch_ v) v).

(** Writing at [cur_] or [scratch_]; a null block faults. *)
Definition write_at (a : Z) (bs : list byte) (v : vector_downward) : result vector_downward :=
  match buf_ v with
  | None => match bs with [] => Ok v | _ => Err NullDeref end
  | Some m => let? m := store m a bs in Ok (set_ptrs (Some m) (cur_ v) (scratch_ v) v)
  end.

(** [push], [push_small], [fill] and [fill_big] *)
Definition vd_push_small (bs : list byte) (v : vector_downward) : result vector_downward :=
  let? v := make_space (len bs) v in write_at (cur_ v) bs v.
Definition push (bs : list byte) (v : vector_downward) : result vector_downward :=
  match bs with [] => Ok v | _ => vd_push_small bs v end.
Definition vd_fill (n : Z) (v : vector_downward) : result vector_downward :=
  vd_push_small (replicate (Z.to_nat n) Byte.x00) v.

(** [scratch_push_small], [pop] and [scratch_pop] *)
Definition scratch_push_small (bs : list byte) (v : vector_downward) : result vector_downward :=
  let? v := vd_ensure_space (len bs) v in
  let? v := write_at (scratch_ v) bs v in
  Ok (set_ptrs (buf_ v) (cur_ v) (scratch_ v + len bs) v).
Definition pop (n : Z) (v : vector_downward) : vector_downward := set_ptrs (buf_ v) (cur_ v + n) (scratch_ v) v.
Definition scratch_pop (n : Z) (v : vector_downward) : vector_downward := set_ptrs (buf_ v) (cur_ v) (scratch_ v - n) v.

(** ** What the vector holds *)

Definition contents (v : vector_downward) : list byte :=
  match buf_ v with Some m => drop (Z.to_nat (cur_ v)) m | None => [] end.
Definition scratchpad (v : vector_downward) : list byte :=
  match buf_ v with Some m => take (Z.to_nat (scratch_ v)) m | None => [] end.

(** The pointers are ordered within the block, and sizes fit their types. *)
Record vd_wf (v : vector_downward) : Prop := {
  vw_init : 0 < initial_size_ v < 2 ^ 32;
  vw_align : ∃ k, 0 ≤ k ≤ 16 ∧ buffer_minalign_ v = 2 ^ k;
  vw_order : 0 ≤ scratch_ v ≤ cur_ v ∧ cur_ v ≤ reserved_ v;
  vw_block : match buf_ v with Some m => len m = reserved_ v ∧ 0 < reserved_ v | None => reserved_ v = 0 end;
  vw_small : reserved_ v - cur_ v < 2 ^ 32 ∧ scratch_ v < 2 ^ 32 }.

Lemma vd_new_ok n k : 0 < n < 2 ^ 32 → 0 ≤ k ≤ 16 → vd_wf (vd_new n (2 ^ k)) ∧ contents (vd_new n (2 ^ k)) = [] ∧ scratchpad (vd_new n (2 ^ k)) = [].
Proof. intros Hn Hk. split; [|done]. split; cbn; try lia. by exists k. Qed.

Lemma size_eq v : vd_wf v → size v = len (contents v).
Proof.
  intros [_ _ Ho Hb Hs]. unfold size, contents. rewrite wrap_u_small by lia.
  destruct (buf_ v) as [m|]; [|cbn; lia]. destruct Hb as [Hm _]. rewrite length_drop. lia.
Qed.

Lemma scratch_size_eq v : vd_wf v → scratch_size v = scratch_ v ∧ len (scratchpad v) = scratch_ v.
Proof.
  intros [_ _ Ho Hb Hs]. unfold scratch_size, scratchpad. rewrite wrap_u_small by lia. split; [done|].
  destruct (buf_ v) as [m|]; [|cbn; lia]. destruct Hb as [Hm _]. rewrite length_take. lia.
Qed.

(** Rounding up to a power of two. *)
Lemma round_up x k :
  0 ≤ k ≤ 16 → 0 ≤ x < 2 ^ 40 →
  x ≤ Z.land (uint64 (x + 2 ^ k - 1)) (uint64 (Z.lnot (2 ^ k - 1))) < x + 2 ^ k.
Proof.
  intros Hk Hx. assert (0 < 2 ^ k) by (apply Z.pow_pos_nonneg; lia).
  assert (2 ^ k ≤ 2 ^ 16) by (apply Z.pow_le_mono_r; lia).
  rewrite (wrap_u_small 64 (x + 2 ^ k - 1)) by lia.
  assert (Z.land (x + 2 ^ k - 1) (uint64 (Z.lnot (2 ^ k - 1))) = Z.land (x + 2 ^ k - 1) (Z.lnot (2 ^ k - 1))) as ->.
  { apply Z.bits_inj'. intros i Hi. rewrite !Z.land_spec. destruct (decide (i < 64)).
    - unfold wrap_u. by rewrite Z.mod_pow2_bits_low by lia.
    - rewrite <- (Z.mod_small (x + 2 ^ k - 1) (2 ^ 64)) by lia. by rewrite Z.mod_pow2_bits_high by lia. }
  replace (2 ^ k - 1) with (Z.ones k) by (rewrite Z.ones_equiv; lia).
  rewrite <- Z.ldiff_land, Z.ldiff_ones_r, Z.shiftl_mul_pow2, Z.shiftr_div_pow2 by lia.
  pose proof (Z.div_mod (x + 2 ^ k - 1) (2 ^ k)). pose proof (Z.mod_pos_bound (x + 2 ^ k - 1) (2 ^ k)). nia.
Qed.

Lemma store_ok m a bs :
  0 ≤ a → a + len bs ≤ len m → store m a bs = Ok (take (Z.to_nat a) m ++ bs ++ drop (Z.to_nat a + length bs) m).
Proof. intros Ha Hn. unfold store. destruct (Z.leb_spec 0 a); [|lia]. destruct (Z.leb_spec (a + len bs) (len m)); [done|lia]. Qed.

(** The copy keeps both ends of the old block. *)
Lemma memcpy_downward_ok old new_p os ns back front :
  len old = os → len new_p = ns → os ≤ ns → 0 ≤ back → 0 ≤ front → back + front ≤ os →
  ∃ m, memcpy_downward old new_p os ns back front = Ok m ∧ len m = ns ∧
    drop (Z.to_nat (ns - back)) m = drop (Z.to_nat (os - back)) old ∧ take (Z.to_nat front) m = take (Z.to_nat front) old.
Proof.
  intros Hos Hns Hle Hb Hf Hbf. unfold memcpy_downward, copy_between.
  rewrite load_ok by lia. cbn [rbind].
  set (bk := take (Z.to_nat back) (drop (Z.to_nat (os - back)) old)).
  assert (bk = drop (Z.to_nat (os - back)) old) as Hbk by (unfold bk; apply take_ge; rewrite length_drop; lia).
  assert (len bk = back) as Hlb by (rewrite Hbk, length_drop; lia).
  rewrite store_ok by lia. cbn [rbind]. rewrite (drop_ge new_p) by lia. rewrite app_nil_r.
  set (m1 := take (Z.to_nat (ns - back)) new_p ++ bk).
  assert (len m1 = ns) as Hm1 by (unfold m1; rewrite length_app, length_take; lia).
  rewrite load_ok by lia. cbn [rbind]. rewrite drop_0. set (fr := take (Z.to_nat front) old).
  assert (len fr = front) as Hlf by (unfold fr; rewrite length_take; lia).
  rewrite store_ok by lia. cbn [rbind]. change (Z.to_nat 0) with 0%nat. rewrite take_0. cbn [app].
  eexists. split; [done|]. rewrite Nat.add_0_l. split_and!.
  - rewrite length_app, length_drop. lia.
  - rewrite drop_app_ge, drop_drop by lia. replace (length fr + (Z.to_nat (ns - back) - length fr))%nat with (Z.to_nat (ns - back)) by lia.
    unfold m1. rewrite drop_app_ge by (rewrite length_take; lia). rewrite length_take, Nat.min_l by lia. by rewrite Nat.sub_diag, drop_0.
  - by rewrite take_app_le, take_ge by lia.
Qed.

(** Making room changes neither the data nor the scratchpad. *)
Lemma vd_ensure_space_ok n v :
  vd_wf v → 0 ≤ n < 2 ^ 32 → len (contents v) < FLATBUFFERS_MAX_BUFFER_SIZE →
  ∃ v', vd_ensure_space n v = Ok v' ∧ vd_wf v' ∧ contents v' = contents v ∧ scratchpad v' = scratchpad v ∧
    n ≤ cur_ v' - scratch_ v' ∧ reserved_ v' - cur_ v' = reserved_ v - cur_ v ∧ scratch_ v' = scratch_ v.
Proof.
  intros Hwf Hn Hsz. pose proof Hwf as [Hi Ha Ho Hb Hs]. unfold vd_ensure_space.
  destruct (Z.leb_spec (scratch_ v) (cur_ v)); [|lia]. destruct (Z.leb_spec 0 (scratch_ v)); [|lia]. cbn [andb negb].
  destruct (Z.ltb_spec (cur_ v - scratch_ v) n) as [Hlt|Hge]; cycle 1.
  { cbn [rbind]. rewrite size_eq by done. destruct (Z.ltb_spec (len (contents v)) FLATBUFFERS_MAX_BUFFER_SIZE); [|lia].
    exists v. split_and!; try done; lia. }
  unfold reallocate. pose proof (size_eq v Hwf) as Hsize. destruct (scratch_size_eq v Hwf) as [Hss _].
  assert (size v = reserved_ v - cur_ v) as Hsz' by (unfold size; rewrite wrap_u_small; lia).
  set (grow := Z.max n (if reserved_ v =? 0 then initial_size_ v else reserved_ v / 2)).
  assert (0 < grow < 2 ^ 36) as Hgrow.
  { unfold grow. pose proof (Z.div_lt (reserved_ v) 2). destruct (Z.eqb_spec (reserved_ v) 0); [lia|].
    unfold FLATBUFFERS_MAX_BUFFER_SIZE in *. assert (reserved_ v < 2 ^ 34) by lia. lia. }
  rewrite (wrap_u_small 64 (reserved_ v + grow)) by (unfold FLATBUFFERS_MAX_BUFFER_SIZE in *; lia).
  destruct Ha as (k & Hk & Ha). rewrite Ha.
  pose proof (round_up (reserved_ v + grow) k Hk ltac:(unfold FLATBUFFERS_MAX_BUFFER_SIZE in *; lia)) as Hru.
  set (r' := Z.land _ _) in *. clearbody r'.
  assert (∃ m, match buf_ v with
      | Some old => reallocate_downward old (reserved_ v) r' (size v) (scratch_size v)
      | None => Ok (allocate r')
      end = Ok m ∧ len m = r' ∧ drop (Z.to_nat (r' - size v)) m = contents v ∧ take (Z.to_nat (scratch_ v)) m = scratchpad v)
    as (m & Hm & Hlm & Hdrop & Htake).
  { rewrite Hss. unfold contents, scratchpad. destruct (buf_ v) as [old|].
    - destruct Hb as [Hlo Hr0]. unfold reallocate_downward. destruct (Z.ltb_spec (reserved_ v) r'); [|lia]. cbn [negb].
      destruct (memcpy_downward_ok old (allocate r') (reserved_ v) r' (size v) (scratch_ v)) as (m & Hm & Hl & Hd & Ht); try lia.
      { unfold allocate. rewrite fresh_length. lia. }
      exists m. split_and!; try done. rewrite Hd. f_equal. lia.
    - exists (allocate r'). assert (len (allocate r') = r') by (unfold allocate; rewrite fresh_length; lia).
      split_and!; [done|done|apply drop_ge; lia|]. replace (scratch_ v) with 0 by lia. done. }
  rewrite Hm. cbn [rbind]. set (v' := mkVd _ _ _ _ _ _).
  assert (vd_wf v') as Hwf'.
  { split; cbn; rewrite ?Hss, ?Hsz'; try lia. by exists k. }
  rewrite (size_eq v' Hwf'). assert (contents v' = contents v) as Hc by (unfold contents at 1; cbn; by rewrite Hdrop).
  rewrite Hc. destruct (Z.ltb_spec (len (contents v)) FLATBUFFERS_MAX_BUFFER_SIZE); [|lia].
  assert (scratch_ v' = scratch_ v) as Hs' by exact Hss.
  assert (reserved_ v' = r' ∧ cur_ v' = r' - (reserved_ v - cur_ v)) as [Hr' Hcur'] by (rewrite <- Hsz'; done).
  exists v'. split_and!; try done; try lia.
  unfold scratchpad at 1. rewrite Hs'. exact Htake.
Qed.

Lemma write_at_ok v a bs m :
  buf_ v = Some m → 0 ≤ a → a + len bs ≤ len m →
  write_at a bs v = Ok (set_ptrs (Some (take (Z.to_nat a) m ++ bs ++ drop (Z.to_nat a + length bs) m)) (cur_ v) (scratch_ v) v).
Proof. intros Hm Ha Hl. unfold write_at. rewrite Hm. by rewrite store_ok. Qed.

(** Pushing bytes puts them in front of the data. *)
Lemma vd_push_small_ok bs v :
  vd_wf v → len bs < 2 ^ 31 → len (contents v) < FLATBUFFERS_MAX_BUFFER_SIZE →
  ∃ v', vd_push_small bs v = Ok v' ∧ vd_wf v' ∧ contents v' = bs ++ contents v ∧ scratchpad v' = scratchpad v.
Proof.
  intros Hwf Hbs Hsz. destruct (vd_ensure_space_ok (len bs) v Hwf) as (v1 & He & Hwf1 & Hc & Hs & Hroom & Hd & Hsc); [lia|done|].
  unfold vd_push_small, make_space. rewrite He. cbn [rbind]. pose proof Hwf1 as [Hi Ha Ho Hb Hsm].
  assert (len (contents v) = reserved_ v1 - cur_ v1) as Hlen.
  { rewrite <- Hc, <- (size_eq v1 Hwf1). unfold size. rewrite wrap_u_small; lia. }
  unfold FLATBUFFERS_MAX_BUFFER_SIZE in Hsz. cbn [cur_ set_ptrs].
  destruct (buf_ v1) as [m|] eqn:Hm.
  - destruct Hb as [Hlm Hr0]. erewrite write_at_ok by (done || cbn; lia). eexists. split; [done|].
    assert (len (take (Z.to_nat (cur_ v1 - len bs)) m ++ bs ++ drop (Z.to_nat (cur_ v1 - len bs) + length bs) m) = reserved_ v1) as Hl'.
    { rewrite !length_app, length_take, length_drop. lia. }
    split_and!.
    + split; cbn [initial_size_ buffer_minalign_ scratch_ cur_ reserved_ buf_ set_ptrs]; try done; try lia.
    + unfold contents at 1. cbn [buf_ set_ptrs cur_]. rewrite drop_app_ge by (rewrite length_take; lia).
      rewrite length_take, Nat.min_l, Nat.sub_diag, drop_0 by lia. f_equal.
      rewrite <- Hc. unfold contents. rewrite Hm. f_equal. lia.
    + unfold scratchpad at 1. cbn [buf_ set_ptrs scratch_]. rewrite take_app_le by (rewrite length_take; lia).
      rewrite take_take, Nat.min_l by lia. rewrite <- Hs. unfold scratchpad. by rewrite Hm.
  - assert (bs = []) as -> by (apply length_zero_iff_nil; lia). cbn. eexists. split; [done|].
    unfold contents, scratchpad in *. cbn. rewrite Hm in Hc, Hs. split_and!; [|done|done].
    split; cbn; rewrite ?Hm; try done; lia.
Qed.

(** The scratchpad grows at its end and leaves the data alone. *)
Lemma scratch_push_ok bs v :
  vd_wf v → len bs < 2 ^ 31 → len (contents v) < FLATBUFFERS_MAX_BUFFER_SIZE → len (scratchpad v) < 2 ^ 31 →
  ∃ v', scratch_push_small bs v = Ok v' ∧ vd_wf v' ∧ contents v' = contents v ∧ scratchpad v' = scratchpad v ++ bs.
Proof.
  intros Hwf Hbs Hsz Hscr. destruct (vd_ensure_space_ok (len bs) v Hwf) as (v1 & He & Hwf1 & Hc & Hs & Hroom & Hd & Hsc); [lia|done|].
  destruct (scratch_size_eq v1 Hwf1) as [_ Hss].
  unfold scratch_push_small. rewrite He. cbn [rbind]. pose proof Hwf1 as [Hi Ha Ho Hb Hsm].
  destruct (buf_ v1) as [m|] eqn:Hm.
  - destruct Hb as [Hlm Hr0]. erewrite write_at_ok by (done || cbn; lia). cbn [rbind]. eexists. split; [done|].
    assert (len (take (Z.to_nat (scratch_ v1)) m ++ bs ++ drop (Z.to_nat (scratch_ v1) + length bs) m) = reserved_ v1) as Hl'.
    { rewrite !length_app, length_take, length_drop. lia. }
    split_and!.
    + split; cbn [initial_size_ buffer_minalign_ scratch_ cur_ reserved_ buf_ set_ptrs]; try done; try lia. rewrite Hs in Hss. lia.
    + unfold contents at 1. cbn [buf_ set_ptrs cur_]. rewrite drop_app_ge by (rewrite length_take; lia).
      rewrite drop_app_ge by (rewrite length_take; lia). rewrite drop_drop, <- Hc. unfold contents. rewrite Hm. f_equal.
      rewrite length_take. lia.
    + unfold scratchpad at 1. cbn [buf_ set_ptrs scratch_]. rewrite app_assoc, take_app_le by (rewrite length_app, length_take; lia).
      rewrite take_ge by (rewrite length_app, length_take; lia). f_equal. rewrite <- Hs. unfold scratchpad. by rewrite Hm.
  - assert (bs = []) as -> by (apply length_zero_iff_nil; lia). unfold write_at. rewrite Hm. cbn. eexists. split; [done|].
    unfold contents, scratchpad in *. cbn. rewrite Hm in Hc, Hs |- *. rewrite <- Hs, <- Hc. split_and!; [|done|done].
    split; cbn; rewrite ?Hm; try done; lia.
Qed.

Lemma pop_ok n v :
  vd_wf v → 0 ≤ n ≤ len (contents v) →
  vd_wf (pop n v) ∧ contents (pop n v) = drop (Z.to_nat n) (contents v) ∧ scratchpad (pop n v) = scratchpad v.
Proof.
  intros Hwf Hn. pose proof (size_eq v Hwf) as Hsz. pose proof Hwf as [Hi Ha Ho Hb Hs].
  assert (size v = reserved_ v - cur_ v) as Hsz' by (unfold size; rewrite wrap_u_small; lia). split_and!.
  - split; cbn; try done; try lia.
  - unfold contents. cbn. destruct (buf_ v); [|by rewrite drop_nil]. rewrite drop_drop. f_equal. lia.
  - done.
Qed.

Lemma scratch_pop_ok n v :
  vd_wf v → 0 ≤ n ≤ len (scratchpad v) →
  vd_wf (scratch_pop n v) ∧ contents (scratch_pop n v) = contents v ∧
  scratchpad (scratch_pop n v) = take (length (scratchpad v) - Z.to_nat n) (scratchpad v).
Proof.
  intros Hwf Hn. destruct (scratch_size_eq v Hwf) as [_ Hss]. pose proof Hwf as [Hi Ha Ho Hb Hs]. split_and!; [|done|].
  - split; cbn; try done; try lia.
  - unfold scratchpad in *. cbn. destruct (buf_ v) as [m|]; [|done]. rewrite take_take. f_equal. lia.
Qed.

Lemma clear_ok v : vd_wf v → vd_wf (clear v) ∧ contents (clear v) = [] ∧ scratchpad (clear v) = [].
Proof.
  intros [Hi Ha Ho Hb Hs]. unfold clear, contents, scratchpad. destruct (buf_ v) as [m|]; cbn.
  - destruct Hb as [Hl Hr]. split_and!; [split; cbn; try done; lia|apply drop_ge; lia|done].
  - split_and!; [split; cbn; try done; lia|done|done].
Qed.

(** Releasing hands over exactly the data; the vector is empty and can be used
    again. *)
Lemma release_ok v :
  vd_wf v →
  let '(d, v') := release v in
  db_bytes d = Ok (contents v) ∧ db_size_ d = len (contents v) ∧
  vd_wf v' ∧ contents v' = [] ∧ scratchpad v' = [] ∧ freed_by_clear_buffer v' = [].
Proof.
  intros Hwf. pose proof (size_eq v Hwf) as Hsz. pose proof Hwf as [Hi Ha Ho Hb Hs]. unfold release.
  assert (size v = reserved_ v - cur_ v) as Hsz' by (unfold size; rewrite wrap_u_small; lia).
  split_and!; [|done| |done|done|done].
  - unfold db_bytes, contents. cbn [db_buf_ db_size_ db_cur_]. destruct (buf_ v) as [m|].
    + destruct Hb as [Hm _]. rewrite load_ok by lia. f_equal. apply take_ge. rewrite length_drop. lia.
    + by destruct (Z.eqb_spec (size v) 0); [|lia].
  - split; cbn; try done; lia.
Qed.

(** A move leaves the source empty, an assignment gives back the block the
    target had and no other. *)
Lemma vd_assign_ok this other :
  vd_wf this → vd_wf other →
  let '(this', other', freed) := vd_assign this other in
  vd_wf this' ∧ vd_wf other' ∧ contents this' = contents other ∧ scratchpad this' = scratchpad other ∧
  contents other' = [] ∧ scratchpad other' = [] ∧ freed = freed_by_clear_buffer this ∧
  freed_by_clear_buffer this' = freed_by_clear_buffer other ∧ freed_by_clear_buffer other' = [].
Proof.
  intros Ht [Hi Ha Ho Hb Hs]. unfold vd_assign, vd_move, vd_swap.
  split_and!; try done; split; cbn; try done; lia.
Qed.

(** ** Refinement

    A step of the builder's memory, on the two byte lists and on the block. *)
Inductive vd_op :=
| Push (bs : list byte)
| Fill (n : nat)
| ScratchPush (bs : list byte)
| Pop (n : nat)
| ScratchPop (n : nat)
| Clear.

Definition spec_vd (o : vd_op) (s : list byte * list byte) : option (list byte * list byte) :=
  let '(d, x) := s in
  let room := (len d <? FLATBUFFERS_MAX_BUFFER_SIZE) && (len x <? 2 ^ 31) in
  match o with
  | Push bs => if (len bs <? 2 ^ 31) && room then Some (bs ++ d, x) else None
  | Fill n => if (Z.of_nat n <? 2 ^ 31) && room then Some (replicate n Byte.x00 ++ d, x) else None
  | ScratchPush bs => if (len bs <? 2 ^ 31) && room then Some (d, x ++ bs) else None
  | Pop n => if (n <=? length d)%nat then Some (drop n d, x) else None
  | ScratchPop n => if (n <=? length x)%nat then Some (d, take (length x - n) x) else None
  | Clear => Some ([], [])
  end.

Definition run_vd (o : vd_op) (v : vector_downward) : result vector_downward :=
  match o with
  | Push bs => push bs v
  | Fill n => vd_fill (Z.of_nat n) v
  | ScratchPush bs => scratch_push_small bs v
  | Pop n => Ok (pop (Z.of_nat n) v)
  | ScratchPop n => Ok (scratch_pop (Z.of_nat n) v)
  | Clear => Ok (clear v)
  end.

Definition refines (v : vector_downward) (s : list byte * list byte) : Prop :=
  vd_wf v ∧ contents v = s.1 ∧ scratchpad v = s.2.

Lemma run_vd_ok o v s s' :
  refines v s → spec_vd o s = Some s' → ∃ v', run_vd o v = Ok v' ∧ refines v' s'.
Proof.
  intros (Hwf & Hd & Hx) Hs. destruct s as [d x]. cbn in Hd, Hx. subst d x. unfold spec_vd in Hs. unfold refines.
  destruct o as [bs|n|bs|n|n|]; cbn [run_vd].
  - destruct (_ && _) eqn:E in Hs; [|done]. injection Hs as <-. rewrite !andb_true_iff, !Z.ltb_lt in E.
    unfold push. destruct bs as [|b bs]; [by exists v|]. apply vd_push_small_ok; [done|lia|lia].
  - destruct (_ && _) eqn:E in Hs; [|done]. injection Hs as <-. rewrite !andb_true_iff, !Z.ltb_lt in E.
    unfold vd_fill. rewrite Nat2Z.id. apply vd_push_small_ok; [done|rewrite length_replicate; lia|lia].
  - destruct (_ && _) eqn:E in Hs; [|done]. injection Hs as <-. rewrite !andb_true_iff, !Z.ltb_lt in E.
    apply scratch_push_ok; [done|lia|lia|lia].
  - destruct (Nat.leb_spec n (length (contents v))); [|done]. injection Hs as <-.
    destruct (pop_ok (Z.of_nat n) v Hwf) as (H1 & H2 & H3); [lia|]. rewrite Nat2Z.id in H2. by eexists.
  - destruct (Nat.leb_spec n (length (scratchpad v))); [|done]. injection Hs as <-.
    destruct (scratch_pop_ok (Z.of_nat n) v Hwf) as (H1 & H2 & H3); [lia|]. rewrite Nat2Z.id in H3. by eexists.
  - injection Hs as <-. destruct (clear_ok v Hwf) as (H1 & H2 & H3). by eexists.
Qed.

Fixpoint spec_vds (os : list vd_op) (s : list byte * list byte) : option (list byte * list byte) :=
  match os with [] => Some s | o :: os' => match spec_vd o s with Some s1 => spec_vds os' s1 | None => None end end.
Fixpoint run_vds (os : list vd_op) (v : vector_downward) : result vector_downward :=
  match os with [] => Ok v | o :: os' => let? v := run_vd o v in run_vds os' v end.

(** (C39) The builder's memory is two byte lists: any sequence of pushes, fills,
    pops and clears that the lists allow runs on the block, through every
    reallocation, whatever fresh memory holds, and leaves exactly the two
    lists at its two ends. *)
Theorem vector_downward_refines os n k s :
  0 < n < 2 ^ 32 → 0 ≤ k ≤ 16 → spec_vds os ([], []) = Some s →
  ∃ v, run_vds os (vd_new n (2 ^ k)) = Ok v ∧ refines v s.
Proof.
  intros Hn Hk. assert (refines (vd_new n (2 ^ k)) ([], [])) as Hr by by apply vd_new_ok.
  revert Hr. generalize (vd_new n (2 ^ k)), ([] : list byte, [] : list byte).
  induction os as [|o os IH]; intros v s0 Hr Hs; cbn in *; [injection Hs as <-; eauto|].
  destruct (spec_vd o s0) as [s1|] eqn:E; [|done]. destruct (run_vd_ok o v s0 s1 Hr E) as (v1 & -> & Hr1).
  cbn [rbind]. by apply (IH v1 s1).
Qed.

(** One push of the builder is one push on its memory. *)
Theorem builder_push_refines bs b b' v :
  vd_wf v → contents v = FlatBuilder.buf_ b → len bs < 2 ^ 31 → push_small bs b = Ok b' →
  ∃ v', vd_push_small bs v = Ok v' ∧ vd_wf v' ∧ contents v' = FlatBuilder.buf_ b' ∧ scratchpad v' = scratchpad v.
Proof.
  intros Hwf Hc Hbs Hp. unfold push_small, ensure_space, GetSize in Hp.
  destruct (Z.ltb_spec (len (FlatBuilder.buf_ b)) FLATBUFFERS_MAX_BUFFER_SIZE) as [Hlt|]; [|done]. injection Hp as <-.
  destruct (vd_push_small_ok bs v Hwf Hbs) as (v' & H1 & H2 & H3 & H4); [by rewrite Hc|].
  exists v'. split_and!; try done. by rewrite H3, Hc.
Qed.

End memory.

(** Fresh memory full of [0xff], a first block of 8 bytes that is outgrown from
    both ends. *)
Definition noisy (n : nat) : list byte := replicate n Byte.xff.
Definition demo_ops : list vd_op :=
  [Push [Byte.x01; Byte.x02; Byte.x03]; ScratchPush [Byte.x0a; Byte.x0b; Byte.x0c]; Fill 5; ScratchPush [Byte.x0d];
   Pop 2; ScratchPop 2; Push [Byte.x04]].

Lemma vector_downward_refines_witness :
  ∃ v, run_vds noisy demo_ops (vd_new 8 (2 ^ 3)) = Ok v ∧
    refines v ([Byte.x04; Byte.x00; Byte.x00; Byte.x00; Byte.x01; Byte.x02; Byte.x03], [Byte.x0a; Byte.x0b]).
Proof.
  apply (vector_downward_refines noisy (λ n, length_replicate n Byte.xff) demo_ops 8 3); [lia|lia|]. vm_compute. reflexivity.
Defined.

End VectorDownward.
