(* ===== verification/FlatTable.v ===== *)
(** * Reading and verifying tables (src/third_part/include/flatbuffers)

    [Table], [Vector], [String] and [GetRoot] read a received buffer in
    place: a pointer is an offset into the buffer, and every read is checked
    against its bounds ([OutOfBounds]).  [Verifier] walks the same structure
    and answers whether the reads stay inside. *)

From Stdlib Require Import ZArith Lia.
From coqutil Require Import Byte Word.LittleEndianList.
From stdpp Require Import base gmap strings list.
From S2P Require Import Prelude FlatBuilder.

(** ** Table *)

Definition GetVTable (m : list byte) (data_ : Z) : result Z :=
  let? so := ReadScalarS 4 m data_ in Ok (data_ - so).

Definition GetOptionalFieldOffset (m : list byte) (data_ field : Z) : result Z :=
  let? vtable := GetVTable m data_ in
  let? vtsize := ReadScalar 2 m vtable in
  if field <? vtsize then ReadScalar 2 m (vtable + field) else Ok 0.

(** [GetField<uint8_t>] and [GetField<int32_t>] *)
Definition GetField (n : nat) (m : list byte) (data_ field defaultval : Z) : result Z :=
  let? field_offset := GetOptionalFieldOffset m data_ field in
  if field_offset =? 0 then Ok defaultval else ReadScalar n m (data_ + field_offset).
Definition GetFieldS (n : nat) (m : list byte) (data_ field defaultval : Z) : result Z :=
  let? field_offset := GetOptionalFieldOffset m data_ field in
  if field_offset =? 0 then Ok defaultval else ReadScalarS n m (data_ + field_offset).

(** [GetPointer], null when the field is absent *)
Definition GetPointer (m : list byte) (data_ field : Z) : result (option Z) :=
  let? field_offset := GetOptionalFieldOffset m data_ field in
  let p := data_ + field_offset in
  if field_offset =? 0 then Ok None
  else let? o := ReadScalar 4 m p in Ok (Some (p + o)).

(** ** Vector and String *)

Definition Vector_size (m : list byte) (v : Z) : result Z := ReadScalar 4 m v.

(** [Vector<Offset<T>>::Get] *)
Definition Vector_Get (m : list byte) (v i : Z) : result Z :=
  let? n := Vector_size m v in
  if i <? n then
    let p := v + 4 + i * 4 in
    let? o := ReadScalar 4 m p in Ok (p + o)
  else Err AssertFail.

Definition String_str (m : list byte) (v : Z) : result string :=
  let? n := Vector_size m v in
  let? bs := load (Z.to_nat n) m (v + 4) in
  Ok (String.string_of_list_byte bs).

(** [GetRoot<T>] *)
Definition GetRoot (m : list byte) : result Z := ReadScalar 4 m 0.

(** ** What the handlers read

    A string field as [str()] gives it, and a vector of tables read element
    by element. *)

Definition string_field (m : list byte) (t id : Z) : result (option string) :=
  let? p := GetPointer m t id in
  match p with
  | None => Ok None
  | Some a => let? s := String_str m a in Ok (Some s)
  end.

Fixpoint vector_from {A} (dec : list byte → Z → result A) (m : list byte) (v : Z) (i : Z) (n : nat)
    : result (list A) :=
  match n with
  | O => Ok []
  | S n' =>
      let? a := Vector_Get m v i in
      let? x := dec m a in
      let? l := vector_from dec m v (i + 1) n' in Ok (x :: l)
  end.

Definition vector_field {A} (dec : list byte → Z → result A) (m : list byte) (t id : Z)
    : result (option (list A)) :=
  let? p := GetPointer m t id in
  match p with
  | None => Ok None
  | Some v => let? n := Vector_size m v in
              let? l := vector_from dec m v 0 (Z.to_nat n) in Ok (Some l)
  end.

(** ** Verifier *)

Record Verifier := mkVerifier {
  depth_ : Z; max_depth_ : Z; num_tables_ : Z; max_tables_ : Z; check_alignment_ : bool }.

(** [Verifier(buf, buf_len)] with its default limits *)
Definition Verifier_new (m : list byte) : result Verifier :=
  if len m <? FLATBUFFERS_MAX_BUFFER_SIZE
  then Ok (mkVerifier 0 64 0 1000000 true) else Err AssertFail.

(** A check: its answer and the counters after it; [&&] does not run its
    right side after a failure. *)
Definition check : Type := Verifier → result (bool * Verifier).
Definition pure_check (r : result bool) : check := λ V, let? x := r in Ok (x, V).
Definition and_check (c1 c2 : check) : check :=
  λ V, let? (x, V) := c1 V in if x : bool then c2 V else Ok (false, V).
Notation "c1 '&&?' c2" := (and_check c1 c2) (at level 45, right associativity) : grit_scope.

(** [Verify(elem, elem_len)] *)
Definition Verify (m : list byte) (elem elem_len : Z) : bool :=
  (elem_len <? len m) && (elem <=? len m - elem_len).

(** [VerifyAlignment<T>] and [Verify<T>(elem)], [sizeof(T) = n] *)
Definition VerifyAlignment (n elem : Z) (V : Verifier) : bool :=
  (Z.land elem (n - 1) =? 0) || negb (check_alignment_ V).
Definition VerifyT (m : list byte) (n elem : Z) (V : Verifier) : bool :=
  VerifyAlignment n elem V && Verify m elem n.

Definition VerifyComplexity : check := λ V,
  let V := mkVerifier (uint32 (depth_ V + 1)) (max_depth_ V) (uint32 (num_tables_ V + 1))
             (max_tables_ V) (check_alignment_ V) in
  Ok ((depth_ V <=? max_depth_ V) && (num_tables_ V <=? max_tables_ V), V).

Definition Verifier_EndTable : check := λ V,
  Ok (true, mkVerifier (uint32 (depth_ V - 1)) (max_depth_ V) (num_tables_ V) (max_tables_ V) (check_alignment_ V)).

(** [VerifyTableStart(table)] *)
Definition VerifyTableStart (m : list byte) (tableo : Z) : check := λ V,
  if negb (VerifyT m 4 tableo V) then Ok (false, V) else
  let? so := ReadScalarS 4 m tableo in
  let vtableo := uint64 (tableo - so) in
  (VerifyComplexity &&?
   (λ V, Ok (VerifyT m 2 vtableo V, V)) &&?
   (λ V, let? n := ReadScalar 2 m vtableo in Ok (VerifyAlignment 2 n V && Verify m vtableo n, V))) V.

(** [VerifyOffset(start)]: the offset, or 0 when the check fails *)
Definition VerifyOffset (m : list byte) (start : Z) (V : Verifier) : result Z :=
  if negb (VerifyT m 4 start V) then Ok 0 else
  let? o := ReadScalar 4 m start in
  if o =? 0 then Ok 0
  else if wrap_s 32 o <? 0 then Ok 0
  else if negb (Verify m (start + o) 1) then Ok 0
  else Ok o.

(** [VerifyVectorOrString]: the answer and [end] *)
Definition VerifyVectorOrString (m : list byte) (veco elem_size : Z) (V : Verifier) : result (bool * Z) :=
  if negb (VerifyT m 4 veco V) then Ok (false, 0) else
  let? size := ReadScalar 4 m veco in
  let max_elems := FLATBUFFERS_MAX_BUFFER_SIZE / elem_size in
  if negb (size <? max_elems) then Ok (false, 0) else
  let byte_size := 4 + elem_size * size in
  Ok (Verify m veco byte_size, veco + byte_size).

(** [VerifyVector], [VerifyString] and [VerifyVectorOfTables] take the
    pointer that the accessor of the field returns. *)
Definition VerifyVector (m : list byte) (get : result (option Z)) : check := λ V,
  let? vec := get in
  match vec with
  | None => Ok (true, V)
  | Some v => let? (ok, _) := VerifyVectorOrString m v 4 V in Ok (ok, V)
  end.

Definition VerifyString (m : list byte) (get : result (option Z)) : check := λ V,
  let? str := get in
  match str with
  | None => Ok (true, V)
  | Some v =>
      let? (ok, end_) := VerifyVectorOrString m v 1 V in
      if negb ok then Ok (false, V)
      else if negb (Verify m end_ 1) then Ok (false, V)
      else let? c := ReadScalar 1 m end_ in Ok (c =? 0, V)
  end.

Fixpoint verify_tables (ver : list byte → Z → check) (m : list byte) (v i : Z) (n : nat) : check := λ V,
  match n with
  | O => Ok (true, V)
  | S n' =>
      let? a := Vector_Get m v i in
      let? (ok, V) := ver m a V in
      if ok : bool then verify_tables ver m v (i + 1) n' V else Ok (false, V)
  end.

Definition VerifyVectorOfTables (ver : list byte → Z → check) (m : list byte) (get : result (option Z)) : check := λ V,
  let? vec := get in
  match vec with
  | None => Ok (true, V)
  | Some v => let? n := Vector_size m v in verify_tables ver m v 0 (Z.to_nat n) V
  end.

(** [Table::VerifyField<T>] and [Table::VerifyOffset] *)
Definition VerifyField (n : Z) (m : list byte) (data_ field : Z) : check := λ V,
  let? field_offset := GetOptionalFieldOffset m data_ field in
  Ok ((field_offset =? 0) || Verify m (data_ + field_offset) n, V).

Definition VerifyOffsetField (m : list byte) (data_ field : Z) : check := λ V,
  let? field_offset := GetOptionalFieldOffset m data_ field in
  if field_offset =? 0 then Ok (true, V)
  else let? o := VerifyOffset m (data_ + field_offset) V in Ok (negb (o =? 0), V).

(** [VerifyBuffer<T>(nullptr)] *)
Definition VerifyBuffer (ver : list byte → Z → check) (m : list byte) : check := λ V,
  let? o := VerifyOffset m 0 V in
  if o =? 0 then Ok (false, V) else ver m o V.

(** ** Readers find what the builder wrote *)

Lemma ReadScalarS_read n m a z :
  ReadScalar n m a = Ok (z mod 2 ^ (8 * Z.of_nat n)) → (0 < n)%nat →
  - 2 ^ (8 * Z.of_nat n - 1) ≤ z < 2 ^ (8 * Z.of_nat n - 1) → ReadScalarS n m a = Ok z.
Proof.
  intros Hr Hn Hz. unfold ReadScalarS. rewrite Hr. cbn [rbind]. f_equal.
  unfold wrap_s. rewrite Zplus_mod_idemp_l. apply (wrap_s_small (8 * Z.of_nat n)); lia.
Qed.

Lemma GetOptionalFieldOffset_spec m t locs id :
  table_at m t locs → 4 ≤ id → id mod 2 = 0 →
  GetOptionalFieldOffset m (len m - t) id =
    Ok (match locs !! id with Some loc => t - loc | None => 0 end).
Proof.
  intros (Ht & Ht31 & vt & VT & Hso & Hvt & Hvr & HV1 & HV2 & HV3 & HV4) Hid Hev.
  unfold GetOptionalFieldOffset, GetVTable.
  rewrite (ReadScalarS_read 4 m (len m - t) (vt - t)); [|by apply region_read|lia|cbn; lia].
  cbn [rbind]. replace (len m - t - (vt - t)) with (len m - vt + 0) by lia.
  rewrite (region_ReadScalar _ _ _ _ _ Hvt) by lia. rewrite HV2. cbn [rbind].
  destruct (Z.ltb_spec id (len VT)) as [Hlt|Hge].
  - assert (id + 2 ≤ len VT ∨ len VT = id + 1) as [Hle|Hodd] by lia.
    + replace (len m - vt + 0 + id) with (len m - vt + id) by lia.
      rewrite (region_ReadScalar _ _ _ _ _ Hvt) by lia. by apply HV3.
    + exfalso. specialize (HV3 id Hid Hev Hlt). unfold ReadScalar, load in HV3.
      destruct (Z.leb_spec (id + Z.of_nat 2) (len VT)); [lia|]. by rewrite andb_false_r in HV3.
  - destruct (locs !! id) as [loc|] eqn:E; [|done]. destruct (HV4 id loc E). lia.
Qed.

Section has_table.
Context (m : list byte) (t : Z) (fs : list field_add).
Hypothesis Htab : has_table m t fs.

(** A scalar field reads as it was given, written or not. *)
Lemma field_read n id e d :
  FElement n id e d ∈ fs → 4 ≤ id → id mod 2 = 0 →
  (∃ a, 0 < a ∧ GetOptionalFieldOffset m (len m - t) id = Ok a ∧
    ReadScalar n m (len m - t + a) = Ok (e mod 2 ^ (8 * Z.of_nat n))) ∨
  (e = d ∧ GetOptionalFieldOffset m (len m - t) id = Ok 0).
Proof.
  intros Hin Hid Hev. destruct Htab as (locs & Ht & Hfs). specialize (Hfs _ Hin).
  rewrite (GetOptionalFieldOffset_spec _ _ _ _ Ht Hid Hev). cbn [live field_id] in Hfs.
  destruct (Z.eqb_spec e d) as [->|]; cbn [negb] in Hfs.
  - right. split; [done|]. by rewrite Hfs.
  - left. destruct Hfs as (loc & Hl & Hst). rewrite Hl. exists (t - loc).
    destruct Ht as (_ & _ & vt & VT & _ & _ & _ & _ & _ & _ & HV4). destruct (HV4 id loc Hl).
    split; [lia|]. split; [done|]. replace (len m - t + (t - loc)) with (len m - loc) by lia.
    by apply region_read.
Qed.

Lemma GetFieldS_spec id e d :
  FElement 4 id e d ∈ fs → 4 ≤ id → id mod 2 = 0 → int32_ok e → GetFieldS 4 m (len m - t) id d = Ok e.
Proof.
  intros Hin Hid Hev He. unfold GetFieldS.
  destruct (field_read _ _ _ _ Hin Hid Hev) as [(a & Ha & -> & Hr)|[-> ->]]; [|done].
  cbn [rbind]. destruct (Z.eqb_spec a 0); [lia|]. unfold int32_ok in He. apply ReadScalarS_read; [done|lia|cbn; lia].
Qed.

Lemma GetField_spec n id e d :
  FElement n id e d ∈ fs → 4 ≤ id → id mod 2 = 0 → 0 ≤ e < 2 ^ (8 * Z.of_nat n) →
  GetField n m (len m - t) id d = Ok e.
Proof.
  intros Hin Hid Hev He. unfold GetField.
  destruct (field_read _ _ _ _ Hin Hid Hev) as [(a & Ha & -> & Hr)|[-> ->]]; [|done].
  cbn [rbind]. destruct (Z.eqb_spec a 0); [lia|]. rewrite Hr. by rewrite Z.mod_small.
Qed.

Lemma GetPointer_spec id off :
  FOffset id off ∈ fs → 4 ≤ id → id mod 2 = 0 →
  GetPointer m (len m - t) id = Ok (if off =? 0 then None else Some (len m - off)).
Proof.
  intros Hin Hid Hev. destruct Htab as (locs & Ht & Hfs). specialize (Hfs _ Hin).
  unfold GetPointer. rewrite (GetOptionalFieldOffset_spec _ _ _ _ Ht Hid Hev). cbn [rbind live field_id] in *.
  destruct (Z.eqb_spec off 0) as [->|]; cbn [negb] in Hfs; [by rewrite Hfs|].
  destruct Hfs as (loc & Hl & u & Hu & Hr & Hoff). rewrite Hl.
  destruct Ht as (_ & _ & vt & VT & _ & _ & _ & _ & _ & _ & HV4). destruct (HV4 id loc Hl).
  destruct (Z.eqb_spec (t - loc) 0); [lia|].
  replace (len m - t + (t - loc)) with (len m - loc) by lia.
  rewrite (region_read _ _ _ _ Hr). cbn [rbind]. do 2 f_equal. rewrite Z.mod_small by (cbn; lia). lia.
Qed.

End has_table.

Lemma String_str_spec m off s : has_string m off s → String_str m (len m - off) = Ok s.
Proof.
  intros [Hl Hr]. unfold String_str, Vector_size.
  destruct (region_split _ _ _ _ Hr) as [Hr1 Hr2]. destruct (region_split _ _ _ _ Hr2) as [Hr3 _].
  rewrite length_le_split in Hr3. rewrite (region_read _ _ _ _ Hr1). cbn [rbind].
  rewrite Z.mod_small by (cbn; lia). rewrite Nat2Z.id.
  replace (len m - off + 4) with (len m - (off - Z.of_nat 4)) by lia. rewrite (region_load _ _ _ Hr3). cbn [rbind].
  by rewrite String.string_of_list_byte_of_string.
Qed.

Lemma Vector_spec m off offs :
  has_vector m off offs →
  Vector_size m (len m - off) = Ok (len offs) ∧
  ∀ i o, offs !! i = Some o → Vector_Get m (len m - off) (Z.of_nat i) = Ok (len m - o).
Proof.
  intros (Hl & Hr & Hi).
  assert (Vector_size m (len m - off) = Ok (len offs)) as Hsz.
  { unfold Vector_size. rewrite (region_read _ _ _ _ Hr). by rewrite Z.mod_small by (cbn; lia). }
  split; [done|]. intros i o Hlk. unfold Vector_Get. rewrite Hsz. cbn [rbind].
  pose proof (lookup_lt_Some _ _ _ Hlk). destruct (Z.ltb_spec (Z.of_nat i) (len offs)); [|lia].
  destruct (Hi i o Hlk) as (u & Hu & Hru & Ho).
  replace (len m - off + 4 + Z.of_nat i * 4) with (len m - (off - 4 - 4 * Z.of_nat i)) by lia.
  rewrite (region_read _ _ _ _ Hru). cbn [rbind]. f_equal. rewrite Z.mod_small by (cbn; lia). lia.
Qed.

(** Later writes do not disturb what is there. *)
Lemma table_at_app p m t locs : table_at m t locs → table_at (p ++ m) t locs.
Proof.
  intros (Ht & Ht31 & vt & VT & H1 & H2 & H3 & H4). split; [rewrite length_app; lia|]. split; [done|].
  exists vt, VT. split; [by apply region_app|]. split; [by apply region_app|]. done.
Qed.

Lemma has_table_app p m t fs : has_table m t fs → has_table (p ++ m) t fs.
Proof.
  intros (locs & Ht & Hfs). exists locs. split; [by apply table_at_app|]. intros f Hf. specialize (Hfs f Hf).
  destruct (live f); [|done]. destruct Hfs as (loc & ? & ?). exists loc. split; [done|by apply stored_app].
Qed.

Lemma has_string_app p m off s : has_string m off s → has_string (p ++ m) off s.
Proof. intros [? ?]. split; [done|by apply region_app]. Qed.

Lemma has_vector_app p m off v : has_vector m off v → has_vector (p ++ m) off v.
Proof.
  intros (? & ? & Hi). split; [done|]. split; [by apply region_app|]. intros i o Hlk.
  destruct (Hi i o Hlk) as (u & ? & ? & ?). eauto using region_app.
Qed.

#[export] Hint Resolve has_table_app has_string_app has_vector_app : grit.

(** ** A verified buffer is read without leaving it *)

(** The check [c] comes back, and its success establishes [P]. *)
Definition runs (c : check) (P : Prop) : Prop :=
  ∀ V, check_alignment_ V = true →
    ∃ ok V', c V = Ok (ok, V') ∧ check_alignment_ V' = true ∧ (ok = true → P).

Lemma runs_and c1 c2 (P Q : Prop) :
  runs c1 P → (P → runs c2 Q) → runs (c1 &&? c2) (P ∧ Q).
Proof.
  intros H1 H2 V HV. destruct (H1 V HV) as (ok & V1 & E1 & HV1 & HP). unfold and_check. rewrite E1. cbn [rbind].
  destruct ok; [|by exists false, V1]. destruct (H2 (HP eq_refl) V1 HV1) as (ok & V2 & E2 & HV2 & HQ).
  exists ok, V2. naive_solver.
Qed.

Lemma runs_true c : (∀ V, check_alignment_ V = true → ∃ ok V', c V = Ok (ok, V') ∧ check_alignment_ V' = true) → runs c True.
Proof. intros H V HV. destruct (H V HV) as (ok & V' & ? & ?). by exists ok, V'. Qed.

Lemma runs_EndTable : runs Verifier_EndTable True.
Proof. apply runs_true. intros V HV. by eexists _, _. Qed.

Lemma load_total n m a : 0 ≤ a → a + Z.of_nat n ≤ len m → ∃ bs, load n m a = Ok bs.
Proof. intros. rewrite load_ok by done. eauto. Qed.

Lemma ReadScalar_total n m a :
  0 ≤ a → a + Z.of_nat n ≤ len m → ∃ z, ReadScalar n m a = Ok z ∧ 0 ≤ z < 2 ^ (8 * Z.of_nat n).
Proof.
  intros Ha Hn. destruct (load_total n m a Ha Hn) as [bs Hbs]. unfold ReadScalar. rewrite Hbs. cbn [rbind].
  eexists. split; [done|]. destruct (load_region _ _ _ _ Hbs) as [_ <-].
  pose proof (le_combine_bound bs). done.
Qed.

Lemma Verify_range m e n : Verify m e n = true → n < len m ∧ e + n ≤ len m.
Proof. unfold Verify. rewrite andb_true_iff, Z.ltb_lt, Z.leb_le. lia. Qed.

Lemma VerifyT_range m n e V : VerifyT m n e V = true → n < len m ∧ e + n ≤ len m.
Proof. unfold VerifyT. rewrite andb_true_iff. intros [_ H]. by apply Verify_range. Qed.

Lemma alignment2 n V : check_alignment_ V = true → VerifyAlignment 2 n V = true → n mod 2 = 0.
Proof.
  unfold VerifyAlignment. intros ->. cbn [negb]. rewrite orb_false_r, Z.eqb_eq.
  change (2 - 1) with (Z.ones 1). by rewrite Z.land_ones by lia.
Qed.

Section verified.
Context (m : list byte).
Hypothesis Hm : len m < FLATBUFFERS_MAX_BUFFER_SIZE.

(** Every field offset of the table can be looked up. *)
Definition table_ok (t : Z) : Prop :=
  0 ≤ t ∧ ∀ id, 0 ≤ id → id mod 2 = 0 → ∃ fo, GetOptionalFieldOffset m t id = Ok fo ∧ 0 ≤ fo.

Lemma vtable_in_range t so :
  0 ≤ t ≤ len m → - 2 ^ 31 ≤ so < 2 ^ 31 → uint64 (t - so) + 2 ≤ len m → uint64 (t - so) = t - so.
Proof.
  unfold FLATBUFFERS_MAX_BUFFER_SIZE in Hm. intros Ht Hso Hle. unfold wrap_u in *.
  destruct (Z.lt_ge_cases (t - so) 0); [|apply Z.mod_small; lia].
  rewrite <- (Z_mod_plus_full _ 1), Z.mod_small in Hle by lia. lia.
Qed.

Lemma runs_VerifyTableStart t : 0 ≤ t → runs (VerifyTableStart m t) (table_ok t).
Proof.
  intros Ht V HV. unfold VerifyTableStart.
  destruct (VerifyT m 4 t V) eqn:E4; cbn [negb]; [|by exists false, V]. apply VerifyT_range in E4 as [_ E4].
  destruct (ReadScalar_total 4 m t) as (z & Hz & Hzr); [lia..|].
  assert (∃ so, ReadScalarS 4 m t = Ok so ∧ - 2 ^ 31 ≤ so < 2 ^ 31) as (so & Hso & Hsor).
  { unfold ReadScalarS. rewrite Hz. cbn [rbind]. eexists. split; [done|]. apply (wrap_s_range (8 * Z.of_nat 4)). lia. }
  rewrite Hso. cbn [rbind]. unfold and_check, VerifyComplexity. cbn [rbind].
  match goal with |- context [if ?x then _ else _] => destruct x; [|by eexists false, _] end.
  match goal with |- context [VerifyT m 2 ?v ?V0] => set (V2 := V0); destruct (VerifyT m 2 v V2) eqn:E2 end;
    cbn [rbind]; [|by exists false, V2].
  assert (check_alignment_ V2 = true) as HV2 by done.
  pose proof (VerifyT_range _ _ _ _ E2) as [_ E2']. set (vto := uint64 (t - so)) in *.
  assert (0 ≤ vto) as Hvto by (apply Z.mod_pos_bound; lia).
  destruct (ReadScalar_total 2 m vto) as (n & Hn & Hnr); [lia..|]. rewrite Hn. cbn [rbind].
  eexists _, V2. split; [done|]. split; [done|]. rewrite andb_true_iff. intros [Hal Hver].
  apply alignment2 in Hal; [|done]. apply Verify_range in Hver as [_ Hver].
  split; [done|]. intros id Hid Hev. unfold GetOptionalFieldOffset, GetVTable. rewrite Hso. cbn [rbind].
  assert (t - so = vto) as -> by (symmetry; apply vtable_in_range; lia). rewrite Hn. cbn [rbind].
  destruct (Z.ltb_spec id n); [|by exists 0].
  destruct (ReadScalar_total 2 m (vto + id)) as (fo & ? & ?); [lia|Z.div_mod_to_equations; lia|].
  exists fo. split; [done|lia].
Qed.

Lemma runs_VerifyField n t id d :
  table_ok t → 0 ≤ id → id mod 2 = 0 →
  runs (VerifyField (Z.of_nat n) m t id) (is_ok (GetField n m t id d) = true ∧ is_ok (GetFieldS n m t id d) = true).
Proof.
  intros [Ht Htab] Hid Hev V HV. destruct (Htab id Hid Hev) as (fo & Hfo & Hfo0).
  unfold VerifyField, GetField, GetFieldS. rewrite Hfo. cbn [rbind]. eexists _, V. split; [done|]. split; [done|].
  destruct (Z.eqb_spec fo 0); [done|]. cbn [orb]. intros [_ Hr]%Verify_range.
  unfold ReadScalarS. destruct (ReadScalar_total n m (t + fo)) as (z & -> & _); [lia..|]. done.
Qed.

(** The pointer in a verified offset field. *)
Definition pointer_ok (get : result (option Z)) : Prop :=
  ∃ p, get = Ok p ∧ ∀ a, p = Some a → 0 ≤ a < len m.

Lemma runs_VerifyOffsetField t id :
  table_ok t → 0 ≤ id → id mod 2 = 0 → runs (VerifyOffsetField m t id) (pointer_ok (GetPointer m t id)).
Proof.
  intros [Ht Htab] Hid Hev V HV. destruct (Htab id Hid Hev) as (fo & Hfo & Hfo0).
  unfold VerifyOffsetField, GetPointer, VerifyOffset, pointer_ok. rewrite Hfo. cbn [rbind].
  destruct (Z.eqb_spec fo 0); [exists true, V; naive_solver|].
  destruct (VerifyT m 4 (t + fo) V) eqn:E4; cbn [negb rbind]; [|by exists false, V].
  apply VerifyT_range in E4 as [_ E4]. destruct (ReadScalar_total 4 m (t + fo)) as (o & Ho & Hor); [lia..|].
  rewrite Ho. cbn [rbind]. destruct (Z.eqb_spec o 0); cbn [rbind]; [by exists false, V|].
  destruct (wrap_s 32 o <? 0); cbn [rbind]; [by exists false, V|].
  destruct (Verify m (t + fo + o) 1) eqn:E1; cbn [negb rbind]; [|by exists false, V].
  apply Verify_range in E1. eexists _, V. split; [done|]. split; [done|]. intros _.
  eexists. split; [done|]. intros a [= <-]. lia.
Qed.

Lemma VerifyVectorOrString_spec a n V :
  0 ≤ a → 0 < n ≤ 4 →
  ∃ ok e, VerifyVectorOrString m a n V = Ok (ok, e) ∧
    (ok = true → ∃ k, Vector_size m a = Ok k ∧ 0 ≤ k ∧ e = a + 4 + n * k ∧ e ≤ len m).
Proof.
  intros Ha Hn. unfold VerifyVectorOrString, Vector_size.
  destruct (VerifyT m 4 a V) eqn:E4; cbn [negb]; [|by exists false, 0]. apply VerifyT_range in E4 as [_ E4].
  destruct (ReadScalar_total 4 m a) as (k & -> & Hk); [lia..|]. cbn [rbind].
  destruct (k <? _); cbn [negb]; [|by exists false, 0].
  eexists _, _. split; [done|]. intros [_ Hr]%Verify_range. exists k. split; [done|]. lia.
Qed.

Lemma runs_VerifyString t id :
  pointer_ok (GetPointer m t id) →
  runs (VerifyString m (GetPointer m t id)) (is_ok (string_field m t id) = true).
Proof.
  intros (p & Hp & Hr) V HV. unfold VerifyString, string_field. rewrite Hp. cbn [rbind].
  destruct p as [a|]; [|by exists true, V]. destruct (Hr a eq_refl) as [Ha _].
  destruct (VerifyVectorOrString_spec a 1 V) as (ok & e & -> & Hok); [lia..|]. cbn [rbind].
  destruct ok; cbn [negb]; [|by exists false, V]. destruct (Hok eq_refl) as (k & Hk & Hk0 & -> & Hle).
  destruct (Verify m (a + 4 + 1 * k) 1) eqn:E1; cbn [negb]; [|by exists false, V]. apply Verify_range in E1 as [_ E1].
  destruct (ReadScalar_total 1 m (a + 4 + 1 * k)) as (c & -> & _); [lia..|]. cbn [rbind].
  eexists _, V. split; [done|]. split; [done|]. intros _. unfold String_str. rewrite Hk. cbn [rbind].
  destruct (load_total (Z.to_nat k) m (a + 4)) as (bs & ->); [lia..|]. done.
Qed.

(** A vector whose elements can all be fetched. *)
Definition vector_ok (get : result (option Z)) : Prop :=
  ∃ p, get = Ok p ∧ ∀ v, p = Some v →
    ∃ k, Vector_size m v = Ok k ∧ 0 ≤ k ∧ ∀ i, 0 ≤ i < k → ∃ a, Vector_Get m v i = Ok a ∧ 0 ≤ a.

Lemma runs_VerifyVector t id :
  pointer_ok (GetPointer m t id) → runs (VerifyVector m (GetPointer m t id)) (vector_ok (GetPointer m t id)).
Proof.
  intros (p & Hp & Hr) V HV. unfold VerifyVector, vector_ok. rewrite Hp. cbn [rbind].
  destruct p as [a|]; [|exists true, V; naive_solver]. destruct (Hr a eq_refl) as [Ha _].
  destruct (VerifyVectorOrString_spec a 4 V) as (ok & e & -> & Hok); [lia..|]. cbn [rbind].
  exists ok, V. split; [done|]. split; [done|]. intros ->. destruct (Hok eq_refl) as (k & Hk & Hk0 & -> & Hle).
  eexists. split; [done|]. intros v [= <-]. exists k. split; [done|]. split; [done|]. intros i Hi.
  unfold Vector_Get. rewrite Hk. cbn [rbind]. destruct (Z.ltb_spec i k); [|lia].
  destruct (ReadScalar_total 4 m (a + 4 + i * 4)) as (o & -> & ?); [lia..|]. cbn [rbind]. eexists. split; [done|]. lia.
Qed.

(** [ver] guards [dec]: a table it accepts is decoded. *)
Definition guards {A} (ver : list byte → Z → check) (dec : list byte → Z → result A) : Prop :=
  ∀ a, 0 ≤ a → runs (ver m a) (is_ok (dec m a) = true).

Lemma runs_VerifyVectorOfTables {A} ver (dec : list byte → Z → result A) t id :
  guards ver dec → vector_ok (GetPointer m t id) →
  runs (VerifyVectorOfTables ver m (GetPointer m t id)) (is_ok (vector_field dec m t id) = true).
Proof.
  intros Hg (p & Hp & Hv). intros V HV. unfold VerifyVectorOfTables, vector_field. rewrite Hp. cbn [rbind].
  destruct p as [v|]; [|by exists true, V]. destruct (Hv v eq_refl) as (k & -> & Hk0 & Hget). cbn [rbind].
  assert (∀ n i V, 0 ≤ i → i + Z.of_nat n ≤ k → check_alignment_ V = true → ∃ ok V', verify_tables ver m v i n V = Ok (ok, V') ∧
    check_alignment_ V' = true ∧ (ok = true → is_ok (vector_from dec m v i n) = true)) as Hloop.
  { intros n. induction n as [|n IH]; intros i V0 Hi Hn HV0; cbn [verify_tables vector_from]; [by exists true, V0|].
    destruct (Hget i) as (a & -> & Ha); [lia|]. cbn [rbind].
    destruct (Hg a Ha V0 HV0) as (ok & V1 & -> & HV1 & Hok). cbn [rbind].
    destruct ok; [|by exists false, V1]. specialize (Hok eq_refl). destruct (dec m a); [|done]. cbn [rbind].
    destruct (IH (i + 1) V1) as (ok & V2 & -> & HV2 & Hok2); [lia..|done|].
    exists ok, V2. split; [done|]. split; [done|]. intros ->. specialize (Hok2 eq_refl).
    destruct (vector_from dec m v (i + 1) n); done. }
  destruct (Hloop (Z.to_nat k) 0 V) as (ok & V' & -> & HV' & Hok); [lia..|done|].
  exists ok, V'. split; [done|]. split; [done|]. intros ->. specialize (Hok eq_refl).
  destruct (vector_from dec m v 0 (Z.to_nat k)); done.
Qed.

Lemma runs_VerifyBuffer {A} ver (dec : list byte → Z → result A) :
  guards ver dec → runs (VerifyBuffer ver m) (∃ a, GetRoot m = Ok a ∧ is_ok (dec m a) = true).
Proof.
  intros Hg V HV. unfold VerifyBuffer, VerifyOffset, GetRoot.
  destruct (VerifyT m 4 0 V) eqn:E4; cbn [negb rbind]; [|by exists false, V]. apply VerifyT_range in E4 as [_ E4].
  destruct (ReadScalar_total 4 m 0) as (o & -> & Ho); [lia..|]. cbn [rbind].
  destruct (Z.eqb_spec o 0); cbn [rbind]; [by exists false, V|].
  destruct (wrap_s 32 o <? 0); cbn [rbind]; [by exists false, V|].
  destruct (Verify m (0 + o) 1); cbn [negb rbind]; [|by exists false, V].
  destruct (Z.eqb_spec o 0); [done|]. destruct (Hg o ltac:(lia) V HV) as (ok & V' & -> & HV' & Hok).
  exists ok, V'. naive_solver.
Qed.

End verified.
