(* ===== verification/FlatOps.v ===== *)
(** * More of the FlatBuffers library

    What surrounds the operations the generated code calls: changing a table
    or a vector in place, checks of required fields, vectors of scalars and of
    strings, shared strings, and the life cycle of a builder ([Clear],
    [Release], moves). *)

From Stdlib Require Import ZArith Lia.
From coqutil Require Import Byte Word.LittleEndianList.
From stdpp Require Import base gmap strings list.
From S2P Require Import Prelude FlatBuilder FlatTable.

(** ** Tables in place *)

Definition GetStruct (m : list byte) (data_ field : Z) : result (option Z) :=
  let? field_offset := GetOptionalFieldOffset m data_ field in
  Ok (if field_offset =? 0 then None else Some (data_ + field_offset)).

Definition GetAddressOf (m : list byte) (data_ field : Z) : result (option Z) :=
  let? field_offset := GetOptionalFieldOffset m data_ field in
  Ok (if field_offset =? 0 then None else Some (data_ + field_offset)).

Definition CheckField (m : list byte) (data_ field : Z) : result bool :=
  let? field_offset := GetOptionalFieldOffset m data_ field in Ok (negb (field_offset =? 0)).

(** [SetField<T>]: a field that is not in the table cannot be given another
    value than its default. *)
Definition SetField (n : nat) (m : list byte) (data_ field val def : Z) : result (bool * list byte) :=
  let? field_offset := GetOptionalFieldOffset m data_ field in
  if field_offset =? 0 then Ok (val =? def, m)
  else let? m := WriteScalar n m (data_ + field_offset) val in Ok (true, m).

Definition SetPointer (m : list byte) (data_ field val : Z) : result (bool * list byte) :=
  let? field_offset := GetOptionalFieldOffset m data_ field in
  if field_offset =? 0 then Ok (false, m)
  else let? m := WriteScalar 4 m (data_ + field_offset) (uint32 (val - (data_ + field_offset))) in Ok (true, m).

(** [VerifyFieldRequired<T>] and [VerifyOffsetRequired] *)
Definition VerifyFieldRequired (n : Z) (m : list byte) (data_ field : Z) : check := λ V,
  let? field_offset := GetOptionalFieldOffset m data_ field in
  Ok (negb (field_offset =? 0) && Verify m (data_ + field_offset) n, V).

Definition VerifyOffsetRequired (m : list byte) (data_ field : Z) : check := λ V,
  let? field_offset := GetOptionalFieldOffset m data_ field in
  if field_offset =? 0 then Ok (false, V)
  else let? o := VerifyOffset m (data_ + field_offset) V in Ok (negb (o =? 0), V).

(** [VerifyVectorOfStrings] *)
Fixpoint verify_strings (m : list byte) (v i : Z) (n : nat) : check := λ V,
  match n with
  | O => Ok (true, V)
  | S n' =>
      let? (ok, V) := VerifyString m (let? a := Vector_Get m v i in Ok (Some a)) V in
      if ok : bool then verify_strings m v (i + 1) n' V else Ok (false, V)
  end.

Definition VerifyVectorOfStrings (m : list byte) (vec : option Z) : check := λ V,
  match vec with
  | None => Ok (true, V)
  | Some v => let? n := Vector_size m v in verify_strings m v 0 (Z.to_nat n) V
  end.

(** ** Vectors in place *)

(** [Get], [Mutate] of a vector of scalars of [n] bytes, and [MutateOffset] *)
Definition Vector_GetScalar (n : nat) (m : list byte) (v i : Z) : result Z :=
  let? k := Vector_size m v in
  if i <? k then ReadScalar n m (v + 4 + i * Z.of_nat n) else Err AssertFail.

Definition Vector_Mutate (n : nat) (m : list byte) (v i val : Z) : result (list byte) :=
  let? k := Vector_size m v in
  if i <? k then WriteScalar n m (v + 4 + i * Z.of_nat n) val else Err AssertFail.

Definition Vector_MutateOffset (m : list byte) (v i val : Z) : result (list byte) :=
  let? k := Vector_size m v in
  if i <? k then WriteScalar 4 m (v + 4 + i * 4) (uint32 (val - (v + 4 + i * 4))) else Err AssertFail.

(** [VectorLength] *)
Definition VectorLength (m : list byte) (v : option Z) : result Z :=
  match v with Some v => Vector_size m v | None => Ok 0 end.

(** [IndirectHelper<Offset<T>>::Read] *)
Definition Read (m : list byte) (p i : Z) : result Z :=
  let p := p + i * 4 in
  let? o := ReadScalar 4 m p in Ok (p + o).

(** [VectorIterator] over a vector of offsets: its pointer *)
Record VectorIterator := mkIter { iter_data_ : Z }.
Definition VectorIterator_new (data i : Z) : VectorIterator := mkIter (data + 4 * i).
Definition iter_eq (a b : VectorIterator) : bool := iter_data_ a =? iter_data_ b.
Definition iter_lt (a b : VectorIterator) : bool := iter_data_ a <? iter_data_ b.
Definition iter_diff (a b : VectorIterator) : Z := Z.quot (iter_data_ a - iter_data_ b) 4.
Definition iter_deref (m : list byte) (a : VectorIterator) : result Z := Read m (iter_data_ a) 0.
Definition iter_next (a : VectorIterator) : VectorIterator := mkIter (iter_data_ a + 4).
Definition iter_prev (a : VectorIterator) : VectorIterator := mkIter (iter_data_ a - 4).
Definition iter_add (a : VectorIterator) (offset : Z) : VectorIterator := VectorIterator_new (iter_data_ a + offset * 4) 0.
Definition iter_sub (a : VectorIterator) (offset : Z) : VectorIterator := VectorIterator_new (iter_data_ a - offset * 4) 0.

(** [begin()] and [end()] *)
Definition Vector_begin (v : Z) : VectorIterator := VectorIterator_new (v + 4) 0.
Definition Vector_end (m : list byte) (v : Z) : result VectorIterator :=
  let? n := Vector_size m v in Ok (VectorIterator_new (v + 4) n).

(** [for (auto x : *v)]: the elements between two iterators, decoded. *)
Fixpoint iterate {A} (dec : list byte → Z → result A) (m : list byte) (fuel : nat) (it end_ : VectorIterator) : result (list A) :=
  if iter_eq it end_ then Ok []
  else
    match fuel with
    | O => Err OutOfFuel
    | S fuel' =>
        let? a := iter_deref m it in
        let? x := dec m a in
        let? l := iterate dec m fuel' (iter_next it) end_ in Ok (x :: l)
    end.

(** ** Scalars *)

(** [EndianSwap<T>], [sizeof(T) = n]; [EndianScalar] on a little-endian
    machine *)
Definition EndianSwap (n : nat) (t : Z) : result Z :=
  match n with
  | 1%nat => Ok t
  | 2%nat | 4%nat | 8%nat => Ok (le_combine (rev (le_split n t)))
  | _ => Err AssertFail
  end.
Definition EndianScalar (t : Z) : Z := t.

(** ** The builder *)

(** [FieldIndexToOffset] *)
Definition FieldIndexToOffset (field_id : Z) : Z := uint16 ((field_id + 2) * 2).

(** [Required]: asserts that the table just built has the field. *)
Definition Required (table field : Z) (b : FlatBufferBuilder) : result unit :=
  let? ok := CheckField (buf_ b) (GetSize b - table) field in
  if ok : bool then Ok tt else Err AssertFail.

Definition Finished (b : FlatBufferBuilder) : result unit := if finished b then Ok tt else Err AssertFail.

Definition Clear (b : FlatBufferBuilder) : FlatBufferBuilder :=
  let b := ClearOffsets b in
  let b := set_vtables [] (set_buf (λ _, []) b) in
  set_minalign 1 (set_finished false (set_nested false b)).

(** [Reset] also gives the block back, which the list of bytes does not show. *)
Definition Reset (b : FlatBufferBuilder) : FlatBufferBuilder := Clear b.

(** [Release]: the finished bytes, and the builder without them.  The flags
    stay. *)
Definition Release (b : FlatBufferBuilder) : result (list byte * FlatBufferBuilder) :=
  let? _ := Finished b in Ok (buf_ b, set_vtables [] (set_buf (λ _, []) b)).

Definition GetBufferMinAlignment (b : FlatBufferBuilder) : result Z :=
  let? _ := Finished b in Ok (minalign_ b).

Definition set_force f b := mkFbb (buf_ b) (field_locs b) (vtables b) (max_voffset_ b)
  (nested b) (finished b) (minalign_ b) f (dedup_vtables_ b).
Definition set_dedup d b := mkFbb (buf_ b) (field_locs b) (vtables b) (max_voffset_ b)
  (nested b) (finished b) (minalign_ b) (force_defaults_ b) d.
Definition ForceDefaults (fd : bool) (b : FlatBufferBuilder) : FlatBufferBuilder := set_force fd b.
Definition DedupVtables (dedup : bool) (b : FlatBufferBuilder) : FlatBufferBuilder := set_dedup dedup b.

Definition Pad (num_bytes : Z) (b : FlatBufferBuilder) : result FlatBufferBuilder := fill num_bytes b.
Definition PopBytes (amount : Z) (b : FlatBufferBuilder) : FlatBufferBuilder := set_buf (drop (Z.to_nat amount)) b.

(** [Swap], the move constructor and the move assignment: the two objects
    afterwards. *)
Definition Swap (this other : FlatBufferBuilder) : FlatBufferBuilder * FlatBufferBuilder := (other, this).
Definition FlatBufferBuilder_move (other : FlatBufferBuilder) : FlatBufferBuilder * FlatBufferBuilder :=
  Swap FlatBufferBuilder_new other.
Definition FlatBufferBuilder_assign (this other : FlatBufferBuilder) : FlatBufferBuilder * FlatBufferBuilder :=
  let '(temp, other) := FlatBufferBuilder_move other in
  let '(this, _) := Swap this temp in (this, other).

(** ** Vectors *)

(** [CreateVector] of scalars of [n] bytes, the bytes copied at once; and the
    loop that pushes the elements one by one, last first, as the big-endian
    branch and [CreateVectorScalarCast] do. *)
Definition scalar_bytes (n : nat) (v : list Z) : list byte := concat (le_split n <$> v).

Definition CreateVectorScalar (n : nat) (v : list Z) (b : FlatBufferBuilder) : result (Z * FlatBufferBuilder) :=
  let? b := StartVector (len v) (Z.of_nat n) b in
  let? b := PushBytes (scalar_bytes n v) b in
  EndVector (len v) b.

Fixpoint push_elements (n : nat) (v : list Z) (b : FlatBufferBuilder) : result FlatBufferBuilder :=
  match v with
  | [] => Ok b
  | x :: v' => let? b := push_elements n v' b in let? (_, b) := PushElement n x b in Ok b
  end.

Definition CreateVectorScalarCast (n : nat) (v : list Z) (b : FlatBufferBuilder) : result (Z * FlatBufferBuilder) :=
  let? b := StartVector (len v) (Z.of_nat n) b in
  let? b := push_elements n v b in
  EndVector (len v) b.

(** [CreateVector(const std::vector<bool> &)] *)
Definition CreateVectorBool (v : list bool) (b : FlatBufferBuilder) : result (Z * FlatBufferBuilder) :=
  CreateVectorScalarCast 1 (Z.b2z <$> v) b.

(** [CreateVectorOfStrings] *)
Fixpoint create_strings (v : list string) (b : FlatBufferBuilder) : result (list Z * FlatBufferBuilder) :=
  match v with
  | [] => Ok ([], b)
  | s :: v' =>
      let? (o, b) := CreateString s b in
      let? (os, b) := create_strings v' b in Ok (o :: os, b)
  end.

Definition CreateVectorOfStrings (v : list string) (b : FlatBufferBuilder) : result (Z * FlatBufferBuilder) :=
  let? (offsets, b) := create_strings v b in CreateVector offsets b.

(** [CreateStruct]: an aligned object of [n] bytes *)
Definition CreateStruct (alignment : Z) (bs : list byte) (b : FlatBufferBuilder) : result (Z * FlatBufferBuilder) :=
  let? _ := NotNested b in
  let? b := Align alignment b in
  let? b := push_small bs b in Ok (GetSize b, b).

(** ** Shared strings *)

(** The string pool: the offsets of the strings stored so far, compared by
    the bytes they lead to; null before its first use. *)
Abbreviation pool := (option (list Z)).

(** The string at an offset, as [StringOffsetCompare] reads it. *)
Definition string_at (b : FlatBufferBuilder) (off : Z) : result string := String_str (buf_ b) (GetSize b - off).

(** [string_pool->find(off)] *)
Fixpoint pool_find (s : string) (p : list Z) (b : FlatBufferBuilder) : result (option Z) :=
  match p with
  | [] => Ok None
  | o :: p' => let? s' := string_at b o in if String.eqb s s' then Ok (Some o) else pool_find s p' b
  end.

Definition CreateSharedString (s : string) (p : pool) (b : FlatBufferBuilder) : result (Z * pool * FlatBufferBuilder) :=
  let p := default [] p in
  let size_before_string := GetSize b in
  let? (off, b) := CreateString s b in
  let? stored := string_at b off in
  let? it := pool_find stored p b in
  match it with
  | Some o => Ok (o, Some p, PopBytes (GetSize b - size_before_string) b)
  | None => Ok (off, Some (p ++ [off]), b)
  end.

(** ** Changing a table in place *)

(** Two ranges of bytes that do not meet. *)
Definition apart (a n b k : Z) : Prop := a + n ≤ b ∨ b + k ≤ a.

(** A field that is in the table is written and read back, when it lies apart
    from the reference to the vtable and from the vtable itself, as fields of
    a table do. *)
Lemma SetField_present n m t field val def fo so vs :
  ReadScalarS 4 m t = Ok so → ReadScalar 2 m (t - so) = Ok vs → GetOptionalFieldOffset m t field = Ok fo → fo ≠ 0 →
  0 ≤ field < vs → 0 ≤ t + fo → t + fo + Z.of_nat n ≤ len m →
  apart (t + fo) (Z.of_nat n) t 4 → apart (t + fo) (Z.of_nat n) (t - so) (vs + 2) →
  ∃ m', SetField n m t field val def = Ok (true, m') ∧ length m' = length m ∧
    GetField n m' t field def = Ok (val mod 2 ^ (8 * Z.of_nat n)).
Proof.
  intros Hso Hvs Hfo Hne Hf H0 Hl Ha1 Ha2. unfold SetField. rewrite Hfo. cbn [rbind].
  destruct (Z.eqb_spec fo 0); [done|]. destruct (WriteScalar_ok n m (t + fo) val H0 Hl) as (m' & -> & Hlen & Hrd & Hoth).
  cbn [rbind]. exists m'. split; [done|]. split; [done|]. unfold GetField.
  assert (GetOptionalFieldOffset m' t field = Ok fo) as ->.
  { rewrite <- Hfo. unfold GetOptionalFieldOffset, GetVTable. unfold apart in *.
    assert (ReadScalarS 4 m' t = Ok so) as -> by (rewrite <- Hso; unfold ReadScalarS; rewrite Hoth by lia; done).
    rewrite Hso. cbn [rbind]. rewrite (Hoth 2%nat (t - so)) by lia. rewrite Hvs. cbn [rbind].
    destruct (Z.ltb_spec field vs); [|done]. apply Hoth. lia. }
  cbn [rbind]. by destruct (Z.eqb_spec fo 0).
Qed.

(** An absent field keeps its default: any other value is refused and nothing
    changes. *)
Lemma SetField_absent n m t field val def :
  GetOptionalFieldOffset m t field = Ok 0 →
  SetField n m t field val def = Ok (val =? def, m) ∧ GetField n m t field def = Ok def.
Proof. intros Hfo. unfold SetField, GetField. by rewrite Hfo. Qed.

(** ** Changing a vector in place *)

Lemma Vector_Mutate_spec n m v i val k :
  (0 < n)%nat → 0 ≤ v → Vector_size m v = Ok k → 0 ≤ i < k → v + 4 + k * Z.of_nat n ≤ len m →
  ∃ m', Vector_Mutate n m v i val = Ok m' ∧ length m' = length m ∧ Vector_size m' v = Ok k ∧
    Vector_GetScalar n m' v i = Ok (val mod 2 ^ (8 * Z.of_nat n)) ∧
    ∀ j, j ≠ i → Vector_GetScalar n m' v j = Vector_GetScalar n m v j.
Proof.
  intros Hn Hv Hk Hi Hl. unfold Vector_Mutate. rewrite Hk. cbn [rbind]. destruct (Z.ltb_spec i k); [|lia].
  destruct (WriteScalar_ok n m (v + 4 + i * Z.of_nat n) val) as (m' & -> & Hlen & Hrd & Hoth); [nia..|].
  exists m'. assert (Vector_size m' v = Ok k) as Hk' by (unfold Vector_size in *; rewrite Hoth by nia; done).
  split_and!; [done|done|done| |].
  - unfold Vector_GetScalar. rewrite Hk'. cbn [rbind]. by destruct (Z.ltb_spec i k); [|lia].
  - intros j Hj. unfold Vector_GetScalar. rewrite Hk', Hk. cbn [rbind]. destruct (j <? k); [|done]. apply Hoth. nia.
Qed.

(** ** Iterating over a vector *)

Lemma iterate_vector {A} (dec : list byte → Z → result A) m v k n i :
  Vector_size m v = Ok k → 0 ≤ i → i + Z.of_nat n = k →
  iterate dec m n (VectorIterator_new (v + 4) i) (VectorIterator_new (v + 4) k) = vector_from dec m v i n.
Proof.
  intros Hk. revert i. induction n as [|n IH]; intros i Hi Hn; cbn [iterate vector_from]; unfold iter_eq, VectorIterator_new; cbn [iter_data_].
  - replace k with i by lia. by rewrite Z.eqb_refl.
  - destruct (Z.eqb_spec (v + 4 + 4 * i) (v + 4 + 4 * k)); [lia|].
    unfold Vector_Get, iter_deref, Read. rewrite Hk. cbn [rbind iter_data_]. destruct (Z.ltb_spec i k); [|lia].
    replace (v + 4 + 4 * i + 0 * 4) with (v + 4 + i * 4) by lia. destruct (ReadScalar 4 m (v + 4 + i * 4)); [|done]. cbn [rbind].
    destruct (dec m _); [|done]. cbn [rbind]. rewrite <- (IH (i + 1)) by lia. unfold iter_next, VectorIterator_new. cbn [iter_data_].
    by replace (v + 4 + 4 * i + 4) with (v + 4 + 4 * (i + 1)) by lia.
Qed.

(** A range-for over a vector visits the elements that [Get] returns, in
    order, and stops at the end. *)
Theorem iterate_spec {A} (dec : list byte → Z → result A) m v k :
  Vector_size m v = Ok k → 0 ≤ k →
  (let? e := Vector_end m v in iterate dec m (Z.to_nat k) (Vector_begin v) e) = vector_from dec m v 0 (Z.to_nat k).
Proof. intros Hk H0. unfold Vector_end, Vector_begin. rewrite Hk. cbn [rbind]. apply iterate_vector; [done|lia|lia]. Qed.

Lemma iter_arith it n k : iter_diff (iter_add it n) it = n ∧ iter_sub (iter_add it n) n = it ∧ iter_prev (iter_next it) = it ∧
  iter_add (iter_add it n) k = iter_add it (n + k).
Proof.
  destruct it as [d]. unfold iter_diff, iter_add, iter_sub, iter_prev, iter_next, VectorIterator_new. cbn [iter_data_].
  split_and!; [|f_equal; lia..]. replace (d + n * 4 + 4 * 0 - d) with (n * 4) by lia. apply Z.quot_mul. lia.
Qed.

(** ** Scalars of the other byte order *)

Lemma EndianSwap_involutive n t s :
  0 ≤ t < 2 ^ (8 * Z.of_nat n) → EndianSwap n t = Ok s → EndianSwap n s = Ok t.
Proof.
  intros Ht. unfold EndianSwap.
  assert (∀ k, 0 ≤ t < 2 ^ (8 * Z.of_nat k) → le_combine (rev (le_split k (le_combine (rev (le_split k t))))) = t) as H.
  { intros k Hk. rewrite <- (length_le_split k t) at 1. rewrite <- length_rev. rewrite split_le_combine, rev_involutive.
    rewrite le_mod. by apply Z.mod_small. }
  destruct n as [|[|[|[|[|[|[|[|[|n]]]]]]]]]; try done; intros [= <-]; f_equal; by apply H.
Qed.

(** ** A builder used again *)

(** A cleared builder is a new one, whatever was written before and whether
    or not a table was left open. *)
Lemma Clear_new b : force_defaults_ b = false → dedup_vtables_ b = true → Clear b = FlatBufferBuilder_new.
Proof. destruct b. cbn. by intros -> ->. Qed.

(** A released builder still counts as finished; [Clear] makes it new. *)
Lemma Release_spec b :
  finished b = true → ∃ b', Release b = Ok (buf_ b, b') ∧ buf_ b' = [] ∧ finished b' = true.
Proof. intros Hf. unfold Release, Finished. rewrite Hf. cbn. by eexists. Qed.

(** ** Vectors of scalars *)

Lemma set_buf_nil b : set_buf (λ m, [] ++ m) b = b.
Proof. by destruct b. Qed.

Lemma PushElement_exact n x b :
  align_ok (Z.of_nat n) → Z.of_nat n ≤ minalign_ b → GetSize b mod Z.of_nat n = 0 →
  GetSize b < FLATBUFFERS_MAX_BUFFER_SIZE →
  PushElement n x b = Ok (GetSize b + Z.of_nat n, set_buf (λ m, le_split n x ++ m) b).
Proof.
  intros Ha Hm Hz Hs. unfold PushElement, Align, TrackMinAlign.
  destruct (Z.ltb_spec (minalign_ b) (Z.of_nat n)); [lia|]. rewrite padding_none by done.
  unfold fill, push_small. rewrite ensure_space_ok by done. cbn [rbind Z.to_nat replicate]. rewrite set_buf_nil.
  rewrite ensure_space_ok by done. cbn [rbind]. f_equal. f_equal. unfold GetSize. cbn. rewrite length_app, length_le_split. lia.
Qed.

Lemma scalar_bytes_length n v : len (scalar_bytes n v) = Z.of_nat n * len v.
Proof. unfold scalar_bytes. induction v as [|x v IH]; cbn; [lia|]. rewrite length_app, length_le_split. lia. Qed.

Lemma push_elements_exact n v b :
  align_ok (Z.of_nat n) → Z.of_nat n ≤ minalign_ b → GetSize b mod Z.of_nat n = 0 →
  GetSize b + Z.of_nat n * len v < FLATBUFFERS_MAX_BUFFER_SIZE →
  push_elements n v b = Ok (set_buf (λ m, scalar_bytes n v ++ m) b).
Proof.
  intros Ha Hm Hz. assert (0 < Z.of_nat n) by (unfold align_ok in Ha; lia).
  induction v as [|x v IH]; cbn [push_elements length]; intros Hs; [by rewrite set_buf_nil|].
  rewrite IH by nia. cbn [rbind].
  assert (GetSize (set_buf (λ m, scalar_bytes n v ++ m) b) = GetSize b + len v * Z.of_nat n) as Hsz.
  { unfold GetSize. cbn. rewrite length_app. pose proof (scalar_bytes_length n v). lia. }
  rewrite PushElement_exact; [|done|done|rewrite Hsz, Z_mod_plus_full; done|rewrite Hsz; nia].
  cbn [rbind]. f_equal. unfold set_buf. cbn. by rewrite <- app_assoc.
Qed.

Lemma StartVector_ok k n b :
  wf b → align_ok n → 0 ≤ k → GetSize b + 20 < FLATBUFFERS_MAX_BUFFER_SIZE →
  ∃ b', StartVector k n b = Ok b' ∧ n ≤ minalign_ b' ∧ GetSize b' mod n = 0 ∧ GetSize b ≤ GetSize b' ≤ GetSize b + 12.
Proof.
  intros Hwf Ha Hk Hs. unfold StartVector. rewrite NotNested_wf by done. cbn [rbind].
  unfold FLATBUFFERS_MAX_BUFFER_SIZE in Hs. change (GetSize b) with (GetSize (set_nested true b)) in *.
  destruct (PreAlign_ok (k * n) 4 (set_nested true b)) as (b1 & p1 & -> & Hg1 & Hp1 & _);
    [unfold align_ok; lia|unfold FLATBUFFERS_MAX_BUFFER_SIZE; lia|]. pose proof (grown_size _ _ _ Hg1). cbn [rbind].
  destruct (PreAlign_ok (k * n) n b1 Ha) as (b2 & p2 & Hpre & Hg2 & Hp2 & Hm);
    [unfold FLATBUFFERS_MAX_BUFFER_SIZE; lia|]. pose proof (grown_size _ _ _ Hg2). rewrite Z_mod_plus_full in Hm.
  exists b2. split; [done|]. split; [|split; [done|unfold align_ok in Ha; lia]].
  unfold PreAlign, fill, push_small in Hpre. destruct (ensure_space _); [|done]. injection Hpre as <-. cbn.
  unfold TrackMinAlign. destruct (Z.ltb_spec (minalign_ b1) n); cbn; lia.
Qed.

(** Copying the elements of a scalar vector at once, as the little-endian
    build does, and pushing them one by one give the same builder. *)
Theorem scalar_vector_equiv n v b :
  wf b → align_ok (Z.of_nat n) → GetSize b + Z.of_nat n * len v + 20 < FLATBUFFERS_MAX_BUFFER_SIZE →
  CreateVectorScalar n v b = CreateVectorScalarCast n v b.
Proof.
  intros Hwf Ha Hs. unfold CreateVectorScalar, CreateVectorScalarCast.
  destruct (StartVector_ok (len v) (Z.of_nat n) b Hwf Ha) as (b' & -> & Hm & Hz & Hb); [lia|nia|]. cbn [rbind].
  rewrite push_elements_exact by (done || lia). cbn [rbind].
  assert (PushBytes (scalar_bytes n v) b' = Ok (set_buf (λ m, scalar_bytes n v ++ m) b')) as ->; [|done].
  unfold PushBytes. destruct (scalar_bytes n v) as [|c w]; [by rewrite set_buf_nil|].
  unfold push_small. by rewrite ensure_space_ok by lia.
Qed.

(** ** Vectors of strings *)

Lemma create_strings_ok v b :
  wf b → GetSize b + Z.of_nat (list_sum ((λ s, String.length s + 12)%nat <$> v)) < FLATBUFFERS_MAX_BUFFER_SIZE →
  ∃ os b', create_strings v b = Ok (os, b') ∧ wf b' ∧ extends b b' ∧
    GetSize b' ≤ GetSize b + Z.of_nat (list_sum ((λ s, String.length s + 12)%nat <$> v)) ∧
    Forall2 (λ o s, 0 < o ≤ GetSize b' ∧ has_string (buf_ b') o s) os v.
Proof.
  revert b. induction v as [|s v IH]; intros b Hwf Hs; cbn [create_strings].
  { exists [], b. split_and!; [done|done|apply extends_refl|cbn; lia|constructor]. }
  cbn [fmap list_fmap list_sum foldr] in *.
  destruct (CreateString_ok s b Hwf) as (o & b1 & -> & Hwf1 & He1 & Ho & Hs1 & Hstr); [lia|]. cbn [rbind].
  destruct (IH b1 Hwf1) as (os & b2 & -> & Hwf2 & He2 & Hs2 & HF); [unfold list_sum; lia|]. cbn [rbind].
  exists (o :: os), b2. split_and!; [done|done|by eapply extends_trans|unfold list_sum in *; lia|].
  constructor; [|done]. pose proof (extends_size _ _ He2). destruct He2 as [p ->]. split; [lia|by apply has_string_app].
Qed.

(** Reading a vector of strings gives the strings. *)
Theorem string_vector_roundtrip v b :
  wf b → GetSize b + Z.of_nat (list_sum ((λ s, String.length s + 12)%nat <$> v)) + 4 * len v + 20 < FLATBUFFERS_MAX_BUFFER_SIZE →
  ∃ off b', CreateVectorOfStrings v b = Ok (off, b') ∧ wf b' ∧ extends b b' ∧
    Vector_size (buf_ b') (GetSize b' - off) = Ok (len v) ∧
    ∀ i s, v !! i = Some s →
      (let? a := Vector_Get (buf_ b') (GetSize b' - off) (Z.of_nat i) in String_str (buf_ b') a) = Ok s.
Proof.
  intros Hwf Hs. unfold CreateVectorOfStrings.
  destruct (create_strings_ok v b Hwf) as (os & b1 & -> & Hwf1 & He1 & Hs1 & HF); [lia|]. cbn [rbind].
  pose proof (Forall2_length _ _ _ HF) as Hlen.
  destruct (CreateVector_ok os b1 Hwf1) as (off & b2 & -> & Hwf2 & He2 & Ho & Hs2 & Hvec); [|lia|].
  { apply Forall_forall. intros o [i Hi]%list_elem_of_lookup. destruct (Forall2_lookup_l _ _ _ _ _ HF Hi) as (s & _ & ? & _). done. }
  destruct (Vector_spec _ _ _ Hvec) as [Hsz Hget]. exists off, b2. unfold GetSize in *.
  split_and!; [done|done|by eapply extends_trans|by rewrite Hsz, Hlen|].
  intros i s Hi. destruct (Forall2_lookup_r _ _ _ _ _ HF Hi) as (o & Hio & _ & Hstr). rewrite (Hget i o Hio). cbn [rbind].
  apply String_str_spec. destruct He2 as [p ->]. by apply has_string_app.
Qed.

(** ** Shared strings *)

Definition pool_ok (p : list Z) (b : FlatBufferBuilder) : Prop := ∀ o, o ∈ p → ∃ s, has_string (buf_ b) o s.

Lemma has_string_inj m o s s' : has_string m o s → has_string m o s' → s = s'.
Proof. intros H1 H2. apply String_str_spec in H1, H2. congruence. Qed.

Lemma pool_find_spec s p b :
  pool_ok p b →
  match pool_find s p b with
  | Ok (Some o) => o ∈ p ∧ has_string (buf_ b) o s
  | Ok None => ∀ o, o ∈ p → ¬ has_string (buf_ b) o s
  | Err _ => False
  end.
Proof.
  induction p as [|o p IH]; intros Hp; cbn [pool_find]; [by intros ? ?%not_elem_of_nil|].
  destruct (Hp o) as [s' Hs']; [left|]. unfold string_at, GetSize. rewrite (String_str_spec _ _ _ Hs'). cbn [rbind].
  destruct (String.eqb_spec s s') as [->|Hne]; [by split; [left|]|].
  assert (pool_ok p b) as Hp' by (intros x Hx; apply Hp; by right). specialize (IH Hp').
  destruct (pool_find s p b) as [[o'|]|]; [|intros x [->|Hx]%elem_of_cons; [|by apply IH]|done].
  - destruct IH. split; [by right|done].
  - intros Hx. apply Hne. by eapply has_string_inj.
Qed.

Lemma CreateString_ctl s b o b' : CreateString s b = Ok (o, b') → ctl b' = ctl b.
Proof.
  assert (∀ n b b', fill n b = Ok b' → ctl b' = ctl b) as Hfill.
  { intros n x x'. unfold fill, push_small. destruct (ensure_space x); [|done]. by intros [= <-]. }
  assert (∀ n b, ctl (TrackMinAlign n b) = ctl b) as Htrack by (intros; by apply TrackMinAlign_same).
  unfold CreateString, PreAlign, PushElement, Align. destruct (NotNested b); [|done]. cbn [rbind].
  destruct (fill _ (TrackMinAlign 4 b)) as [b1|] eqn:E1; [|done]. cbn [rbind].
  destruct (fill 1 b1) as [b2|] eqn:E2; [|done]. cbn [rbind].
  destruct (PushBytes _ b2) as [b3|] eqn:E3; [|done]. cbn [rbind].
  destruct (fill _ (TrackMinAlign _ b3)) as [b4|] eqn:E4; [|done]. cbn [rbind]. unfold push_small.
  destruct (ensure_space b4); [|done]. cbn [rbind]. intros [= _ <-]. change (ctl b4 = ctl b).
  rewrite (Hfill _ _ _ E4), Htrack. transitivity (ctl b2); [|by rewrite (Hfill _ _ _ E2), (Hfill _ _ _ E1)].
  unfold PushBytes in E3. destruct (String.list_byte_of_string s); [congruence|].
  unfold push_small in E3. destruct (ensure_space b2); [|done]. by injection E3 as <-.
Qed.

(** A shared string is there when the call returns; one that was stored
    before is found again and the buffer does not grow. *)
Theorem shared_string_spec s p b :
  wf b → pool_ok (default [] p) b → GetSize b + strlen s + 12 < FLATBUFFERS_MAX_BUFFER_SIZE →
  ∃ off p' b', CreateSharedString s p b = Ok (off, Some p', b') ∧ wf b' ∧ extends b b' ∧ pool_ok p' b' ∧
    off ∈ p' ∧ has_string (buf_ b') off s ∧
    ((∃ o, o ∈ default [] p ∧ has_string (buf_ b) o s) → buf_ b' = buf_ b ∧ p' = default [] p).
Proof.
  intros Hwf Hp Hs. unfold CreateSharedString. set (q := default [] p) in *.
  destruct (CreateString_ok s b Hwf Hs) as (off & b1 & Hcs & Hwf1 & He & Ho & Hs1 & Hstr).
  pose proof (CreateString_ctl _ _ _ _ Hcs) as Hctl. rewrite Hcs. cbn [rbind].
  unfold string_at, GetSize. rewrite (String_str_spec _ _ _ Hstr). cbn [rbind]. destruct He as [x Hx].
  assert (pool_ok q b1) as Hp1 by (intros o Hin; destruct (Hp o Hin) as [t Ht]; exists t; rewrite Hx; by apply has_string_app).
  pose proof (pool_find_spec s q b1 Hp1) as Hfind. destruct (pool_find s q b1) as [[o|]|]; [| |done]; cbn [rbind].
  - set (b' := PopBytes _ b1). assert (buf_ b' = buf_ b) as Hb'.
    { unfold b', PopBytes. cbn. rewrite Hx, length_app.
      replace (Z.to_nat (Z.of_nat (length x + length (buf_ b)) - len (buf_ b))) with (length x) by lia. apply drop_app_length. }
    destruct Hfind as [Hin Hst]. assert (has_string (buf_ b) o s) as Hst'.
    { destruct (Hp o Hin) as [t Ht]. rewrite Hx in Hst. by rewrite (has_string_inj _ _ _ _ Hst (has_string_app x _ _ _ Ht)). }
    exists o, q, b'. rewrite Hb'. split_and!; try done.
    + destruct Hwf as [Hn Hfl Hmx Hfo Hma Hvt], Hwf1 as [Hn1 Hfl1 Hmx1 Hfo1 Hma1 Hvt1]. unfold ctl in Hctl. injection Hctl as E1 E2 E3 E4 E5 E6.
      split; try done. rewrite Hb'. cbn. by rewrite E2.
    + exists []. done.
    + intros o' Hin'. rewrite Hb'. by apply Hp.
  - exists off, (q ++ [off]), b1. split_and!; try done.
    + by exists x.
    + intros o [Hin|Hin%list_elem_of_singleton]%elem_of_app; [by apply Hp1|subst o; by exists s].
    + apply elem_of_app. right. by apply list_elem_of_singleton.
    + intros (o & Hin & Ht). destruct (Hfind o Hin). rewrite Hx. by apply has_string_app.
Qed.

(** ** Required fields *)

Lemma Required_ok b t fs f :
  has_table (buf_ b) t fs → f ∈ fs → live f = true → 4 ≤ field_id f → field_id f mod 2 = 0 →
  Required t (field_id f) b = Ok tt.
Proof.
  intros (locs & Ht & Hfs) Hin Hlive Hid Hev. specialize (Hfs f Hin). rewrite Hlive in Hfs. destruct Hfs as (loc & Hloc & _).
  unfold Required, CheckField, GetSize. rewrite (GetOptionalFieldOffset_spec _ _ _ _ Ht Hid Hev), Hloc. cbn [rbind].
  destruct Ht as (_ & _ & vt & VT & _ & _ & _ & _ & _ & _ & HV4). destruct (HV4 _ _ Hloc). by destruct (Z.eqb_spec (t - loc) 0); [lia|].
Qed.
