(* ===== verification/NetGenerated.v ===== *)
(** * The generated message code (src/flatbuffer/net_generated.h)

    For every table: the vtable slots, the accessors, [Verify], the builder
    methods and the [Create] functions, written against the builder and the
    readers of the FlatBuffers library; then the records of the protocol as
    bytes, written the way the servers write them and read the way the
    handlers read them.  The class [Codec] states the round trip and is what
    the rest of the development may use of the byte format. *)

From Stdlib Require Import ZArith Lia Ascii.
From coqutil Require Import Byte Word.LittleEndianList.
From stdpp Require Import base gmap strings list.
From S2P Require Import Prelude NetMsg FlatBuilder FlatTable.

Create HintDb accessors.

(** ** Sub-objects that may be absent *)

(** [builder.CreateString(s)] on a [std::string], or no offset *)
Definition create_string_or_null (s : option string) (fbb : FlatBufferBuilder)
    : result (Z * FlatBufferBuilder) :=
  match s with Some s => CreateString s fbb | None => Ok (0, fbb) end.

(** The part of a [const char] pointer before its terminator *)
Fixpoint c_string (s : string) : string :=
  match s with
  | String c s' => if Ascii.eqb c Ascii.zero then EmptyString else String c (c_string s')
  | EmptyString => EmptyString
  end.

(** [p ? _fbb.CreateString(p) : 0] *)
Definition create_cstring_or_null (s : option string) (fbb : FlatBufferBuilder)
    : result (Z * FlatBufferBuilder) :=
  create_string_or_null (c_string <$> s) fbb.

(** [p ? _fbb.CreateVector(p) : 0] *)
Definition create_vector_or_null (v : option (list Z)) (fbb : FlatBufferBuilder)
    : result (Z * FlatBufferBuilder) :=
  match v with Some v => CreateVector v fbb | None => Ok (0, fbb) end.

(** The loop that creates the elements of a vector of tables. *)
Fixpoint write_all {A} (write : A → FlatBufferBuilder → result (Z * FlatBufferBuilder)) (l : list A)
    (fbb : FlatBufferBuilder) : result (list Z * FlatBufferBuilder) :=
  match l with
  | [] => Ok ([], fbb)
  | x :: l' =>
      let? (o, fbb) := write x fbb in
      let? (os, fbb) := write_all write l' fbb in Ok (o :: os, fbb)
  end.

Definition write_list_or_null {A} (write : A → FlatBufferBuilder → result (Z * FlatBufferBuilder))
    (l : option (list A)) (fbb : FlatBufferBuilder) : result (Z * FlatBufferBuilder) :=
  match l with
  | Some l => let? (os, fbb) := write_all write l fbb in CreateVector os fbb
  | None => Ok (0, fbb)
  end.

(** ** [struct GtmMsg] *)

Definition GtmMsg_VT_CMD : Z := 4.
Definition GtmMsg_VT_TXID : Z := 6.
Definition GtmMsg_VT_ISLOCALCONFLICT : Z := 8.
Definition GtmMsg_VT_TRANSTYPE : Z := 10.

Definition get_GtmMsg_cmd m t : result Z := GetFieldS 4 m t GtmMsg_VT_CMD 0.
Definition get_GtmMsg_txid m t : result Z := GetFieldS 4 m t GtmMsg_VT_TXID 0.
Definition get_GtmMsg_isLocalConflict m t : result bool :=
  let? x := GetField 1 m t GtmMsg_VT_ISLOCALCONFLICT 0 in Ok (negb (x =? 0)).
Definition get_GtmMsg_transType m t : result (option Z) := GetPointer m t GtmMsg_VT_TRANSTYPE.
#[export] Hint Unfold get_GtmMsg_cmd get_GtmMsg_txid get_GtmMsg_isLocalConflict get_GtmMsg_transType : accessors.

Definition GtmMsg_Verify (m : list byte) (t : Z) : check :=
  VerifyTableStart m t &&?
  VerifyField 4 m t GtmMsg_VT_CMD &&?
  VerifyField 4 m t GtmMsg_VT_TXID &&?
  VerifyField 1 m t GtmMsg_VT_ISLOCALCONFLICT &&?
  VerifyOffsetField m t GtmMsg_VT_TRANSTYPE &&?
  VerifyString m (get_GtmMsg_transType m t) &&?
  Verifier_EndTable.

Definition GtmMsgBuilder_add_cmd (cmd : Z) : field_add := FElement 4 GtmMsg_VT_CMD cmd 0.
Definition GtmMsgBuilder_add_txid (txid : Z) : field_add := FElement 4 GtmMsg_VT_TXID txid 0.
Definition GtmMsgBuilder_add_isLocalConflict (isLocalConflict : bool) : field_add :=
  FElement 1 GtmMsg_VT_ISLOCALCONFLICT (Z.b2z isLocalConflict) 0.
Definition GtmMsgBuilder_add_transType (transType : Z) : field_add :=
  FOffset GtmMsg_VT_TRANSTYPE transType.

Definition CreateGtmMsg (cmd : Z) (txid : Z) (isLocalConflict : bool) (transType : Z)
    : FlatBufferBuilder → result (Z * FlatBufferBuilder) :=
  build_table [
    GtmMsgBuilder_add_transType transType;
    GtmMsgBuilder_add_txid txid;
    GtmMsgBuilder_add_cmd cmd;
    GtmMsgBuilder_add_isLocalConflict isLocalConflict].

Definition CreateGtmMsgDirect (cmd : Z) (txid : Z) (isLocalConflict : bool) (transType : option string) 
    (fbb : FlatBufferBuilder) : result (Z * FlatBufferBuilder) :=
  let? (transType__, fbb) := create_cstring_or_null transType fbb in
  CreateGtmMsg cmd txid isLocalConflict transType__ fbb.

(** The record a handler sees through the accessors. *)
Definition read_GtmMsg (m : list byte) (t : Z) : result GtmMsg :=
  let? cmd := get_GtmMsg_cmd m t in
  let? txid := get_GtmMsg_txid m t in
  let? isLocalConflict := get_GtmMsg_isLocalConflict m t in
  let? transType := string_field m t GtmMsg_VT_TRANSTYPE in
  Ok (mkGtmMsg cmd txid isLocalConflict transType).

(** The sub-objects first, then the table. *)
Definition write_GtmMsg (x : GtmMsg) (fbb : FlatBufferBuilder) : result (Z * FlatBufferBuilder) :=
  let? (transType, fbb) := create_string_or_null (GtmMsg_transType x) fbb in
  CreateGtmMsg (GtmMsg_cmd x) (GtmMsg_txid x) (GtmMsg_isLocalConflict x) transType fbb.

(** ** [struct ipAndPort] *)

Definition ipAndPort_VT_IP : Z := 4.
Definition ipAndPort_VT_PORT : Z := 6.

Definition get_ipAndPort_ip m t : result (option Z) := GetPointer m t ipAndPort_VT_IP.
Definition get_ipAndPort_port m t : result Z := GetFieldS 4 m t ipAndPort_VT_PORT 0.
#[export] Hint Unfold get_ipAndPort_ip get_ipAndPort_port : accessors.

Definition ipAndPort_Verify (m : list byte) (t : Z) : check :=
  VerifyTableStart m t &&?
  VerifyOffsetField m t ipAndPort_VT_IP &&?
  VerifyString m (get_ipAndPort_ip m t) &&?
  VerifyField 4 m t ipAndPort_VT_PORT &&?
  Verifier_EndTable.

Definition ipAndPortBuilder_add_ip (ip : Z) : field_add :=
  FOffset ipAndPort_VT_IP ip.
Definition ipAndPortBuilder_add_port (port : Z) : field_add := FElement 4 ipAndPort_VT_PORT port 0.

Definition CreateipAndPort (ip : Z) (port : Z)
    : FlatBufferBuilder → result (Z * FlatBufferBuilder) :=
  build_table [
    ipAndPortBuilder_add_port port;
    ipAndPortBuilder_add_ip ip].

Definition CreateipAndPortDirect (ip : option string) (port : Z) 
    (fbb : FlatBufferBuilder) : result (Z * FlatBufferBuilder) :=
  let? (ip__, fbb) := create_cstring_or_null ip fbb in
  CreateipAndPort ip__ port fbb.

(** The record a handler sees through the accessors. *)
Definition read_ipAndPort (m : list byte) (t : Z) : result ipAndPort :=
  let? ip := string_field m t ipAndPort_VT_IP in
  let? port := get_ipAndPort_port m t in
  Ok (mkipAndPort ip port).

(** The sub-objects first, then the table. *)
Definition write_ipAndPort (x : ipAndPort) (fbb : FlatBufferBuilder) : result (Z * FlatBufferBuilder) :=
  let? (ip, fbb) := create_string_or_null (ipAndPort_ip x) fbb in
  CreateipAndPort ip (ipAndPort_port x) fbb.

(** ** [struct AppMsg] *)

Definition AppMsg_VT_CMD : Z := 4.
Definition AppMsg_VT_TXID : Z := 6.
Definition AppMsg_VT_LIST : Z := 8.

Definition get_AppMsg_cmd m t : result Z := GetFieldS 4 m t AppMsg_VT_CMD 0.
Definition get_AppMsg_txid m t : result Z := GetFieldS 4 m t AppMsg_VT_TXID 0.
Definition get_AppMsg_list m t : result (option Z) := GetPointer m t AppMsg_VT_LIST.
#[export] Hint Unfold get_AppMsg_cmd get_AppMsg_txid get_AppMsg_list : accessors.

Definition AppMsg_Verify (m : list byte) (t : Z) : check :=
  VerifyTableStart m t &&?
  VerifyField 4 m t AppMsg_VT_CMD &&?
  VerifyField 4 m t AppMsg_VT_TXID &&?
  VerifyOffsetField m t AppMsg_VT_LIST &&?
  VerifyVector m (get_AppMsg_list m t) &&?
  VerifyVectorOfTables ipAndPort_Verify m (get_AppMsg_list m t) &&?
  Verifier_EndTable.

Definition AppMsgBuilder_add_cmd (cmd : Z) : field_add := FElement 4 AppMsg_VT_CMD cmd 0.
Definition AppMsgBuilder_add_txid (txid : Z) : field_add := FElement 4 AppMsg_VT_TXID txid 0.
Definition AppMsgBuilder_add_list (list_ : Z) : field_add :=
  FOffset AppMsg_VT_LIST list_.

Definition CreateAppMsg (cmd : Z) (txid : Z) (list_ : Z)
    : FlatBufferBuilder → result (Z * FlatBufferBuilder) :=
  build_table [
    AppMsgBuilder_add_list list_;
    AppMsgBuilder_add_txid txid;
    AppMsgBuilder_add_cmd cmd].

Definition CreateAppMsgDirect (cmd : Z) (txid : Z) (list_ : option (list Z)) 
    (fbb : FlatBufferBuilder) : result (Z * FlatBufferBuilder) :=
  let? (list__, fbb) := create_vector_or_null list_ fbb in
  CreateAppMsg cmd txid list__ fbb.

(** The record a handler sees through the accessors. *)
Definition read_AppMsg (m : list byte) (t : Z) : result AppMsg :=
  let? cmd := get_AppMsg_cmd m t in
  let? txid := get_AppMsg_txid m t in
  let? list_ := vector_field read_ipAndPort m t AppMsg_VT_LIST in
  Ok (mkAppMsg cmd txid list_).

(** The sub-objects first, then the table. *)
Definition write_AppMsg (x : AppMsg) (fbb : FlatBufferBuilder) : result (Z * FlatBufferBuilder) :=
  let? (list_, fbb) := write_list_or_null write_ipAndPort (AppMsg_list x) fbb in
  CreateAppMsg (AppMsg_cmd x) (AppMsg_txid x) list_ fbb.

(** ** [struct ESMsg] *)

Definition ESMsg_VT_CMD : Z := 4.
Definition ESMsg_VT_TXID : Z := 6.
Definition ESMsg_VT_NEEDGLOBALCONFLICT : Z := 8.
Definition ESMsg_VT_TYPE : Z := 10.
Definition ESMsg_VT_KEY : Z := 12.
Definition ESMsg_VT_ATTR : Z := 14.
Definition ESMsg_VT_VAL : Z := 16.

Definition get_ESMsg_cmd m t : result Z := GetFieldS 4 m t ESMsg_VT_CMD 0.
Definition get_ESMsg_txid m t : result Z := GetFieldS 4 m t ESMsg_VT_TXID 0.
Definition get_ESMsg_needGlobalConflict m t : result bool :=
  let? x := GetField 1 m t ESMsg_VT_NEEDGLOBALCONFLICT 0 in Ok (negb (x =? 0)).
Definition get_ESMsg_type m t : result Z := GetFieldS 4 m t ESMsg_VT_TYPE 0.
Definition get_ESMsg_key m t : result (option Z) := GetPointer m t ESMsg_VT_KEY.
Definition get_ESMsg_attr m t : result (option Z) := GetPointer m t ESMsg_VT_ATTR.
Definition get_ESMsg_val m t : result (option Z) := GetPointer m t ESMsg_VT_VAL.
#[export] Hint Unfold get_ESMsg_cmd get_ESMsg_txid get_ESMsg_needGlobalConflict get_ESMsg_type get_ESMsg_key get_ESMsg_attr get_ESMsg_val : accessors.

Definition ESMsg_Verify (m : list byte) (t : Z) : check :=
  VerifyTableStart m t &&?
  VerifyField 4 m t ESMsg_VT_CMD &&?
  VerifyField 4 m t ESMsg_VT_TXID &&?
  VerifyField 1 m t ESMsg_VT_NEEDGLOBALCONFLICT &&?
  VerifyField 4 m t ESMsg_VT_TYPE &&?
  VerifyOffsetField m t ESMsg_VT_KEY &&?
  VerifyString m (get_ESMsg_key m t) &&?
  VerifyOffsetField m t ESMsg_VT_ATTR &&?
  VerifyString m (get_ESMsg_attr m t) &&?
  VerifyOffsetField m t ESMsg_VT_VAL &&?
  VerifyString m (get_ESMsg_val m t) &&?
  Verifier_EndTable.

Definition ESMsgBuilder_add_cmd (cmd : Z) : field_add := FElement 4 ESMsg_VT_CMD cmd 0.
Definition ESMsgBuilder_add_txid (txid : Z) : field_add := FElement 4 ESMsg_VT_TXID txid 0.
Definition ESMsgBuilder_add_needGlobalConflict (needGlobalConflict : bool) : field_add :=
  FElement 1 ESMsg_VT_NEEDGLOBALCONFLICT (Z.b2z needGlobalConflict) 0.
Definition ESMsgBuilder_add_type (type_ : Z) : field_add := FElement 4 ESMsg_VT_TYPE type_ 0.
Definition ESMsgBuilder_add_key (key : Z) : field_add :=
  FOffset ESMsg_VT_KEY key.
Definition ESMsgBuilder_add_attr (attr : Z) : field_add :=
  FOffset ESMsg_VT_ATTR attr.
Definition ESMsgBuilder_add_val (val_ : Z) : field_add :=
  FOffset ESMsg_VT_VAL val_.

Definition CreateESMsg (cmd : Z) (txid : Z) (needGlobalConflict : bool) (type_ : Z) (key : Z) (attr : Z) (val_ : Z)
    : FlatBufferBuilder → result (Z * FlatBufferBuilder) :=
  build_table [
    ESMsgBuilder_add_val val_;
    ESMsgBuilder_add_attr attr;
    ESMsgBuilder_add_key key;
    ESMsgBuilder_add_type type_;
    ESMsgBuilder_add_txid txid;
    ESMsgBuilder_add_cmd cmd;
    ESMsgBuilder_add_needGlobalConflict needGlobalConflict].

Definition CreateESMsgDirect (cmd : Z) (txid : Z) (needGlobalConflict : bool) (type_ : Z) (key : option string) (attr : option string) (val_ : option string) 
    (fbb : FlatBufferBuilder) : result (Z * FlatBufferBuilder) :=
  let? (key__, fbb) := create_cstring_or_null key fbb in
  let? (attr__, fbb) := create_cstring_or_null attr fbb in
  let? (val__, fbb) := create_cstring_or_null val_ fbb in
  CreateESMsg cmd txid needGlobalConflict type_ key__ attr__ val__ fbb.

(** The record a handler sees through the accessors. *)
Definition read_ESMsg (m : list byte) (t : Z) : result ESMsg :=
  let? cmd := get_ESMsg_cmd m t in
  let? txid := get_ESMsg_txid m t in
  let? needGlobalConflict := get_ESMsg_needGlobalConflict m t in
  let? type_ := get_ESMsg_type m t in
  let? key := string_field m t ESMsg_VT_KEY in
  let? attr := string_field m t ESMsg_VT_ATTR in
  let? val_ := string_field m t ESMsg_VT_VAL in
  Ok (mkESMsg cmd txid needGlobalConflict type_ key attr val_).

(** The sub-objects first, then the table. *)
Definition write_ESMsg (x : ESMsg) (fbb : FlatBufferBuilder) : result (Z * FlatBufferBuilder) :=
  let? (key, fbb) := create_string_or_null (ESMsg_key x) fbb in
  let? (attr, fbb) := create_string_or_null (ESMsg_attr x) fbb in
  let? (val_, fbb) := create_string_or_null (ESMsg_val x) fbb in
  CreateESMsg (ESMsg_cmd x) (ESMsg_txid x) (ESMsg_needGlobalConflict x) (ESMsg_type x) key attr val_ fbb.

(** ** [struct Data] *)

Definition Data_VT_KEY : Z := 4.
Definition Data_VT_ATTRIBUTE : Z := 6.
Definition Data_VT_VALUE : Z := 8.

Definition get_Data_key m t : result (option Z) := GetPointer m t Data_VT_KEY.
Definition get_Data_attribute m t : result (option Z) := GetPointer m t Data_VT_ATTRIBUTE.
Definition get_Data_value m t : result (option Z) := GetPointer m t Data_VT_VALUE.
#[export] Hint Unfold get_Data_key get_Data_attribute get_Data_value : accessors.

Definition Data_Verify (m : list byte) (t : Z) : check :=
  VerifyTableStart m t &&?
  VerifyOffsetField m t Data_VT_KEY &&?
  VerifyString m (get_Data_key m t) &&?
  VerifyOffsetField m t Data_VT_ATTRIBUTE &&?
  VerifyString m (get_Data_attribute m t) &&?
  VerifyOffsetField m t Data_VT_VALUE &&?
  VerifyString m (get_Data_value m t) &&?
  Verifier_EndTable.

Definition DataBuilder_add_key (key : Z) : field_add :=
  FOffset Data_VT_KEY key.
Definition DataBuilder_add_attribute (attribute : Z) : field_add :=
  FOffset Data_VT_ATTRIBUTE attribute.
Definition DataBuilder_add_value (value : Z) : field_add :=
  FOffset Data_VT_VALUE value.

Definition CreateData (key : Z) (attribute : Z) (value : Z)
    : FlatBufferBuilder → result (Z * FlatBufferBuilder) :=
  build_table [
    DataBuilder_add_value value;
    DataBuilder_add_attribute attribute;
    DataBuilder_add_key key].

Definition CreateDataDirect (key : option string) (attribute : option string) (value : option string) 
    (fbb : FlatBufferBuilder) : result (Z * FlatBufferBuilder) :=
  let? (key__, fbb) := create_cstring_or_null key fbb in
  let? (attribute__, fbb) := create_cstring_or_null attribute fbb in
  let? (value__, fbb) := create_cstring_or_null value fbb in
  CreateData key__ attribute__ value__ fbb.

(** The record a handler sees through the accessors. *)
Definition read_Data (m : list byte) (t : Z) : result Data :=
  let? key := string_field m t Data_VT_KEY in
  let? attribute := string_field m t Data_VT_ATTRIBUTE in
  let? value := string_field m t Data_VT_VALUE in
  Ok (mkData key attribute value).

(** The sub-objects first, then the table. *)
Definition write_Data (x : Data) (fbb : FlatBufferBuilder) : result (Z * FlatBufferBuilder) :=
  let? (key, fbb) := create_string_or_null (Data_key x) fbb in
  let? (attribute, fbb) := create_string_or_null (Data_attribute x) fbb in
  let? (value, fbb) := create_string_or_null (Data_value x) fbb in
  CreateData key attribute value fbb.

(** ** [struct DbMsg] *)

Definition DbMsg_VT_TXID : Z := 4.
Definition DbMsg_VT_WRITESET : Z := 6.

Definition get_DbMsg_txid m t : result Z := GetFieldS 4 m t DbMsg_VT_TXID 0.
Definition get_DbMsg_writeSet m t : result (option Z) := GetPointer m t DbMsg_VT_WRITESET.
#[export] Hint Unfold get_DbMsg_txid get_DbMsg_writeSet : accessors.

Definition DbMsg_Verify (m : list byte) (t : Z) : check :=
  VerifyTableStart m t &&?
  VerifyField 4 m t DbMsg_VT_TXID &&?
  VerifyOffsetField m t DbMsg_VT_WRITESET &&?
  VerifyVector m (get_DbMsg_writeSet m t) &&?
  VerifyVectorOfTables Data_Verify m (get_DbMsg_writeSet m t) &&?
  Verifier_EndTable.

Definition DbMsgBuilder_add_txid (txid : Z) : field_add := FElement 4 DbMsg_VT_TXID txid 0.
Definition DbMsgBuilder_add_writeSet (writeSet : Z) : field_add :=
  FOffset DbMsg_VT_WRITESET writeSet.

Definition CreateDbMsg (txid : Z) (writeSet : Z)
    : FlatBufferBuilder → result (Z * FlatBufferBuilder) :=
  build_table [
    DbMsgBuilder_add_writeSet writeSet;
    DbMsgBuilder_add_txid txid].

Definition CreateDbMsgDirect (txid : Z) (writeSet : option (list Z)) 
    (fbb : FlatBufferBuilder) : result (Z * FlatBufferBuilder) :=
  let? (writeSet__, fbb) := create_vector_or_null writeSet fbb in
  CreateDbMsg txid writeSet__ fbb.

(** The record a handler sees through the accessors. *)
Definition read_DbMsg (m : list byte) (t : Z) : result DbMsg :=
  let? txid := get_DbMsg_txid m t in
  let? writeSet := vector_field read_Data m t DbMsg_VT_WRITESET in
  Ok (mkDbMsg txid writeSet).

(** The sub-objects first, then the table. *)
Definition write_DbMsg (x : DbMsg) (fbb : FlatBufferBuilder) : result (Z * FlatBufferBuilder) :=
  let? (writeSet, fbb) := write_list_or_null write_Data (DbMsg_writeSet x) fbb in
  CreateDbMsg (DbMsg_txid x) writeSet fbb.

(** ** [struct DbServiceMsg] *)

Definition DbServiceMsg_VT_CMD : Z := 4.
Definition DbServiceMsg_VT_TXID : Z := 6.
Definition DbServiceMsg_VT_NEEDGLOBALCONFLICT : Z := 8.
Definition DbServiceMsg_VT_READSET : Z := 10.
Definition DbServiceMsg_VT_WRITESET : Z := 12.

Definition get_DbServiceMsg_cmd m t : result Z := GetFieldS 4 m t DbServiceMsg_VT_CMD 0.
Definition get_DbServiceMsg_txid m t : result Z := GetFieldS 4 m t DbServiceMsg_VT_TXID 0.
Definition get_DbServiceMsg_needGlobalConflict m t : result bool :=
  let? x := GetField 1 m t DbServiceMsg_VT_NEEDGLOBALCONFLICT 0 in Ok (negb (x =? 0)).
Definition get_DbServiceMsg_readSet m t : result (option Z) := GetPointer m t DbServiceMsg_VT_READSET.
Definition get_DbServiceMsg_writeSet m t : result (option Z) := GetPointer m t DbServiceMsg_VT_WRITESET.
#[export] Hint Unfold get_DbServiceMsg_cmd get_DbServiceMsg_txid get_DbServiceMsg_needGlobalConflict get_DbServiceMsg_readSet get_DbServiceMsg_writeSet : accessors.

Definition DbServiceMsg_Verify (m : list byte) (t : Z) : check :=
  VerifyTableStart m t &&?
  VerifyField 4 m t DbServiceMsg_VT_CMD &&?
  VerifyField 4 m t DbServiceMsg_VT_TXID &&?
  VerifyField 1 m t DbServiceMsg_VT_NEEDGLOBALCONFLICT &&?
  VerifyOffsetField m t DbServiceMsg_VT_READSET &&?
  VerifyVector m (get_DbServiceMsg_readSet m t) &&?
  VerifyVectorOfTables Data_Verify m (get_DbServiceMsg_readSet m t) &&?
  VerifyOffsetField m t DbServiceMsg_VT_WRITESET &&?
  VerifyVector m (get_DbServiceMsg_writeSet m t) &&?
  VerifyVectorOfTables Data_Verify m (get_DbServiceMsg_writeSet m t) &&?
  Verifier_EndTable.

Definition DbServiceMsgBuilder_add_cmd (cmd : Z) : field_add := FElement 4 DbServiceMsg_VT_CMD cmd 0.
Definition DbServiceMsgBuilder_add_txid (txid : Z) : field_add := FElement 4 DbServiceMsg_VT_TXID txid 0.
Definition DbServiceMsgBuilder_add_needGlobalConflict (needGlobalConflict : bool) : field_add :=
  FElement 1 DbServiceMsg_VT_NEEDGLOBALCONFLICT (Z.b2z needGlobalConflict) 0.
Definition DbServiceMsgBuilder_add_readSet (readSet : Z) : field_add :=
  FOffset DbServiceMsg_VT_READSET readSet.
Definition DbServiceMsgBuilder_add_writeSet (writeSet : Z) : field_add :=
  FOffset DbServiceMsg_VT_WRITESET writeSet.

Definition CreateDbServiceMsg (cmd : Z) (txid : Z) (needGlobalConflict : bool) (readSet : Z) (writeSet : Z)
    : FlatBufferBuilder → result (Z * FlatBufferBuilder) :=
  build_table [
    DbServiceMsgBuilder_add_writeSet writeSet;
    DbServiceMsgBuilder_add_readSet readSet;
    DbServiceMsgBuilder_add_txid txid;
    DbServiceMsgBuilder_add_cmd cmd;
    DbServiceMsgBuilder_add_needGlobalConflict needGlobalConflict].

Definition CreateDbServiceMsgDirect (cmd : Z) (txid : Z) (needGlobalConflict : bool) (readSet : option (list Z)) (writeSet : option (list Z)) 
    (fbb : FlatBufferBuilder) : result (Z * FlatBufferBuilder) :=
  let? (readSet__, fbb) := create_vector_or_null readSet fbb in
  let? (writeSet__, fbb) := create_vector_or_null writeSet fbb in
  CreateDbServiceMsg cmd txid needGlobalConflict readSet__ writeSet__ fbb.

(** The record a handler sees through the accessors. *)
Definition read_DbServiceMsg (m : list byte) (t : Z) : result DbServiceMsg :=
  let? cmd := get_DbServiceMsg_cmd m t in
  let? txid := get_DbServiceMsg_txid m t in
  let? needGlobalConflict := get_DbServiceMsg_needGlobalConflict m t in
  let? readSet := vector_field read_Data m t DbServiceMsg_VT_READSET in
  let? writeSet := vector_field read_Data m t DbServiceMsg_VT_WRITESET in
  Ok (mkDbServiceMsg cmd txid needGlobalConflict readSet writeSet).

(** The sub-objects first, then the table. *)
Definition write_DbServiceMsg (x : DbServiceMsg) (fbb : FlatBufferBuilder) : result (Z * FlatBufferBuilder) :=
  let? (readSet, fbb) := write_list_or_null write_Data (DbServiceMsg_readSet x) fbb in
  let? (writeSet, fbb) := write_list_or_null write_Data (DbServiceMsg_writeSet x) fbb in
  CreateDbServiceMsg (DbServiceMsg_cmd x) (DbServiceMsg_txid x) (DbServiceMsg_needGlobalConflict x) readSet writeSet fbb.

(** ** [struct DbtlMsg] *)

Definition DbtlMsg_VT_CMD : Z := 4.
Definition DbtlMsg_VT_TXID : Z := 6.
Definition DbtlMsg_VT_DATA : Z := 8.

Definition get_DbtlMsg_cmd m t : result Z := GetFieldS 4 m t DbtlMsg_VT_CMD 0.
Definition get_DbtlMsg_txid m t : result Z := GetFieldS 4 m t DbtlMsg_VT_TXID 0.
Definition get_DbtlMsg_data m t : result (option Z) := GetPointer m t DbtlMsg_VT_DATA.
#[export] Hint Unfold get_DbtlMsg_cmd get_DbtlMsg_txid get_DbtlMsg_data : accessors.

Definition DbtlMsg_Verify (m : list byte) (t : Z) : check :=
  VerifyTableStart m t &&?
  VerifyField 4 m t DbtlMsg_VT_CMD &&?
  VerifyField 4 m t DbtlMsg_VT_TXID &&?
  VerifyOffsetField m t DbtlMsg_VT_DATA &&?
  VerifyVector m (get_DbtlMsg_data m t) &&?
  VerifyVectorOfTables Data_Verify m (get_DbtlMsg_data m t) &&?
  Verifier_EndTable.

Definition DbtlMsgBuilder_add_cmd (cmd : Z) : field_add := FElement 4 DbtlMsg_VT_CMD cmd 0.
Definition DbtlMsgBuilder_add_txid (txid : Z) : field_add := FElement 4 DbtlMsg_VT_TXID txid 0.
Definition DbtlMsgBuilder_add_data (data : Z) : field_add :=
  FOffset DbtlMsg_VT_DATA data.

Definition CreateDbtlMsg (cmd : Z) (txid : Z) (data : Z)
    : FlatBufferBuilder → result (Z * FlatBufferBuilder) :=
  build_table [
    DbtlMsgBuilder_add_data data;
    DbtlMsgBuilder_add_txid txid;
    DbtlMsgBuilder_add_cmd cmd].

Definition CreateDbtlMsgDirect (cmd : Z) (txid : Z) (data : option (list Z)) 
    (fbb : FlatBufferBuilder) : result (Z * FlatBufferBuilder) :=
  let? (data__, fbb) := create_vector_or_null data fbb in
  CreateDbtlMsg cmd txid data__ fbb.

(** The record a handler sees through the accessors. *)
Definition read_DbtlMsg (m : list byte) (t : Z) : result DbtlMsg :=
  let? cmd := get_DbtlMsg_cmd m t in
  let? txid := get_DbtlMsg_txid m t in
  let? data := vector_field read_Data m t DbtlMsg_VT_DATA in
  Ok (mkDbtlMsg cmd txid data).

(** The sub-objects first, then the table. *)
Definition write_DbtlMsg (x : DbtlMsg) (fbb : FlatBufferBuilder) : result (Z * FlatBufferBuilder) :=
  let? (data, fbb) := write_list_or_null write_Data (DbtlMsg_data x) fbb in
  CreateDbtlMsg (DbtlMsg_cmd x) (DbtlMsg_txid x) data fbb.

(** ** [struct DbtmMsg] *)

Definition DbtmMsg_VT_CMD : Z := 4.
Definition DbtmMsg_VT_TXID : Z := 6.
Definition DbtmMsg_VT_ISGLOBALCONFLICT : Z := 8.
Definition DbtmMsg_VT_LSN : Z := 10.

Definition get_DbtmMsg_cmd m t : result Z := GetFieldS 4 m t DbtmMsg_VT_CMD 0.
Definition get_DbtmMsg_txid m t : result Z := GetFieldS 4 m t DbtmMsg_VT_TXID 0.
Definition get_DbtmMsg_isGlobalConflict m t : result bool :=
  let? x := GetField 1 m t DbtmMsg_VT_ISGLOBALCONFLICT 0 in Ok (negb (x =? 0)).
Definition get_DbtmMsg_lsn m t : result Z := GetFieldS 4 m t DbtmMsg_VT_LSN 0.
#[export] Hint Unfold get_DbtmMsg_cmd get_DbtmMsg_txid get_DbtmMsg_isGlobalConflict get_DbtmMsg_lsn : accessors.

Definition DbtmMsg_Verify (m : list byte) (t : Z) : check :=
  VerifyTableStart m t &&?
  VerifyField 4 m t DbtmMsg_VT_CMD &&?
  VerifyField 4 m t DbtmMsg_VT_TXID &&?
  VerifyField 1 m t DbtmMsg_VT_ISGLOBALCONFLICT &&?
  VerifyField 4 m t DbtmMsg_VT_LSN &&?
  Verifier_EndTable.

Definition DbtmMsgBuilder_add_cmd (cmd : Z) : field_add := FElement 4 DbtmMsg_VT_CMD cmd 0.
Definition DbtmMsgBuilder_add_txid (txid : Z) : field_add := FElement 4 DbtmMsg_VT_TXID txid 0.
Definition DbtmMsgBuilder_add_isGlobalConflict (isGlobalConflict : bool) : field_add :=
  FElement 1 DbtmMsg_VT_ISGLOBALCONFLICT (Z.b2z isGlobalConflict) 0.
Definition DbtmMsgBuilder_add_lsn (lsn : Z) : field_add := FElement 4 DbtmMsg_VT_LSN lsn 0.

Definition CreateDbtmMsg (cmd : Z) (txid : Z) (isGlobalConflict : bool) (lsn : Z)
    : FlatBufferBuilder → result (Z * FlatBufferBuilder) :=
  build_table [
    DbtmMsgBuilder_add_lsn lsn;
    DbtmMsgBuilder_add_txid txid;
    DbtmMsgBuilder_add_cmd cmd;
    DbtmMsgBuilder_add_isGlobalConflict isGlobalConflict].

(** The record a handler sees through the accessors. *)
Definition read_DbtmMsg (m : list byte) (t : Z) : result DbtmMsg :=
  let? cmd := get_DbtmMsg_cmd m t in
  let? txid := get_DbtmMsg_txid m t in
  let? isGlobalConflict := get_DbtmMsg_isGlobalConflict m t in
  let? lsn := get_DbtmMsg_lsn m t in
  Ok (mkDbtmMsg cmd txid isGlobalConflict lsn).

(** The sub-objects first, then the table. *)
Definition write_DbtmMsg (x : DbtmMsg) (fbb : FlatBufferBuilder) : result (Z * FlatBufferBuilder) :=
  CreateDbtmMsg (DbtmMsg_cmd x) (DbtmMsg_txid x) (DbtmMsg_isGlobalConflict x) (DbtmMsg_lsn x) fbb.

(** ** [struct DbtlAckMsg] *)

Definition DbtlAckMsg_VT_LSN : Z := 4.
Definition DbtlAckMsg_VT_TXID : Z := 6.

Definition get_DbtlAckMsg_lsn m t : result Z := GetFieldS 4 m t DbtlAckMsg_VT_LSN 0.
Definition get_DbtlAckMsg_txid m t : result Z := GetFieldS 4 m t DbtlAckMsg_VT_TXID 0.
#[export] Hint Unfold get_DbtlAckMsg_lsn get_DbtlAckMsg_txid : accessors.

Definition DbtlAckMsg_Verify (m : list byte) (t : Z) : check :=
  VerifyTableStart m t &&?
  VerifyField 4 m t DbtlAckMsg_VT_LSN &&?
  VerifyField 4 m t DbtlAckMsg_VT_TXID &&?
  Verifier_EndTable.

Definition DbtlAckMsgBuilder_add_lsn (lsn : Z) : field_add := FElement 4 DbtlAckMsg_VT_LSN lsn 0.
Definition DbtlAckMsgBuilder_add_txid (txid : Z) : field_add := FElement 4 DbtlAckMsg_VT_TXID txid 0.

Definition CreateDbtlAckMsg (lsn : Z) (txid : Z)
    : FlatBufferBuilder → result (Z * FlatBufferBuilder) :=
  build_table [
    DbtlAckMsgBuilder_add_txid txid;
    DbtlAckMsgBuilder_add_lsn lsn].

(** The record a handler sees through the accessors. *)
Definition read_DbtlAckMsg (m : list byte) (t : Z) : result DbtlAckMsg :=
  let? lsn := get_DbtlAckMsg_lsn m t in
  let? txid := get_DbtlAckMsg_txid m t in
  Ok (mkDbtlAckMsg lsn txid).

(** The sub-objects first, then the table. *)
Definition write_DbtlAckMsg (x : DbtlAckMsg) (fbb : FlatBufferBuilder) : result (Z * FlatBufferBuilder) :=
  CreateDbtlAckMsg (DbtlAckMsg_lsn x) (DbtlAckMsg_txid x) fbb.

(** ** [struct LogPlayerMsg] *)

Definition LogPlayerMsg_VT_CMD : Z := 4.
Definition LogPlayerMsg_VT_TXID : Z := 6.
Definition LogPlayerMsg_VT_ID : Z := 8.

Definition get_LogPlayerMsg_cmd m t : result Z := GetFieldS 4 m t LogPlayerMsg_VT_CMD 0.
Definition get_LogPlayerMsg_txid m t : result Z := GetFieldS 4 m t LogPlayerMsg_VT_TXID 0.
Definition get_LogPlayerMsg_id m t : result Z := GetFieldS 4 m t LogPlayerMsg_VT_ID 0.
#[export] Hint Unfold get_LogPlayerMsg_cmd get_LogPlayerMsg_txid get_LogPlayerMsg_id : accessors.

Definition LogPlayerMsg_Verify (m : list byte) (t : Z) : check :=
  VerifyTableStart m t &&?
  VerifyField 4 m t LogPlayerMsg_VT_CMD &&?
  VerifyField 4 m t LogPlayerMsg_VT_TXID &&?
  VerifyField 4 m t LogPlayerMsg_VT_ID &&?
  Verifier_EndTable.

Definition LogPlayerMsgBuilder_add_cmd (cmd : Z) : field_add := FElement 4 LogPlayerMsg_VT_CMD cmd 0.
Definition LogPlayerMsgBuilder_add_txid (txid : Z) : field_add := FElement 4 LogPlayerMsg_VT_TXID txid 0.
Definition LogPlayerMsgBuilder_add_id (id : Z) : field_add := FElement 4 LogPlayerMsg_VT_ID id 0.

Definition CreateLogPlayerMsg (cmd : Z) (txid : Z) (id : Z)
    : FlatBufferBuilder → result (Z * FlatBufferBuilder) :=
  build_table [
    LogPlayerMsgBuilder_add_id id;
    LogPlayerMsgBuilder_add_txid txid;
    LogPlayerMsgBuilder_add_cmd cmd].

(** The record a handler sees through the accessors. *)
Definition read_LogPlayerMsg (m : list byte) (t : Z) : result LogPlayerMsg :=
  let? cmd := get_LogPlayerMsg_cmd m t in
  let? txid := get_LogPlayerMsg_txid m t in
  let? id := get_LogPlayerMsg_id m t in
  Ok (mkLogPlayerMsg cmd txid id).

(** The sub-objects first, then the table. *)
Definition write_LogPlayerMsg (x : LogPlayerMsg) (fbb : FlatBufferBuilder) : result (Z * FlatBufferBuilder) :=
  CreateLogPlayerMsg (LogPlayerMsg_cmd x) (LogPlayerMsg_txid x) (LogPlayerMsg_id x) fbb.

(** ** [struct RootMsg] *)

Definition RootMsg_VT_ANY_TYPE : Z := 4.
Definition RootMsg_VT_ANY : Z := 6.

Definition get_RootMsg_any_type m t : result Z := GetField 1 m t RootMsg_VT_ANY_TYPE 0.
Definition get_RootMsg_any m t : result (option Z) := GetPointer m t RootMsg_VT_ANY.

(** [verifier.VerifyTable(ptr)] *)
Definition VerifyTable (ver : list byte → Z → check) (m : list byte) (obj : option Z) : check :=
  match obj with None => λ V, Ok (true, V) | Some a => ver m a end.

Definition VerifyMsg (m : list byte) (obj : option Z) (type : Z) : check :=
  if type =? 0 then λ V, Ok (true, V)
  else if type =? 1 then VerifyTable GtmMsg_Verify m obj
  else if type =? 2 then VerifyTable AppMsg_Verify m obj
  else if type =? 3 then VerifyTable DbServiceMsg_Verify m obj
  else if type =? 4 then VerifyTable DbtlMsg_Verify m obj
  else if type =? 5 then VerifyTable DbtlAckMsg_Verify m obj
  else if type =? 6 then VerifyTable ESMsg_Verify m obj
  else if type =? 7 then VerifyTable DbtmMsg_Verify m obj
  else if type =? 8 then VerifyTable DbMsg_Verify m obj
  else if type =? 9 then VerifyTable LogPlayerMsg_Verify m obj
  else λ V, Ok (true, V).

Definition RootMsg_Verify (m : list byte) (t : Z) : check :=
  VerifyTableStart m t &&?
  VerifyField 1 m t RootMsg_VT_ANY_TYPE &&?
  VerifyOffsetField m t RootMsg_VT_ANY &&?
  (λ V, let? obj := get_RootMsg_any m t in
        let? type := get_RootMsg_any_type m t in VerifyMsg m obj type V) &&?
  Verifier_EndTable.

Definition RootMsgBuilder_add_any_type (any_type : Z) : field_add := FElement 1 RootMsg_VT_ANY_TYPE any_type 0.
Definition RootMsgBuilder_add_any (any : Z) : field_add := FOffset RootMsg_VT_ANY any.

Definition CreateRootMsg (any_type any : Z) : FlatBufferBuilder → result (Z * FlatBufferBuilder) :=
  build_table [RootMsgBuilder_add_any any; RootMsgBuilder_add_any_type any_type].

Definition GetRootMsg (m : list byte) : result Z := GetRoot m.

Definition VerifyRootMsgBuffer (m : list byte) : check := VerifyBuffer RootMsg_Verify m.

Definition FinishRootMsgBuffer (root : Z) (fbb : FlatBufferBuilder) : result FlatBufferBuilder := Finish root fbb.

(** The payload a handler sees after its cast: the table that the tag
    names; a tag without a payload is a null pointer to dereference, and an
    unknown tag names no table. *)
Definition payload {A} (mk : A → RootMsg) (rd : list byte → Z → result A) (m : list byte) (obj : option Z)
    : result RootMsg :=
  match obj with None => Err NullDeref | Some a => let? x := rd m a in Ok (mk x) end.

Definition read_RootMsg (m : list byte) (t : Z) : result RootMsg :=
  let? type := get_RootMsg_any_type m t in
  let? obj := get_RootMsg_any m t in
  if type =? 0 then Ok Msg_NONE
  else if type =? 1 then payload Msg_GtmMsg read_GtmMsg m obj
  else if type =? 2 then payload Msg_AppMsg read_AppMsg m obj
  else if type =? 3 then payload Msg_DbServiceMsg read_DbServiceMsg m obj
  else if type =? 4 then payload Msg_DbtlMsg read_DbtlMsg m obj
  else if type =? 5 then payload Msg_DbtlAckMsg read_DbtlAckMsg m obj
  else if type =? 6 then payload Msg_ESMsg read_ESMsg m obj
  else if type =? 7 then payload Msg_DbtmMsg read_DbtmMsg m obj
  else if type =? 8 then payload Msg_DbMsg read_DbMsg m obj
  else if type =? 9 then payload Msg_LogPlayerMsg read_LogPlayerMsg m obj
  else Err BadCast.

Definition write_any (r : RootMsg) : FlatBufferBuilder → result (Z * FlatBufferBuilder) :=
  match r with
  | Msg_NONE => λ fbb, Ok (0, fbb)
  | Msg_GtmMsg x => write_GtmMsg x
  | Msg_AppMsg x => write_AppMsg x
  | Msg_DbServiceMsg x => write_DbServiceMsg x
  | Msg_DbtlMsg x => write_DbtlMsg x
  | Msg_DbtlAckMsg x => write_DbtlAckMsg x
  | Msg_ESMsg x => write_ESMsg x
  | Msg_DbtmMsg x => write_DbtmMsg x
  | Msg_DbMsg x => write_DbMsg x
  | Msg_LogPlayerMsg x => write_LogPlayerMsg x
  end.

(** What every sender does: the payload, [CreateRootMsg], [Finish],
    [GetBufferPointer]. *)
Definition serialize (r : RootMsg) : result (list byte) :=
  let? (any, fbb) := write_any r FlatBufferBuilder_new in
  let? (root, fbb) := CreateRootMsg (any_type r) any fbb in
  let? fbb := Finish root fbb in
  GetBufferPointer fbb.

(** What every receiver does: [GetRootMsg] and the accessors. *)
Definition deserialize (m : list byte) : result RootMsg :=
  let? t := GetRootMsg m in read_RootMsg m t.

(** ** Writers

    [puts_from b w R n]: from the builder [b], [w] writes one object within
    [n] bytes and hands back its offset; [R] holds of the offset in the
    buffer, whatever is written later. *)

Definition stable (b : FlatBufferBuilder) (P : list byte → Prop) : Prop := ∀ p, P (p ++ buf_ b).

Lemma stable_ext b b' P : extends b b' → stable b P → stable b' P.
Proof. intros [q Hq] HP p. rewrite Hq, app_assoc. apply HP. Qed.

Definition puts_from {A} (b : FlatBufferBuilder) (w : FlatBufferBuilder → result (A * FlatBufferBuilder))
    (R : A → list byte → Prop) (ok : A → FlatBufferBuilder → Prop) (n : Z) : Prop :=
  ∃ t b', w b = Ok (t, b') ∧ wf b' ∧ extends b b' ∧ ok t b' ∧
    GetSize b' ≤ GetSize b + n ∧ stable b' (R t).

(** Offsets that name something in the buffer, or nothing. *)
Definition in_buf (t : Z) (b : FlatBufferBuilder) : Prop := 0 ≤ t ≤ GetSize b.

Abbreviation puts b w R n := (puts_from b w R in_buf n).

Lemma puts_bind {A B} b (w : FlatBufferBuilder → result (A * FlatBufferBuilder))
    (k : A → FlatBufferBuilder → result (B * FlatBufferBuilder)) R1 ok1 R2 ok2 n1 n2 :
  puts_from b w R1 ok1 n1 →
  (∀ t b1, wf b1 → extends b b1 → ok1 t b1 → GetSize b1 ≤ GetSize b + n1 → stable b1 (R1 t) →
    puts_from b1 (k t) R2 ok2 n2) →
  puts_from b (λ b, let? (t, b) := w b in k t b) R2 ok2 (n1 + n2).
Proof.
  intros (t & b1 & Hw & Hwf1 & He1 & Hok1 & Hs1 & HR1) Hk.
  destruct (Hk t b1 Hwf1 He1 Hok1 Hs1 HR1) as (u & b2 & Hk2 & Hwf2 & He2 & Hok2 & Hs2 & HR2).
  exists u, b2. rewrite Hw. cbn [rbind]. split; [done|]. split; [done|].
  split; [by eapply extends_trans|]. split; [done|]. split; [lia|done].
Qed.

(** A pointer as the accessors see it. *)
Definition string_ptr (s : option string) (t : Z) (m : list byte) : Prop :=
  match s with
  | None => t = 0
  | Some s => 0 < t ∧ String_str m (len m - t) = Ok s
  end.

Definition table_ptr {A} (rd : list byte → Z → result A) (x : A) (t : Z) (m : list byte) : Prop :=
  0 < t ∧ rd m (len m - t) = Ok x.

Definition list_ptr {A} (rd : list byte → Z → result A) (l : option (list A)) (t : Z) (m : list byte) : Prop :=
  match l with
  | None => t = 0
  | Some l => 0 < t ∧ Vector_size m (len m - t) = Ok (len l) ∧ vector_from rd m (len m - t) 0 (length l) = Ok l
  end.

Definition string_size (s : option string) : Z := match s with Some s => strlen s + 12 | None => 0 end.

Lemma puts_string s b :
  wf b → GetSize b + string_size s < FLATBUFFERS_MAX_BUFFER_SIZE →
  puts b (create_string_or_null s) (string_ptr s) (string_size s).
Proof.
  intros Hwf Hs. destruct s as [s|]; cbn [create_string_or_null string_size] in *.
  - destruct (CreateString_ok s b Hwf) as (t & b' & Hc & Hwf' & He & Ht & Hz & Hstr); [lia|].
    exists t, b'. split; [done|]. split; [done|]. split; [done|]. split; [unfold in_buf; lia|]. split; [lia|].
    intros p. split; [lia|]. apply String_str_spec. by apply has_string_app.
  - exists 0, b. split; [done|]. split; [done|]. split; [apply extends_refl|].
    split; [unfold in_buf, GetSize; lia|]. split; [lia|done].
Qed.

(** Elements of a vector, one after the other. *)
Lemma puts_all {A} (write : A → FlatBufferBuilder → result (Z * FlatBufferBuilder)) rd (size : A → Z) l b :
  (∀ x, x ∈ l → 0 ≤ size x ∧ ∀ b, wf b → GetSize b + size x < FLATBUFFERS_MAX_BUFFER_SIZE →
    puts b (write x) (table_ptr rd x) (size x)) →
  wf b → GetSize b + foldr (λ x n, size x + n) 0 l < FLATBUFFERS_MAX_BUFFER_SIZE →
  puts_from b (write_all write l) (λ os m, Forall2 (λ x o, table_ptr rd x o m) l os)
    (λ os b', Forall (λ o, 0 < o ≤ GetSize b') os) (foldr (λ x n, size x + n) 0 l).
Proof.
  revert b. induction l as [|x l IH]; intros b Hw Hwf Hs; cbn [foldr write_all] in *.
  { exists [], b. split; [done|]. split; [done|]. split; [apply extends_refl|]. split; [done|].
    split; [lia|]. intros p. constructor. }
  assert (0 ≤ foldr (λ x n, size x + n) 0 l) as Hnn.
  { clear -Hw. induction l as [|y l IH]; cbn; [lia|].
    destruct (Hw y) as [? _]; [right; left|].
    assert (0 ≤ foldr (λ x0 n, size x0 + n) 0 l); [|lia].
    apply IH. intros z Hz. apply Hw. apply elem_of_cons in Hz as [->|Hz]; [left|right; by right]. }
  destruct (Hw x) as [Hx0 Hx]; [left|].
  destruct (Hx b Hwf) as (t & b1 & E1 & Hwf1 & He1 & Ht & Hs1 & HR1); [lia|].
  destruct (IH b1) as (os & b2 & E2 & Hwf2 & He2 & Hos & Hs2 & HR2);
    [by intros y Hy; apply Hw; right|done|lia|].
  exists (t :: os), b2. cbn [write_all]. rewrite E1. cbn [rbind]. rewrite E2. cbn [rbind].
  pose proof (extends_size _ _ He2). destruct (HR1 []) as [Ht0 _].
  split; [done|]. split; [done|]. split; [by eapply extends_trans|].
  split; [constructor; [unfold in_buf in Ht; lia|done]|]. split; [lia|].
  intros p. constructor; [|apply HR2]. by apply (stable_ext _ _ _ He2 HR1).
Qed.

Lemma vector_from_spec {A} (rd : list byte → Z → result A) m t l os :
  has_vector m t os → Forall2 (λ x o, table_ptr rd x o m) l os →
  ∀ n i, (i + n = length l)%nat → vector_from rd m (len m - t) (Z.of_nat i) n = Ok (drop i l).
Proof.
  intros Hv HF. destruct (Vector_spec _ _ _ Hv) as [_ Hget]. induction n as [|n IH]; intros i Hi; cbn [vector_from].
  { by rewrite drop_ge by lia. }
  destruct (lookup_lt_is_Some_2 l i) as [x Hx]; [lia|].
  destruct (Forall2_lookup_l _ _ _ _ _ HF Hx) as (o & Ho & _ & Hrd).
  rewrite (Hget i o Ho). cbn [rbind]. rewrite Hrd. cbn [rbind].
  replace (Z.of_nat i + 1) with (Z.of_nat (S i)) by lia. rewrite IH by lia. cbn [rbind].
  by rewrite (drop_S _ _ _ Hx).
Qed.

Definition list_size {A} (size : A → Z) (l : option (list A)) : Z :=
  match l with Some l => foldr (λ x n, size x + n) 0 l + 4 * len l + 20 | None => 0 end.

Lemma puts_list {A} (write : A → FlatBufferBuilder → result (Z * FlatBufferBuilder)) rd (size : A → Z) l b :
  (∀ l' x, l = Some l' → x ∈ l' → 0 ≤ size x ∧ ∀ b, wf b → GetSize b + size x < FLATBUFFERS_MAX_BUFFER_SIZE →
    puts b (write x) (table_ptr rd x) (size x)) →
  wf b → GetSize b + list_size size l < FLATBUFFERS_MAX_BUFFER_SIZE →
  puts b (write_list_or_null write l) (list_ptr rd l) (list_size size l).
Proof.
  intros Hw Hwf Hs. destruct l as [l|]; cbn [write_list_or_null list_size] in *; cycle 1.
  { exists 0, b. split; [done|]. split; [done|]. split; [apply extends_refl|].
    split; [unfold in_buf, GetSize; lia|]. split; [lia|done]. }
  rewrite <- Z.add_assoc. eapply puts_bind.
  { eapply (puts_all write rd size); [by eauto|done|lia]. }
  intros os b1 Hwf1 He1 Hos Hs1 HR1.
  assert (length os = length l) as Hlen by (symmetry; by eapply Forall2_length, (HR1 [])).
  destruct (CreateVector_ok os b1 Hwf1) as (t & b2 & Hc & Hwf2 & He2 & Ht & Hs2 & Hv); [done|lia|].
  exists t, b2. split; [done|]. split; [done|]. split; [done|]. split; [unfold in_buf; lia|]. split; [lia|].
  intros p. pose proof (has_vector_app p _ _ _ Hv) as Hv'. pose proof (stable_ext _ _ _ He2 HR1 p) as HF.
  split; [lia|]. split; [|by apply (vector_from_spec rd _ _ _ os Hv' HF (length l) 0)].
  destruct (Vector_spec _ _ _ Hv') as [-> _]. by rewrite Hlen.
Qed.

Lemma puts_table fs R b :
  wf b → NoDup (field_id <$> fs) → Forall (field_ok b) fs → (length fs ≤ 1000)%nat →
  GetSize b + table_bound (length fs) < FLATBUFFERS_MAX_BUFFER_SIZE →
  (∀ p t, 0 < t → has_table (p ++ buf_ b) t fs → R t (p ++ buf_ b)) →
  puts b (build_table fs) R (table_bound (length fs)).
Proof.
  intros Hwf Hnd HF Hn Hs HR. destruct (build_table_ok b fs Hwf Hnd HF Hn Hs) as (t & b' & Hb & Hwf' & He & Ht & Hz & Htab).
  exists t, b'. split; [done|]. split; [done|]. split; [done|]. split; [unfold in_buf; lia|]. split; [done|].
  intros p. destruct He as [q Hq]. rewrite Hq, app_assoc in *. apply HR; [lia|].
  rewrite <- app_assoc, <- Hq. rewrite Hq. by apply has_table_app.
Qed.

(** ** Reading fields back *)

Lemma string_field_spec m t fs id off s :
  has_table m t fs → FOffset id off ∈ fs → 4 ≤ id → id mod 2 = 0 → string_ptr s off m →
  string_field m (len m - t) id = Ok s.
Proof.
  intros Ht Hin Hid Hev Hs. unfold string_field. rewrite (GetPointer_spec _ _ _ Ht id off) by done.
  cbn [rbind]. destruct s as [s|]; cbn in Hs; [|by subst].
  destruct Hs as [Hoff Hs]. destruct (Z.eqb_spec off 0); [lia|]. by rewrite Hs.
Qed.

Lemma vector_field_spec {A} (rd : list byte → Z → result A) m t fs id off l :
  has_table m t fs → FOffset id off ∈ fs → 4 ≤ id → id mod 2 = 0 → list_ptr rd l off m →
  vector_field rd m (len m - t) id = Ok l.
Proof.
  intros Ht Hin Hid Hev Hs. unfold vector_field. rewrite (GetPointer_spec _ _ _ Ht id off) by done.
  cbn [rbind]. destruct l as [l|]; cbn in Hs; [|by subst].
  destruct Hs as (Hoff & Hz & Hs). destruct (Z.eqb_spec off 0); [lia|]. rewrite Hz. cbn [rbind].
  by rewrite Nat2Z.id, Hs.
Qed.

Lemma GetField_bool m t fs id (x : bool) :
  has_table m t fs → FElement 1 id (Z.b2z x) 0 ∈ fs → 4 ≤ id → id mod 2 = 0 →
  (let? y := GetField 1 m (len m - t) id 0 in Ok (negb (y =? 0))) = Ok x.
Proof.
  intros Ht Hin Hid Hev. rewrite (GetField_spec _ _ _ Ht 1 id (Z.b2z x)) by (done || by destruct x).
  by destruct x.
Qed.

(** ** The interface of the byte format

    [write] puts a record into a buffer within [size] bytes, and [read] gives
    it back from there, whatever is written before or after it. *)

Class Codec (A : Type) := {
  write : A → FlatBufferBuilder → result (Z * FlatBufferBuilder);
  read : list byte → Z → result A;
  valid : A → Prop;
  size : A → Z;
  size_nonneg : ∀ x, 0 ≤ size x;
  write_read : ∀ x b, valid x → wf b → GetSize b + size x < FLATBUFFERS_MAX_BUFFER_SIZE →
    puts b (write x) (table_ptr read x) (size x) }.

Lemma string_size_nonneg s : 0 ≤ string_size s.
Proof. destruct s; cbn; lia. Qed.

Lemma list_size_nonneg {A} (sz : A → Z) l : (∀ x, 0 ≤ sz x) → 0 ≤ list_size sz l.
Proof.
  intros Hs. destruct l as [l|]; cbn; [|lia].
  assert (0 ≤ foldr (λ x n, sz x + n) 0 l); [|lia]. induction l as [|x l IH]; cbn; [lia|]. specialize (Hs x). lia.
Qed.

Lemma table_bound_nonneg n : 0 ≤ table_bound n.
Proof. unfold table_bound. lia. Qed.

(** All the elements of an optional vector are valid. *)
Definition all_valid {A} (P : A → Prop) (l : option (list A)) : Prop :=
  match l with Some l => Forall P l | None => True end.

Lemma puts_list_codec `{Codec A} l b :
  all_valid valid l → wf b → GetSize b + list_size size l < FLATBUFFERS_MAX_BUFFER_SIZE →
  puts b (write_list_or_null write l) (list_ptr read l) (list_size size l).
Proof.
  intros Hv. apply puts_list. intros l' x -> Hin. cbn in Hv. rewrite Forall_forall in Hv.
  split; [apply size_nonneg|]. intros b' Hwf Hs. apply write_read; auto.
Qed.

Ltac elem_in := first [apply list_elem_of_here | apply list_elem_of_further; elem_in].

(** Sizes are not negative. *)
Ltac size_of_term t :=
  match t with
  | context [string_size ?s] =>
      lazymatch goal with H : 0 ≤ string_size s |- _ => fail | _ => pose proof (string_size_nonneg s) end
  | context [@list_size ?A ?sz ?l] =>
      lazymatch goal with H : 0 ≤ list_size sz l |- _ => fail
      | _ => assert (0 ≤ list_size sz l) by (apply list_size_nonneg; auto with grit) end
  | context [table_bound ?n] =>
      lazymatch goal with H : 0 ≤ table_bound n |- _ => fail | _ => pose proof (table_bound_nonneg n) end
  end.
Ltac sizes :=
  repeat match goal with
  | |- ?g => size_of_term g
  | H : ?g |- _ => size_of_term g
  end.

(** After a sub-object has been written: what was known of the smaller
    buffer is known of the larger one. *)
Ltac lift_to E :=
  lazymatch type of E with extends ?b ?b1 =>
    pose proof (extends_size b b1 E);
    repeat match goal with H : stable b ?P |- _ => apply (stable_ext b b1 P E) in H end
  end.

Ltac put_sub :=
  let t := fresh "t" in let b := fresh "b" in let Hwf := fresh "Hwf" in let E := fresh "E" in
  let Hok := fresh "Hok" in let Hsz := fresh "Hsz" in let HR := fresh "HR" in
  eapply puts_bind;
  [ first [ apply puts_string; [assumption|lia]
          | match goal with |- puts_from _ (@write_list_or_null ?A _ _) _ _ _ =>
              apply (@puts_list_codec A ltac:(typeclasses eauto)); [assumption|assumption|cbn; lia] end ]
  | intros t b Hwf E Hok Hsz HR; unfold in_buf in Hok; lift_to E ].

Ltac get_field Htab :=
  match goal with
  | |- context [GetFieldS 4 ?m (len ?m - ?t) ?id 0] =>
      rewrite (GetFieldS_spec m t _ Htab id _ 0 ltac:(elem_in) ltac:(by vm_compute) ltac:(by vm_compute) ltac:(assumption))
  | |- context [rbind (GetField 1 ?m (len ?m - ?t) ?id 0) _] =>
      rewrite (GetField_bool m t _ id _ Htab ltac:(elem_in) ltac:(by vm_compute) ltac:(by vm_compute))
  | |- context [string_field ?m (len ?m - ?t) ?id] =>
      erewrite (string_field_spec m t _ id _ _ Htab ltac:(elem_in) ltac:(by vm_compute) ltac:(by vm_compute)) by eauto
  | |- context [vector_field ?rd ?m (len ?m - ?t) ?id] =>
      erewrite (vector_field_spec rd m t _ id _ _ Htab ltac:(elem_in) ltac:(by vm_compute) ltac:(by vm_compute)) by eauto
  end; cbn [rbind].

Ltac put_table :=
  apply puts_table;
  [ assumption
  | apply (bool_decide_unpack _); vm_compute; exact I
  | repeat (apply Forall_cons; split; [split; [vm_compute; split; [discriminate|reflexivity]|split; [reflexivity|cbn; lia]]|]);
    apply Forall_nil; exact I
  | cbn; lia
  | cbn [length] in *; lia
  | let p := fresh "p" in let t := fresh "t" in let Ht := fresh "Ht" in let Htab := fresh "Htab" in
    intros p t Ht Htab; split; [exact Ht|];
    repeat match goal with H : stable _ ?P |- _ => specialize (H p) end ].

Ltac solve_codec x V S W C R :=
  intros Hv Hwf Hs; unfold V, S, W, C in *; destruct_and? Hv; sizes; repeat put_sub; put_table;
  unfold R; autounfold with accessors; repeat match goal with Htab : has_table _ _ _ |- _ => get_field Htab end;
  destruct x; reflexivity.

(** [GtmMsg] *)
Definition GtmMsg_valid (x : GtmMsg) : Prop := int32_ok (GtmMsg_cmd x) ∧ int32_ok (GtmMsg_txid x).
Definition GtmMsg_size (x : GtmMsg) : Z := string_size (GtmMsg_transType x) + (table_bound 4).

Lemma GtmMsg_size_nonneg x : 0 ≤ GtmMsg_size x.
Proof. unfold GtmMsg_size. sizes. lia. Qed.
#[export] Hint Resolve GtmMsg_size_nonneg : grit.

Lemma write_GtmMsg_ok x b :
  GtmMsg_valid x → wf b → GetSize b + GtmMsg_size x < FLATBUFFERS_MAX_BUFFER_SIZE →
  puts b (write_GtmMsg x) (table_ptr read_GtmMsg x) (GtmMsg_size x).
Proof. solve_codec x GtmMsg_valid GtmMsg_size write_GtmMsg CreateGtmMsg read_GtmMsg. Qed.

#[export] Instance GtmMsg_codec : Codec GtmMsg := {
  write := write_GtmMsg; read := read_GtmMsg; valid := GtmMsg_valid; size := GtmMsg_size;
  size_nonneg := GtmMsg_size_nonneg; write_read := write_GtmMsg_ok }.

(** [ipAndPort] *)
Definition ipAndPort_valid (x : ipAndPort) : Prop := int32_ok (ipAndPort_port x).
Definition ipAndPort_size (x : ipAndPort) : Z := string_size (ipAndPort_ip x) + (table_bound 2).

Lemma ipAndPort_size_nonneg x : 0 ≤ ipAndPort_size x.
Proof. unfold ipAndPort_size. sizes. lia. Qed.
#[export] Hint Resolve ipAndPort_size_nonneg : grit.

Lemma write_ipAndPort_ok x b :
  ipAndPort_valid x → wf b → GetSize b + ipAndPort_size x < FLATBUFFERS_MAX_BUFFER_SIZE →
  puts b (write_ipAndPort x) (table_ptr read_ipAndPort x) (ipAndPort_size x).
Proof. solve_codec x ipAndPort_valid ipAndPort_size write_ipAndPort CreateipAndPort read_ipAndPort. Qed.

#[export] Instance ipAndPort_codec : Codec ipAndPort := {
  write := write_ipAndPort; read := read_ipAndPort; valid := ipAndPort_valid; size := ipAndPort_size;
  size_nonneg := ipAndPort_size_nonneg; write_read := write_ipAndPort_ok }.

(** [AppMsg] *)
Definition AppMsg_valid (x : AppMsg) : Prop := int32_ok (AppMsg_cmd x) ∧ int32_ok (AppMsg_txid x) ∧ all_valid ipAndPort_valid (AppMsg_list x).
Definition AppMsg_size (x : AppMsg) : Z := list_size ipAndPort_size (AppMsg_list x) + (table_bound 3).

Lemma AppMsg_size_nonneg x : 0 ≤ AppMsg_size x.
Proof. unfold AppMsg_size. sizes. lia. Qed.
#[export] Hint Resolve AppMsg_size_nonneg : grit.

Lemma write_AppMsg_ok x b :
  AppMsg_valid x → wf b → GetSize b + AppMsg_size x < FLATBUFFERS_MAX_BUFFER_SIZE →
  puts b (write_AppMsg x) (table_ptr read_AppMsg x) (AppMsg_size x).
Proof. solve_codec x AppMsg_valid AppMsg_size write_AppMsg CreateAppMsg read_AppMsg. Qed.

#[export] Instance AppMsg_codec : Codec AppMsg := {
  write := write_AppMsg; read := read_AppMsg; valid := AppMsg_valid; size := AppMsg_size;
  size_nonneg := AppMsg_size_nonneg; write_read := write_AppMsg_ok }.

(** [ESMsg] *)
Definition ESMsg_valid (x : ESMsg) : Prop := int32_ok (ESMsg_cmd x) ∧ int32_ok (ESMsg_txid x) ∧ int32_ok (ESMsg_type x).
Definition ESMsg_size (x : ESMsg) : Z := string_size (ESMsg_key x) + (string_size (ESMsg_attr x) + (string_size (ESMsg_val x) + (table_bound 7))).

Lemma ESMsg_size_nonneg x : 0 ≤ ESMsg_size x.
Proof. unfold ESMsg_size. sizes. lia. Qed.
#[export] Hint Resolve ESMsg_size_nonneg : grit.

Lemma write_ESMsg_ok x b :
  ESMsg_valid x → wf b → GetSize b + ESMsg_size x < FLATBUFFERS_MAX_BUFFER_SIZE →
  puts b (write_ESMsg x) (table_ptr read_ESMsg x) (ESMsg_size x).
Proof. solve_codec x ESMsg_valid ESMsg_size write_ESMsg CreateESMsg read_ESMsg. Qed.

#[export] Instance ESMsg_codec : Codec ESMsg := {
  write := write_ESMsg; read := read_ESMsg; valid := ESMsg_valid; size := ESMsg_size;
  size_nonneg := ESMsg_size_nonneg; write_read := write_ESMsg_ok }.

(** [Data] *)
Definition Data_valid (x : Data) : Prop := True.
Definition Data_size (x : Data) : Z := string_size (Data_key x) + (string_size (Data_attribute x) + (string_size (Data_value x) + (table_bound 3))).

Lemma Data_size_nonneg x : 0 ≤ Data_size x.
Proof. unfold Data_size. sizes. lia. Qed.
#[export] Hint Resolve Data_size_nonneg : grit.

Lemma write_Data_ok x b :
  Data_valid x → wf b → GetSize b + Data_size x < FLATBUFFERS_MAX_BUFFER_SIZE →
  puts b (write_Data x) (table_ptr read_Data x) (Data_size x).
Proof. solve_codec x Data_valid Data_size write_Data CreateData read_Data. Qed.

#[export] Instance Data_codec : Codec Data := {
  write := write_Data; read := read_Data; valid := Data_valid; size := Data_size;
  size_nonneg := Data_size_nonneg; write_read := write_Data_ok }.

(** [DbMsg] *)
Definition DbMsg_valid (x : DbMsg) : Prop := int32_ok (DbMsg_txid x) ∧ all_valid Data_valid (DbMsg_writeSet x).
Definition DbMsg_size (x : DbMsg) : Z := list_size Data_size (DbMsg_writeSet x) + (table_bound 2).

Lemma DbMsg_size_nonneg x : 0 ≤ DbMsg_size x.
Proof. unfold DbMsg_size. sizes. lia. Qed.
#[export] Hint Resolve DbMsg_size_nonneg : grit.

Lemma write_DbMsg_ok x b :
  DbMsg_valid x → wf b → GetSize b + DbMsg_size x < FLATBUFFERS_MAX_BUFFER_SIZE →
  puts b (write_DbMsg x) (table_ptr read_DbMsg x) (DbMsg_size x).
Proof. solve_codec x DbMsg_valid DbMsg_size write_DbMsg CreateDbMsg read_DbMsg. Qed.

#[export] Instance DbMsg_codec : Codec DbMsg := {
  write := write_DbMsg; read := read_DbMsg; valid := DbMsg_valid; size := DbMsg_size;
  size_nonneg := DbMsg_size_nonneg; write_read := write_DbMsg_ok }.

(** [DbServiceMsg] *)
Definition DbServiceMsg_valid (x : DbServiceMsg) : Prop := int32_ok (DbServiceMsg_cmd x) ∧ int32_ok (DbServiceMsg_txid x) ∧ all_valid Data_valid (DbServiceMsg_readSet x) ∧ all_valid Data_valid (DbServiceMsg_writeSet x).
Definition DbServiceMsg_size (x : DbServiceMsg) : Z := list_size Data_size (DbServiceMsg_readSet x) + (list_size Data_size (DbServiceMsg_writeSet x) + (table_bound 5)).

Lemma DbServiceMsg_size_nonneg x : 0 ≤ DbServiceMsg_size x.
Proof. unfold DbServiceMsg_size. sizes. lia. Qed.
#[export] Hint Resolve DbServiceMsg_size_nonneg : grit.

Lemma write_DbServiceMsg_ok x b :
  DbServiceMsg_valid x → wf b → GetSize b + DbServiceMsg_size x < FLATBUFFERS_MAX_BUFFER_SIZE →
  puts b (write_DbServiceMsg x) (table_ptr read_DbServiceMsg x) (DbServiceMsg_size x).
Proof. solve_codec x DbServiceMsg_valid DbServiceMsg_size write_DbServiceMsg CreateDbServiceMsg read_DbServiceMsg. Qed.

#[export] Instance DbServiceMsg_codec : Codec DbServiceMsg := {
  write := write_DbServiceMsg; read := read_DbServiceMsg; valid := DbServiceMsg_valid; size := DbServiceMsg_size;
  size_nonneg := DbServiceMsg_size_nonneg; write_read := write_DbServiceMsg_ok }.

(** [DbtlMsg] *)
Definition DbtlMsg_valid (x : DbtlMsg) : Prop := int32_ok (DbtlMsg_cmd x) ∧ int32_ok (DbtlMsg_txid x) ∧ all_valid Data_valid (DbtlMsg_data x).
Definition DbtlMsg_size (x : DbtlMsg) : Z := list_size Data_size (DbtlMsg_data x) + (table_bound 3).

Lemma DbtlMsg_size_nonneg x : 0 ≤ DbtlMsg_size x.
Proof. unfold DbtlMsg_size. sizes. lia. Qed.
#[export] Hint Resolve DbtlMsg_size_nonneg : grit.

Lemma write_DbtlMsg_ok x b :
  DbtlMsg_valid x → wf b → GetSize b + DbtlMsg_size x < FLATBUFFERS_MAX_BUFFER_SIZE →
  puts b (write_DbtlMsg x) (table_ptr read_DbtlMsg x) (DbtlMsg_size x).
Proof. solve_codec x DbtlMsg_valid DbtlMsg_size write_DbtlMsg CreateDbtlMsg read_DbtlMsg. Qed.

#[export] Instance DbtlMsg_codec : Codec DbtlMsg := {
  write := write_DbtlMsg; read := read_DbtlMsg; valid := DbtlMsg_valid; size := DbtlMsg_size;
  size_nonneg := DbtlMsg_size_nonneg; write_read := write_DbtlMsg_ok }.

(** [DbtmMsg] *)
Definition DbtmMsg_valid (x : DbtmMsg) : Prop := int32_ok (DbtmMsg_cmd x) ∧ int32_ok (DbtmMsg_txid x) ∧ int32_ok (DbtmMsg_lsn x).
Definition DbtmMsg_size (x : DbtmMsg) : Z := table_bound 4.

Lemma DbtmMsg_size_nonneg x : 0 ≤ DbtmMsg_size x.
Proof. unfold DbtmMsg_size. sizes. lia. Qed.
#[export] Hint Resolve DbtmMsg_size_nonneg : grit.

Lemma write_DbtmMsg_ok x b :
  DbtmMsg_valid x → wf b → GetSize b + DbtmMsg_size x < FLATBUFFERS_MAX_BUFFER_SIZE →
  puts b (write_DbtmMsg x) (table_ptr read_DbtmMsg x) (DbtmMsg_size x).
Proof. solve_codec x DbtmMsg_valid DbtmMsg_size write_DbtmMsg CreateDbtmMsg read_DbtmMsg. Qed.

#[export] Instance DbtmMsg_codec : Codec DbtmMsg := {
  write := write_DbtmMsg; read := read_DbtmMsg; valid := DbtmMsg_valid; size := DbtmMsg_size;
  size_nonneg := DbtmMsg_size_nonneg; write_read := write_DbtmMsg_ok }.

(** [DbtlAckMsg] *)
Definition DbtlAckMsg_valid (x : DbtlAckMsg) : Prop := int32_ok (DbtlAckMsg_lsn x) ∧ int32_ok (DbtlAckMsg_txid x).
Definition DbtlAckMsg_size (x : DbtlAckMsg) : Z := table_bound 2.

Lemma DbtlAckMsg_size_nonneg x : 0 ≤ DbtlAckMsg_size x.
Proof. unfold DbtlAckMsg_size. sizes. lia. Qed.
#[export] Hint Resolve DbtlAckMsg_size_nonneg : grit.

Lemma write_DbtlAckMsg_ok x b :
  DbtlAckMsg_valid x → wf b → GetSize b + DbtlAckMsg_size x < FLATBUFFERS_MAX_BUFFER_SIZE →
  puts b (write_DbtlAckMsg x) (table_ptr read_DbtlAckMsg x) (DbtlAckMsg_size x).
Proof. solve_codec x DbtlAckMsg_valid DbtlAckMsg_size write_DbtlAckMsg CreateDbtlAckMsg read_DbtlAckMsg. Qed.

#[export] Instance DbtlAckMsg_codec : Codec DbtlAckMsg := {
  write := write_DbtlAckMsg; read := read_DbtlAckMsg; valid := DbtlAckMsg_valid; size := DbtlAckMsg_size;
  size_nonneg := DbtlAckMsg_size_nonneg; write_read := write_DbtlAckMsg_ok }.

(** [LogPlayerMsg] *)
Definition LogPlayerMsg_valid (x : LogPlayerMsg) : Prop := int32_ok (LogPlayerMsg_cmd x) ∧ int32_ok (LogPlayerMsg_txid x) ∧ int32_ok (LogPlayerMsg_id x).
Definition LogPlayerMsg_size (x : LogPlayerMsg) : Z := table_bound 3.

Lemma LogPlayerMsg_size_nonneg x : 0 ≤ LogPlayerMsg_size x.
Proof. unfold LogPlayerMsg_size. sizes. lia. Qed.
#[export] Hint Resolve LogPlayerMsg_size_nonneg : grit.

Lemma write_LogPlayerMsg_ok x b :
  LogPlayerMsg_valid x → wf b → GetSize b + LogPlayerMsg_size x < FLATBUFFERS_MAX_BUFFER_SIZE →
  puts b (write_LogPlayerMsg x) (table_ptr read_LogPlayerMsg x) (LogPlayerMsg_size x).
Proof. solve_codec x LogPlayerMsg_valid LogPlayerMsg_size write_LogPlayerMsg CreateLogPlayerMsg read_LogPlayerMsg. Qed.

#[export] Instance LogPlayerMsg_codec : Codec LogPlayerMsg := {
  write := write_LogPlayerMsg; read := read_LogPlayerMsg; valid := LogPlayerMsg_valid; size := LogPlayerMsg_size;
  size_nonneg := LogPlayerMsg_size_nonneg; write_read := write_LogPlayerMsg_ok }.
(** ** Whole messages *)

Definition RootMsg_valid (r : RootMsg) : Prop :=
  match r with
  | Msg_NONE => True
  | Msg_GtmMsg x => valid x
  | Msg_AppMsg x => valid x
  | Msg_DbServiceMsg x => valid x
  | Msg_DbtlMsg x => valid x
  | Msg_DbtlAckMsg x => valid x
  | Msg_ESMsg x => valid x
  | Msg_DbtmMsg x => valid x
  | Msg_DbMsg x => valid x
  | Msg_LogPlayerMsg x => valid x
  end.

Definition RootMsg_size (r : RootMsg) : Z :=
  match r with
  | Msg_NONE => 0
  | Msg_GtmMsg x => size x
  | Msg_AppMsg x => size x
  | Msg_DbServiceMsg x => size x
  | Msg_DbtlMsg x => size x
  | Msg_DbtlAckMsg x => size x
  | Msg_ESMsg x => size x
  | Msg_DbtmMsg x => size x
  | Msg_DbMsg x => size x
  | Msg_LogPlayerMsg x => size x
  end.

(** The payload is where [any] points, and nothing is there for [Msg_NONE]. *)
Definition any_ptr (r : RootMsg) (t : Z) (m : list byte) : Prop :=
  0 ≤ t ∧
  ∀ obj, obj = (if t =? 0 then None else Some (len m - t)) →
  match r with
  | Msg_NONE => True
  | Msg_GtmMsg _ => payload Msg_GtmMsg read_GtmMsg m obj = Ok r
  | Msg_AppMsg _ => payload Msg_AppMsg read_AppMsg m obj = Ok r
  | Msg_DbServiceMsg _ => payload Msg_DbServiceMsg read_DbServiceMsg m obj = Ok r
  | Msg_DbtlMsg _ => payload Msg_DbtlMsg read_DbtlMsg m obj = Ok r
  | Msg_DbtlAckMsg _ => payload Msg_DbtlAckMsg read_DbtlAckMsg m obj = Ok r
  | Msg_ESMsg _ => payload Msg_ESMsg read_ESMsg m obj = Ok r
  | Msg_DbtmMsg _ => payload Msg_DbtmMsg read_DbtmMsg m obj = Ok r
  | Msg_DbMsg _ => payload Msg_DbMsg read_DbMsg m obj = Ok r
  | Msg_LogPlayerMsg _ => payload Msg_LogPlayerMsg read_LogPlayerMsg m obj = Ok r
  end.

Lemma payload_ptr {A} (mk : A → RootMsg) rd x t m :
  table_ptr rd x t m → payload mk rd m (if t =? 0 then None else Some (len m - t)) = Ok (mk x).
Proof. intros [Ht Hr]. destruct (Z.eqb_spec t 0); [lia|]. cbn. by rewrite Hr. Qed.

Lemma puts_weaken {A} b (w : FlatBufferBuilder → result (A * FlatBufferBuilder)) R R' ok n :
  puts_from b w R ok n → (∀ t m, R t m → R' t m) → puts_from b w R' ok n.
Proof. intros (t & b' & ? & ? & ? & ? & ? & HR) Himp. exists t, b'. split_and!; try done. intros p. apply Himp, HR. Qed.

Lemma puts_any r b :
  RootMsg_valid r → wf b → GetSize b + RootMsg_size r < FLATBUFFERS_MAX_BUFFER_SIZE →
  puts b (write_any r) (any_ptr r) (RootMsg_size r).
Proof.
  intros Hv Hwf Hs. destruct r as [|x|x|x|x|x|x|x|x|x]; cbn [RootMsg_valid RootMsg_size write_any] in *.
  { exists 0, b. split; [done|]. split; [done|]. split; [apply extends_refl|].
    split; [unfold in_buf, GetSize; lia|]. split; [lia|]. intros p. split; [lia|done]. }
  all: eapply puts_weaken; [apply (write_read x b Hv Hwf Hs)|];
    intros t m Ht; (split; [destruct Ht; lia|]); intros obj ->; by apply payload_ptr.
Qed.

Lemma read_any m t fs r any :
  has_table m t fs → RootMsgBuilder_add_any any ∈ fs → RootMsgBuilder_add_any_type (any_type r) ∈ fs →
  any_ptr r any m → read_RootMsg m (len m - t) = Ok r.
Proof.
  intros Htab Hany Hty [H0 Hptr]. unfold read_RootMsg, get_RootMsg_any_type, get_RootMsg_any.
  rewrite (GetField_spec _ _ _ Htab 1 _ (any_type r)); [|done|by vm_compute|by vm_compute|by destruct r].
  cbn [rbind]. rewrite (GetPointer_spec _ _ _ Htab RootMsg_VT_ANY any) by (done || by vm_compute). cbn [rbind].
  specialize (Hptr _ eq_refl). by destruct r.
Qed.

Lemma puts_root r b :
  RootMsg_valid r → wf b → GetSize b + (RootMsg_size r + table_bound 2) < FLATBUFFERS_MAX_BUFFER_SIZE →
  puts b (λ b, let? (any, b) := write_any r b in CreateRootMsg (any_type r) any b)
    (table_ptr read_RootMsg r) (RootMsg_size r + table_bound 2).
Proof.
  intros Hv Hwf Hs. pose proof (table_bound_nonneg 2). eapply puts_bind; [apply puts_any; [done|done|lia]|].
  intros any b1 Hwf1 E1 Hin Hs1 HR1. unfold in_buf in Hin. unfold CreateRootMsg. put_table.
  eapply (read_any _ _ _ r any Htab); [elem_in|elem_in|done].
Qed.

Lemma serialize_sized r :
  RootMsg_valid r → RootMsg_size r + 200 < FLATBUFFERS_MAX_BUFFER_SIZE →
  ∃ m, serialize r = Ok m ∧ deserialize m = Ok r ∧ len m < FLATBUFFERS_MAX_BUFFER_SIZE.
Proof.
  intros Hv Hs. destruct (puts_root r FlatBufferBuilder_new Hv builder_wf_new)
    as (root & b & Hw & Hwf & He & Hin & Hsz & HR).
  { unfold table_bound, FlatBufferBuilder_new, GetSize in *. cbn. lia. }
  destruct (HR []) as [Hroot _]. unfold in_buf in Hin. unfold table_bound, GetSize in Hsz. cbn in Hsz.
  destruct (Finish_ok root b Hwf) as (b' & p & Hfin & Hf & Hb & Hp & Hrd); [lia|unfold GetSize in *; lia|].
  exists (buf_ b'). split_and!.
  - unfold serialize. destruct (write_any r FlatBufferBuilder_new) as [[any b1]|]; [|done]. cbn [rbind] in *.
    rewrite Hw. cbn [rbind]. rewrite Hfin. cbn [rbind]. unfold GetBufferPointer. by rewrite Hf.
  - unfold deserialize, GetRootMsg, GetRoot. rewrite Hrd. cbn [rbind]. rewrite Hb. by destruct (HR p).
  - rewrite Hb. change (Z.of_nat (length (p ++ buf_ b)) < FLATBUFFERS_MAX_BUFFER_SIZE). rewrite length_app, Nat2Z.inj_add.
    change (Z.of_nat (length p) ≤ 18) in Hp. change (Z.of_nat (length (buf_ b)) ≤ 0 + (RootMsg_size r + 87)) in Hsz. lia.
Qed.

Lemma serialize_ok r :
  RootMsg_valid r → RootMsg_size r + 200 < FLATBUFFERS_MAX_BUFFER_SIZE →
  ∃ m, serialize r = Ok m ∧ deserialize m = Ok r.
Proof. intros Hv Hs. destruct (serialize_sized r Hv Hs) as (m & ? & ? & _). by exists m. Qed.

(** (C8) Round trip of the wire format: every message whose integers fit 32
    bits and whose bytes stay below the 2 GB limit of the library is
    serialised without an assertion failing, and the receiver reads back the
    same message, absent fields included. *)
Theorem net_roundtrip r :
  RootMsg_valid r → RootMsg_size r + 200 < FLATBUFFERS_MAX_BUFFER_SIZE →
  ∃ m, serialize r = Ok m ∧ deserialize m = Ok r.
Proof. apply serialize_ok. Qed.

(** ** Verified messages *)

Lemma runs_weaken c (P Q : Prop) : runs c P → (P → Q) → runs c Q.
Proof. intros Hc HPQ V HV. destruct (Hc V HV) as (ok & V' & ? & ? & ?). exists ok, V'. naive_solver. Qed.

Ltac run_check Hm :=
  lazymatch goal with
  | |- runs (VerifyTableStart _ _) _ => apply runs_VerifyTableStart; assumption
  | |- runs (VerifyField 4 _ _ _) _ => apply (runs_VerifyField _ 4 _ _ 0); [assumption|by vm_compute|by vm_compute]
  | |- runs (VerifyField 1 _ _ _) _ => apply (runs_VerifyField _ 1 _ _ 0); [assumption|by vm_compute|by vm_compute]
  | |- runs (VerifyOffsetField _ _ _) _ => apply runs_VerifyOffsetField; [assumption|by vm_compute|by vm_compute]
  | |- runs (VerifyString _ _) _ => apply runs_VerifyString; assumption
  | |- runs (VerifyVector _ _) _ => apply runs_VerifyVector; assumption
  | |- runs (VerifyVectorOfTables _ _ _) _ => eapply runs_VerifyVectorOfTables; [eauto with grit|assumption]
  | |- runs Verifier_EndTable _ => apply runs_EndTable
  end.

Ltac run_checks Hm :=
  eapply runs_weaken;
  [ repeat (eapply runs_and; [run_check Hm|intros ?]); run_check Hm
  | intros Hall; destruct_and? Hall ].

(** Decoding succeeds when every accessor does. *)
Ltac read_total :=
  autounfold with accessors in *;
  repeat (match goal with
  | H : is_ok ?r = true |- context [?r] => destruct r; [clear H; cbn [rbind]|discriminate H]
  end); try reflexivity.

Ltac solve_guards V R :=
  let a := fresh "a" in let Ha := fresh "Ha" in
  intros a Ha; unfold V, R; autounfold with accessors; run_checks I; read_total.

(** A read that stays inside the buffer: it succeeds, or meets a null payload
    or an unknown tag. *)
Definition contained {A} (r : result A) : bool :=
  match r with Ok _ | Err NullDeref | Err BadCast => true | _ => false end.

Section guards.
Context (m : list byte).
Hypothesis Hm : len m < FLATBUFFERS_MAX_BUFFER_SIZE.

Lemma GtmMsg_guards : guards m GtmMsg_Verify read_GtmMsg.
Proof. solve_guards GtmMsg_Verify read_GtmMsg. Qed.
Lemma ipAndPort_guards : guards m ipAndPort_Verify read_ipAndPort.
Proof. solve_guards ipAndPort_Verify read_ipAndPort. Qed.
Lemma AppMsg_guards : guards m AppMsg_Verify read_AppMsg.
Proof. pose proof ipAndPort_guards. solve_guards AppMsg_Verify read_AppMsg. Qed.
Lemma ESMsg_guards : guards m ESMsg_Verify read_ESMsg.
Proof. solve_guards ESMsg_Verify read_ESMsg. Qed.
Lemma Data_guards : guards m Data_Verify read_Data.
Proof. solve_guards Data_Verify read_Data. Qed.
Lemma DbMsg_guards : guards m DbMsg_Verify read_DbMsg.
Proof. pose proof Data_guards. solve_guards DbMsg_Verify read_DbMsg. Qed.
Lemma DbServiceMsg_guards : guards m DbServiceMsg_Verify read_DbServiceMsg.
Proof. pose proof Data_guards. solve_guards DbServiceMsg_Verify read_DbServiceMsg. Qed.
Lemma DbtlMsg_guards : guards m DbtlMsg_Verify read_DbtlMsg.
Proof. pose proof Data_guards. solve_guards DbtlMsg_Verify read_DbtlMsg. Qed.
Lemma DbtmMsg_guards : guards m DbtmMsg_Verify read_DbtmMsg.
Proof. solve_guards DbtmMsg_Verify read_DbtmMsg. Qed.
Lemma DbtlAckMsg_guards : guards m DbtlAckMsg_Verify read_DbtlAckMsg.
Proof. solve_guards DbtlAckMsg_Verify read_DbtlAckMsg. Qed.
Lemma LogPlayerMsg_guards : guards m LogPlayerMsg_Verify read_LogPlayerMsg.
Proof. solve_guards LogPlayerMsg_Verify read_LogPlayerMsg. Qed.

Lemma runs_payload {A} ver (rd : list byte → Z → result A) (mk : A → RootMsg) obj :
  guards m ver rd → (∀ a, obj = Some a → 0 ≤ a < len m) →
  runs (VerifyTable ver m obj) (contained (payload mk rd m obj) = true).
Proof.
  intros Hg Hobj. destruct obj as [a|]; cbn.
  - eapply runs_weaken; [apply Hg; by destruct (Hobj a)|]. by destruct (rd m a).
  - intros V HV. by exists true, V.
Qed.

Lemma RootMsg_guards :
  guards m RootMsg_Verify (λ m a, if contained (read_RootMsg m a) then Ok tt else Err OutOfBounds).
Proof.
  intros a Ha. unfold RootMsg_Verify. eapply runs_weaken.
  - eapply runs_and; [by apply runs_VerifyTableStart|intros Ht].
    eapply runs_and; [by apply (runs_VerifyField m 1 a RootMsg_VT_ANY_TYPE 0)|intros [Hty _]].
    eapply runs_and; [by apply runs_VerifyOffsetField|intros (obj & Hobj & Hr)].
    eapply (runs_and _ _ (contained (read_RootMsg m a) = true)); [|intros _; apply runs_EndTable].
    intros V HV. unfold read_RootMsg, get_RootMsg_any, get_RootMsg_any_type, VerifyMsg. rewrite Hobj.
    destruct (GetField 1 m a RootMsg_VT_ANY_TYPE 0) as [ty|]; [clear Hty; cbn [rbind]|done].
    repeat (case_match; [first [by exists true, V | apply runs_payload; eauto 3 using GtmMsg_guards, AppMsg_guards,
      DbServiceMsg_guards, DbtlMsg_guards, DbtlAckMsg_guards, ESMsg_guards, DbtmMsg_guards, DbMsg_guards,
      LogPlayerMsg_guards]|]).
    by exists true, V.
  - intros (_ & _ & _ & -> & _). done.
Qed.

End guards.

(** (C9) Untrusted bytes: on any buffer below 2 GB the verifier comes back
    with an answer and never reads outside the buffer; and when it accepts,
    no accessor used by the handlers reads outside it either (reading meets
    at worst a tag without a payload or an unknown tag). *)
Theorem net_verify_safe m :
  len m < FLATBUFFERS_MAX_BUFFER_SIZE →
  ∃ ok V, (let? V := Verifier_new m in VerifyRootMsgBuffer m V) = Ok (ok, V) ∧
    (ok = true → contained (deserialize m) = true).
Proof.
  intros Hm. unfold Verifier_new. destruct (Z.ltb_spec (len m) FLATBUFFERS_MAX_BUFFER_SIZE); [|lia]. cbn [rbind].
  destruct (runs_VerifyBuffer m RootMsg_Verify _ (RootMsg_guards m Hm) (mkVerifier 0 64 0 1000000 true) eq_refl)
    as (ok & V & HV & _ & Hok).
  exists ok, V. split; [exact HV|]. intros ->. destruct (Hok eq_refl) as (a & Hroot & Hc).
  unfold deserialize, GetRootMsg. rewrite Hroot. cbn [rbind]. by destruct (contained (read_RootMsg m a)).
Qed.

(** Without the verifier, which no handler calls, a received message can
    send the accessors outside the buffer: four bytes are enough. *)
Theorem net_unverified_overreads :
  deserialize (le_split 4 1000) = Err OutOfBounds ∧
  (let? V := Verifier_new (le_split 4 1000) in
   let? (ok, _) := VerifyRootMsgBuffer (le_split 4 1000) V in Ok ok) = Ok false.
Proof. split; vm_compute; reflexivity. Qed.

(** ** Witnesses *)

Definition demo_msg : RootMsg :=
  Msg_AppMsg (mkAppMsg kTxid 7 (Some [mkipAndPort (Some "127.0.0.1") 1234; mkipAndPort None (-3)])).

Lemma net_roundtrip_witness : ∃ m, serialize demo_msg = Ok m ∧ deserialize m = Ok demo_msg.
Proof.
  apply net_roundtrip.
  - cbn. unfold int32_ok. repeat constructor; vm_compute; congruence.
  - vm_compute. reflexivity.
Defined.

Definition demo_bytes : list byte :=
  match serialize demo_msg with Ok m => m | Err _ => [] end.

Lemma net_verify_safe_witness : contained (deserialize demo_bytes) = true.
Proof.
  destruct (net_verify_safe demo_bytes) as (ok & V & Hv & Hc); [vm_compute; reflexivity|].
  apply Hc. vm_compute in Hv. congruence.
Defined.
