(* ===== verification/FlatSorted.v ===== *)
(** * Sorted vectors of tables and lookup by key

    The part of src/third_part/include/flatbuffers/flatbuffers.h that keeps a
    vector of tables ordered by a key: [TableKeyComparator] and
    [CreateVectorOfSortedTables] of the builder, [LookupByKey] and [KeyCompare]
    of the vector.  The key accessor and the two comparisons,
    [KeyCompareLessThan] for the sort and [KeyCompareWithValue] for the search,
    are generated per schema; net.fbs declares no key, so they are parameters,
    with their agreement on one order as a law.  [std::sort] is known by its
    specification, [std::bsearch] is the usual halving loop.  The theorem is
    the contract between the two halves: what was sorted when written is found
    when read, as by a linear search. *)

From Stdlib Require Import Sorting.
From stdpp Require Import base list sorting strings.
From S2P Require Import Prelude NetMsg FlatBuilder FlatTable FlatOps NetGenerated.

(** [std::sort]: a permutation in which no element is less than one before it,
    for a strict weak order. *)
Record strict_weak {A} (less : A → A → bool) : Prop := {
  sw_irrefl : ∀ x, less x x = false;
  sw_trans : ∀ x y z, less x y = true → less y z = true → less x z = true;
  sw_incomparable : ∀ x y z, less x y = false → less y z = false → less x z = false }.

Class StdSort := {
  std_sort : ∀ {A}, (A → A → bool) → list A → list A;
  std_sort_perm : ∀ {A} (less : A → A → bool) l, strict_weak less → std_sort less l ≡ₚ l;
  std_sort_sorted : ∀ {A} (less : A → A → bool) l,
    strict_weak less → StronglySorted (λ x y, less y x = false) (std_sort less l) }.

(** What is generated for a key: [KeyCompareLessThan] of two tables and
    [KeyCompareWithValue] of a table and a value, on the keys.  The first is an
    ordering of the keys, the second has its sign by the same ordering and is
    an [int] that can be negated. *)
Class KeyOrder (K : Type) := {
  KeyCompareLessThan : K → K → bool;
  KeyCompareWithValue : K → K → Z;
  less_weak : strict_weak KeyCompareLessThan;
  compare_negative : ∀ k v, KeyCompareWithValue k v < 0 ↔ KeyCompareLessThan k v = true;
  compare_positive : ∀ k v, 0 < KeyCompareWithValue k v ↔ KeyCompareLessThan v k = true;
  compare_int : ∀ k v, - 2 ^ 31 < KeyCompareWithValue k v < 2 ^ 31 }.

Section keys.
Context `{StdSort, KeyOrder K}.
(** The generated accessor of the key field of a table. *)
Context (key_at : list byte → Z → result K).

(** ** The builder *)

(** The key of the table at an offset: [buf_.data_at(o)]. *)
Definition offset_key (b : FlatBufferBuilder) (o : Z) : result K := key_at (buf_ b) (GetSize b - o).

Fixpoint offset_keys (b : FlatBufferBuilder) (v : list Z) : result (list (K * Z)) :=
  match v with
  | [] => Ok []
  | o :: v => let? k := offset_key b o in let? rest := offset_keys b v in Ok ((k, o) :: rest)
  end.

(** [TableKeyComparator::operator()], on offsets with their keys. *)
Definition TableKeyComparator (x y : K * Z) : bool := KeyCompareLessThan x.1 y.1.

(** [CreateVectorOfSortedTables]: with fewer than two tables nothing is compared. *)
Definition CreateVectorOfSortedTables (v : list Z) (b : FlatBufferBuilder) : result (Z * FlatBufferBuilder) :=
  if (length v <=? 1)%nat then CreateVector v b
  else let? ks := offset_keys b v in CreateVector (snd <$> std_sort TableKeyComparator ks) b.

(** ** The vector *)

(** [Vector::KeyCompare]: the element is read through its offset and compared
    with the operands transposed. *)
Definition KeyCompare (m : list byte) (key : K) (p : Z) : result Z :=
  let? table := Read m p 0 in
  let? k := key_at m table in Ok (int32 (- KeyCompareWithValue k key)).

(** [bsearch] on elements of four bytes: the half-open range shrinks by at
    least one, so its length is enough fuel. *)
Fixpoint bsearch (fuel : nat) (m : list byte) (key : K) (base l u : Z) : result (option Z) :=
  if l <? u then
    match fuel with
    | O => Err OutOfFuel
    | S fuel =>
        let idx := (l + u) / 2 in
        let p := base + idx * 4 in
        let? comparison := KeyCompare m key p in
        if comparison <? 0 then bsearch fuel m key base l idx
        else if 0 <? comparison then bsearch fuel m key base (idx + 1) u
        else Ok (Some p)
    end
  else Ok None.

(** [Vector::LookupByKey] *)
Definition LookupByKey (m : list byte) (v : Z) (key : K) : result (option Z) :=
  let? n := Vector_size m v in
  let? search_result := bsearch (Z.to_nat n) m key (v + 4) 0 n in
  match search_result with
  | None => Ok None
  | Some element => let? table := Read m element 0 in Ok (Some table)
  end.

(** ** Lemmas *)

Lemma key_order_weak : strict_weak TableKeyComparator.
Proof.
  destruct less_weak as [Hirr Htr Hinc]. unfold TableKeyComparator. split; [done|intros x y z; apply Htr|intros x y z; apply Hinc].
Qed.

Abbreviation key_cmp := KeyCompareWithValue.

Lemma key_cmp_flip a b : key_cmp a b < 0 ↔ 0 < key_cmp b a.
Proof. by rewrite compare_negative, compare_positive. Qed.

Lemma key_cmp_le a b : key_cmp a b ≤ 0 ↔ KeyCompareLessThan b a = false.
Proof. rewrite <- not_true_iff_false, <- compare_positive. lia. Qed.

Lemma key_cmp_trans a b c : key_cmp a b ≤ 0 → key_cmp b c ≤ 0 → key_cmp a c ≤ 0.
Proof. rewrite !key_cmp_le. intros Hab Hbc. by apply (sw_incomparable _ less_weak c b a). Qed.

Lemma key_cmp_neg a b : int32 (- key_cmp a b) = - key_cmp a b.
Proof. apply int32_id. unfold int32_ok. pose proof (compare_int a b). lia. Qed.

(** Entries in the order of their keys. *)
Definition ordered (ks : list (K * Z)) : Prop := StronglySorted (λ x y, key_cmp x.1 y.1 ≤ 0) ks.

Lemma sort_ordered ks : ordered (std_sort TableKeyComparator ks).
Proof.
  unfold ordered. induction (std_sort_sorted TableKeyComparator ks key_order_weak) as [|x l _ IH Hx]; constructor; [done|].
  eapply Forall_impl; [exact Hx|]. intros y Hy. by apply key_cmp_le.
Qed.

Lemma ordered_lookup ks i j x y : ordered ks → (i ≤ j)%nat → ks !! i = Some x → ks !! j = Some y → key_cmp x.1 y.1 ≤ 0.
Proof.
  intros Hs. revert i j. induction Hs as [|z l _ IH Hz]; intros [|i] [|j] Hij Hi Hj; try done; try lia; cbn in *.
  - injection Hi as <-. injection Hj as <-. pose proof (key_cmp_flip z.1 z.1). lia.
  - injection Hi as <-. exact (Forall_lookup_1 _ _ _ _ Hz Hj).
  - eapply IH; [|done..]. lia.
Qed.

(** What the bytes hold: the offsets of [ks], each leading to a table with its key. *)
Definition holds_keys (m : list byte) (off : Z) (ks : list (K * Z)) : Prop :=
  has_vector m off (snd <$> ks) ∧ ∀ i x, ks !! i = Some x → key_at m (len m - x.2) = Ok x.1.

Section search.
Context (m : list byte) (off : Z) (ks : list (K * Z)) (key : K).
Context (Hks : holds_keys m off ks) (Hord : ordered ks).

Lemma Read_entry i x : ks !! i = Some x → Read m (len m - off + 4 + Z.of_nat i * 4) 0 = Ok (len m - x.2).
Proof using Hks.
  intros Hi. destruct Hks as [Hv _]. destruct (Vector_spec _ _ _ Hv) as [Hsz Hget].
  specialize (Hget i x.2). rewrite list_lookup_fmap, Hi in Hget. specialize (Hget eq_refl).
  unfold Vector_Get in Hget. rewrite Hsz in Hget. cbn [rbind] in Hget. rewrite length_fmap in Hget.
  pose proof (lookup_lt_Some _ _ _ Hi). destruct (Z.ltb_spec (Z.of_nat i) (len ks)); [|lia]. unfold Read. rewrite Z.add_0_r. exact Hget.
Qed.

Lemma KeyCompare_entry i x : ks !! i = Some x → KeyCompare m key (len m - off + 4 + Z.of_nat i * 4) = Ok (- key_cmp x.1 key).
Proof using Hks.
  intros Hi. unfold KeyCompare. rewrite (Read_entry i x Hi). cbn [rbind]. destruct Hks as [_ Hk]. rewrite (Hk i x Hi). cbn [rbind]. by rewrite key_cmp_neg.
Qed.

(** The binary search finds an entry with the key, or there is none in the range. *)
Lemma bsearch_spec fuel l u :
  0 ≤ l → u ≤ len ks → u - l ≤ Z.of_nat fuel →
  (∃ i x, bsearch fuel m key (len m - off + 4) l u = Ok (Some (len m - off + 4 + Z.of_nat i * 4)) ∧ ks !! i = Some x ∧ key_cmp x.1 key = 0) ∨
  (bsearch fuel m key (len m - off + 4) l u = Ok None ∧ ∀ i x, l ≤ Z.of_nat i < u → ks !! i = Some x → key_cmp x.1 key ≠ 0).
Proof using Hks Hord.
  revert l u. induction fuel as [|fuel IH]; intros l u Hl Hu Hf; cbn [bsearch]; destruct (Z.ltb_spec l u) as [Hlu|]; try lia.
  1, 3: right; (split; [done|]); intros i x Hi; lia.
  assert (l ≤ (l + u) / 2 < u) as Hmid by (split; [apply Z.div_le_lower_bound|apply Z.div_lt_upper_bound]; lia).
  set (idx := (l + u) / 2) in *. destruct (lookup_lt_is_Some_2 ks (Z.to_nat idx)) as [x Hx]; [lia|].
  pose proof (KeyCompare_entry _ _ Hx) as Hc. rewrite Z2Nat.id in Hc by lia. rewrite Hc. cbn [rbind].
  destruct (Z.ltb_spec (- key_cmp x.1 key) 0) as [Hlt|Hge]; [|destruct (Z.ltb_spec 0 (- key_cmp x.1 key)) as [Hgt|Hle]].
  - destruct (IH l idx) as [Hfound|[Hnone Hno]]; [lia..|by left|]. right. split; [done|]. intros i y Hi Hy.
    destruct (decide (Z.of_nat i < idx)) as [|Hge]; [apply (Hno i); [lia|done]|]. intros Heq.
    pose proof (ordered_lookup ks (Z.to_nat idx) i x y Hord ltac:(lia) Hx Hy) as Hxy.
    pose proof (key_cmp_trans x.1 y.1 key Hxy ltac:(lia)). lia.
  - destruct (IH (idx + 1) u) as [Hfound|[Hnone Hno]]; [lia..|by left|]. right. split; [done|]. intros i y Hi Hy.
    destruct (decide (idx < Z.of_nat i)) as [|Hge']; [apply (Hno i); [lia|done]|]. intros Heq.
    pose proof (ordered_lookup ks i (Z.to_nat idx) y x Hord ltac:(lia) Hy Hx) as Hyx.
    assert (key_cmp key y.1 ≤ 0) as Hky by (pose proof (key_cmp_flip y.1 key); lia).
    pose proof (key_cmp_trans key y.1 x.1 Hky Hyx). pose proof (key_cmp_flip x.1 key). lia.
  - left. exists (Z.to_nat idx), x. rewrite Z2Nat.id by lia. split_and!; [done|done|lia].
Qed.

Lemma LookupByKey_spec :
  (∃ x, LookupByKey m (len m - off) key = Ok (Some (len m - x.2)) ∧ x ∈ ks ∧ key_cmp x.1 key = 0) ∨
  (LookupByKey m (len m - off) key = Ok None ∧ ∀ x, x ∈ ks → key_cmp x.1 key ≠ 0).
Proof using Hks Hord.
  unfold LookupByKey. destruct (Vector_spec _ _ _ (proj1 Hks)) as [-> _]. rewrite length_fmap. cbn [rbind].
  destruct (bsearch_spec (Z.to_nat (len ks)) 0 (len ks)) as [(i & x & -> & Hx & Heq)|[-> Hno]]; [lia..| |]; cbn [rbind].
  - left. exists x. rewrite (Read_entry i x Hx). split_and!; [done|by eapply list_elem_of_lookup_2|done].
  - right. split; [done|]. intros x [i Hi]%list_elem_of_lookup_1. apply (Hno i x); [|done].
    pose proof (lookup_lt_Some _ _ _ Hi). lia.
Qed.
End search.

(** ** Writing and looking up *)

Context `{Codec A} (key_of : A → K).
(** The accessor reads the key of a table that was written. *)
Context (key_at_of : ∀ x t m, table_ptr read x t m → key_at m (len m - t) = Ok (key_of x)).

Lemma offset_keys_of (l : list A) os b :
  Forall2 (λ x o, table_ptr read x o (buf_ b)) l os → offset_keys b os = Ok (zip (key_of <$> l) os).
Proof using key_at_of.
  induction 1 as [|x o l os Hxo _ IH]; [done|]. cbn [offset_keys]. unfold offset_key, GetSize. rewrite (key_at_of _ _ _ Hxo). cbn [rbind]. by rewrite IH.
Qed.

Lemma sorted_vector_ok (l : list A) os b :
  wf b → Forall (λ o, 0 < o ≤ GetSize b) os → stable b (λ m, Forall2 (λ x o, table_ptr read x o m) l os) →
  GetSize b + 4 * len os + 20 < FLATBUFFERS_MAX_BUFFER_SIZE →
  ∃ off b' ks, CreateVectorOfSortedTables os b = Ok (off, b') ∧ wf b' ∧ extends b b' ∧ ks ≡ₚ zip (key_of <$> l) os ∧ ordered ks ∧
    has_vector (buf_ b') off (snd <$> ks).
Proof using key_at_of.
  intros Hwf HF Hst Hs. pose proof (Hst []) as Hnow. cbn in Hnow. pose proof (Forall2_length _ _ _ Hnow) as Hlen.
  assert (∃ ks, ks ≡ₚ zip (key_of <$> l) os ∧ ordered ks ∧ CreateVectorOfSortedTables os b = CreateVector (snd <$> ks) b) as (ks & Hp & Hord & ->).
  { unfold CreateVectorOfSortedTables. destruct (Nat.leb_spec (length os) 1) as [Hle|Hgt].
    - exists (zip (key_of <$> l) os). split_and!; [done| |by rewrite snd_zip by (rewrite length_fmap; lia)].
      destruct l as [|x [|y l]], os as [|o [|o' os]]; cbn in *; try lia; unfold ordered; repeat constructor.
    - rewrite (offset_keys_of l os b Hnow). cbn [rbind]. eexists. split_and!; [apply std_sort_perm, key_order_weak|apply sort_ordered|done]. }
  assert (snd <$> ks ≡ₚ os) as Hpo by (rewrite Hp, snd_zip by (rewrite length_fmap; lia); done).
  destruct (CreateVector_ok (snd <$> ks) b Hwf) as (off & b' & Hc & Hwf' & He & _ & _ & Hv); [by rewrite Hpo|by rewrite Hpo|].
  exists off, b', ks. done.
Qed.

(** (C40) Sorted tables are found: tables written one after the other and
    collected in a sorted vector are looked up by binary search as by a linear
    one, whatever is written to the buffer afterwards: a table with an equal
    key if there is one, null if there is none, and no read outside.  This is
    for a key whose two generated comparisons follow one total preorder
    ([KeyOrder]) and whose accessor reads the key of a table that was written,
    below the 2 GB limit. *)
Theorem sorted_lookup_finds (l : list A) b key :
  Forall valid l → wf b → GetSize b + foldr (λ x n, size x + n) 0 l + 4 * len l + 20 < FLATBUFFERS_MAX_BUFFER_SIZE →
  ∃ os b1 off b2, write_all write l b = Ok (os, b1) ∧ CreateVectorOfSortedTables os b1 = Ok (off, b2) ∧ wf b2 ∧
    stable b2 (λ m,
      (∃ x a, x ∈ l ∧ LookupByKey m (len m - off) key = Ok (Some a) ∧ read m a = Ok x ∧ KeyCompareWithValue (key_of x) key = 0) ∨
      (LookupByKey m (len m - off) key = Ok None ∧ ∀ x, x ∈ l → KeyCompareWithValue (key_of x) key ≠ 0)).
Proof using key_at_of.
  intros Hv Hwf Hs. destruct (puts_all write read size l b) as (os & b1 & Hw & Hwf1 & He1 & Hos & Hs1 & HR); [|done|lia|].
  { intros x Hx. split; [apply size_nonneg|]. intros b0 Hwf0 Hs0. apply write_read; [|done|done]. rewrite Forall_forall in Hv. auto. }
  pose proof (Forall2_length _ _ _ (HR [])) as Hlen.
  destruct (sorted_vector_ok l os b1 Hwf1 Hos HR) as (off & b2 & ks & Hc & Hwf2 & He2 & Hp & Hord & Hvec); [lia|].
  exists os, b1, off, b2. split_and!; [done|done|done|]. intros p. pose proof (stable_ext _ _ _ He2 HR p) as HF. set (m := p ++ buf_ b2) in *.
  assert (∀ x, x ∈ ks → ∃ y, y ∈ l ∧ x.1 = key_of y ∧ table_ptr read y x.2 m) as Hin.
  { intros [k o] Hx. rewrite Hp in Hx. apply list_elem_of_lookup_1 in Hx as [i Hi]. apply lookup_zip_Some in Hi as [Hk Ho]. cbn in *.
    rewrite list_lookup_fmap in Hk. destruct (l !! i) as [y|] eqn:Hy; [|done]. injection Hk as <-. exists y. split_and!; [by eapply list_elem_of_lookup_2|done|].
    by destruct (Forall2_lookup_lr _ _ _ _ _ _ HF Hy Ho). }
  assert (holds_keys m off ks) as Hks.
  { split; [by apply has_vector_app|]. intros i x Hx%list_elem_of_lookup_2. destruct (Hin x Hx) as (y & _ & -> & Hy). by apply key_at_of. }
  destruct (LookupByKey_spec m off ks key Hks Hord) as [(x & Hl & Hx & Heq)|[Hl Hno]].
  - left. destruct (Hin x Hx) as (y & Hy & Hk & Hptr). exists y, (len m - x.2). rewrite Hk in Heq. split_and!; [done|done|apply Hptr|done].
  - right. split; [done|]. intros y [i Hi]%list_elem_of_lookup_1. destruct (Forall2_lookup_l _ _ _ _ _ HF Hi) as (o & Ho & _).
    apply (Hno (key_of y, o)). rewrite Hp. eapply list_elem_of_lookup_2, lookup_zip_Some. split; [|exact Ho]. cbn. by rewrite list_lookup_fmap, Hi.
Qed.

End keys.

(** ** Witnesses: endpoints sorted by port *)

Definition not_after {A} (less : A → A → bool) (x y : A) : Prop := less y x = false.
#[export] Instance not_after_dec {A} (less : A → A → bool) : RelDecision (not_after less).
Proof. intros x y. unfold not_after. apply _. Defined.

#[export] Program Instance merge_std_sort : StdSort := {
  std_sort A less := merge_sort (not_after less) }.
Next Obligation. intros A less l _. apply merge_sort_Permutation. Qed.
Next Obligation.
  intros A less l [Hirr Htrans Hinc]. apply StronglySorted_merge_sort.
  - intros x y z Hxy Hyz. by apply (Hinc z y x).
  - intros x y. destruct (less y x) eqn:Hyx; [|by left]. right. destruct (less x y) eqn:Hxy; [|done].
    pose proof (Htrans x y x Hxy Hyx) as Hxx. by rewrite Hirr in Hxx.
Qed.

(** The comparisons that are generated for an integer key. *)
#[export] Program Instance int_key_order : KeyOrder Z := {
  KeyCompareLessThan key other := key <? other;
  KeyCompareWithValue key val := Z.b2z (val <? key) - Z.b2z (key <? val) }.
Next Obligation. split; intros *; rewrite ?Z.ltb_lt, ?Z.ltb_ge; lia. Qed.
Next Obligation. intros k v. cbv beta. destruct (Z.ltb_spec v k), (Z.ltb_spec k v); unfold Z.b2z; (split; intros; first [lia|done]). Qed.
Next Obligation. intros k v. cbv beta. destruct (Z.ltb_spec v k), (Z.ltb_spec k v); unfold Z.b2z; (split; intros; first [lia|done]). Qed.
Next Obligation. intros k v. cbv beta. destruct (Z.ltb_spec v k), (Z.ltb_spec k v); unfold Z.b2z; lia. Qed.

Lemma port_read x t m : table_ptr (read (A := ipAndPort)) x t m → get_ipAndPort_port m (len m - t) = Ok (ipAndPort_port x).
Proof.
  intros [_ Hr]. cbn in Hr. unfold read_ipAndPort in Hr. destruct (string_field _ _ _); [|done]. cbn [rbind] in Hr.
  destruct (get_ipAndPort_port _ _); [|done]. by injection Hr as <-.
Qed.

Definition three_ports : list ipAndPort := [mkipAndPort (Some "c") 30; mkipAndPort (Some "a") 10; mkipAndPort (Some "b") 20].

Lemma sorted_lookup_finds_witness :
  ∃ os b1 off b2, write_all write three_ports FlatBufferBuilder_new = Ok (os, b1) ∧
    CreateVectorOfSortedTables get_ipAndPort_port os b1 = Ok (off, b2) ∧
    ∃ x a, x ∈ three_ports ∧ LookupByKey get_ipAndPort_port (buf_ b2) (GetSize b2 - off) 20 = Ok (Some a) ∧ read (buf_ b2) a = Ok x.
Proof.
  destruct (sorted_lookup_finds get_ipAndPort_port ipAndPort_port port_read three_ports FlatBufferBuilder_new 20) as (os & b1 & off & b2 & Hw & Hc & _ & Hst).
  - repeat constructor; unfold valid; cbn; unfold int32_ok; lia.
  - exact builder_wf_new.
  - vm_compute. reflexivity.
  - exists os, b1, off, b2. split_and!; [exact Hw|exact Hc|]. destruct (Hst []) as [(x & a & Hx & Hl & Hr & _)|[_ Hno]].
    + exists x, a. split_and!; [exact Hx|exact Hl|exact Hr].
    + exfalso. apply (Hno (mkipAndPort (Some "b") 20)); [apply list_elem_of_further, list_elem_of_further, list_elem_of_here|reflexivity].
Defined.
