(* ===== verification/NetStream.v ===== *)
(** * The rest of the generated message code: tags, casts, size prefixes

    The tag of the union with its names and its casts
    (src/flatbuffer/net_generated.h), and the size-prefixed form of a message
    that the library offers for streams: [Finish] with its two options, the
    readers and the verifier of such buffers.  The servers exchange messages
    without a prefix; the stream theorem shows what the prefix would give
    them. *)

From Stdlib Require Import ZArith Lia Ascii.
From coqutil Require Import Byte Word.LittleEndianList.
From stdpp Require Import base gmap strings list.
From S2P Require Import Prelude NetMsg FlatBuilder FlatTable NetGenerated.

(** ** The tag of the union *)

(** [IsOutRange] *)
Definition IsOutRange (v low high : Z) : bool := (v <? low) || (high <? v).

Definition EnumValuesMsg : list Z :=
  [any_type Msg_NONE; 1; 2; 3; 4; 5; 6; 7; 8; 9].

(** The array ends with a null pointer. *)
Definition EnumNamesMsg : list (option string) :=
  [Some "NONE"; Some "GtmMsg"; Some "AppMsg"; Some "DbServiceMsg"; Some "DbtlMsg"; Some "DbtlAckMsg"; Some "ESMsg";
   Some "DbtmMsg"; Some "DbMsg"; Some "LogPlayerMsg"; None]%string.

Definition EnumNameMsg (e : Z) : result string :=
  if IsOutRange e 0 9 then Ok ""%string
  else match EnumNamesMsg !! Z.to_nat e with
       | Some (Some s) => Ok s
       | Some None => Err NullDeref
       | None => Err OutOfBounds
       end.

(** The table types of the union, and [MsgTraits<T>::enum_value]. *)
Inductive union_type :=
| TGtmMsg | TAppMsg | TDbServiceMsg | TDbtlMsg | TDbtlAckMsg | TESMsg | TDbtmMsg | TDbMsg | TLogPlayerMsg.

Definition MsgTraits (T : union_type) : Z :=
  match T with
  | TGtmMsg => 1 | TAppMsg => 2 | TDbServiceMsg => 3 | TDbtlMsg => 4 | TDbtlAckMsg => 5
  | TESMsg => 6 | TDbtmMsg => 7 | TDbMsg => 8 | TLogPlayerMsg => 9
  end.

(** ** The checked casts of [RootMsg] *)

(** [any_type() == tag ? static_cast<...>(any()) : nullptr] *)
Definition any_if (tag : Z) (m : list byte) (t : Z) : result (option Z) :=
  let? type := get_RootMsg_any_type m t in
  if type =? tag then get_RootMsg_any m t else Ok None.

Definition any_as_GtmMsg := any_if 1.
Definition any_as_AppMsg := any_if 2.
Definition any_as_DbServiceMsg := any_if 3.
Definition any_as_DbtlMsg := any_if 4.
Definition any_as_DbtlAckMsg := any_if 5.
Definition any_as_ESMsg := any_if 6.
Definition any_as_DbtmMsg := any_if 7.
Definition any_as_DbMsg := any_if 8.
Definition any_as_LogPlayerMsg := any_if 9.

(** The specialisations of [any_as<T>] *)
Definition any_as (T : union_type) : list byte → Z → result (option Z) :=
  match T with
  | TGtmMsg => any_as_GtmMsg
  | TAppMsg => any_as_AppMsg
  | TDbServiceMsg => any_as_DbServiceMsg
  | TDbtlMsg => any_as_DbtlMsg
  | TDbtlAckMsg => any_as_DbtlAckMsg
  | TESMsg => any_as_ESMsg
  | TDbtmMsg => any_as_DbtmMsg
  | TDbMsg => any_as_DbMsg
  | TLogPlayerMsg => any_as_LogPlayerMsg
  end.

(** What a handler reads after the cast to [T]. *)
Definition read_as (T : union_type) (m : list byte) (a : Z) : result RootMsg :=
  match T with
  | TGtmMsg => payload Msg_GtmMsg read_GtmMsg m (Some a)
  | TAppMsg => payload Msg_AppMsg read_AppMsg m (Some a)
  | TDbServiceMsg => payload Msg_DbServiceMsg read_DbServiceMsg m (Some a)
  | TDbtlMsg => payload Msg_DbtlMsg read_DbtlMsg m (Some a)
  | TDbtlAckMsg => payload Msg_DbtlAckMsg read_DbtlAckMsg m (Some a)
  | TESMsg => payload Msg_ESMsg read_ESMsg m (Some a)
  | TDbtmMsg => payload Msg_DbtmMsg read_DbtmMsg m (Some a)
  | TDbMsg => payload Msg_DbMsg read_DbMsg m (Some a)
  | TLogPlayerMsg => payload Msg_LogPlayerMsg read_LogPlayerMsg m (Some a)
  end.

(** ** Vectors of unions *)

(** [Vector<uint8_t>::Get] and [GetEnum] *)
Definition Vector_GetEnum (m : list byte) (v i : Z) : result Z :=
  let? n := Vector_size m v in
  if i <? n then ReadScalar 1 m (v + 4 + i) else Err AssertFail.

Fixpoint verify_msgs (m : list byte) (values types i : Z) (n : nat) : check := λ V,
  match n with
  | O => Ok (true, V)
  | S n' =>
      let? obj := Vector_Get m values i in
      let? type := Vector_GetEnum m types i in
      let? (ok, V) := VerifyMsg m (Some obj) type V in
      if ok : bool then verify_msgs m values types (i + 1) n' V else Ok (false, V)
  end.

Definition VerifyMsgVector (m : list byte) (values types : option Z) : check := λ V,
  match values, types with
  | Some v, Some ts =>
      let? nv := Vector_size m v in
      let? nt := Vector_size m ts in
      if negb (nv =? nt) then Ok (false, V) else verify_msgs m v ts 0 (Z.to_nat nv) V
  | None, None => Ok (true, V)
  | _, _ => Ok (false, V)
  end.

(** ** Finishing with an identifier and a size *)

Definition kFileIdentifierLength : Z := 4.

(** [Finish(root, file_identifier, size_prefix)] *)
Definition FinishFull (root : Z) (file_identifier : option string) (size_prefix : bool) (b : FlatBufferBuilder)
    : result FlatBufferBuilder :=
  let? _ := NotNested b in
  let b := set_vtables [] b in
  let? b := PreAlign ((if size_prefix then 4 else 0) + 4 +
                      match file_identifier with Some _ => kFileIdentifierLength | None => 0 end) (minalign_ b) b in
  let? b := match file_identifier with
            | Some s =>
                if negb (strlen (c_string s) =? kFileIdentifierLength) then Err AssertFail
                else PushBytes (String.list_byte_of_string (c_string s)) b
            | None => Ok b
            end in
  let? (_, b) := PushOffset root b in
  let? b := (if size_prefix then let? (_, b) := PushElement 4 (GetSize b) b in Ok b else Ok b) in
  Ok (set_finished true b).

Definition FinishSizePrefixed (root : Z) (b : FlatBufferBuilder) : result FlatBufferBuilder :=
  FinishFull root None true b.

(** ** Reading such a buffer *)

Definition GetSizePrefixedRoot (m : list byte) : result Z :=
  let? o := ReadScalar 4 m 4 in Ok (4 + o).

(** [GetBufferIdentifier]: its address *)
Definition GetBufferIdentifier (buf : Z) (size_prefixed : bool) : Z :=
  buf + (if size_prefixed then 2 * 4 else 4).

(** [strncmp(m + a, s, n) == 0]: byte by byte, up to the first difference or
    the end of both strings. *)
Fixpoint strncmp_eq (n : nat) (m : list byte) (a : Z) (s : list byte) : result bool :=
  match n with
  | O => Ok true
  | S n' =>
      let? c := ReadScalar 1 m a in
      match s with
      | [] => Ok (c =? 0)
      | x :: s' =>
          if c =? le_combine [x] then
            if c =? 0 then Ok true else strncmp_eq n' m (a + 1) s'
          else Ok false
      end
  end.

Definition BufferHasIdentifier (m : list byte) (buf : Z) (identifier : string) (size_prefixed : bool) : result bool :=
  strncmp_eq (Z.to_nat kFileIdentifierLength) m (GetBufferIdentifier buf size_prefixed)
    (String.list_byte_of_string identifier).

(** [VerifyBufferFromStart<T>] and [VerifySizePrefixedBuffer<T>] *)
Definition VerifyBufferFromStart (ver : list byte → Z → check) (m : list byte) (identifier : option string) (start : Z)
    : check := λ V,
  let? bad := match identifier with
              | Some s => if len m <? 2 * 4 then Ok true
                          else let? has := BufferHasIdentifier m start s false in Ok (negb has)
              | None => Ok false
              end in
  if bad : bool then Ok (false, V) else
  let? o := VerifyOffset m start V in
  if o =? 0 then Ok (false, V) else ver m (start + o) V.

Definition VerifySizePrefixedBuffer (ver : list byte → Z → check) (m : list byte) (identifier : option string) : check := λ V,
  if negb (VerifyT m 4 0 V) then Ok (false, V) else
  let? n := ReadScalar 4 m 0 in
  if negb (n =? len m - 4) then Ok (false, V) else VerifyBufferFromStart ver m identifier 4 V.

(** ** The generated wrappers *)

Definition GetSizePrefixedRootMsg (m : list byte) : result Z := GetSizePrefixedRoot m.
Definition VerifySizePrefixedRootMsgBuffer (m : list byte) : check := VerifySizePrefixedBuffer RootMsg_Verify m None.
Definition FinishSizePrefixedRootMsgBuffer (root : Z) (fbb : FlatBufferBuilder) : result FlatBufferBuilder :=
  FinishSizePrefixed root fbb.

(** ** Messages in a stream

    One message with its prefix, written and read through the wrappers; and a
    stream cut where the prefixes say (the program has no such reader: it sends
    messages without a prefix). *)
Definition serialize_prefixed (r : RootMsg) : result (list byte) :=
  let? (any, fbb) := write_any r FlatBufferBuilder_new in
  let? (root, fbb) := CreateRootMsg (any_type r) any fbb in
  let? fbb := FinishSizePrefixedRootMsgBuffer root fbb in
  GetBufferPointer fbb.

Definition deserialize_prefixed (m : list byte) : result RootMsg :=
  let? t := GetSizePrefixedRootMsg m in read_RootMsg m t.

Fixpoint cut_stream (fuel : nat) (s : list byte) : result (list (list byte)) :=
  match s, fuel with
  | [], _ => Ok []
  | _, O => Err OutOfFuel
  | _, S fuel' =>
      let? n := ReadScalar 4 s 0 in
      let? m := load (Z.to_nat (4 + n)) s 0 in
      let? ms := cut_stream fuel' (drop (length m) s) in Ok (m :: ms)
  end.

Fixpoint map_result {A B} (f : A → result B) (l : list A) : result (list B) :=
  match l with
  | [] => Ok []
  | x :: l' => let? y := f x in let? ys := map_result f l' in Ok (y :: ys)
  end.

(** ** Tags and casts *)

(** The cast to [T] succeeds exactly on a root whose tag is that of [T]. *)
Lemma any_as_spec T m t p :
  any_as T m t = Ok (Some p) ↔ get_RootMsg_any_type m t = Ok (MsgTraits T) ∧ get_RootMsg_any m t = Ok (Some p).
Proof.
  assert (any_as T m t = any_if (MsgTraits T) m t) as -> by by destruct T. unfold any_if.
  destruct (get_RootMsg_any_type m t) as [ty|]; cbn [rbind]; [|naive_solver].
  destruct (Z.eqb_spec ty (MsgTraits T)); naive_solver.
Qed.

(** Every tag of the union has its own table type and its own name. *)
Lemma EnumNameMsg_spec T : EnumValuesMsg !! Z.to_nat (MsgTraits T) = Some (MsgTraits T) ∧
  EnumNameMsg (MsgTraits T) = of_option (mjoin (EnumNamesMsg !! Z.to_nat (MsgTraits T))) NullDeref.
Proof. by destruct T. Qed.

Lemma EnumNameMsg_total e : is_ok (EnumNameMsg e) = true.
Proof.
  unfold EnumNameMsg, IsOutRange. destruct (Z.ltb_spec e 0), (Z.ltb_spec 9 e); cbn [orb]; try done.
  assert (e = 0 ∨ e = 1 ∨ e = 2 ∨ e = 3 ∨ e = 4 ∨ e = 5 ∨ e = 6 ∨ e = 7 ∨ e = 8 ∨ e = 9) as Hc by lia.
  by destruct_or? Hc; subst e.
Qed.

(** Reading a root is a cast to the type its tag names: what [read_RootMsg]
    gives is what the cast gives, and the other casts are null. *)
Lemma read_RootMsg_cast T m t p :
  any_as T m t = Ok (Some p) → read_RootMsg m t = read_as T m p.
Proof.
  intros [Hty Hany]%any_as_spec. unfold read_RootMsg. rewrite Hty, Hany. cbn [rbind]. by destruct T.
Qed.

Lemma any_as_other T T' m t p : any_as T m t = Ok (Some p) → T' ≠ T → any_as T' m t = Ok None.
Proof.
  intros [Hty Hany]%any_as_spec Hne. assert (any_as T' m t = any_if (MsgTraits T') m t) as -> by by destruct T'.
  unfold any_if. rewrite Hty. cbn [rbind]. by destruct T, T'.
Qed.

(** ** Finishing *)

Lemma FinishFull_plain root b : FinishFull root None false b = Finish root b.
Proof.
  unfold FinishFull, Finish. destruct (NotNested b); cbn [rbind]; [|done].
  destruct (PreAlign _ _ _) as [b1|]; cbn [rbind]; [|done]. by destruct (PushOffset root b1) as [[? ?]|].
Qed.

(** Identifiers that the library accepts. *)
Definition ident_ok (i : option string) : Prop :=
  match i with Some s => c_string s = s ∧ strlen s = kFileIdentifierLength | None => True end.
Definition ident_bytes (i : option string) : list byte :=
  match i with Some s => String.list_byte_of_string s | None => [] end.

Lemma ident_length i : ident_ok i → len (ident_bytes i) = match i with Some _ => kFileIdentifierLength | None => 0 end.
Proof. destruct i as [s|]; cbn; [|done]. intros [_ H]. by rewrite list_byte_length. Qed.

(** The header up to the identifier. *)
Lemma header_ok i k b :
  align_ok (minalign_ b) → ident_ok i → 0 ≤ GetSize b → GetSize b + 12 < FLATBUFFERS_MAX_BUFFER_SIZE →
  ∃ b' p,
    (let? b := PreAlign (k + match i with Some _ => kFileIdentifierLength | None => 0 end) (minalign_ b) b in
     match i with
     | Some s => if negb (strlen (c_string s) =? kFileIdentifierLength) then Err AssertFail
                 else PushBytes (String.list_byte_of_string (c_string s)) b
     | None => Ok b
     end) = Ok b' ∧ grown b b' (ident_bytes i ++ p) ∧ len p < 8 ∧ (GetSize b' + k) mod minalign_ b = 0.
Proof.
  intros Ha Hi H0 Hs. unfold FLATBUFFERS_MAX_BUFFER_SIZE in Hs. pose proof (ident_length i Hi) as Hl. unfold kFileIdentifierLength in *.
  destruct (PreAlign_ok (k + match i with Some _ => 4 | None => 0 end) (minalign_ b) b Ha)
    as (b1 & p & -> & Hg1 & Hp & Hm); [unfold FLATBUFFERS_MAX_BUFFER_SIZE; lia|]. cbn [rbind].
  pose proof (grown_size _ _ _ Hg1). assert (len p < 8) by (unfold align_ok in Ha; lia).
  destruct i as [s|]; cbn [ident_bytes] in *; cycle 1.
  { exists b1, p. rewrite Z.add_0_r in Hm. done. }
  destruct Hi as [Hc Hsl]. rewrite Hc, Hsl. cbn [negb Z.eqb Pos.eqb].
  destruct (PushBytes_ok (String.list_byte_of_string s) b1) as (b2 & Hpush & Hg2);
    [unfold FLATBUFFERS_MAX_BUFFER_SIZE; lia|].
  exists b2, p. split; [exact Hpush|]. split; [by eapply grown_trans|]. split; [done|].
  rewrite (grown_size _ _ _ Hg2), Hl. rewrite <- Hm. f_equal. lia.
Qed.

Lemma region_ReadScalar_front n v q : ReadScalar n (le_split n v ++ q) 0 = Ok (v mod 2 ^ (8 * Z.of_nat n)).
Proof.
  replace 0 with (len (le_split n v ++ q) - len (le_split n v ++ q)) at 1 by lia.
  apply region_read, region_front.
Qed.

Lemma FinishFull_ok root i prefix b :
  wf b → ident_ok i → 0 < root ≤ GetSize b → GetSize b + 30 < FLATBUFFERS_MAX_BUFFER_SIZE →
  let k := if prefix : bool then 4 else 0 in
  ∃ b' p, FinishFull root i prefix b = Ok b' ∧ finished b' = true ∧ buf_ b' = p ++ buf_ b ∧ len p ≤ 23 ∧
    ReadScalar 4 (buf_ b') k = Ok (len (buf_ b') - k - root) ∧
    (prefix = true → ReadScalar 4 (buf_ b') 0 = Ok (len (buf_ b') - 4)) ∧
    (4 ≤ minalign_ b → ∃ q, buf_ b' = take (Z.to_nat (k + 4)) (buf_ b') ++ ident_bytes i ++ q).
Proof.
  intros Hwf Hi Hr Hs k. unfold FinishFull. rewrite NotNested_wf by done. cbn [rbind].
  unfold FLATBUFFERS_MAX_BUFFER_SIZE in Hs. set (b0 := set_vtables [] b).
  change (GetSize b) with (GetSize b0) in *. change (minalign_ b) with (minalign_ b0) in *. change (buf_ b) with (buf_ b0).
  pose proof (wf_minalign _ Hwf) as Hma. change (minalign_ b) with (minalign_ b0) in Hma.
  destruct (header_ok i (k + 4) b0 Hma Hi) as (b1 & p1 & Hh & Hg1 & Hp1 & Hal); [lia|unfold FLATBUFFERS_MAX_BUFFER_SIZE; lia|].
  fold k. destruct (PreAlign _ _ b0) as [b01|]; cbn [rbind] in *; [|done]. rewrite Hh. cbn [rbind].
  pose proof (grown_size _ _ _ Hg1) as Hz1. rewrite length_app in Hz1. pose proof (ident_length i Hi) as Hil.
  assert (len (ident_bytes i) ≤ 4) by (rewrite Hil; destruct i; unfold kFileIdentifierLength; lia).
  destruct (PushOffset_ok root b1) as (b2 & p2 & u & -> & Hg2 & Hp2 & Hu & Hoff & Hnil & Ha2);
    [unfold FLATBUFFERS_MAX_BUFFER_SIZE; lia|lia|]. cbn [rbind].
  pose proof (grown_size _ _ _ Hg2) as Hz2. rewrite length_app, length_le_split in Hz2.
  pose proof (grown_trans _ _ _ _ _ Hg1 Hg2) as [Hb2 _].
  assert (4 ≤ minalign_ b0 → p2 = []) as Hp2nil.
  { intros H4. apply Hnil. assert (k = 0 ∨ k = 4) as Hk by (unfold k; destruct prefix; lia).
    unfold align_ok in Hma. destruct Hma as [Hma|[Hma|[Hma|Hma]]]; rewrite Hma in Hal; try lia; Z.div_mod_to_equations; lia. }
  destruct prefix; cbn [rbind].
  - destruct (PushElement_ok 4 (GetSize b2) b2) as (b3 & p3 & -> & Hg3 & _ & Hnil3 & _);
      [unfold align_ok; lia|unfold FLATBUFFERS_MAX_BUFFER_SIZE; lia|]. rewrite (Hnil3 Ha2), app_nil_r in Hg3. cbn [rbind].
    destruct Hg3 as [Hb3 _]. pose proof (f_equal length Hb3) as Hl3. rewrite length_app, length_le_split in Hl3.
    eexists (set_finished true b3), _. cbn [finished set_finished buf_].
    split; [done|]. split; [done|]. split; [by rewrite Hb3, Hb2, app_assoc|]. split; [rewrite !length_app, !length_le_split; lia|].
    unfold GetSize in *. split_and!.
    + rewrite Hb3 at 1. unfold ReadScalar. rewrite load_app_ge by (rewrite length_le_split; unfold k; lia). rewrite length_le_split.
      replace (k - Z.of_nat 4) with 0 by (unfold k; lia). fold (ReadScalar 4 (buf_ b2) 0).
      rewrite Hb2, <- !app_assoc. rewrite region_ReadScalar_front, Z.mod_small by (cbn; lia). f_equal. unfold k. lia.
    + intros _. rewrite Hb3 at 1. rewrite region_ReadScalar_front, Z.mod_small by (cbn; lia). f_equal. lia.
    + intros H4. rewrite (Hp2nil H4), app_nil_r in Hb2. exists (p1 ++ buf_ b0).
      rewrite Hb3, Hb2, <- !app_assoc. unfold k. rewrite (app_assoc (le_split 4 _) (le_split 4 u)).
      rewrite take_app_length' by (rewrite length_app, !length_le_split; lia). done.
  - eexists (set_finished true b2), _. cbn [finished set_finished buf_].
    split; [done|]. split; [done|]. split; [done|]. split; [rewrite !length_app, !length_le_split; lia|].
    unfold GetSize in *. split_and!; [|done|].
    + unfold k. rewrite Hb2 at 1. rewrite <- !app_assoc, region_ReadScalar_front, Z.mod_small by (cbn; lia). f_equal. lia.
    + intros H4. rewrite (Hp2nil H4), app_nil_r in Hb2. exists (p1 ++ buf_ b0).
      rewrite Hb2, <- !app_assoc. unfold k. rewrite take_app_length' by (rewrite !length_le_split; lia). done.
Qed.

(** ** Streams of messages *)

(** A message with its prefix: the prefix counts the bytes that follow it, and
    the message is read back. *)
Lemma serialize_prefixed_ok r :
  RootMsg_valid r → RootMsg_size r + 200 < FLATBUFFERS_MAX_BUFFER_SIZE →
  ∃ m, serialize_prefixed r = Ok m ∧ deserialize_prefixed m = Ok r ∧ ReadScalar 4 m 0 = Ok (len m - 4) ∧ 4 ≤ len m.
Proof.
  intros Hv Hs. destruct (puts_root r FlatBufferBuilder_new Hv builder_wf_new)
    as (root & b & Hw & Hwf & He & Hin & Hsz & HR).
  { unfold table_bound, FlatBufferBuilder_new, GetSize in *. cbn. lia. }
  destruct (HR []) as [Hroot _]. unfold in_buf in Hin. unfold table_bound, GetSize in Hsz. cbn in Hsz.
  destruct (FinishFull_ok root None true b Hwf I) as (b' & p & Hfin & Hf & Hb & Hp & Hrd & Hpre & _); [lia|unfold GetSize in *; lia|].
  specialize (Hpre eq_refl). exists (buf_ b'). split_and!.
  - unfold serialize_prefixed. destruct (write_any r FlatBufferBuilder_new) as [[any b1]|]; [|done]. cbn [rbind] in *.
    rewrite Hw. cbn [rbind]. unfold FinishSizePrefixedRootMsgBuffer, FinishSizePrefixed. rewrite Hfin. cbn [rbind].
    unfold GetBufferPointer. by rewrite Hf.
  - unfold deserialize_prefixed, GetSizePrefixedRootMsg, GetSizePrefixedRoot. rewrite Hrd. cbn [rbind].
    replace (4 + (len (buf_ b') - 4 - root)) with (len (buf_ b') - root) by lia. rewrite Hb. by destruct (HR p).
  - done.
  - unfold ReadScalar, load in Hpre. destruct (Z.leb_spec (0 + Z.of_nat 4) (len (buf_ b'))); [lia|]. by rewrite andb_false_r in Hpre.
Qed.

(** The first message of a stream. *)
Lemma cut_stream_step fuel m s :
  ReadScalar 4 m 0 = Ok (len m - 4) → 4 ≤ len m →
  cut_stream (S fuel) (m ++ s) = let? ms := cut_stream fuel s in Ok (m :: ms).
Proof.
  intros Hn Hl. destruct (m ++ s) as [|c w] eqn:E.
  { apply app_nil in E as [-> ->]. cbn in Hl. lia. }
  cbn [cut_stream]. rewrite <- E. rewrite (ReadScalar_app_l 4 m s) by lia. rewrite Hn. cbn [rbind].
  rewrite load_ok by (rewrite ?length_app; lia). cbn [rbind]. rewrite drop_0, take_app_le, take_ge by lia.
  rewrite drop_app_length. done.
Qed.

(** (C38) Streams: messages (below the 2 GB limit) finished with a size prefix can be sent one after
    the other over one connection.  Whatever the messages, each is serialised,
    the concatenation is cut at the prefixes into exactly the buffers that
    were sent, and reading these gives the messages in order. *)
Theorem net_stream_roundtrip rs :
  Forall (λ r, RootMsg_valid r ∧ RootMsg_size r + 200 < FLATBUFFERS_MAX_BUFFER_SIZE) rs →
  ∃ ms, map_result serialize_prefixed rs = Ok ms ∧ cut_stream (length rs) (concat ms) = Ok ms ∧
    map_result deserialize_prefixed ms = Ok rs.
Proof.
  induction 1 as [|r rs [Hv Hs] _ (ms & IH1 & IH2 & IH3)]; [by exists []|].
  destruct (serialize_prefixed_ok r Hv Hs) as (m & H1 & H2 & H3 & H4). exists (m :: ms).
  cbn [map_result concat length]. rewrite H1, H2. cbn [rbind]. rewrite IH1, IH3. split; [done|]. split; [|done].
  rewrite cut_stream_step by done. by rewrite IH2.
Qed.

(** ** Verified prefixed buffers *)

Lemma runs_VerifyBufferFromStart {A} m ver (dec : list byte → Z → result A) start :
  0 ≤ start → guards m ver dec →
  runs (VerifyBufferFromStart ver m None start) (∃ o, ReadScalar 4 m start = Ok o ∧ is_ok (dec m (start + o)) = true).
Proof.
  intros H0 Hg V HV. unfold VerifyBufferFromStart, VerifyOffset. cbn [rbind].
  destruct (VerifyT m 4 start V) eqn:E4; cbn [negb rbind]; [|by exists false, V]. apply VerifyT_range in E4 as [_ E4].
  destruct (ReadScalar_total 4 m start) as (o & -> & Ho); [lia..|]. cbn [rbind].
  destruct (Z.eqb_spec o 0); cbn [rbind]; [by exists false, V|].
  destruct (wrap_s 32 o <? 0); cbn [rbind]; [by exists false, V|].
  destruct (Verify m (start + o) 1); cbn [negb rbind]; [|by exists false, V].
  destruct (Z.eqb_spec o 0); [done|]. destruct (Hg (start + o) ltac:(lia) V HV) as (ok & V' & -> & HV' & Hok).
  exists ok, V'. naive_solver.
Qed.

(** Untrusted prefixed bytes: the verifier answers without leaving the
    buffer, and accepts only buffers whose prefix is right and whose message
    is read inside them. *)
Theorem net_prefixed_verify_safe m :
  len m < FLATBUFFERS_MAX_BUFFER_SIZE →
  ∃ ok V, (let? V := Verifier_new m in VerifySizePrefixedRootMsgBuffer m V) = Ok (ok, V) ∧
    (ok = true → ReadScalar 4 m 0 = Ok (len m - 4) ∧ contained (deserialize_prefixed m) = true).
Proof.
  intros Hm. unfold Verifier_new. destruct (Z.ltb_spec (len m) FLATBUFFERS_MAX_BUFFER_SIZE); [|lia]. cbn [rbind].
  set (V0 := mkVerifier 0 64 0 1000000 true). unfold VerifySizePrefixedRootMsgBuffer, VerifySizePrefixedBuffer.
  destruct (VerifyT m 4 0 V0) eqn:E4; cbn [negb]; [|by exists false, V0]. apply VerifyT_range in E4 as [_ E4].
  destruct (ReadScalar_total 4 m 0) as (n & -> & _); [lia..|]. cbn [rbind].
  destruct (Z.eqb_spec n (len m - 4)) as [->|]; cbn [negb]; [|by exists false, V0].
  destruct (runs_VerifyBufferFromStart m RootMsg_Verify _ 4 ltac:(lia) (RootMsg_guards m Hm) V0 eq_refl) as (ok & V & HV & _ & Hok).
  exists ok, V. split; [exact HV|]. intros ->. split; [done|]. destruct (Hok eq_refl) as (o & Hroot & Hc).
  unfold deserialize_prefixed, GetSizePrefixedRootMsg, GetSizePrefixedRoot. rewrite Hroot. cbn [rbind].
  by destruct (contained (read_RootMsg m (4 + o))).
Qed.

(** With an identifier the verifier checks for eight bytes only, and then
    compares the bytes from the eighth on: a prefixed buffer of eight bytes
    makes it read past the end.  The program passes no identifier. *)
Theorem net_identifier_overreads :
  (let? V := Verifier_new (le_split 4 4 ++ le_split 4 0) in
   VerifySizePrefixedBuffer RootMsg_Verify (le_split 4 4 ++ le_split 4 0) (Some "NETM"%string) V) = Err OutOfBounds.
Proof. vm_compute. reflexivity. Qed.

(** ** Vectors of unions *)

(** One element: the tags without a table are accepted unread. *)
Lemma runs_VerifyMsg m a ty :
  len m < FLATBUFFERS_MAX_BUFFER_SIZE → 0 ≤ a < len m →
  runs (VerifyMsg m (Some a) ty) (∀ T, ty = MsgTraits T → contained (read_as T m a) = true).
Proof.
  intros Hm Ha. assert (∀ x : Z, Some a = Some x → 0 ≤ x < len m) as Hobj by naive_solver.
  assert ((∃ T, ty = MsgTraits T) ∨ (∀ V, VerifyMsg m (Some a) ty V = Ok (true, V) ∧ ∀ T, ty ≠ MsgTraits T)) as [[T ->]|Hno].
  { unfold VerifyMsg. repeat match goal with |- context [?t =? ?n] => destruct (Z.eqb_spec t n) as [->|] end.
    2: by left; exists TGtmMsg. 2: by left; exists TAppMsg. 2: by left; exists TDbServiceMsg. 2: by left; exists TDbtlMsg.
    2: by left; exists TDbtlAckMsg. 2: by left; exists TESMsg. 2: by left; exists TDbtmMsg. 2: by left; exists TDbMsg.
    2: by left; exists TLogPlayerMsg. all: right; intros V; split; [done|by intros []]. }
  - assert (runs (VerifyMsg m (Some a) (MsgTraits T)) (contained (read_as T m a) = true)) as Hr.
    { destruct T; apply (runs_payload m); eauto 2 using GtmMsg_guards, AppMsg_guards, DbServiceMsg_guards, DbtlMsg_guards,
        DbtlAckMsg_guards, ESMsg_guards, DbtmMsg_guards, DbMsg_guards, LogPlayerMsg_guards. }
    eapply runs_weaken; [exact Hr|].
    intros Hc T' HT'. destruct T, T'; try done; exact Hc.
  - intros V HV. destruct (Hno V) as [-> HT]. exists true, V. split_and!; [done|done|]. intros _ T HT'. by destruct (HT T).
Qed.

(** Two vectors of the same length whose elements can be fetched: the check
    comes back, and its success covers every element. *)
Lemma runs_VerifyMsgVector m v ts k :
  len m < FLATBUFFERS_MAX_BUFFER_SIZE → 0 ≤ k →
  Vector_size m v = Ok k → (∀ i, 0 ≤ i < k → ∃ a, Vector_Get m v i = Ok a ∧ 0 ≤ a < len m) →
  Vector_size m ts = Ok k → (∀ i, 0 ≤ i < k → ∃ ty, Vector_GetEnum m ts i = Ok ty) →
  runs (VerifyMsgVector m (Some v) (Some ts))
    (∀ i T a, 0 ≤ i < k → Vector_Get m v i = Ok a → Vector_GetEnum m ts i = Ok (MsgTraits T) → contained (read_as T m a) = true).
Proof.
  intros Hm Hk Hnv Hget Hnt Hty V HV. unfold VerifyMsgVector. rewrite Hnv, Hnt. cbn [rbind].
  rewrite Z.eqb_refl. cbn [negb].
  assert (∀ n i V, 0 ≤ i → i + Z.of_nat n ≤ k → check_alignment_ V = true → ∃ ok V', verify_msgs m v ts i n V = Ok (ok, V') ∧
    check_alignment_ V' = true ∧ (ok = true → ∀ j T a, i ≤ j < i + Z.of_nat n → Vector_Get m v j = Ok a →
      Vector_GetEnum m ts j = Ok (MsgTraits T) → contained (read_as T m a) = true)) as Hloop.
  { intros n. induction n as [|n IH]; intros i V0 Hi Hn HV0; cbn [verify_msgs]; [exists true, V0; split_and!; [done|done|lia]|].
    destruct (Hget i) as (a & Ha & Har); [lia|]. destruct (Hty i) as (ty & Hity); [lia|]. rewrite Ha, Hity. cbn [rbind].
    destruct (runs_VerifyMsg m a ty Hm Har V0 HV0) as (ok & V1 & -> & HV1 & Hok). cbn [rbind].
    destruct ok; [|by exists false, V1]. specialize (Hok eq_refl).
    destruct (IH (i + 1) V1) as (ok & V2 & -> & HV2 & Hok2); [lia..|done|].
    exists ok, V2. split; [done|]. split; [done|]. intros -> j T a' Hj Ha' HT.
    destruct (decide (j = i)) as [->|]; [assert (a' = a) as -> by congruence; apply Hok; congruence|]. apply (Hok2 eq_refl j); [lia|done|done]. }
  destruct (Hloop (Z.to_nat k) 0 V) as (ok & V' & -> & HV' & Hok); [lia..|done|].
  exists ok, V'. split; [done|]. split; [done|]. intros -> i T a Hi. apply (Hok eq_refl). lia.
Qed.

(** ** Witness *)

Definition demo_stream : list RootMsg := [demo_msg; Msg_DbtlAckMsg (mkDbtlAckMsg 3 7); Msg_NONE].

Lemma net_stream_roundtrip_witness :
  ∃ ms, map_result serialize_prefixed demo_stream = Ok ms ∧ cut_stream 3 (concat ms) = Ok ms ∧
    map_result deserialize_prefixed ms = Ok demo_stream.
Proof.
  apply (net_stream_roundtrip demo_stream).
  repeat apply Forall_cons_2; [| | |apply Forall_nil_2]; (split; [|vm_compute; reflexivity]);
    cbn; unfold int32_ok; repeat constructor; vm_compute; congruence.
Defined.
