(* ===== verification/NetBuffer.v ===== *)
(** * The receive buffer (src/third_part/include/muduo/net/Buffer.h, Endian.h)

    The buffer every handler is called with: a vector with a reader and a
    writer index.  The abstraction is the sequence of readable bytes; the
    operations refine those of a byte queue.  A length that a caller gives is a
    [size_t] and its sums wrap; [vector::resize] throws beyond its [max_size]
    (running out of memory before that is not modelled).  The last part
    connects the buffer to the message format: what a handler that takes
    [retrieveAllAsString()] as one message sees. *)

From Stdlib Require Import ZArith Lia.
From coqutil Require Import Byte Word.LittleEndianList.
From stdpp Require Import base gmap strings list.
From S2P Require Import Prelude NetMsg FlatBuilder FlatTable NetGenerated.

Module Buffer.

Definition kCheapPrepend : nat := 8.
Definition kInitialSize : nat := 1024.

Record Buffer := mkBuffer { buffer_ : list byte; readerIndex_ : nat; writerIndex_ : nat }.

(** [Buffer(size_t initialSize)] *)
Definition Buffer_new (initialSize : nat) : Buffer :=
  mkBuffer (replicate (kCheapPrepend + initialSize) Byte.x00) kCheapPrepend kCheapPrepend.

Definition readableBytes (b : Buffer) : nat := writerIndex_ b - readerIndex_ b.
Definition writableBytes (b : Buffer) : nat := length (buffer_ b) - writerIndex_ b.
Definition prependableBytes (b : Buffer) : nat := readerIndex_ b.

(** [peek()] with [n] bytes behind it *)
Definition peek (n : nat) (b : Buffer) : list byte := take n (drop (readerIndex_ b) (buffer_ b)).

(** [std::copy] of [d] to offset [a] of the vector *)
Definition copy_at (a : nat) (d : list byte) (l : list byte) : list byte :=
  take a l ++ d ++ drop (a + length d) l.

Definition assert_ (c : bool) : result unit := if c then Ok tt else Err AssertFail.

Definition retrieveAll (b : Buffer) : Buffer := mkBuffer (buffer_ b) kCheapPrepend kCheapPrepend.

Definition retrieve (n : nat) (b : Buffer) : result Buffer :=
  let? _ := assert_ (n <=? readableBytes b)%nat in
  if (n <? readableBytes b)%nat
  then Ok (mkBuffer (buffer_ b) (readerIndex_ b + n) (writerIndex_ b))
  else Ok (retrieveAll b).

Definition retrieveAsString (n : nat) (b : Buffer) : result (list byte * Buffer) :=
  let? _ := assert_ (n <=? readableBytes b)%nat in
  let r := peek n b in
  let? b := retrieve n b in Ok (r, b).

Definition retrieveAllAsString (b : Buffer) : result (list byte * Buffer) :=
  retrieveAsString (readableBytes b) b.

(** [vector<char>::resize], with zeros for the new elements; beyond
    [max_size()] it throws. *)
Definition max_size : Z := 2 ^ 63 - 1.
Definition resize (n : Z) (l : list byte) : result (list byte) :=
  if max_size <? n then Err (Throw LengthError)
  else Ok (take (Z.to_nat n) l ++ replicate (Z.to_nat n - length l) Byte.x00).

(** [n] is a [size_t]: the two sums with it wrap. *)
Definition makeSpace (n : Z) (b : Buffer) : result Buffer :=
  if Z.of_nat (writableBytes b + prependableBytes b) <? uint64 (n + Z.of_nat kCheapPrepend)
  then
    let? v := resize (uint64 (Z.of_nat (writerIndex_ b) + n)) (buffer_ b) in
    Ok (mkBuffer v (readerIndex_ b) (writerIndex_ b))
  else
    let? _ := assert_ (kCheapPrepend <? readerIndex_ b)%nat in
    let readable := readableBytes b in
    let b' := mkBuffer (copy_at kCheapPrepend (peek readable b) (buffer_ b))
                kCheapPrepend (kCheapPrepend + readable) in
    let? _ := assert_ (readable =? readableBytes b')%nat in Ok b'.

Definition ensureWritableBytes (n : Z) (b : Buffer) : result Buffer :=
  let? b := (if Z.of_nat (writableBytes b) <? n then makeSpace n b else Ok b) in
  let? _ := assert_ (n <=? Z.of_nat (writableBytes b)) in Ok b.

Definition hasWritten (n : nat) (b : Buffer) : result Buffer :=
  let? _ := assert_ (n <=? writableBytes b)%nat in
  Ok (mkBuffer (buffer_ b) (readerIndex_ b) (writerIndex_ b + n)).

(** [append(data, len)], with what lies behind [data] in memory *)
Definition append_from (data : list byte) (n : Z) (b : Buffer) : result Buffer :=
  let? b := ensureWritableBytes n b in
  if Z.of_nat (length data) <? n then Err OutOfBounds else
  let d := take (Z.to_nat n) data in
  hasWritten (length d) (mkBuffer (copy_at (writerIndex_ b) d (buffer_ b)) (readerIndex_ b) (writerIndex_ b)).

(** ... of the bytes of an object *)
Definition append (d : list byte) (b : Buffer) : result Buffer := append_from d (Z.of_nat (length d)) b.

Definition unwrite (n : nat) (b : Buffer) : result Buffer :=
  let? _ := assert_ (n <=? readableBytes b)%nat in
  Ok (mkBuffer (buffer_ b) (readerIndex_ b) (writerIndex_ b - n)).

Definition prepend (d : list byte) (b : Buffer) : result Buffer :=
  let? _ := assert_ (length d <=? prependableBytes b)%nat in
  let r := (readerIndex_ b - length d)%nat in
  Ok (mkBuffer (copy_at r d (buffer_ b)) r (writerIndex_ b)).

(** [toStringPiece()]: its length is an [int]. *)
Definition toStringPiece (b : Buffer) : list byte * Z :=
  (drop (readerIndex_ b) (buffer_ b), int32 (Z.of_nat (readableBytes b))).

(** [shrink(reserve)]: the length of the piece comes back as a [size_t]. *)
Definition shrink (reserve : Z) (b : Buffer) : result Buffer :=
  let? other := ensureWritableBytes (uint64 (Z.of_nat (readableBytes b) + reserve)) (Buffer_new kInitialSize) in
  let (data, size) := toStringPiece b in
  append_from data (uint64 size) other.

(** ** Integers in network order: Endian.h *)

(** [htobe] and [betoh] on [n] bytes of a little-endian host: the bytes are
    swapped. *)
Definition hostToNetwork (n : nat) (x : Z) : Z := le_combine (rev (le_split n x)).
Definition networkToHost (n : nat) (x : Z) : Z := le_combine (rev (le_split n x)).

(** [appendInt8/16/32/64], [n] the number of bytes *)
Definition appendInt (n : nat) (x : Z) (b : Buffer) : result Buffer := append (le_split n (hostToNetwork n x)) b.

(** [peekInt8/16/32/64] *)
Definition peekInt (n : nat) (b : Buffer) : result Z :=
  let? _ := assert_ (n <=? readableBytes b)%nat in
  Ok (wrap_s (8 * Z.of_nat n) (networkToHost n (le_combine (peek n b)))).

(** [readInt8/16/32/64] *)
Definition readInt (n : nat) (b : Buffer) : result (Z * Buffer) :=
  let? x := peekInt n b in
  let? b := retrieve n b in Ok (x, b).

(** [prependInt8/16/32/64] *)
Definition prependInt (n : nat) (x : Z) (b : Buffer) : result Buffer := prepend (le_split n (hostToNetwork n x)) b.

(** ** Abstraction and invariant *)

Definition content (b : Buffer) : list byte := peek (readableBytes b) b.

Definition wf_buffer (b : Buffer) : Prop :=
  (readerIndex_ b ≤ writerIndex_ b ≤ length (buffer_ b))%nat.

(** ** A byte queue, and the buffer as one *)

Inductive op :=
| Append (d : list byte)
| Retrieve (n : nat)
| RetrieveAll
| Unwrite (n : nat)
| Shrink (reserve : Z).

(** Lengths up to which the vector stays far from [max_size]. *)
Definition memory : Z := 2 ^ 60.

(** What the operation means on the readable bytes.  The queue is short of
    memory beyond 2^60 bytes, and it shrinks below 2 GB only. *)
Definition spec_op (o : op) (s : list byte) : option (list byte) :=
  match o with
  | Append d => if decide (Z.of_nat (length s + length d) < memory) then Some (s ++ d) else None
  | Retrieve n => if decide (n ≤ length s)%nat then Some (drop n s) else None
  | RetrieveAll => Some []
  | Unwrite n => if decide (n ≤ length s)%nat then Some (take (length s - n) s) else None
  | Shrink reserve => if decide (Z.of_nat (length s) < 2 ^ 31 ∧ 0 ≤ reserve < memory) then Some s else None
  end.

Definition run_op (o : op) (b : Buffer) : result Buffer :=
  match o with
  | Append d => append d b
  | Retrieve n => retrieve n b
  | RetrieveAll => Ok (retrieveAll b)
  | Unwrite n => unwrite n b
  | Shrink r => shrink r b
  end.

Fixpoint spec_ops (os : list op) (s : list byte) : option (list byte) :=
  match os with [] => Some s | o :: os' => match spec_op o s with Some s' => spec_ops os' s' | None => None end end.

Fixpoint run_ops (os : list op) (b : Buffer) : result Buffer :=
  match os with [] => Ok b | o :: os' => let? b' := run_op o b in run_ops os' b' end.

(** ** Lemmas *)

Lemma content_length b : wf_buffer b → length (content b) = readableBytes b.
Proof. intros H. unfold content, peek, readableBytes, wf_buffer in *. rewrite length_take, length_drop. lia. Qed.

(** The three parts of a well-formed buffer. *)
Lemma buffer_split b :
  wf_buffer b → buffer_ b = take (readerIndex_ b) (buffer_ b) ++ content b ++ drop (writerIndex_ b) (buffer_ b).
Proof.
  intros H. unfold content, peek, readableBytes, wf_buffer in *.
  replace (drop (writerIndex_ b) (buffer_ b))
    with (drop (writerIndex_ b - readerIndex_ b) (drop (readerIndex_ b) (buffer_ b)))
    by (rewrite drop_drop; f_equal; lia).
  by rewrite !take_drop.
Qed.

Lemma content_intro p s q r w :
  r = length p → w = (length p + length s)%nat → content (mkBuffer (p ++ s ++ q) r w) = s ∧ wf_buffer (mkBuffer (p ++ s ++ q) r w).
Proof.
  intros -> ->. unfold content, peek, readableBytes, wf_buffer. cbn. rewrite drop_app_length, !length_app. split; [|lia].
  replace (length p + length s - length p)%nat with (length s) by lia. by rewrite take_app_length.
Qed.

Lemma copy_at_app p old q d : length old = length d → copy_at (length p) d (p ++ old ++ q) = p ++ d ++ q.
Proof.
  intros Hl. unfold copy_at. rewrite take_app_length, <- drop_drop, drop_app_length.
  by rewrite <- Hl, drop_app_length.
Qed.

(** Splits a conjunction, but no predicate that is one. *)
Ltac conjuncts := lazymatch goal with |- _ ∧ _ => split; [|conjuncts] | _ => idtac end.

(** Room for [n] more bytes below the largest vector. *)
Definition roomy (b : Buffer) (n : nat) : Prop := Z.of_nat (length (buffer_ b) + n) + 8 ≤ max_size.

(** The vector is reallocated. *)
Lemma makeSpace_grow n b :
  wf_buffer b → roomy b n → (writableBytes b < n)%nat → (length (buffer_ b) < readableBytes b + n + 8)%nat →
  ∃ b', makeSpace (Z.of_nat n) b = Ok b' ∧ wf_buffer b' ∧ content b' = content b ∧
    length (buffer_ b') = (writerIndex_ b + n)%nat ∧ writerIndex_ b' = writerIndex_ b.
Proof.
  intros Hwf Hroom Hlt Hlen. pose proof (content_length b Hwf) as Hcl. pose proof Hwf as Hb. unfold wf_buffer, roomy, max_size, writableBytes, readableBytes in *.
  unfold makeSpace, writableBytes, prependableBytes, kCheapPrepend. rewrite wrap_u_small by lia.
  destruct (Z.ltb_spec (Z.of_nat (length (buffer_ b) - writerIndex_ b + readerIndex_ b)) (Z.of_nat n + Z.of_nat 8)) as [_|]; [|lia].
  rewrite wrap_u_small by lia. unfold resize, max_size. destruct (Z.ltb_spec (2 ^ 63 - 1) (Z.of_nat (writerIndex_ b) + Z.of_nat n)) as [|_]; [lia|]. cbn [rbind].
  rewrite <- Nat2Z.inj_add, Nat2Z.id. rewrite take_ge by lia.
  assert (buffer_ b ++ replicate (writerIndex_ b + n - length (buffer_ b)) Byte.x00 = take (readerIndex_ b) (buffer_ b) ++ content b ++
    (drop (writerIndex_ b) (buffer_ b) ++ replicate (writerIndex_ b + n - length (buffer_ b)) Byte.x00)) as Hres.
  { rewrite (buffer_split b) at 1 by done. by rewrite <- !app_assoc. }
  rewrite Hres. destruct (content_intro (take (readerIndex_ b) (buffer_ b)) (content b)
    (drop (writerIndex_ b) (buffer_ b) ++ replicate (writerIndex_ b + n - length (buffer_ b)) Byte.x00) (readerIndex_ b) (writerIndex_ b)) as [Hc Hw].
  { rewrite length_take. lia. }
  { rewrite length_take, Hcl. lia. }
  eexists. split; [done|]. conjuncts; [exact Hw|exact Hc| |done]. cbn. rewrite <- Hres, length_app, length_replicate. lia.
Qed.

(** The readable bytes are moved to the front. *)
Lemma makeSpace_move n b :
  wf_buffer b → roomy b n → (writableBytes b < n)%nat → (readableBytes b + n + 8 ≤ length (buffer_ b))%nat →
  ∃ b', makeSpace (Z.of_nat n) b = Ok b' ∧ wf_buffer b' ∧ content b' = content b ∧
    length (buffer_ b') = length (buffer_ b) ∧ writerIndex_ b' = (8 + readableBytes b)%nat.
Proof.
  intros Hwf Hroom Hlt Hlen. pose proof (content_length b Hwf) as Hcl. unfold wf_buffer, roomy, max_size, writableBytes in *.
  unfold makeSpace, writableBytes, prependableBytes, kCheapPrepend. rewrite wrap_u_small by lia.
  destruct (Z.ltb_spec (Z.of_nat (length (buffer_ b) - writerIndex_ b + readerIndex_ b)) (Z.of_nat n + Z.of_nat 8)) as [|_]; [unfold readableBytes in *; lia|].
  destruct (Nat.ltb_spec 8 (readerIndex_ b)); [|unfold readableBytes in Hlen; lia]. cbn [assert_ rbind].
  fold (content b). set (s := content b) in *.
  assert (∃ p old q, buffer_ b = p ++ old ++ q ∧ length p = 8%nat ∧ length old = length s) as (p & old & q & Hb & Hp & Ho).
  { exists (take 8 (buffer_ b)), (take (length s) (drop 8 (buffer_ b))), (drop (length s) (drop 8 (buffer_ b))).
    rewrite !take_drop, !length_take, length_drop. split; [done|]. rewrite Hcl. unfold readableBytes. lia. }
  rewrite Hb. rewrite <- Hp. rewrite copy_at_app by done. rewrite <- Hcl.
  destruct (content_intro p s q (length p) (length p + length s)) as [Hc Hw]; [done|done|].
  unfold readableBytes at 1. cbn [buffer_ readerIndex_ writerIndex_].
  replace (length p + length s - length p)%nat with (length s) by lia. rewrite Nat.eqb_refl. cbn [assert_ rbind].
  eexists. split; [done|]. conjuncts; [exact Hw|exact Hc| |cbn; lia]. cbn. rewrite !length_app. lia.
Qed.

Lemma ensureWritableBytes_ok n b :
  wf_buffer b → roomy b n →
  ∃ b', ensureWritableBytes (Z.of_nat n) b = Ok b' ∧ wf_buffer b' ∧ content b' = content b ∧ (n ≤ writableBytes b')%nat ∧
    (length (buffer_ b) ≤ length (buffer_ b') ≤ length (buffer_ b) `max` (readableBytes b + 2 * n + 8))%nat.
Proof.
  intros Hwf Hroom. unfold ensureWritableBytes.
  assert (∀ b', (n ≤ writableBytes b')%nat → (let? _ := assert_ (Z.of_nat n <=? Z.of_nat (writableBytes b')) in Ok b') = Ok b') as Hend.
  { intros b' Hn. by destruct (Z.leb_spec (Z.of_nat n) (Z.of_nat (writableBytes b'))); [|lia]. }
  destruct (Z.ltb_spec (Z.of_nat (writableBytes b)) (Z.of_nat n)) as [Hlt|Hge]; cbn [rbind].
  2: { exists b. conjuncts; [apply Hend; lia|done|done|lia|lia|lia]. }
  pose proof Hwf as Hb. unfold wf_buffer in Hb.
  destruct (decide (length (buffer_ b) < readableBytes b + n + 8)%nat) as [Hg|Hm].
  - destruct (makeSpace_grow n b) as (b' & -> & Hw & Hc & Hl & Hwi); [done|done|lia|done|]. cbn [rbind]. exists b'.
    unfold writableBytes, readableBytes in *. conjuncts; [apply Hend; lia|done|done|lia|lia|lia].
  - destruct (makeSpace_move n b) as (b' & -> & Hw & Hc & Hl & Hwi); [done|done|lia|lia|]. cbn [rbind]. exists b'.
    unfold writableBytes, readableBytes in *. conjuncts; [apply Hend; lia|done|done|lia|lia|lia].
Qed.

(** Writing [d] behind the readable bytes, once there is room. *)
Lemma written_ok d b :
  wf_buffer b → (length d ≤ writableBytes b)%nat →
  ∃ b', hasWritten (length d) (mkBuffer (copy_at (writerIndex_ b) d (buffer_ b)) (readerIndex_ b) (writerIndex_ b)) = Ok b' ∧
    wf_buffer b' ∧ content b' = content b ++ d ∧ length (buffer_ b') = length (buffer_ b).
Proof.
  intros Hwf1 Hw1. pose proof (content_length b Hwf1) as Hcl. pose proof (buffer_split b Hwf1) as Hsp. unfold wf_buffer, writableBytes in *.
  set (pre := take (readerIndex_ b) (buffer_ b)) in *. set (post := drop (writerIndex_ b) (buffer_ b)) in *.
  assert (length pre = readerIndex_ b) as Hpre by (unfold pre; rewrite length_take; lia).
  assert (copy_at (writerIndex_ b) d (buffer_ b) = pre ++ (content b ++ d) ++ drop (length d) post) as Hcp.
  { rewrite Hsp at 1. replace (writerIndex_ b) with (length (pre ++ content b))
      by (rewrite length_app, Hcl, Hpre; unfold readableBytes; lia).
    rewrite <- (take_drop (length d) post) at 1. rewrite (app_assoc pre).
    rewrite copy_at_app; [by rewrite <- !app_assoc|]. rewrite length_take. unfold post. rewrite length_drop. lia. }
  unfold hasWritten, writableBytes. cbn [buffer_ readerIndex_ writerIndex_]. rewrite Hcp.
  assert (length (pre ++ (content b ++ d) ++ drop (length d) post) = length (buffer_ b)) as Hlen.
  { rewrite !length_app, length_drop, Hcl, Hpre. unfold post. rewrite length_drop. unfold readableBytes. lia. }
  rewrite Hlen. destruct (Nat.leb_spec (length d) (length (buffer_ b) - writerIndex_ b)); [|lia]. cbn [assert_ rbind].
  destruct (content_intro pre (content b ++ d) (drop (length d) post) (readerIndex_ b) (writerIndex_ b + length d))
    as [Hc Hw]; [| |eexists; split; [done|]; by conjuncts].
  - lia.
  - rewrite length_app, Hcl, Hpre. unfold readableBytes. lia.
Qed.

Lemma append_from_ok data n b :
  wf_buffer b → roomy b n → (n ≤ length data)%nat →
  ∃ b', append_from data (Z.of_nat n) b = Ok b' ∧ wf_buffer b' ∧ content b' = content b ++ take n data ∧
    (length (buffer_ b) ≤ length (buffer_ b') ≤ length (buffer_ b) `max` (readableBytes b + 2 * n + 8))%nat.
Proof.
  intros Hwf Hroom Hn. unfold append_from. destruct (ensureWritableBytes_ok n b Hwf Hroom) as (b1 & -> & Hwf1 & Hc1 & Hw1 & Hl1). cbn [rbind].
  destruct (Z.ltb_spec (Z.of_nat (length data)) (Z.of_nat n)); [lia|]. rewrite Nat2Z.id.
  destruct (written_ok (take n data) b1 Hwf1) as (b2 & -> & Hw2 & Hc2 & Hl2); [rewrite length_take; lia|]. exists b2. by rewrite Hc2, Hc1, Hl2.
Qed.

Lemma append_ok d b :
  wf_buffer b → roomy b (length d) →
  ∃ b', append d b = Ok b' ∧ wf_buffer b' ∧ content b' = content b ++ d ∧
    (length (buffer_ b) ≤ length (buffer_ b') ≤ length (buffer_ b) `max` (readableBytes b + 2 * length d + 8))%nat.
Proof.
  intros Hwf Hroom. destruct (append_from_ok d (length d) b Hwf Hroom) as (b' & H1 & H2 & H3 & H4); [done|]. exists b'.
  by rewrite firstn_all in H3.
Qed.

Lemma retrieve_ok n b :
  wf_buffer b → (n ≤ length (content b))%nat →
  (8 ≤ length (buffer_ b))%nat →
  ∃ b', retrieve n b = Ok b' ∧ wf_buffer b' ∧ content b' = drop n (content b) ∧ buffer_ b' = buffer_ b.
Proof.
  intros Hwf Hn H8. rewrite content_length in Hn by done. unfold retrieve.
  destruct (Nat.leb_spec n (readableBytes b)); [|lia]. cbn [assert_ rbind].
  unfold wf_buffer, readableBytes in *. destruct (Nat.ltb_spec n (writerIndex_ b - readerIndex_ b)).
  - eexists. split; [done|]. cbn. split; [lia|]. split; [|done]. unfold content, peek, readableBytes. cbn.
    rewrite skipn_firstn_comm, drop_drop. f_equal. lia.
  - eexists. split; [done|]. cbn. unfold kCheapPrepend. split; [lia|]. split; [|done].
    unfold content, peek, readableBytes. cbn. rewrite (drop_ge (take _ _)); [done|]. rewrite length_take. lia.
Qed.

Lemma unwrite_ok n b :
  wf_buffer b → (n ≤ length (content b))%nat →
  ∃ b', unwrite n b = Ok b' ∧ wf_buffer b' ∧ content b' = take (length (content b) - n) (content b) ∧ buffer_ b' = buffer_ b.
Proof.
  intros Hwf Hn. rewrite content_length in * by done. unfold unwrite.
  destruct (Nat.leb_spec n (readableBytes b)); [|lia]. cbn [assert_ rbind].
  unfold wf_buffer, readableBytes in *. eexists. split; [done|]. cbn. split; [lia|]. split; [|done].
  unfold content, peek, readableBytes. cbn. rewrite take_take. f_equal. lia.
Qed.

Lemma prepend_ok d b :
  wf_buffer b → (length d ≤ prependableBytes b)%nat →
  ∃ b', prepend d b = Ok b' ∧ wf_buffer b' ∧ content b' = d ++ content b.
Proof.
  intros Hwf Hd. unfold prepend. destruct (Nat.leb_spec (length d) (prependableBytes b)); [|lia]. cbn [assert_ rbind].
  pose proof (content_length b Hwf) as Hcl. pose proof (buffer_split b Hwf) as Hsp. unfold wf_buffer, prependableBytes in *.
  set (r := (readerIndex_ b - length d)%nat).
  assert (∃ p old, take (readerIndex_ b) (buffer_ b) = p ++ old ∧ length p = r ∧ length old = length d) as (p & old & Hp & Hlp & Ho).
  { exists (take r (take (readerIndex_ b) (buffer_ b))), (drop r (take (readerIndex_ b) (buffer_ b))).
    rewrite take_drop, length_drop, !length_take. unfold r. split; [done|]. lia. }
  rewrite Hsp, Hp, <- !app_assoc. rewrite <- Hlp, copy_at_app by done. rewrite (app_assoc d).
  destruct (content_intro p (d ++ content b) (drop (writerIndex_ b) (buffer_ b)) (length p) (writerIndex_ b)) as [Hc Hw].
  - done.
  - rewrite length_app, Hcl. unfold readableBytes, r in *. lia.
  - eexists. split; [done|]. done.
Qed.

Lemma Buffer_new_ok n : wf_buffer (Buffer_new n) ∧ content (Buffer_new n) = [].
Proof. unfold wf_buffer, content, peek, readableBytes, Buffer_new. cbn. rewrite length_replicate. unfold kCheapPrepend; split; [lia|done]. Qed.

Lemma Buffer_new_length n : length (buffer_ (Buffer_new n)) = (8 + n)%nat.
Proof. unfold Buffer_new. cbn [buffer_]. by rewrite length_replicate. Qed.

(** The vector keeps the prepend area and stays far from [max_size]. *)
Definition sized (b : Buffer) : Prop := (8 ≤ length (buffer_ b))%nat ∧ Z.of_nat (length (buffer_ b)) ≤ 2 ^ 62.

Lemma Buffer_new_sized n : Z.of_nat n < memory → sized (Buffer_new n).
Proof. intros Hn. unfold sized. rewrite Buffer_new_length. unfold memory in Hn. lia. Qed.

(** Appending to a queue that stays below 2^60 bytes. *)
Lemma append_sized d b :
  wf_buffer b → sized b → Z.of_nat (length (content b) + length d) < memory →
  ∃ b', append d b = Ok b' ∧ wf_buffer b' ∧ sized b' ∧ content b' = content b ++ d.
Proof.
  intros Hwf [H8 H62] Hd. rewrite content_length in Hd by done. unfold memory in Hd.
  destruct (append_ok d b Hwf) as (b' & Hr & Hw & Hc & Hl); [unfold roomy, max_size; lia|]. exists b'. unfold sized. conjuncts; try done; lia.
Qed.

(** The new buffer of a shrink, with the room that is asked for. *)
Lemma shrink_room r b :
  Z.of_nat (readableBytes b) < 2 ^ 32 → 0 ≤ r < memory →
  ∃ b1, ensureWritableBytes (uint64 (Z.of_nat (readableBytes b) + r)) (Buffer_new kInitialSize) = Ok b1 ∧
    wf_buffer b1 ∧ content b1 = [] ∧ (8 ≤ length (buffer_ b1))%nat ∧ Z.of_nat (length (buffer_ b1)) < 2 ^ 61 + 2 ^ 40.
Proof.
  intros Hs Hr. unfold memory in *. destruct (Buffer_new_ok kInitialSize) as [Hw0 Hc0]. pose proof (Buffer_new_length kInitialSize) as Hl0.
  unfold kInitialSize in Hl0 at 2. rewrite wrap_u_small by lia.
  replace (Z.of_nat (readableBytes b) + r) with (Z.of_nat (readableBytes b + Z.to_nat r)) by lia.
  destruct (ensureWritableBytes_ok (readableBytes b + Z.to_nat r) _ Hw0) as (b1 & H1 & Hw1 & Hc1 & _ & Hl1); [unfold roomy, max_size; lia|].
  assert (readableBytes (Buffer_new kInitialSize) = 0%nat) as Hr0 by done. rewrite Hr0, Hl0 in Hl1.
  exists b1. conjuncts; [done|done|by rewrite Hc1|lia|lia].
Qed.

Lemma shrink_ok r b :
  wf_buffer b → Z.of_nat (length (content b)) < 2 ^ 31 → 0 ≤ r < memory →
  ∃ b', shrink r b = Ok b' ∧ wf_buffer b' ∧ sized b' ∧ content b' = content b.
Proof.
  intros Hwf Hs Hr. rewrite content_length in Hs by done. unfold shrink, toStringPiece.
  destruct (shrink_room r b) as (b1 & -> & Hw1 & Hc1 & H8 & Hl1); [lia|done|]. cbn [rbind].
  rewrite int32_id by (unfold int32_ok; lia). rewrite wrap_u_small by lia.
  pose proof (content_length b1 Hw1) as Hl. rewrite Hc1 in Hl. cbn in Hl.
  destruct (append_from_ok (drop (readerIndex_ b) (buffer_ b)) (readableBytes b) b1 Hw1) as (b2 & -> & Hw2 & Hc2 & Hl2).
  { unfold roomy, max_size. lia. }
  { rewrite length_drop. unfold wf_buffer, readableBytes in *. lia. }
  exists b2. conjuncts; [done|done|unfold sized; lia|by rewrite Hc2, Hc1].
Qed.

Lemma run_op_ok o b s' :
  wf_buffer b → sized b → spec_op o (content b) = Some s' → ∃ b', run_op o b = Ok b' ∧ wf_buffer b' ∧ sized b' ∧ content b' = s'.
Proof.
  intros Hwf Hb Hs. destruct o as [d|n| |n|r]; cbn in *.
  - case_decide; [|done]. injection Hs as <-. by apply append_sized.
  - case_decide; [|done]. injection Hs as <-. destruct (retrieve_ok n b) as (b' & Hr & Hw & Hc & Hb'); try done; [apply Hb|].
    exists b'. unfold sized. by rewrite Hb'.
  - injection Hs as <-. exists (retrieveAll b). destruct Hb. unfold wf_buffer, sized, content, peek, readableBytes, kCheapPrepend. cbn. done.
  - case_decide; [|done]. injection Hs as <-. destruct (unwrite_ok n b) as (b' & Hr & Hw & Hc & Hb'); try done.
    exists b'. unfold sized. by rewrite Hb'.
  - case_decide as Hd; [|done]. injection Hs as <-. destruct Hd. by apply shrink_ok.
Qed.

(** (C19) The buffer is a byte queue: any sequence of appends, retrievals,
    unwrites and shrinks that a queue of bytes allows runs on the buffer
    without an assertion failing or an exception, through every reallocation
    and every move of the data to the front, and leaves exactly the queue's
    bytes readable.  The queue allows an append while it stays below 2^60
    bytes, and a shrink when it holds less than 2^31 bytes ([toStringPiece]
    has the length as an [int]) and less than 2^60 are reserved. *)
Theorem buffer_refines_queue os n s :
  Z.of_nat n < memory → spec_ops os [] = Some s →
  ∃ b, run_ops os (Buffer_new n) = Ok b ∧ wf_buffer b ∧ content b = s.
Proof.
  intros Hn. assert (∀ b, wf_buffer b → sized b → spec_ops os (content b) = Some s →
    ∃ b', run_ops os b = Ok b' ∧ wf_buffer b' ∧ content b' = s) as Hgen.
  { induction os as [|o os IH]; intros b Hwf Hb Hs; cbn in *; [injection Hs as <-; eauto|].
    destruct (spec_op o (content b)) as [s1|] eqn:E; [|done].
    destruct (run_op_ok o b s1 Hwf Hb E) as (b1 & -> & Hw1 & Hb1 & Hc1). cbn [rbind]. apply IH; [done|done|by rewrite Hc1]. }
  destruct (Buffer_new_ok n) as [Hw Hc]. intros Hs. apply Hgen; [done|by apply Buffer_new_sized|by rewrite Hc].
Qed.

(** Why a shrink asks for less than 2^31 bytes: with that many and less than
    2^32 readable, the length of the piece is negative, and as a [size_t] it is
    beyond every vector: the operation faults. *)
Theorem buffer_shrink_large reserve b :
  wf_buffer b → Z.of_nat (length (buffer_ b)) ≤ max_size → 2 ^ 31 ≤ Z.of_nat (readableBytes b) < 2 ^ 32 → 0 ≤ reserve < memory →
  ∃ f, shrink reserve b = Err f.
Proof.
  intros Hwf Hmax Hs Hr. unfold shrink, toStringPiece. destruct (shrink_room reserve b) as (b1 & -> & _); [lia|done|]. cbn [rbind].
  assert (uint64 (int32 (Z.of_nat (readableBytes b))) = Z.of_nat (readableBytes b) - 2 ^ 32 + 2 ^ 64) as ->.
  { unfold wrap_s, wrap_u. change (32 - 1) with 31.
    rewrite <- (Z.mod_unique_pos (Z.of_nat (readableBytes b) + 2 ^ 31) (2 ^ 32) 1 (Z.of_nat (readableBytes b) - 2 ^ 31)) by lia.
    symmetry. apply (Z.mod_unique_pos _ _ (-1)); lia. }
  unfold append_from. destruct (ensureWritableBytes _ b1) as [b2|f]; cbn [rbind]; [|by eexists].
  pose proof (length_drop (buffer_ b) (readerIndex_ b)) as Hl. unfold max_size in Hmax.
  destruct (Z.ltb_spec (Z.of_nat (length (drop (readerIndex_ b) (buffer_ b)))) (Z.of_nat (readableBytes b) - 2 ^ 32 + 2 ^ 64)); [by eexists|].
  exfalso. lia.
Qed.

Lemma network_bytes n x : le_split n (hostToNetwork n x) = rev (le_split n x).
Proof.
  unfold hostToNetwork. rewrite <- (split_le_combine (rev (le_split n x))) at 2. f_equal.
  by rewrite length_rev, length_le_split.
Qed.

(** Integers travel in network order and come back: an integer appended
    to an empty buffer lies there with its most significant byte first, and
    reading it gives it back and leaves the buffer empty. *)
Theorem buffer_int_roundtrip n x b :
  wf_buffer b → sized b → content b = [] → (0 < n ≤ 8)%nat →
  - 2 ^ (8 * Z.of_nat n - 1) ≤ x < 2 ^ (8 * Z.of_nat n - 1) →
  ∃ b1 b2, appendInt n x b = Ok b1 ∧ content b1 = rev (le_split n x) ∧
    readInt n b1 = Ok (x, b2) ∧ content b2 = [].
Proof.
  intros Hwf H8 Hc Hn Hx. unfold appendInt. rewrite network_bytes.
  destruct (append_sized (rev (le_split n x)) b Hwf H8) as (b1 & Ha & Hw1 & [H81 _] & Hc1).
  { rewrite Hc, length_rev, length_le_split. unfold memory. cbn. lia. }
  rewrite Hc in Hc1. cbn in Hc1. pose proof (content_length b1 Hw1) as Hl.
  rewrite Hc1, length_rev, length_le_split in Hl.
  destruct (retrieve_ok n b1) as (b2 & Hr & Hw2 & Hc2 & _); [done|rewrite content_length by done; lia|lia|].
  exists b1, b2. split; [done|]. split; [done|].
  split; [|rewrite Hc2, Hc1; apply drop_ge; rewrite length_rev, length_le_split; lia].
  unfold readInt, peekInt. destruct (Nat.leb_spec n (readableBytes b1)); [|lia]. cbn [assert_ rbind].
  assert (peek n b1 = rev (le_split n x)) as -> by (rewrite <- Hc1; unfold content; by rewrite <- Hl).
  rewrite Hr. cbn [rbind]. do 2 f_equal. unfold networkToHost.
  replace n with (length (rev (le_split n x))) at 2 by (by rewrite length_rev, length_le_split).
  rewrite split_le_combine, rev_involutive, le_combine_split.
  replace (Z.of_nat n * 8) with (8 * Z.of_nat n) by lia. unfold wrap_s. rewrite Zplus_mod_idemp_l.
  apply (wrap_s_small (8 * Z.of_nat n)); lia.
Qed.

(** ** Messages in the buffer

    The first lines of every message handler: all readable bytes are taken as
    one message. *)

Definition receive (b : Buffer) : result (RootMsg * Buffer) :=
  let? (str, b) := retrieveAllAsString b in
  let? msg := deserialize str in Ok (msg, b).

(** Bytes behind a message do not change what is read from it. *)
Definition keeps {A} (r r' : result A) : Prop := ∀ v, r = Ok v → r' = Ok v.

Lemma keeps_refl {A} (r : result A) : keeps r r.
Proof. by intros v. Qed.

Lemma keeps_bind {A B} (r r' : result A) (k k' : A → result B) :
  keeps r r' → (∀ a, keeps (k a) (k' a)) → keeps (rbind r k) (rbind r' k').
Proof. intros Hr Hk v. destruct r as [a|]; [|done]. cbn. rewrite (Hr a) by done. cbn. apply Hk. Qed.

Lemma keeps_load n m x a : keeps (load n m a) (load n (m ++ x) a).
Proof. intros v Hv. pose proof (load_inv _ _ _ _ Hv) as (? & ? & _). by rewrite load_app_l. Qed.

Create HintDb keeps.
#[local] Hint Resolve keeps_refl keeps_load : keeps.

Ltac keep :=
  repeat first
    [ progress (auto with keeps)
    | apply keeps_bind; [|intros ?]
    | match goal with |- keeps (if ?c then _ else _) _ => destruct c end
    | match goal with |- keeps (match ?o with _ => _ end) _ => destruct o end ].

Lemma keeps_ReadScalar n m x a : keeps (ReadScalar n m a) (ReadScalar n (m ++ x) a).
Proof. unfold ReadScalar. keep. Qed.
#[local] Hint Resolve keeps_ReadScalar : keeps.
Lemma keeps_ReadScalarS n m x a : keeps (ReadScalarS n m a) (ReadScalarS n (m ++ x) a).
Proof. unfold ReadScalarS. keep. Qed.
#[local] Hint Resolve keeps_ReadScalarS : keeps.
Lemma keeps_GetOptionalFieldOffset m x t f :
  keeps (GetOptionalFieldOffset m t f) (GetOptionalFieldOffset (m ++ x) t f).
Proof. unfold GetOptionalFieldOffset, GetVTable. keep. Qed.
#[local] Hint Resolve keeps_GetOptionalFieldOffset : keeps.
Lemma keeps_GetField n m x t f d : keeps (GetField n m t f d) (GetField n (m ++ x) t f d).
Proof. unfold GetField. keep. Qed.
Lemma keeps_GetFieldS n m x t f d : keeps (GetFieldS n m t f d) (GetFieldS n (m ++ x) t f d).
Proof. unfold GetFieldS. keep. Qed.
Lemma keeps_GetPointer m x t f : keeps (GetPointer m t f) (GetPointer (m ++ x) t f).
Proof. unfold GetPointer. keep. Qed.
#[local] Hint Resolve keeps_GetField keeps_GetFieldS keeps_GetPointer : keeps.
Lemma keeps_Vector_Get m x v i : keeps (Vector_Get m v i) (Vector_Get (m ++ x) v i).
Proof. unfold Vector_Get, Vector_size. keep. Qed.
#[local] Hint Resolve keeps_Vector_Get : keeps.
Lemma keeps_string_field m x t f : keeps (string_field m t f) (string_field (m ++ x) t f).
Proof. unfold string_field, String_str, Vector_size. keep. Qed.
Lemma keeps_vector_field {A} (rd : list byte → Z → result A) m x t f :
  (∀ a, keeps (rd m a) (rd (m ++ x) a)) → keeps (vector_field rd m t f) (vector_field rd (m ++ x) t f).
Proof.
  intros Hrd. assert (∀ n v i, keeps (vector_from rd m v i n) (vector_from rd (m ++ x) v i n)) as Hv.
  { induction n as [|n IH]; intros v i; cbn [vector_from]; keep. }
  unfold vector_field, Vector_size. keep.
Qed.
#[local] Hint Resolve keeps_string_field keeps_vector_field : keeps.

Lemma keeps_read_ipAndPort m x t : keeps (read_ipAndPort m t) (read_ipAndPort (m ++ x) t).
Proof. unfold read_ipAndPort. autounfold with accessors. keep. Qed.
Lemma keeps_read_Data m x t : keeps (read_Data m t) (read_Data (m ++ x) t).
Proof. unfold read_Data. autounfold with accessors. keep. Qed.
#[local] Hint Resolve keeps_read_ipAndPort keeps_read_Data : keeps.

Lemma keeps_deserialize m x : keeps (deserialize m) (deserialize (m ++ x)).
Proof.
  unfold deserialize, GetRootMsg, GetRoot, read_RootMsg, get_RootMsg_any, get_RootMsg_any_type, payload,
    read_GtmMsg, read_AppMsg, read_DbServiceMsg, read_DbtlMsg, read_DbtlAckMsg, read_ESMsg, read_DbtmMsg,
    read_DbMsg, read_LogPlayerMsg. autounfold with accessors. keep.
Qed.

Lemma receive_ok b m rest r :
  wf_buffer b → (8 ≤ length (buffer_ b))%nat → content b = m ++ rest → deserialize m = Ok r →
  ∃ b', receive b = Ok (r, b') ∧ wf_buffer b' ∧ content b' = [] ∧ buffer_ b' = buffer_ b.
Proof.
  intros Hwf H8 Hc Hm. unfold receive, retrieveAllAsString, retrieveAsString.
  pose proof (content_length b Hwf) as Hl. rewrite Nat.leb_refl. cbn [assert_ rbind].
  destruct (retrieve_ok (readableBytes b) b) as (b' & -> & Hw' & Hc' & Hb'); [done|lia|done|]. cbn [rbind].
  fold (content b). rewrite Hc, (keeps_deserialize m rest r Hm). cbn [rbind]. exists b'. split_and!; [done|done| |done].
  rewrite Hc'. apply drop_ge. lia.
Qed.

(** (C37) Messages are not framed: when the bytes of two messages have arrived
    before the handler runs, it reads the first one, and the second one is
    gone with the rest of the buffer. *)
Theorem buffer_drops_coalesced r1 r2 n :
  Z.of_nat n < memory →
  RootMsg_valid r1 → RootMsg_size r1 + 200 < FLATBUFFERS_MAX_BUFFER_SIZE →
  RootMsg_valid r2 → RootMsg_size r2 + 200 < FLATBUFFERS_MAX_BUFFER_SIZE →
  ∃ m1 m2 b b', serialize r1 = Ok m1 ∧ serialize r2 = Ok m2 ∧
    run_ops [Append m1; Append m2] (Buffer_new n) = Ok b ∧
    receive b = Ok (r1, b') ∧ content b' = [].
Proof.
  intros Hn Hv1 Hs1 Hv2 Hs2. destruct (serialize_sized r1 Hv1 Hs1) as (m1 & Hm1 & Hd1 & Hl1).
  destruct (serialize_sized r2 Hv2 Hs2) as (m2 & Hm2 & _ & Hl2). unfold FLATBUFFERS_MAX_BUFFER_SIZE in Hl1, Hl2.
  destruct (Buffer_new_ok n) as [Hw0 Hc0]. cbn [run_ops run_op].
  destruct (append_sized m1 _ Hw0 (Buffer_new_sized n Hn)) as (b1 & Hb1 & Hw1 & Hz1 & Hc1); [rewrite Hc0; unfold memory; cbn [length Nat.add app]; lia|].
  destruct (append_sized m2 _ Hw1 Hz1) as (b2 & Hb2 & Hw2 & [H8 _] & Hc2); [rewrite Hc1, Hc0; unfold memory; cbn [length Nat.add app]; lia|].
  destruct (receive_ok b2 m1 m2 r1) as (b' & Hr & _ & Hc' & _); [done|done|by rewrite Hc2, Hc1, Hc0|done|].
  exists m1, m2, b2, b'. rewrite Hb1. cbn [rbind]. rewrite Hb2. done.
Qed.

(** A message that arrives in two pieces: whatever bytes are missing at its
    end when the handler runs, the handler reads the message that was sent, or
    it reads outside of what has arrived; it never sees another message. *)
Theorem buffer_split_message r first rest n :
  Z.of_nat n < memory →
  RootMsg_valid r → RootMsg_size r + 200 < FLATBUFFERS_MAX_BUFFER_SIZE → serialize r = Ok (first ++ rest) →
  ∃ b, append first (Buffer_new n) = Ok b ∧
    ((∃ b', receive b = Ok (r, b') ∧ content b' = []) ∨ ∃ f, receive b = Err f).
Proof.
  intros Hn Hv Hs Hser. destruct (serialize_sized r Hv Hs) as (m & Hm & Hd & Hlen). rewrite Hser in Hm. injection Hm as <-.
  unfold FLATBUFFERS_MAX_BUFFER_SIZE in Hlen. rewrite length_app in Hlen.
  destruct (Buffer_new_ok n) as [Hw0 Hc0]. destruct (append_sized first _ Hw0 (Buffer_new_sized n Hn)) as (b & Hb & Hw & [Hl _] & Hc); [rewrite Hc0; unfold memory; cbn [length Nat.add app]; lia|].
  exists b. split; [done|].
  rewrite Hc0 in Hc. cbn in Hc. destruct (deserialize first) as [r'|f] eqn:Hf.
  - left. pose proof (keeps_deserialize first rest r' Hf) as Hk. rewrite Hd in Hk. injection Hk as <-.
    destruct (receive_ok b first [] r) as (b' & Hr & _ & Hc' & _); [done|lia|by rewrite app_nil_r|done|]. by exists b'.
  - right. exists f. unfold receive, retrieveAllAsString, retrieveAsString. rewrite Nat.leb_refl. cbn [assert_ rbind].
    destruct (retrieve_ok (readableBytes b) b) as (b' & -> & _); [done|rewrite content_length by done; lia|lia|]. cbn [rbind].
    fold (content b). by rewrite Hc, Hf.
Qed.

(** ** Witnesses *)

Definition demo_ops : list op :=
  [Append (replicate 20 Byte.x01); Retrieve 15; Append (replicate 18 Byte.x02); Unwrite 1; Shrink 4].

Lemma buffer_refines_queue_witness :
  ∃ b, run_ops demo_ops (Buffer_new 16) = Ok b ∧ content b = replicate 5 Byte.x01 ++ replicate 17 Byte.x02.
Proof.
  destruct (buffer_refines_queue demo_ops 16 (replicate 5 Byte.x01 ++ replicate 17 Byte.x02)) as (b & Hr & _ & Hc).
  - vm_compute. reflexivity.
  - vm_compute. reflexivity.
  - exists b. split; [exact Hr|exact Hc].
Defined.

Lemma buffer_int_roundtrip_witness :
  ∃ b1 b2, appendInt 4 (-2) (Buffer_new 16) = Ok b1 ∧ readInt 4 b1 = Ok (-2, b2).
Proof.
  destruct (buffer_int_roundtrip 4 (-2) (Buffer_new 16)) as (b1 & b2 & H1 & _ & H2 & _).
  - vm_compute. lia.
  - apply Buffer_new_sized. vm_compute. reflexivity.
  - vm_compute. reflexivity.
  - lia.
  - vm_compute. split; congruence.
  - exists b1, b2. split; [exact H1|exact H2].
Defined.

Lemma buffer_drops_coalesced_witness :
  ∃ b b', (let? m1 := serialize (Msg_ESMsg (mkESMsg kAdd 1 false 0 (Some "k") (Some "a") (Some "v"))) in
           let? m2 := serialize (Msg_ESMsg (mkESMsg kCommit 1 false 0 None None None)) in
           run_ops [Append m1; Append m2] (Buffer_new 1024)) = Ok b ∧
    receive b = Ok (Msg_ESMsg (mkESMsg kAdd 1 false 0 (Some "k") (Some "a") (Some "v")), b') ∧ content b' = [].
Proof.
  destruct (buffer_drops_coalesced (Msg_ESMsg (mkESMsg kAdd 1 false 0 (Some "k") (Some "a") (Some "v")))
    (Msg_ESMsg (mkESMsg kCommit 1 false 0 None None None)) 1024) as (m1 & m2 & b & b' & H1 & H2 & Hr & Hv & Hc).
  - vm_compute. reflexivity.
  - cbn. unfold int32_ok. repeat split; vm_compute; congruence.
  - vm_compute. reflexivity.
  - cbn. unfold int32_ok. repeat split; vm_compute; congruence.
  - vm_compute. reflexivity.
  - exists b, b'. rewrite H1, H2. split; [exact Hr|]. split; [exact Hv|exact Hc].
Defined.

(** A decision that arrives without its last twelve bytes. *)
Definition split_msg : RootMsg := Msg_DbtmMsg (mkDbtmMsg kJudgeConflit 7 true 0).
Definition split_bytes : list byte := match serialize split_msg with Ok m => m | Err _ => [] end.

Lemma buffer_split_message_witness :
  ∃ b, append (take 40 split_bytes) (Buffer_new 16) = Ok b ∧
    ((∃ b', receive b = Ok (split_msg, b') ∧ content b' = []) ∨ ∃ f, receive b = Err f).
Proof.
  apply (buffer_split_message split_msg (take 40 split_bytes) (drop 40 split_bytes) 16).
  - vm_compute. reflexivity.
  - cbn. unfold int32_ok. vm_compute. repeat split; congruence.
  - vm_compute. reflexivity.
  - vm_compute. reflexivity.
Defined.

End Buffer.
