(* ===== verification/NetText.v ===== *)
(** * Text in a buffer (muduo's Buffer.h and StringPiece.h)

    The operations of the receive buffer that look for the end of a line, and
    [StringPiece], the view of bytes that the send functions take.  A pointer
    into the buffer is its index; a [StringPiece] is the memory from its
    pointer on and a length. *)

From Stdlib Require Import ZArith Lia.
From coqutil Require Import Byte.
From stdpp Require Import base list.
From S2P Require Import Prelude FlatBuilder NetBuffer.

Module Lines.
Import Buffer.

Definition kCRLF : list byte := [Byte.x0d; Byte.x0a].

(** [std::search] for a pattern: the position of its first occurrence. *)
Fixpoint search (pat l : list byte) : option nat :=
  if decide (take (length pat) l = pat) then Some 0%nat
  else match l with [] => None | _ :: l' => S <$> search pat l' end.

(** [memchr] *)
Fixpoint memchr (c : byte) (l : list byte) : option nat :=
  match l with
  | [] => None
  | x :: l' => if decide (x = c) then Some 0%nat else S <$> memchr c l'
  end.

(** The bytes from a pointer to [beginWrite()]. *)
Definition beginWrite (b : Buffer) : nat := writerIndex_ b.
Definition from (start : nat) (b : Buffer) : list byte := take (beginWrite b - start) (drop start (buffer_ b)).

(** [findCRLF], [findEOL] with and without a start *)
Definition findCRLF (b : Buffer) : option nat := Nat.add (readerIndex_ b) <$> search kCRLF (from (readerIndex_ b) b).
Definition findEOL (b : Buffer) : option nat := Nat.add (readerIndex_ b) <$> memchr Byte.x0a (peek (readableBytes b) b).

Definition findCRLF_from (start : nat) (b : Buffer) : result (option nat) :=
  let? _ := assert_ (readerIndex_ b <=? start)%nat in
  let? _ := assert_ (start <=? beginWrite b)%nat in
  Ok (Nat.add start <$> search kCRLF (from start b)).

Definition findEOL_from (start : nat) (b : Buffer) : result (option nat) :=
  let? _ := assert_ (readerIndex_ b <=? start)%nat in
  let? _ := assert_ (start <=? beginWrite b)%nat in
  Ok (Nat.add start <$> memchr Byte.x0a (from start b)).

Definition retrieveUntil (end_ : nat) (b : Buffer) : result Buffer :=
  let? _ := assert_ (readerIndex_ b <=? end_)%nat in
  let? _ := assert_ (end_ <=? beginWrite b)%nat in
  retrieve (end_ - readerIndex_ b) b.

Definition swap (this rhs : Buffer) : Buffer * Buffer := (rhs, this).

(** A line read the way the library's users do: up to [findCRLF], then past
    the mark. *)
Definition read_line (b : Buffer) : result (option (list byte * Buffer)) :=
  match findCRLF b with
  | None => Ok None
  | Some crlf => let? b' := retrieveUntil (crlf + 2) b in Ok (Some (take (crlf - readerIndex_ b) (content b), b'))
  end.

(** ** The first line *)

Lemma search_spec pat l i : search pat l = Some i → take (length pat) (drop i l) = pat.
Proof.
  revert i. induction l as [|x l IH]; intros i; cbn [search].
  - destruct (decide _); [intros [= <-]; done|done].
  - destruct (decide _) as [E|]; [by intros [= <-]|]. destruct (search pat l); [|done]. intros [= <-]. by apply IH.
Qed.

Lemma search_least pat l i j : search pat l = Some i → (j < i)%nat → take (length pat) (drop j l) ≠ pat.
Proof.
  revert i j. induction l as [|x l IH]; intros i j; cbn [search].
  - destruct (decide _); [intros [= <-]; lia|done].
  - destruct (decide _) as [|Hne]; [intros [= <-]; lia|]. destruct (search pat l) as [k|] eqn:E; [|done]. intros [= <-] Hj.
    destruct j as [|j]; [done|]. cbn [drop]. apply (IH k j eq_refl). lia.
Qed.

Lemma search_none pat l i : search pat l = None → take (length pat) (drop i l) ≠ pat.
Proof.
  revert i. induction l as [|x l IH]; intros i; cbn [search].
  - destruct (decide _); [done|]. by rewrite drop_nil.
  - destruct (decide _); [done|]. destruct (search pat l); [done|]. intros _. destruct i as [|i]; [done|]. by apply IH.
Qed.

Lemma from_content b : from (readerIndex_ b) b = content b.
Proof. done. Qed.

(** Reading a line: the mark found is the first one, the line before it is
    handed out without the mark, and what follows the mark stays in the
    buffer; with no mark the buffer is left alone. *)
Theorem buffer_read_line b :
  wf_buffer b → (kCheapPrepend ≤ length (buffer_ b))%nat →
  match read_line b with
  | Ok (Some (line, b')) =>
      wf_buffer b' ∧ content b = line ++ kCRLF ++ content b' ∧
      (∀ j, (j < length line)%nat → take 2 (drop j (content b)) ≠ kCRLF)
  | Ok None => ∀ j, take 2 (drop j (content b)) ≠ kCRLF
  | Err _ => False
  end.
Proof.
  intros Hwf H8. pose proof (content_length b Hwf) as Hcl. unfold read_line, findCRLF. rewrite from_content.
  destruct (search kCRLF (content b)) as [i|] eqn:E; cbn [fmap option_fmap option_map];
    [|intros j; by apply (search_none kCRLF)].
  pose proof (search_spec _ _ _ E) as Hi. assert (i + 2 ≤ length (content b))%nat as Hle.
  { assert (length (take (length kCRLF) (drop i (content b))) = 2%nat) as Hl by by rewrite Hi.
    rewrite length_take, length_drop in Hl. change (length kCRLF) with 2%nat in Hl. lia. }
  unfold wf_buffer, readableBytes in *. unfold retrieveUntil, beginWrite, assert_.
  destruct (Nat.leb_spec (readerIndex_ b) (readerIndex_ b + i + 2)); [|lia].
  destruct (Nat.leb_spec (readerIndex_ b + i + 2) (writerIndex_ b)); [|lia]. cbn [rbind].
  replace (readerIndex_ b + i + 2 - readerIndex_ b)%nat with (i + 2)%nat by lia.
  destruct (retrieve_ok (i + 2) b Hwf Hle H8) as (b' & -> & Hwf' & Hc' & _). cbn [rbind]. split; [done|].
  replace (readerIndex_ b + i - readerIndex_ b)%nat with i by lia. split.
  - rewrite Hc', <- (drop_drop (content b) 2 i), <- Hi. change (length kCRLF) with 2%nat. by rewrite !take_drop.
  - intros j Hj. rewrite length_take in Hj. apply (search_least kCRLF _ i); [done|lia].
Qed.

End Lines.

Module StringPiece.

(** [ptr_] with the memory behind it, and [length_] *)
Record StringPiece := mkPiece { ptr_ : list byte; length_ : Z }.

(** [StringPiece()], [StringPiece(const string &)] and
    [StringPiece(const char *, int)] *)
Definition StringPiece_new : StringPiece := mkPiece [] 0.
Definition of_string (s : list byte) : StringPiece := mkPiece s (wrap_s 32 (len s)).
Definition of_range (mem : list byte) (n : Z) : StringPiece := mkPiece mem n.

Definition size (p : StringPiece) : Z := length_ p.
Definition empty (p : StringPiece) : bool := length_ p =? 0.
Definition clear (p : StringPiece) : StringPiece := mkPiece [] 0.
Definition set (mem : list byte) (n : Z) (p : StringPiece) : StringPiece := mkPiece mem n.

(** [operator\[\]], [remove_prefix], [remove_suffix] *)
Definition at_ (p : StringPiece) (i : Z) : result byte :=
  if i <? 0 then Err OutOfBounds else of_option (ptr_ p !! Z.to_nat i) OutOfBounds.
Definition remove_prefix (n : Z) (p : StringPiece) : StringPiece := mkPiece (drop (Z.to_nat n) (ptr_ p)) (length_ p - n).
Definition remove_suffix (n : Z) (p : StringPiece) : StringPiece := mkPiece (ptr_ p) (length_ p - n).

(** [memcmp]: the sign of the first difference among [n] unsigned bytes *)
Fixpoint memcmp (n : nat) (a b : list byte) : result Z :=
  match n with
  | O => Ok 0
  | S n' =>
      match a, b with
      | x :: a', y :: b' =>
          match (Byte.to_N x ?= Byte.to_N y)%N with Eq => memcmp n' a' b' | Lt => Ok (-1) | Gt => Ok 1 end
      | _, _ => Err OutOfBounds
      end
  end.

(** [length_ < x.length_ ? length_ : x.length_] *)
Definition shorter (p x : StringPiece) : nat := Z.to_nat (if length_ p <? length_ x then length_ p else length_ x).

Definition equal (p x : StringPiece) : result bool :=
  if length_ p =? length_ x then let? r := memcmp (Z.to_nat (length_ p)) (ptr_ p) (ptr_ x) in Ok (r =? 0) else Ok false.
Definition not_equal (p x : StringPiece) : result bool := let? e := equal p x in Ok (negb e).

(** The four operators of [STRINGPIECE_BINARY_PREDICATE(cmp, auxcmp)] *)
Definition predicate (cmp auxcmp : Z → Z → bool) (p x : StringPiece) : result bool :=
  let? r := memcmp (shorter p x) (ptr_ p) (ptr_ x) in
  Ok (auxcmp r 0 || ((r =? 0) && cmp (length_ p) (length_ x))).
Definition lt := predicate Z.ltb Z.ltb.
Definition le := predicate Z.leb Z.ltb.
Definition ge := predicate Z.geb Z.gtb.
Definition gt := predicate Z.gtb Z.gtb.

Definition compare (p x : StringPiece) : result Z :=
  let? r := memcmp (shorter p x) (ptr_ p) (ptr_ x) in
  Ok (if r =? 0 then
        if length_ p <? length_ x then -1 else if length_ x <? length_ p then 1 else r
      else r).

Definition as_string (p : StringPiece) : result (list byte) := load (Z.to_nat (length_ p)) (ptr_ p) 0.
Definition CopyToString (p : StringPiece) (target : list byte) : result (list byte) := as_string p.

Definition starts_with (p x : StringPiece) : result bool :=
  if length_ x <=? length_ p then let? r := memcmp (Z.to_nat (length_ x)) (ptr_ p) (ptr_ x) in Ok (r =? 0) else Ok false.

(** ** The order of pieces *)

(** A piece lies within its memory; its bytes. *)
Definition wf_piece (p : StringPiece) : Prop := 0 ≤ length_ p ≤ len (ptr_ p).
Definition bytes (p : StringPiece) : list byte := take (Z.to_nat (length_ p)) (ptr_ p).

(** The lexicographic order of byte strings *)
Fixpoint lex (a b : list byte) : comparison :=
  match a, b with
  | [], [] => Eq
  | [], _ => Lt
  | _, [] => Gt
  | x :: a', y :: b' => match (Byte.to_N x ?= Byte.to_N y)%N with Eq => lex a' b' | c => c end
  end.

Definition sign (c : comparison) : Z := match c with Lt => -1 | Eq => 0 | Gt => 1 end.

Lemma byte_compare_eq x y : (Byte.to_N x ?= Byte.to_N y)%N = Eq ↔ x = y.
Proof. rewrite N.compare_eq_iff. split; [|by intros ->].
  intros H%(f_equal Byte.of_N). rewrite !Byte.of_to_N in H. congruence. Qed.

Lemma bytes_length p : wf_piece p → length (bytes p) = Z.to_nat (length_ p).
Proof. intros []. unfold bytes. rewrite length_take. lia. Qed.

(** What [memcmp] over the shorter length says about the whole strings. *)
Lemma memcmp_lex n a b :
  (n ≤ length a)%nat → (n ≤ length b)%nat →
  ∃ r, memcmp n a b = Ok r ∧ r = sign (lex (take n a) (take n b)).
Proof.
  revert a b. induction n as [|n IH]; intros a b Ha Hb; [by exists 0|].
  destruct a as [|x a]; [cbn in Ha; lia|]. destruct b as [|y b]; [cbn in Hb; lia|]. cbn [memcmp take lex].
  destruct (Byte.to_N x ?= Byte.to_N y)%N; [|by eexists|by eexists]. apply IH; cbn in *; lia.
Qed.

Lemma lex_take a b n :
  n = Nat.min (length a) (length b) →
  lex a b = match lex (take n a) (take n b) with Eq => Nat.compare (length a) (length b) | c => c end.
Proof.
  revert a b. induction n as [|n IH]; intros a b Hn.
  - destruct a as [|x a], b as [|y b]; cbn in *; done || lia.
  - destruct a as [|x a], b as [|y b]; cbn in *; try lia. destruct (Byte.to_N x ?= Byte.to_N y)%N; [|done|done].
    apply IH. lia.
Qed.

Lemma lex_eq a b : lex a b = Eq ↔ a = b.
Proof.
  revert b. induction a as [|x a IH]; intros [|y b]; cbn; try done.
  destruct (Byte.to_N x ?= Byte.to_N y)%N eqn:E.
  - apply byte_compare_eq in E as ->. rewrite IH. split; congruence.
  - split; [done|]. intros [= -> ->]. by rewrite N.compare_refl in E.
  - split; [done|]. intros [= -> ->]. by rewrite N.compare_refl in E.
Qed.

Lemma lex_refl a : lex a a = Eq.
Proof. by apply lex_eq. Qed.

Lemma shorter_min p x : wf_piece p → wf_piece x → shorter p x = Nat.min (length (bytes p)) (length (bytes x)).
Proof.
  intros Hp Hx. rewrite !bytes_length by done. unfold shorter. destruct Hp, Hx. destruct (Z.ltb_spec (length_ p) (length_ x)); lia.
Qed.

Lemma take_bytes n p : (n ≤ Z.to_nat (length_ p))%nat → take n (ptr_ p) = take n (bytes p).
Proof. intros Hn. unfold bytes. by rewrite take_take, Nat.min_l. Qed.

Lemma memcmp_bytes p x :
  wf_piece p → wf_piece x →
  ∃ c, memcmp (shorter p x) (ptr_ p) (ptr_ x) = Ok (sign c) ∧
    lex (bytes p) (bytes x) = match c with Eq => Z.compare (length_ p) (length_ x) | c => c end.
Proof.
  intros Hp Hx. pose proof (bytes_length p Hp) as Hlp. pose proof (bytes_length x Hx) as Hlx.
  pose proof (shorter_min p x Hp Hx) as Hs. destruct Hp as [Hp1 Hp2], Hx as [Hx1 Hx2].
  destruct (memcmp_lex (shorter p x) (ptr_ p) (ptr_ x)) as (r & -> & ->); [lia..|].
  rewrite !take_bytes by lia. eexists. split; [done|]. rewrite (lex_take _ _ (shorter p x) Hs), Hlp, Hlx.
  destruct (lex _ _); try done. rewrite <- (Z2Nat.inj_compare (length_ p) (length_ x)) by lia. done.
Qed.

(** [compare] and the six operators are one order, the lexicographic order of
    the bytes the pieces show. *)
Theorem piece_compare_lex p x :
  wf_piece p → wf_piece x →
  let c := lex (bytes p) (bytes x) in
  compare p x = Ok (sign c) ∧
  lt p x = Ok (sign c <? 0) ∧ le p x = Ok (sign c <=? 0) ∧ gt p x = Ok (0 <? sign c) ∧ ge p x = Ok (0 <=? sign c).
Proof.
  intros Hp Hx c. destruct (memcmp_bytes p x Hp Hx) as (c0 & Hm & Hc). unfold c. rewrite Hc.
  unfold compare, lt, le, gt, ge, predicate. rewrite Hm. cbn [rbind]. destruct c0; cbn [sign]; [|done|done]. rewrite ?Z.geb_leb, ?Z.gtb_ltb.
  destruct (Z.compare_spec (length_ p) (length_ x)); destruct (Z.ltb_spec (length_ p) (length_ x)),
    (Z.ltb_spec (length_ x) (length_ p)), (Z.leb_spec (length_ p) (length_ x)), (Z.leb_spec (length_ x) (length_ p)); try lia; cbn; split_and!; f_equal; lia.
Qed.

(** Equality is equality of the bytes. *)
Theorem piece_equal_bytes p x :
  wf_piece p → wf_piece x → equal p x = Ok (bool_decide (bytes p = bytes x)).
Proof.
  intros Hp Hx. destruct (memcmp_bytes p x Hp Hx) as (c & Hm & Hc). unfold equal.
  destruct (Z.eqb_spec (length_ p) (length_ x)) as [He|Hne].
  - assert (shorter p x = Z.to_nat (length_ p)) as Hs by (unfold shorter; rewrite He, Z.ltb_irrefl; done).
    rewrite Hs in Hm. rewrite Hm. cbn [rbind]. rewrite He, Z.compare_refl in Hc. f_equal.
    apply Bool.eq_iff_eq_true. rewrite bool_decide_eq_true, <- lex_eq, Hc. by destruct c.
  - rewrite bool_decide_false; [done|]. intros Hb. apply Hne. apply (f_equal length) in Hb.
    rewrite !bytes_length in Hb by done. destruct Hp, Hx. lia.
Qed.

(** [starts_with] is the prefix relation. *)
Theorem piece_starts_with p x :
  wf_piece p → wf_piece x → starts_with p x = Ok (bool_decide (bytes x `prefix_of` bytes p)).
Proof.
  intros Hp Hx. pose proof (bytes_length p Hp) as Hlp. pose proof (bytes_length x Hx) as Hlx. unfold starts_with.
  destruct (Z.leb_spec (length_ x) (length_ p)) as [Hle|Hgt].
  - destruct Hp as [Hp1 Hp2], Hx as [Hx1 Hx2].
    destruct (memcmp_lex (Z.to_nat (length_ x)) (ptr_ p) (ptr_ x)) as (r & -> & ->); [lia..|]. cbn [rbind]. f_equal.
    fold (bytes x). rewrite take_bytes by lia. set (n := Z.to_nat (length_ x)) in *.
    apply Bool.eq_iff_eq_true. rewrite bool_decide_eq_true.
    transitivity (lex (take n (bytes p)) (bytes x) = Eq); [by destruct (lex _ _)|]. rewrite lex_eq. split.
    + intros <-. exists (drop n (bytes p)). by rewrite take_drop.
    + intros [k Hk]. rewrite Hk. by rewrite take_app_length' by done.
  - rewrite bool_decide_false; [done|]. intros Hpre%prefix_length. destruct Hp, Hx. lia.
Qed.

(** A string goes through a piece unchanged. *)
Lemma piece_of_string s : len s < 2 ^ 31 → wf_piece (of_string s) ∧ as_string (of_string s) = Ok s.
Proof.
  intros Hs. assert (wrap_s 32 (len s) = len s) as Hw by (apply (wrap_s_small 32); lia). split.
  - unfold wf_piece. cbn. lia.
  - unfold as_string, of_string. cbn [length_ ptr_]. rewrite Hw, load_ok by lia. by rewrite drop_0, take_ge by lia.
Qed.

End StringPiece.
