(* ===== verification/Rocks.v ===== *)
(** * The inline parts of RocksDB that the log service uses

    third_part/include/rocksdb/status.h and slice.h: [Status], the value that
    [DB::Open] and [DB::Write] return in dbtl.cc and that is passed around by
    copies and moves, and [Slice], the view of a key or a value that
    [WriteBatch::Put] takes.  The database itself is not in the repository.

    A [Status] owns the array behind [state_]; arrays live in a heap, so that a
    double delete, a use after free and a leak can be told.  A [Slice] is the
    memory from its pointer on and a length. *)

From Stdlib Require Import ZArith Lia.
From coqutil Require Import Byte.
From stdpp Require Import base gmap list.
From S2P Require Import Prelude FlatBuilder NetBuffer NetText.

Module Status.

(** [enum Code], [enum SubCode] and [enum Severity] *)
Inductive Code :=
| kOk | kNotFound | kCorruption | kNotSupported | kInvalidArgument | kIOError | kMergeInProgress | kIncomplete
| kShutdownInProgress | kTimedOut | kAborted | kBusy | kExpired | kTryAgain | kCompactionTooLarge | kColumnFamilyDropped.
Inductive SubCode :=
| kNone | kMutexTimeout | kLockTimeout | kLockLimit | kNoSpace | kDeadlock | kStaleFile | kMemoryLimit | kSpaceLimit
| kPathNotFound | KMergeOperandsInsufficientCapacity | kManualCompactionPaused | kOverwritten | kTxnNotPrepared | kIOFenced.
Inductive Severity := kNoError | kSoftError | kHardError | kFatalError | kUnrecoverableError.

#[export] Instance Code_eq_dec : EqDecision Code.
Proof. solve_decision. Defined.
#[export] Instance SubCode_eq_dec : EqDecision SubCode.
Proof. solve_decision. Defined.
#[export] Instance Severity_eq_dec : EqDecision Severity.
Proof. solve_decision. Defined.

(** The members; [state_] is the address of an array or null. *)
Record Status := mkStatus { code_ : Code; subcode_ : SubCode; sev_ : Severity; state_ : option nat }.

(** [Status()] and [Status(Code, SubCode)] *)
Definition Status_new : Status := mkStatus kOk kNone kNoError None.
Definition Status_of (code : Code) (subcode : SubCode) : Status := mkStatus code subcode kNoError None.

(** [ok()], the tests with a code, those with a code and a subcode, and
    [IsPathNotFound()] *)
Definition ok (s : Status) : bool := bool_decide (code_ s = kOk).
Definition is_code (c : Code) (s : Status) : bool := bool_decide (code_ s = c).
Definition is_code_sub (c : Code) (sc : SubCode) (s : Status) : bool :=
  bool_decide (code_ s = c) && bool_decide (subcode_ s = sc).
Definition IsPathNotFound (s : Status) : bool :=
  (bool_decide (code_ s = kIOError) || bool_decide (code_ s = kNotFound)) && bool_decide (subcode_ s = kPathNotFound).

(** [operator==] and [operator!=] compare the code alone. *)
Definition Status_eq (s rhs : Status) : bool := bool_decide (code_ s = code_ rhs).
Definition Status_ne (s rhs : Status) : bool := negb (Status_eq s rhs).

(** The factory functions without a message *)
Definition OK : Status := Status_new.
Definition OkOverwritten : Status := Status_of kOk kOverwritten.
Definition NoSpace : Status := Status_of kIOError kNoSpace.
Definition MemoryLimit : Status := Status_of kAborted kMemoryLimit.
Definition SpaceLimit : Status := Status_of kIOError kSpaceLimit.
Definition PathNotFound : Status := Status_of kIOError kPathNotFound.
Definition TxnNotPrepared : Status := Status_of kInvalidArgument kTxnNotPrepared.

(** ** Objects and the heap *)

(** The [Status] objects that exist, by the address of the object, and the
    arrays that are allocated. *)
Record store := mkstore { objs : gmap nat Status; arrays : gmap nat (list byte) }.

Section ops.
(** status.cc: the copy of a message, and the array made from two slices. *)
Context (CopyState : list byte → list byte).

Definition M := prog store unit.

Definition obj (p : nat) : M Status :=
  let* h := get in lift (of_option (objs h !! p) UseAfterFree).
Definition set_obj (p : nat) (s : Status) : M unit := modify (λ h, mkstore (<[p := s]> (objs h)) (arrays h)).

(** [CopyState(s.state_)] and [delete\[\] state_] *)
Definition copy_array (a : option nat) : M (option nat) :=
  match a with
  | None => ret None
  | Some a =>
      let* h := get in
      let* text := lift (of_option (arrays h !! a) UseAfterFree) in
      let b := fresh (dom (arrays h)) in
      modify (λ h, mkstore (objs h) (<[b := CopyState text]> (arrays h))) ;;; ret (Some b)
  end.
Definition delete_array (a : option nat) : M unit :=
  match a with
  | None => ret tt
  | Some a =>
      let* h := get in
      let* _ := lift (of_option (arrays h !! a) UseAfterFree) in
      modify (λ h, mkstore (objs h) (delete a (arrays h)))
  end.

(** A constructor with a message: the new object and its array. *)
Definition make (p : nat) (code : Code) (subcode : SubCode) (msg : option (list byte)) : M unit :=
  match msg with
  | None => set_obj p (Status_of code subcode)
  | Some text =>
      let* h := get in
      let b := fresh (dom (arrays h)) in
      modify (λ h, mkstore (objs h) (<[b := text]> (arrays h))) ;;; set_obj p (mkStatus code subcode kNoError (Some b))
  end.

(** [Status(const Status &s)] and [Status(const Status &s, Severity sev)] *)
Definition copy_construct (p q : nat) (sev : option Severity) : M unit :=
  let* s := obj q in
  let* st := copy_array (state_ s) in
  set_obj p (mkStatus (code_ s) (subcode_ s) (default (sev_ s) sev) st).

(** [operator=(const Status &s)] *)
Definition copy_assign (p q : nat) : M unit :=
  if decide (p = q) then ret tt
  else
    let* s := obj q in
    let* this := obj p in
    delete_array (state_ this) ;;;
    let* st := copy_array (state_ s) in
    set_obj p (mkStatus (code_ s) (subcode_ s) (sev_ s) st).

(** [operator=(Status &&s)] *)
Definition move_assign (p q : nat) : M unit :=
  if decide (p = q) then ret tt
  else
    let* s := obj q in
    let* this := obj p in
    delete_array (state_ this) ;;;
    set_obj p (mkStatus (code_ s) (subcode_ s) (sev_ s) (state_ s)) ;;;
    set_obj q (mkStatus kOk kNone kNoError None).

(** [Status(Status &&s) : Status()] *)
Definition move_construct (p q : nat) : M unit := set_obj p Status_new ;;; move_assign p q.

(** [~Status()] *)
Definition destroy (p : nat) : M unit :=
  let* s := obj p in
  delete_array (state_ s) ;;; modify (λ h, mkstore (delete p (objs h)) (arrays h)).

(** What a program does with its [Status] objects. *)
Inductive op :=
| OMake (p : nat) (code : Code) (subcode : SubCode) (msg : option (list byte))
| OCopy (p q : nat) (sev : option Severity)
| OMove (p q : nat)
| OAssign (p q : nat)
| OMoveAssign (p q : nat)
| ODestroy (p : nat).

Definition do_op (o : op) : M unit :=
  match o with
  | OMake p c sc msg => make p c sc msg
  | OCopy p q sev => copy_construct p q sev
  | OMove p q => move_construct p q
  | OAssign p q => copy_assign p q
  | OMoveAssign p q => move_assign p q
  | ODestroy p => destroy p
  end.

(** The objects after an operation, and when C++ allows it: a constructor
    makes a new object, everything else works on objects that exist. *)
Definition alive_after (o : op) (live : gset nat) : gset nat :=
  match o with
  | OMake p _ _ _ | OCopy p _ _ | OMove p _ => {[p]} ∪ live
  | OAssign _ _ | OMoveAssign _ _ => live
  | ODestroy p => live ∖ {[p]}
  end.
Definition allowed (o : op) (live : gset nat) : Prop :=
  match o with
  | OMake p _ _ _ => p ∉ live
  | OCopy p q _ | OMove p q => p ∉ live ∧ q ∈ live
  | OAssign p q | OMoveAssign p q => p ∈ live ∧ q ∈ live
  | ODestroy p => p ∈ live
  end.
Fixpoint allowed_all (os : list op) (live : gset nat) : Prop :=
  match os with [] => True | o :: os => allowed o live ∧ allowed_all os (alive_after o live) end.

Definition run_ops (os : list op) : M unit := for_each os do_op.
End ops.

(** ** What the objects are worth

    A [Status] as a value: its codes and the text of its message. *)
Abbreviation value := (Code * SubCode * Severity * option (list byte))%type.
Definition text (h : store) (s : Status) : option (list byte) := state_ s ≫= λ a, arrays h !! a.
Definition value_of (h : store) (s : Status) : value := (code_ s, subcode_ s, sev_ s, text h s).
Definition values (h : store) : gmap nat value := value_of h <$> objs h.

Definition ok_value : value := (kOk, kNone, kNoError, None).

(** The operations on values: copies are equal and independent, a move leaves
    [OK] behind. *)
Definition spec_op (o : op) (vs : gmap nat value) : gmap nat value :=
  match o with
  | OMake p c sc msg => <[p := (c, sc, kNoError, msg)]> vs
  | OCopy p q sev =>
      match vs !! q with Some (c, sc, sv, t) => <[p := (c, sc, default sv sev, t)]> vs | None => vs end
  | OAssign p q => match vs !! q with Some v => <[p := v]> vs | None => vs end
  | OMove p q => match vs !! q with Some v => <[q := ok_value]> (<[p := v]> vs) | None => vs end
  | OMoveAssign p q =>
      match vs !! q with
      | Some v => if decide (p = q) then vs else <[q := ok_value]> (<[p := v]> vs)
      | None => vs
      end
  | ODestroy p => delete p vs
  end.

(** Every object owns its array alone, and every array has an owner. *)
Record owned (h : store) : Prop := {
  owned_live : ∀ p s a, objs h !! p = Some s → state_ s = Some a → is_Some (arrays h !! a);
  owned_once : ∀ p p' s s' a, objs h !! p = Some s → objs h !! p' = Some s' → state_ s = Some a → state_ s' = Some a → p = p';
  owned_all : ∀ a t, arrays h !! a = Some t → ∃ p s, objs h !! p = Some s ∧ state_ s = Some a }.

(** An object that holds no array, or does not exist yet. *)
Definition bare (h : store) (p : nat) : Prop := ∀ s, objs h !! p = Some s → state_ s = None.

Definition null_state (s : Status) : Status := mkStatus (code_ s) (subcode_ s) (sev_ s) None.

Lemma put_null h p s :
  owned h → bare h p → state_ s = None →
  owned (mkstore (<[p := s]> (objs h)) (arrays h)) ∧
  values (mkstore (<[p := s]> (objs h)) (arrays h)) = <[p := (code_ s, subcode_ s, sev_ s, None)]> (values h).
Proof.
  intros [Hl Ho Ha] Hp Hs. split; [split; cbn|].
  - intros p' s' a [[<- <-]|[_ H]]%lookup_insert_Some ?; [congruence|eauto].
  - intros p1 p2 s1 s2 a [[<- <-]|[_ H1]]%lookup_insert_Some [[<- <-]|[_ H2]]%lookup_insert_Some; [congruence..|eauto].
  - intros a t Hat. destruct (Ha a t Hat) as (p' & s' & Hp' & Hs'). exists p', s'. split; [|done].
    rewrite lookup_insert_ne; [done|]. intros <-. specialize (Hp s' Hp'). congruence.
  - unfold values. cbn. rewrite fmap_insert. unfold value_of, text. by rewrite Hs.
Qed.

Lemma values_insert_array h b t :
  owned h → arrays h !! b = None → values (mkstore (objs h) (<[b := t]> (arrays h))) = values h.
Proof.
  intros [Hl _ _] Hb. unfold values. cbn. apply map_fmap_ext. intros p s Hp. unfold value_of, text. f_equal. cbn.
  destruct (state_ s) as [a|] eqn:Hs; [|done]. cbn. apply lookup_insert_ne. intros <-. destruct (Hl p s b Hp Hs). congruence.
Qed.

Lemma put_fresh h p s b t :
  owned h → bare h p → state_ s = Some b → arrays h !! b = None →
  owned (mkstore (<[p := s]> (objs h)) (<[b := t]> (arrays h))) ∧
  values (mkstore (<[p := s]> (objs h)) (<[b := t]> (arrays h))) = <[p := (code_ s, subcode_ s, sev_ s, Some t)]> (values h).
Proof.
  intros Hown Hp Hs Hb. pose proof Hown as [Hl Ho Ha].
  assert (∀ q sq, objs h !! q = Some sq → state_ sq ≠ Some b) as Hnew.
  { intros q sq Hq Hsq. destruct (Hl q sq b Hq Hsq). congruence. }
  split; [split; cbn|].
  - intros p' s' a [[<- <-]|[_ H]]%lookup_insert_Some Hs'.
    + rewrite Hs in Hs'. injection Hs' as <-. by rewrite lookup_insert_eq.
    + rewrite lookup_insert_ne; [by eauto|]. intros <-. by eapply Hnew.
  - intros p1 p2 s1 s2 a [[<- <-]|[_ H1]]%lookup_insert_Some [[<- <-]|[_ H2]]%lookup_insert_Some E1 E2; [done| | |by eauto];
      exfalso; simplify_eq; by eapply Hnew.
  - intros a t' [[<- <-]|[_ Hat]]%lookup_insert_Some.
    + exists p, s. by rewrite lookup_insert_eq.
    + destruct (Ha a t' Hat) as (p' & s' & Hp' & Hs'). exists p', s'. split; [|done].
      rewrite lookup_insert_ne; [done|]. intros <-. specialize (Hp s' Hp'). congruence.
  - rewrite <- (values_insert_array h b t Hown Hb). unfold values. cbn. rewrite fmap_insert. unfold value_of, text at 1. rewrite Hs. cbn.
    by rewrite lookup_insert_eq.
Qed.

(** [delete\[\] state_] of an object, which then holds nothing. *)
Lemma drop_array h p s a :
  owned h → objs h !! p = Some s → state_ s = Some a →
  let h' := mkstore (<[p := null_state s]> (objs h)) (delete a (arrays h)) in
  owned h' ∧ bare h' p ∧ ∀ q, q ≠ p → values h' !! q = values h !! q.
Proof.
  intros Hown Hp Hs h'. pose proof Hown as [Hl Ho Ha].
  assert (∀ q sq, q ≠ p → objs h !! q = Some sq → state_ sq ≠ Some a) as Hother.
  { intros q sq Hne Hq Hsq. by apply Hne, (Ho q p sq s a). }
  split_and!; [split; cbn|..].
  - intros p' s' b [[<- <-]|[Hne H]]%lookup_insert_Some Hb; [done|]. rewrite lookup_delete_ne; [by eauto|]. intros <-. by eapply (Hother p').
  - intros p1 p2 s1 s2 b [[<- <-]|[_ H1]]%lookup_insert_Some [[<- <-]|[_ H2]]%lookup_insert_Some; [done..|eauto].
  - intros b t [Hne Hb]%lookup_delete_Some. destruct (Ha b t Hb) as (q & sq & Hq & Hsq). exists q, sq. split; [|done].
    rewrite lookup_insert_ne; [done|]. intros <-. congruence.
  - intros s'. cbn. rewrite lookup_insert_eq. by intros [= <-].
  - intros q Hne. unfold values. rewrite !lookup_fmap. cbn. rewrite lookup_insert_ne by done.
    destruct (objs h !! q) as [sq|] eqn:Hq; [|done]. cbn. unfold value_of, text. do 2 f_equal. cbn.
    destruct (state_ sq) as [b|] eqn:Hb; [|done]. cbn. apply lookup_delete_ne. intros <-. by eapply (Hother q).
Qed.

Section refinement.
Context (CopyState : list byte → list byte) (CopyState_copies : ∀ t, CopyState t = t).

Lemma obj_ok h p s : objs h !! p = Some s → obj p h = ([], Ok (s, h)).
Proof. intros Hp. unfold obj. rewrite (bind_quiet get _ _ _ _ eq_refl). by rewrite Hp. Qed.

(** Deleting the array of [p], seen from the store in which [p] is empty. *)
Lemma delete_array_ok h p s :
  owned h → objs h !! p = Some s →
  ∃ arr, delete_array (state_ s) h = ([], Ok (tt, mkstore (objs h) arr)) ∧
    let h' := mkstore (<[p := null_state s]> (objs h)) arr in
    owned h' ∧ bare h' p ∧ ∀ q, q ≠ p → values h' !! q = values h !! q.
Proof.
  intros Hown Hp. destruct (state_ s) as [a|] eqn:Hs.
  - exists (delete a (arrays h)). split; [|by apply drop_array].
    destruct (owned_live h Hown p s a Hp Hs) as [t Ht]. cbn [delete_array].
    rewrite (bind_quiet get _ _ _ _ eq_refl). by rewrite Ht.
  - exists (arrays h). split; [by destruct h|]. assert (bare h p) as Hb by (intros s' ?; congruence).
    destruct (put_null h p (null_state s) Hown Hb eq_refl) as [Ho' Hv']. cbv zeta. rewrite Hv'. split_and!; [done| |].
    + intros s'. cbn. rewrite lookup_insert_eq. by intros [= <-].
    + intros q Hq. by rewrite lookup_insert_ne.
Qed.

(** Copying the array of [q] for the empty object [p]. *)
Lemma copy_array_ok h os p q sq :
  owned h → bare h p → objs h !! q = Some sq →
  ∃ st arr, copy_array CopyState (state_ sq) (mkstore os (arrays h)) = ([], Ok (st, mkstore os arr)) ∧
    ∀ c sc sv, let h' := mkstore (<[p := mkStatus c sc sv st]> (objs h)) arr in
      owned h' ∧ values h' = <[p := (c, sc, sv, text h sq)]> (values h).
Proof.
  intros Hown Hp Hq. unfold text. destruct (state_ sq) as [a|] eqn:Hs; cycle 1.
  { exists None, (arrays h). split; [done|]. intros c sc sv. by apply (put_null h p (mkStatus c sc sv None)). }
  destruct (owned_live h Hown q sq a Hq Hs) as [t Ht]. exists (Some (fresh (dom (arrays h)))), (<[fresh (dom (arrays h)) := t]> (arrays h)). split.
  - cbn [copy_array]. rewrite (bind_quiet get _ _ _ _ eq_refl). cbn [arrays]. rewrite Ht. cbn [of_option].
    rewrite (bind_quiet (lift (Ok t)) _ _ t _ eq_refl). cbn. by rewrite CopyState_copies.
  - intros c sc sv. cbn. rewrite Ht. apply (put_fresh h p (mkStatus c sc sv _) _ t Hown Hp eq_refl).
    apply not_elem_of_dom, is_fresh.
Qed.

(** Giving the array of [q] to the empty object [p]. *)
Lemma move_array h p q sq :
  owned h → bare h p → p ≠ q → objs h !! q = Some sq →
  let h' := mkstore (<[q := Status_new]> (<[p := sq]> (objs h))) (arrays h) in
  owned h' ∧ values h' = <[q := ok_value]> (<[p := value_of h sq]> (values h)).
Proof.
  intros [Hl Ho Ha] Hp Hne Hq h'. split; [split; cbn|].
  - intros p' s' a [[<- <-]|[_ [[<- <-]|[_ H]]%lookup_insert_Some]]%lookup_insert_Some Hs'; [done|by eauto..].
  - intros p1 p2 s1 s2 a H1 H2 E1 E2.
    apply lookup_insert_Some in H1 as [[<- <-]|[N1 [[<- <-]|[M1 H1]]%lookup_insert_Some]]; [done|..];
      apply lookup_insert_Some in H2 as [[<- <-]|[N2 [[<- <-]|[M2 H2]]%lookup_insert_Some]]; try done.
    + destruct N2. by apply (Ho q p2 sq s2 a).
    + destruct N1. by apply (Ho q p1 sq s1 a).
    + by apply (Ho p1 p2 s1 s2 a).
  - intros a t Hat. destruct (Ha a t Hat) as (p' & s' & Hp' & Hs'). destruct (decide (p' = q)) as [->|Hne'].
    + exists p, sq. rewrite lookup_insert_ne, lookup_insert_eq by done. split; [done|congruence].
    + exists p', s'. split; [|done]. rewrite !lookup_insert_ne; [done| |done]. intros <-. specialize (Hp s' Hp'). congruence.
  - unfold values. cbn. by rewrite !fmap_insert.
Qed.

Lemma insert_agree {V} (m m' : gmap nat V) p v : (∀ q, q ≠ p → m !! q = m' !! q) → <[p := v]> m = <[p := v]> m'.
Proof.
  intros Hm. apply map_eq. intros q. destruct (decide (q = p)) as [->|]; [by rewrite !lookup_insert_eq|].
  rewrite !lookup_insert_ne by done. auto.
Qed.

Lemma values_lookup h p : values h !! p = value_of h <$> objs h !! p.
Proof. apply lookup_fmap. Qed.

Definition op_ok (o : op) : Prop :=
  ∀ h, owned h → allowed o (dom (objs h)) →
    ∃ h', do_op CopyState o h = ([], Ok (tt, h')) ∧ owned h' ∧ values h' = spec_op o (values h) ∧
      dom (objs h') = alive_after o (dom (objs h)).

Lemma make_ok p c sc msg : op_ok (OMake p c sc msg).
Proof.
  intros h Hown Hp%not_elem_of_dom. assert (bare h p) as Hb by (intros s ?; congruence). cbn [do_op]. unfold make.
  destruct msg as [t|].
  - eexists. split; [by rewrite (bind_quiet get _ _ _ _ eq_refl), (bind_quiet (modify _) _ _ _ _ eq_refl)|]. cbn [objs arrays].
    edestruct (put_fresh h p (mkStatus c sc kNoError (Some (fresh (dom (arrays h))))) _ t Hown Hb eq_refl) as [Ho Hv];
      [apply not_elem_of_dom, is_fresh|]. split_and!; [done|done|]. cbn. by rewrite dom_insert_L.
  - eexists. split; [done|]. destruct (put_null h p (Status_of c sc) Hown Hb eq_refl) as [Ho Hv]. split_and!; [done|done|].
    cbn. by rewrite dom_insert_L.
Qed.

Lemma copy_ok p q sev : op_ok (OCopy p q sev).
Proof.
  intros h Hown [Hp%not_elem_of_dom [sq Hq]%elem_of_dom]. assert (bare h p) as Hb by (intros s ?; congruence).
  destruct (copy_array_ok h (objs h) p q sq Hown Hb Hq) as (st & arr & Hc & Hres).
  destruct (Hres (code_ sq) (subcode_ sq) (default (sev_ sq) sev)) as [Ho Hv].
  eexists. cbn [do_op]. unfold copy_construct. split_and!.
  - rewrite (bind_quiet _ _ _ _ _ (obj_ok _ _ _ Hq)). replace h with (mkstore (objs h) (arrays h)) at 1 by (by destruct h).
    by rewrite (bind_quiet _ _ _ _ _ Hc).
  - done.
  - cbn. rewrite values_lookup, Hq. exact Hv.
  - cbn. by rewrite dom_insert_L.
Qed.

Lemma assign_ok p q : op_ok (OAssign p q).
Proof.
  intros h Hown [[sp Hp]%elem_of_dom [sq Hq]%elem_of_dom]. cbn [do_op]. unfold copy_assign. destruct (decide (p = q)) as [<-|Hne].
  { exists h. split_and!; try done. cbn. rewrite values_lookup, Hp. cbn. symmetry. apply insert_id. by rewrite values_lookup, Hp. }
  destruct (delete_array_ok h p sp Hown Hp) as (arr & Hd & Ho1 & Hb1 & Hv1).
  set (h1 := mkstore (<[p := null_state sp]> (objs h)) arr) in *.
  assert (objs h1 !! q = Some sq) as Hq1 by (cbn; by rewrite lookup_insert_ne).
  destruct (copy_array_ok h1 (objs h) p q sq Ho1 Hb1 Hq1) as (st & arr' & Hc & Hres).
  destruct (Hres (code_ sq) (subcode_ sq) (sev_ sq)) as [Ho Hv]. cbv zeta in Ho, Hv.
  change (objs h1) with (<[p := null_state sp]> (objs h)) in Ho, Hv. rewrite insert_insert_eq in Ho, Hv.
  exists (mkstore (<[p := mkStatus (code_ sq) (subcode_ sq) (sev_ sq) st]> (objs h)) arr'). split_and!.
  - rewrite (bind_quiet _ _ _ _ _ (obj_ok _ _ _ Hq)), (bind_quiet _ _ _ _ _ (obj_ok _ _ _ Hp)), (bind_quiet _ _ _ _ _ Hd).
    by rewrite (bind_quiet _ _ _ _ _ Hc).
  - exact Ho.
  - rewrite Hv. pose proof (Hv1 q ltac:(done)) as Hvq. rewrite !values_lookup, Hq1, Hq in Hvq. injection Hvq as Hvq.
    unfold spec_op. rewrite values_lookup, Hq. cbn. unfold value_of. rewrite Hvq. by apply insert_agree.
  - cbn. rewrite dom_insert_lookup_L by done. done.
Qed.

Lemma move_assign_ok p q : op_ok (OMoveAssign p q).
Proof.
  intros h Hown [[sp Hp]%elem_of_dom [sq Hq]%elem_of_dom]. cbn [do_op]. unfold move_assign. destruct (decide (p = q)) as [<-|Hne].
  { exists h. split_and!; try done. cbn. rewrite values_lookup, Hp. cbn. by rewrite decide_True. }
  destruct (delete_array_ok h p sp Hown Hp) as (arr & Hd & Ho1 & Hb1 & Hv1).
  set (h1 := mkstore (<[p := null_state sp]> (objs h)) arr) in *.
  assert (objs h1 !! q = Some sq) as Hq1 by (cbn; by rewrite lookup_insert_ne).
  destruct (move_array h1 p q sq Ho1 Hb1 Hne Hq1) as [Ho Hv]. cbv zeta in Ho, Hv.
  change (objs h1) with (<[p := null_state sp]> (objs h)) in Ho, Hv. rewrite insert_insert_eq in Ho, Hv.
  exists (mkstore (<[q := Status_new]> (<[p := sq]> (objs h))) arr). split_and!.
  - rewrite (bind_quiet _ _ _ _ _ (obj_ok _ _ _ Hq)), (bind_quiet _ _ _ _ _ (obj_ok _ _ _ Hp)), (bind_quiet _ _ _ _ _ Hd).
    rewrite (bind_quiet (set_obj _ _) _ _ _ _ eq_refl). by destruct sq.
  - exact Ho.
  - etransitivity; [exact Hv|]. pose proof (Hv1 q ltac:(done)) as Hvq. rewrite !values_lookup, Hq1, Hq in Hvq. injection Hvq as Hvq.
    unfold spec_op. rewrite values_lookup, Hq. cbn [fmap option_fmap option_map]. rewrite decide_False by done. unfold value_of. rewrite Hvq. f_equal. by apply insert_agree.
  - cbn. rewrite !dom_insert_L. apply elem_of_dom_2 in Hp, Hq. set_solver.
Qed.

Lemma move_ok p q : op_ok (OMove p q).
Proof.
  intros h Hown [Hp%not_elem_of_dom Hq]. pose proof Hq as [sq Hsq]%elem_of_dom.
  assert (p ≠ q) as Hne by (intros ->; congruence). assert (bare h p) as Hb by (intros s ?; congruence).
  destruct (put_null h p Status_new Hown Hb eq_refl) as [Ho1 Hv1].
  destruct (move_assign_ok p q (mkstore (<[p := Status_new]> (objs h)) (arrays h)) Ho1) as (h' & Hrun & Ho & Hv & Hdom).
  { cbn. rewrite dom_insert_L. set_solver. }
  exists h'. split_and!; [|done| |].
  - cbn [do_op]. unfold move_construct. by rewrite (bind_quiet (set_obj _ _) _ _ _ _ eq_refl).
  - rewrite Hv, Hv1. cbn. rewrite lookup_insert_ne, values_lookup, Hsq by done. cbn. by rewrite decide_False, insert_insert_eq by done.
  - rewrite Hdom. cbn. by rewrite dom_insert_L.
Qed.

Lemma destroy_ok p : op_ok (ODestroy p).
Proof.
  intros h Hown Hin. cbn in Hin. apply elem_of_dom in Hin as [sp Hp]. destruct (delete_array_ok h p sp Hown Hp) as (arr & Hd & [Hl Ho Ha] & Hb & Hv).
  cbn in Hl, Ho, Ha. exists (mkstore (delete p (objs h)) arr). split_and!.
  - cbn [do_op]. unfold destroy. by rewrite (bind_quiet _ _ _ _ _ (obj_ok _ _ _ Hp)), (bind_quiet _ _ _ _ _ Hd).
  - split; cbn.
    + intros p' s a [Hne H]%lookup_delete_Some. apply (Hl p'). by rewrite lookup_insert_ne.
    + intros p1 p2 s1 s2 a [N1 H1]%lookup_delete_Some [N2 H2]%lookup_delete_Some. apply Ho; by rewrite lookup_insert_ne.
    + intros a t Hat. destruct (Ha a t Hat) as (q & sq & Hq & Hs). exists q, sq. split; [|done].
      apply lookup_insert_Some in Hq as [[<- <-]|[Hne Hq]]; [done|]. by rewrite lookup_delete_ne.
  - apply map_eq. intros q. cbn [spec_op]. destruct (decide (q = p)) as [->|Hne].
    + rewrite values_lookup. cbn [objs]. by rewrite !lookup_delete_eq.
    + rewrite lookup_delete_ne, <- Hv, !values_lookup by done. cbn [objs]. by rewrite lookup_delete_ne, lookup_insert_ne.
  - cbn. by rewrite dom_delete_L.
Qed.

Lemma do_op_ok o : op_ok o.
Proof. destruct o; auto using make_ok, copy_ok, move_ok, assign_ok, move_assign_ok, destroy_ok. Qed.

Lemma run_ops_ok os h :
  owned h → allowed_all os (dom (objs h)) →
  ∃ h', run_ops CopyState os h = ([], Ok (tt, h')) ∧ owned h' ∧ values h' = foldl (flip spec_op) (values h) os.
Proof.
  revert h. induction os as [|o os IH]; intros h Hown; cbn [allowed_all]; [by exists h|]. intros [Ho Hos].
  destruct (do_op_ok o h Hown Ho) as (h1 & Hrun & Hown1 & Hv & Hd). rewrite <- Hd in Hos.
  destruct (IH h1 Hown1 Hos) as (h' & Hrun' & Hown' & Hv'). exists h'. split_and!; [|done|by rewrite Hv', Hv].
  unfold run_ops. cbn [for_each]. by rewrite (bind_quiet _ _ _ _ _ Hrun).
Qed.

(** [Status] has value semantics: whatever constructions, copies, moves,
    assignments and destructions a program makes on objects that exist, none
    of them deletes an array twice or touches a freed one; every object has the
    codes and the text that the operations on plain values give; and when the
    last object is gone no array is left. *)
Theorem status_value_semantics os :
  allowed_all os ∅ →
  ∃ h, run_ops CopyState os (mkstore ∅ ∅) = ([], Ok (tt, h)) ∧
    values h = foldl (flip spec_op) ∅ os ∧ (objs h = ∅ → arrays h = ∅).
Proof.
  intros Hos. destruct (run_ops_ok os (mkstore ∅ ∅)) as (h & Hrun & Hown & Hv).
  - split; cbn; intros *; by rewrite lookup_empty.
  - cbn. by rewrite dom_empty_L.
  - exists h. split_and!; [done| |].
    + rewrite Hv. f_equal.
    + intros Hobjs. apply map_empty. intros a. destruct (arrays h !! a) as [t|] eqn:Hat; [|done].
      destruct (owned_all h Hown a t Hat) as (p & s & Hp & _). by rewrite Hobjs, lookup_empty in Hp.
Qed.
End refinement.

(** [Status s = DB::Write(...)], a copy of it, and the end of the scope. *)
Definition demo_ops : list op :=
  [OMake 0 kIOError kNone (Some [Byte.x61]); OMove 1 0; ODestroy 0; OCopy 2 1 None; OAssign 1 2; OMoveAssign 2 1; ODestroy 2; ODestroy 1].

Lemma status_value_semantics_witness :
  ∃ h, run_ops (λ t, t) demo_ops (mkstore ∅ ∅) = ([], Ok (tt, h)) ∧ arrays h = ∅.
Proof.
  destruct (status_value_semantics (λ t, t) (λ t, eq_refl) demo_ops) as (h & Hrun & Hv & Hempty).
  - cbn. set_solver.
  - exists h. split; [exact Hrun|]. apply Hempty. apply (f_equal dom) in Hv. unfold values in Hv. rewrite dom_fmap_L in Hv.
    apply dom_empty_inv_L. rewrite Hv. vm_compute. reflexivity.
Defined.

End Status.

Module Slice.
Import StringPiece.

(** [data_] with the memory behind it, or null, and [size_] *)
Record Slice := mkSlice { data_ : option (list byte); size_ : Z }.

(** [Slice()], [Slice(const char *, size_t)], [Slice(const std::string &)] and
    [Slice(const char *s)] of a string that ends with a zero byte *)
Definition Slice_new : Slice := mkSlice (Some []) 0.
Definition of_range (d : option (list byte)) (n : Z) : Slice := mkSlice d n.
Definition of_string (s : list byte) : Slice := mkSlice (Some s) (len s).
Fixpoint strlen (s : list byte) : result Z :=
  match s with
  | [] => Err OutOfBounds
  | c :: s' => if decide (c = Byte.x00) then Ok 0 else let? n := strlen s' in Ok (n + 1)
  end.
Definition of_c_string (s : option (list byte)) : result Slice :=
  match s with None => Ok (mkSlice None 0) | Some m => let? n := strlen m in Ok (mkSlice (Some m) n) end.

Definition size (s : Slice) : Z := size_ s.
Definition empty (s : Slice) : bool := size_ s =? 0.
Definition clear (s : Slice) : Slice := mkSlice (Some []) 0.

(** The memory behind the pointer. *)
Definition mem (s : Slice) : result (list byte) := of_option (data_ s) NullDeref.

(** [operator\[\]], [remove_prefix] and [remove_suffix] *)
Definition at_ (s : Slice) (n : Z) : result byte :=
  let? _ := Buffer.assert_ (n <? size_ s) in
  let? m := mem s in of_option (m !! Z.to_nat n) OutOfBounds.
Definition remove_prefix (n : Z) (s : Slice) : result Slice :=
  let? _ := Buffer.assert_ (n <=? size_ s) in
  Ok (mkSlice (drop (Z.to_nat n) <$> data_ s) (size_ s - n)).
Definition remove_suffix (n : Z) (s : Slice) : result Slice :=
  let? _ := Buffer.assert_ (n <=? size_ s) in Ok (mkSlice (data_ s) (size_ s - n)).

(** [operator==] and [operator!=] *)
Definition equal (x y : Slice) : result bool :=
  if size_ x =? size_ y then
    let? mx := mem x in let? my := mem y in
    let? r := memcmp (Z.to_nat (size_ x)) mx my in Ok (r =? 0)
  else Ok false.
Definition not_equal (x y : Slice) : result bool := let? e := equal x y in Ok (negb e).

Definition compare (s b : Slice) : result Z :=
  let? _ := Buffer.assert_ (bool_decide (is_Some (data_ s)) && bool_decide (is_Some (data_ b))) in
  let? ms := mem s in let? mb := mem b in
  let min_len := if size_ s <? size_ b then size_ s else size_ b in
  let? r := memcmp (Z.to_nat min_len) ms mb in
  Ok (if r =? 0 then if size_ s <? size_ b then -1 else if size_ b <? size_ s then 1 else r else r).

Definition starts_with (s x : Slice) : result bool :=
  if size_ x <=? size_ s then
    let? ms := mem s in let? mx := mem x in
    let? r := memcmp (Z.to_nat (size_ x)) ms mx in Ok (r =? 0)
  else Ok false.
Definition ends_with (s x : Slice) : result bool :=
  if size_ x <=? size_ s then
    let? ms := mem s in let? mx := mem x in
    let? r := memcmp (Z.to_nat (size_ x)) (drop (Z.to_nat (size_ s - size_ x)) ms) mx in Ok (r =? 0)
  else Ok false.

(** The loop of [difference_offset], over the bytes from [off] on *)
Fixpoint difference_loop (n : nat) (a b : list byte) (off : Z) : result Z :=
  match n with
  | O => Ok off
  | S n =>
      match a, b with
      | x :: a, y :: b => if decide (x = y) then difference_loop n a b (off + 1) else Ok off
      | _, _ => Err OutOfBounds
      end
  end.
Definition difference_offset (s b : Slice) : result Z :=
  let? ms := mem s in let? mb := mem b in
  difference_loop (Z.to_nat (if size_ s <? size_ b then size_ s else size_ b)) ms mb 0.

(** ** Slices and the bytes they show *)

(** A slice lies within its memory; its bytes. *)
Definition wf_slice (s : Slice) : Prop := match data_ s with Some m => 0 ≤ size_ s ≤ len m | None => False end.
Definition shown (s : Slice) : list byte := take (Z.to_nat (size_ s)) (default [] (data_ s)).

Definition piece (s : Slice) : StringPiece := mkPiece (default [] (data_ s)) (size_ s).

Lemma wf_slice_inv s : wf_slice s → mem s = Ok (default [] (data_ s)) ∧ wf_piece (piece s) ∧ is_Some (data_ s).
Proof. unfold wf_slice, wf_piece, mem, piece. cbn. destruct (data_ s); [|done]. intros [H1 H2]. split_and!; [done|exact H1|exact H2|by eexists]. Qed.

Lemma compare_piece s b : wf_slice s → wf_slice b → compare s b = StringPiece.compare (piece s) (piece b).
Proof.
  intros (Hs & _ & Hds)%wf_slice_inv (Hb & _ & Hdb)%wf_slice_inv. unfold compare. rewrite Hs, Hb, !bool_decide_true by done. done.
Qed.

Lemma equal_piece s b : wf_slice s → wf_slice b → equal s b = StringPiece.equal (piece s) (piece b).
Proof.
  intros (Hs & _)%wf_slice_inv (Hb & _)%wf_slice_inv. unfold equal. rewrite Hs, Hb. done.
Qed.

Lemma starts_piece s b : wf_slice s → wf_slice b → starts_with s b = StringPiece.starts_with (piece s) (piece b).
Proof.
  intros (Hs & _)%wf_slice_inv (Hb & _)%wf_slice_inv. unfold starts_with. rewrite Hs, Hb. done.
Qed.

(** The end of a slice is a slice. *)
Lemma ends_starts s x :
  wf_slice s → wf_slice x → size_ x ≤ size_ s →
  let tail := mkSlice (drop (Z.to_nat (size_ s - size_ x)) <$> data_ s) (size_ x) in
  wf_slice tail ∧ ends_with s x = starts_with tail x ∧ shown tail = drop (Z.to_nat (size_ s - size_ x)) (shown s).
Proof.
  intros Hs Hx Hle tail. unfold wf_slice, ends_with, starts_with, shown, mem in *. cbn.
  destruct (data_ s) as [m|]; [|done]. destruct (data_ x) as [mx|]; [|done]. cbn in *. split_and!.
  - lia.
  - rewrite length_drop. lia.
  - by destruct (Z.leb_spec (size_ x) (size_ s)), (Z.leb_spec (size_ x) (size_ x)); try lia.
  - rewrite skipn_firstn_comm. f_equal. lia.
Qed.

Lemma difference_loop_ok n a b off :
  (n ≤ length a)%nat → (n ≤ length b)%nat →
  ∃ k, difference_loop n a b off = Ok (off + Z.of_nat k) ∧ (k ≤ n)%nat ∧ take k a = take k b ∧
    ((k < n)%nat → a !! k ≠ b !! k).
Proof.
  revert a b off. induction n as [|n IH]; intros a b off Ha Hb.
  { exists 0%nat. split_and!; [by rewrite Z.add_0_r|done|done|lia]. }
  destruct a as [|x a]; [cbn in Ha; lia|]. destruct b as [|y b]; [cbn in Hb; lia|]. cbn [difference_loop].
  destruct (decide (x = y)) as [->|Hne].
  - destruct (IH a b (off + 1)) as (k & Hk & Hkn & Ht & Hd); [cbn in *; lia..|]. exists (S k). split_and!.
    + rewrite Hk. f_equal. lia.
    + lia.
    + cbn. by rewrite Ht.
    + intros Hlt. apply Hd. lia.
  - exists 0%nat. split_and!; [by rewrite Z.add_0_r|lia|done|]. cbn. congruence.
Qed.

Lemma shown_length s : wf_slice s → length (shown s) = Z.to_nat (size_ s) ∧ 0 ≤ size_ s.
Proof. unfold wf_slice, shown. destruct (data_ s); [|done]. cbn. intros. rewrite length_take. lia. Qed.

Lemma ends_with_suffix s x :
  wf_slice s → wf_slice x → ends_with s x = Ok (bool_decide (shown x `suffix_of` shown s)).
Proof.
  intros Hs Hx. destruct (shown_length s Hs) as [Hls ?], (shown_length x Hx) as [Hlx ?].
  destruct (Z.leb_spec (size_ x) (size_ s)) as [Hle|Hgt]; cycle 1.
  { unfold ends_with. destruct (Z.leb_spec (size_ x) (size_ s)); [lia|]. rewrite bool_decide_false; [done|].
    intros Hsuf%suffix_length. lia. }
  destruct (ends_starts s x Hs Hx Hle) as (Hw & -> & Htail). set (tail := mkSlice _ _) in *.
  rewrite starts_piece, piece_starts_with by (done || by apply wf_slice_inv). f_equal. apply bool_decide_ext.
  change (bytes (piece tail)) with (shown tail). change (bytes (piece x)) with (shown x). rewrite Htail. split.
  - intros [k Hk]. assert (k = []) as -> by (apply nil_length_inv; apply (f_equal length) in Hk; rewrite length_app, length_drop in Hk; lia).
    rewrite app_nil_r in Hk. rewrite <- Hk. apply suffix_drop.
  - intros [k Hk]. exists []. rewrite app_nil_r, Hk. rewrite drop_app_length'; [done|]. apply (f_equal length) in Hk. rewrite length_app in Hk. lia.
Qed.

Lemma difference_first s x :
  wf_slice s → wf_slice x →
  ∃ k, difference_offset s x = Ok (Z.of_nat k) ∧ take k (shown s) = take k (shown x) ∧
    ((k < length (shown s))%nat → (k < length (shown x))%nat → shown s !! k ≠ shown x !! k).
Proof.
  intros Hs Hx. destruct (shown_length s Hs) as [Hls ?], (shown_length x Hx) as [Hlx ?].
  pose proof Hs as (Hms & [_ Hps] & _)%wf_slice_inv. pose proof Hx as (Hmx & [_ Hpx] & _)%wf_slice_inv. cbn in Hps, Hpx.
  unfold difference_offset. rewrite Hms, Hmx. cbn [rbind]. set (n := Z.to_nat _).
  assert (n = Nat.min (Z.to_nat (size_ s)) (Z.to_nat (size_ x))) as Hn by (unfold n; destruct (Z.ltb_spec (size_ s) (size_ x)); lia).
  destruct (difference_loop_ok n (default [] (data_ s)) (default [] (data_ x)) 0) as (k & Hk & Hkn & Ht & Hd); [lia..|].
  exists k. unfold shown. split_and!; [done|by rewrite !take_take, !Nat.min_l by lia|].
  intros Hks Hkx. rewrite !length_take in Hks, Hkx. rewrite !lookup_take_lt by lia. apply Hd. lia.
Qed.

(** Slices that lie in their memory are compared as the byte strings they
    show, without an assertion or an access outside: [compare] is the
    lexicographic order, [==] is equality, [starts_with] and [ends_with] are
    prefix and suffix, and [difference_offset] is where the two first differ. *)
Theorem slice_compares_bytes s x :
  wf_slice s → wf_slice x →
  compare s x = Ok (sign (lex (shown s) (shown x))) ∧
  equal s x = Ok (bool_decide (shown s = shown x)) ∧
  starts_with s x = Ok (bool_decide (shown x `prefix_of` shown s)) ∧
  ends_with s x = Ok (bool_decide (shown x `suffix_of` shown s)) ∧
  ∃ k, difference_offset s x = Ok (Z.of_nat k) ∧ take k (shown s) = take k (shown x) ∧
    ((k < length (shown s))%nat → (k < length (shown x))%nat → shown s !! k ≠ shown x !! k).
Proof.
  intros Hs Hx. pose proof Hs as (Hms & Hps & _)%wf_slice_inv. pose proof Hx as (Hmx & Hpx & _)%wf_slice_inv. split_and!.
  - rewrite compare_piece by done. by apply piece_compare_lex.
  - rewrite equal_piece by done. by apply piece_equal_bytes.
  - rewrite starts_piece by done. by apply piece_starts_with.
  - by apply ends_with_suffix.
  - by apply difference_first.
Qed.

(** The key of a batch and the empty slice. *)
Lemma slice_compares_bytes_witness :
  compare (of_string [Byte.x61; Byte.x62]) Slice_new = Ok 1 ∧ ends_with (of_string [Byte.x61; Byte.x62]) (of_string [Byte.x62]) = Ok true.
Proof.
  assert (wf_slice (of_string [Byte.x61; Byte.x62]) ∧ wf_slice (of_string [Byte.x62]) ∧ wf_slice Slice_new) as (H1 & H2 & H3)
    by (repeat split; vm_compute; congruence).
  split.
  - exact (proj1 (slice_compares_bytes _ _ H1 H3)).
  - rewrite (proj1 (proj2 (proj2 (proj2 (slice_compares_bytes _ _ H1 H2))))). vm_compute. reflexivity.
Defined.

End Slice.
