(* ===== verification/Hash.v ===== *)
(** * The conflict-check hash table (src/base/hash.h)

    [Mhash] is an open-chaining table of (key, lsn) records: an array [head]
    of [primeNum\[numPoint_\]] chains.  A chain is the list of the records
    reached through [next]; [insert(Info)] is called by [rehash]
    with the head of a whole old chain, so it takes a chain.  [std::hash] is
    a parameter.

    [sum_] is kept exact: [++sum_] would overflow its [int] after 2^31
    insertions, which is not modelled; the old array of a rehash is not used
    after the loop, and its [free] has no counterpart here. *)

From stdpp Require Import base strings list sets.
From S2P Require Import Prelude.

Module Mhash.

(** [struct Info], without its [next] *)
Record Info := mkInfo { key : string; lsn : Z }.

#[export] Instance Info_eq_dec : EqDecision Info.
Proof. solve_decision. Defined.

(** [operator==] *)
Definition Info_eqb (a b : Info) : bool := String.eqb (key a) (key b) && (lsn a =? lsn b).

Lemma Info_eqb_eq a b : Info_eqb a b = true ↔ a = b.
Proof.
  unfold Info_eqb. rewrite andb_true_iff, String.eqb_eq, Z.eqb_eq. destruct a, b; cbn. naive_solver.
Qed.

(** The records reached from a pointer through [next]; never empty when the
    pointer is not null. *)
Abbreviation chain := (list Info).

Record Mhash := mkMhash { head : list chain; numPoint_ : nat; sum_ : Z }.

Definition primeNum : list Z :=
  [23; 29; 31; 37; 41; 43; 47; 53; 59; 61; 67; 71; 73; 79; 83; 89; 97].

Definition prime_at (i : nat) : result Z := of_option (primeNum !! i) OutOfBounds.

(** [calloc(primeNum\[numPoint_\], sizeof(Info))] *)
Definition calloc (n : Z) : list chain := replicate (Z.to_nat n) [].

(** [Mhash::Mhash()] *)
Definition new : Mhash :=
  {| head := calloc 23; numPoint_ := 0; sum_ := 0 |}.

Section mhash.

(** [std::hash<std::string>] *)
Context (std_hash : string → Z).

(** [getPos(std::string)] and [getPos(Info)]; the [size_t]
    remainder fits an [int]. *)
Definition getPos (key : string) (h : Mhash) : result nat :=
  let? p := prime_at (numPoint_ h) in
  Ok (Z.to_nat (std_hash key mod p)).

Definition getPos_info (i : Info) (h : Mhash) : result nat := getPos (key i) h.

(** Append the chain [c] after the last record of bucket [pos]. *)
Definition link (pos : nat) (c : chain) (h : Mhash) : result Mhash :=
  let? old := of_option (head h !! pos) OutOfBounds in
  Ok {| head := <[pos := old ++ c]> (head h);
        numPoint_ := numPoint_ h; sum_ := sum_ h |}.

(** The loop of [rehash]: [i] runs while [i < primeNum\[numPoint_ - 1\]],
    read again on every iteration; [told] is the old array [t]. *)
Fixpoint rehash_loop (ins : chain → Mhash → result Mhash) (told : list chain)
    (fuel i : nat) (h : Mhash) : result Mhash :=
  let? bound := prime_at (numPoint_ h - 1) in
  if bound <=? Z.of_nat i then Ok h
  else
    match fuel with
    | O => Err OutOfFuel
    | S fuel' =>
        let? c := of_option (told !! i) OutOfBounds in
        let? h' := (match c with [] => Ok h | _ => ins c h end) in
        rehash_loop ins told fuel' (S i) h'
    end.

(** No array is longer than the largest prime. *)
Definition rehash_fuel : nat := 98.

(** [insert(Info)] and [rehash()], which call each other; [fuel]
    bounds the nesting of [rehash], each one moving [numPoint_] forward. *)
Fixpoint insert_chain (fuel : nat) (c : chain) (h : Mhash) : result Mhash :=
  match c with
  | [] => Err NullDeref
  | i :: _ =>
      let? pos := getPos_info i h in
      let? h := link pos c h in
      let h := {| head := head h; numPoint_ := numPoint_ h; sum_ := sum_ h + 1 |} in
      let? p := prime_at (numPoint_ h) in
      if sum_ h =? p - 1 then
        match fuel with
        | O => Err OutOfFuel
        | S fuel' =>
            let told := head h in
            let? q := prime_at (S (numPoint_ h)) in
            rehash_loop (insert_chain fuel') told rehash_fuel 0
              {| head := calloc q; numPoint_ := S (numPoint_ h); sum_ := sum_ h |}
        end
      else Ok h
  end.

Definition insert_fuel : nat := 17.

(** [rehash()], as [insert] reaches it. *)
Definition rehash (h : Mhash) : result Mhash :=
  let? q := prime_at (S (numPoint_ h)) in
  rehash_loop (insert_chain insert_fuel) (head h) rehash_fuel 0
    {| head := calloc q; numPoint_ := S (numPoint_ h); sum_ := sum_ h |}.

(** [insert(std::string, int)] *)
Definition insert (k : string) (l : Z) (h : Mhash) : result Mhash :=
  insert_chain insert_fuel [mkInfo k l] h.

(** [exist(std::string)] *)
Definition exist (key : string) (h : Mhash) : result bool :=
  let? pos := getPos key h in
  let? c := of_option (head h !! pos) OutOfBounds in
  Ok (match c with [] => false | _ => true end).

(** The loop of [delLessThan]: it reads [info->lsn] before testing [info]
    for null; returns what is left and how many records were deleted. *)
Fixpoint del_loop (info : chain) (lsn0 : Z) : result (chain * Z) :=
  match info with
  | [] => Err NullDeref
  | t :: next =>
      if lsn t <? lsn0 then
        let? (rest, n) := del_loop next lsn0 in Ok (rest, n + 1)
      else Ok (info, 0)
  end.

(** [delLessThan(std::string, int)] *)
Definition delLessThan (k : string) (lsn0 : Z) (h : Mhash) : result Mhash :=
  let? pos := getPos k h in
  let? c := of_option (head h !! pos) OutOfBounds in
  let? (rest, n) := del_loop c lsn0 in
  Ok {| head := <[pos := rest]> (head h); numPoint_ := numPoint_ h; sum_ := sum_ h - n |}.

(** Insert a list of (key, lsn) pairs, left to right. *)
Fixpoint insert_all (l : list (string * Z)) (h : Mhash) : result Mhash :=
  match l with
  | [] => Ok h
  | (k, v) :: l' => let? h' := insert k v h in insert_all l' h'
  end.

(** ** Invariant: the array has as many buckets as the current prime *)

Definition wf (h : Mhash) : Prop :=
  ∃ p, primeNum !! numPoint_ h = Some p ∧ length (head h) = Z.to_nat p.

(** Every record of the table, bucket by bucket. *)
Definition records (h : Mhash) : list Info := concat (head h).

(** The bucket of a key under prime [p]. *)
Definition bucket (p : Z) (k : string) : nat := Z.to_nat (std_hash k mod p).

Lemma prime_pos i p : primeNum !! i = Some p → 0 < p ≤ 97.
Proof.
  intros H. apply list_elem_of_lookup_2 in H.
  assert (Forall (λ p, 0 < p ≤ 97) primeNum) as HF by (repeat constructor; lia).
  rewrite Forall_forall in HF. auto.
Qed.

Lemma prime_mono i j p q :
  (i ≤ j)%nat → primeNum !! i = Some p → primeNum !! j = Some q → p ≤ q.
Proof.
  intros Hij Hi Hj. pose proof (lookup_lt_Some _ _ _ Hj) as Hl. cbn in Hl.
  do 17 (destruct j as [|j]; [do 17 (destruct i as [|i]; [cbn in *; simplify_eq; lia|]); lia|]).
  lia.
Qed.

Lemma wf_new : wf new.
Proof. exists 23. done. Qed.

Lemma calloc_length n : length (calloc n) = Z.to_nat n.
Proof. apply length_replicate. Qed.

Lemma calloc_concat n : concat (calloc n) = [].
Proof. unfold calloc. induction (Z.to_nat n); cbn; done. Qed.

Lemma bucket_lt p k : 0 < p → (bucket p k < Z.to_nat p)%nat.
Proof. intros Hp. unfold bucket. pose proof (Z.mod_pos_bound (std_hash k) p Hp). lia. Qed.

(** On a well-formed table the bucket of a key exists. *)
Lemma wf_bucket h k :
  wf h → ∃ p c, primeNum !! numPoint_ h = Some p ∧
    getPos k h = Ok (bucket p k) ∧ head h !! bucket p k = Some c.
Proof.
  intros (p & Hp & Hl). destruct (prime_pos _ _ Hp) as [Hp0 _].
  destruct (lookup_lt_is_Some_2 (head h) (bucket p k)) as [c Hc].
  { rewrite Hl. by apply bucket_lt. }
  exists p, c. unfold getPos, prime_at. by rewrite Hp.
Qed.

Lemma concat_insert_app (l : list chain) i c d :
  l !! i = Some c → concat (<[i := c ++ d]> l) ≡ₚ concat l ++ d.
Proof.
  revert i. induction l as [|x l IH]; intros [|i] Hi; cbn in *; simplify_eq.
  - rewrite <- !app_assoc. apply Permutation_app_head, Permutation_app_comm.
  - rewrite (IH _ Hi). by rewrite app_assoc.
Qed.

Lemma insert_chain_unfold fuel i c h :
  insert_chain fuel (i :: c) h =
    (let? pos := getPos (key i) h in
     let? h := link pos (i :: c) h in
     let h := {| head := head h; numPoint_ := numPoint_ h; sum_ := sum_ h + 1 |} in
     let? p := prime_at (numPoint_ h) in
     if sum_ h =? p - 1 then
       match fuel with
       | O => Err OutOfFuel
       | S fuel' =>
           let? q := prime_at (S (numPoint_ h)) in
           rehash_loop (insert_chain fuel') (head h) rehash_fuel 0
             {| head := calloc q; numPoint_ := S (numPoint_ h); sum_ := sum_ h |}
       end
     else Ok h).
Proof. by destruct fuel. Qed.

(** One [insert] step on a well-formed table, before the load test. *)
Lemma insert_chain_wf fuel i c h :
  wf h → ∃ p old,
    primeNum !! numPoint_ h = Some p ∧ head h !! bucket p (key i) = Some old ∧
    insert_chain fuel (i :: c) h =
      let head' := <[bucket p (key i) := old ++ i :: c]> (head h) in
      if sum_ h + 1 =? p - 1 then
        match fuel with
        | O => Err OutOfFuel
        | S fuel' =>
            let? q := prime_at (S (numPoint_ h)) in
            rehash_loop (insert_chain fuel') head' rehash_fuel 0
              {| head := calloc q; numPoint_ := S (numPoint_ h); sum_ := sum_ h + 1 |}
        end
      else Ok {| head := head'; numPoint_ := numPoint_ h; sum_ := sum_ h + 1 |}.
Proof.
  intros Hwf. destruct (wf_bucket h (key i) Hwf) as (p & old & Hp & Hpos & Hold).
  exists p, old. split; [done|]. split; [done|].
  rewrite insert_chain_unfold, Hpos. cbn [rbind]. unfold link. rewrite Hold.
  cbn [of_option rbind head numPoint_ sum_]. unfold prime_at at 1. rewrite Hp. done.
Qed.

(** What the loop of [rehash] needs to know of the recursive insertion. *)
Definition ins_ok (ins : chain → Mhash → result Mhash) : Prop :=
  ∀ c h h', c ≠ [] → wf h → ins c h = Ok h' →
    wf h' ∧ (numPoint_ h ≤ numPoint_ h')%nat ∧ records h' ≡ₚ records h ++ c.

Lemma rehash_loop_ok ins told n0 p0 :
  ins_ok ins → primeNum !! n0 = Some p0 → length told = Z.to_nat p0 →
  ∀ fuel i h h',
    wf h → (n0 < numPoint_ h)%nat → records h ≡ₚ concat (take i told) →
    rehash_loop ins told fuel i h = Ok h' →
    wf h' ∧ (numPoint_ h ≤ numPoint_ h')%nat ∧ records h' ≡ₚ concat told.
Proof.
  intros Hins Hp0 Hlen fuel. induction fuel as [|fuel IH]; intros i h h' Hwf Hn Hrec;
    cbn [rehash_loop]; unfold prime_at;
    destruct (primeNum !! (numPoint_ h - 1)%nat) as [bound|] eqn:Hb; cbn; try done;
    destruct (Z.leb_spec bound (Z.of_nat i)) as [Hle|Hlt]; try done.
  1,2: intros [= <-]; split; [done|]; split; [lia|]; rewrite Hrec;
    pose proof (prime_mono n0 (numPoint_ h - 1) p0 bound ltac:(lia) Hp0 Hb);
    rewrite take_ge by lia; done.
  destruct (told !! i) as [c|] eqn:Hc; cbn; [|done].
  assert (∀ h1, records h1 ≡ₚ records h ++ c → records h1 ≡ₚ concat (take (S i) told)) as Hstep.
  { intros h1 ->. rewrite Hrec, (take_S_r _ _ _ Hc), concat_app. cbn. by rewrite app_nil_r. }
  destruct c as [|x c].
  - intros Hloop. cbn in Hloop. eapply IH; [done|done| |done].
    apply Hstep. by rewrite app_nil_r.
  - destruct (ins (x :: c) h) as [h1|] eqn:Hi; cbn; [|done]. intros Hloop.
    destruct (Hins (x :: c) h h1 ltac:(done) Hwf Hi) as (Hwf1 & Hn1 & Hr1).
    destruct (IH (S i) h1 h') as (? & ? & ?); auto; [lia|]. split_and!; auto; lia.
Qed.

(** Nothing is lost or duplicated, whatever rehashing happens. *)
Lemma insert_chain_ok fuel : ins_ok (insert_chain fuel).
Proof.
  induction fuel as [|fuel IH]; intros c h h' Hc Hwf; destruct c as [|i c]; try done;
    [destruct (insert_chain_wf 0 i c h Hwf) as (p & old & Hp & Hold & ->)
    |destruct (insert_chain_wf (S fuel) i c h Hwf) as (p & old & Hp & Hold & ->)];
    cbv zeta; destruct (sum_ h + 1 =? p - 1); try done.
  1,3: intros [= <-]; split_and!; [|done|by apply concat_insert_app];
    destruct Hwf as (p' & Hp' & Hl); exists p'; split; [done|]; cbn;
    by rewrite length_insert.
  unfold prime_at. destruct (primeNum !! S (numPoint_ h)) as [q|] eqn:Hq; cbn [rbind of_option]; [|done].
  intros Hloop. eapply (rehash_loop_ok _ _ (numPoint_ h) p IH Hp) in Hloop
    as (Hwf' & Hn & Hr).
  { cbn in Hn. split_and!; [done|lia|]. rewrite Hr. by apply concat_insert_app. }
  - rewrite length_insert. destruct Hwf as (p' & Hp' & Hl). by simplify_eq.
  - exists q. cbn. split; [done|]. apply calloc_length.
  - cbn. lia.
  - cbn. unfold records. cbn. by rewrite calloc_concat.
Qed.

Definition ins_fueled (ins : chain → Mhash → result Mhash) (n : nat) : Prop :=
  ∀ c h, c ≠ [] → wf h → (n ≤ numPoint_ h)%nat → ins c h ≠ Err OutOfFuel.

Lemma rehash_loop_fueled ins told n :
  ins_ok ins → ins_fueled ins n →
  ∀ fuel i h, wf h → (n ≤ numPoint_ h)%nat → (97 ≤ fuel + i)%nat →
    rehash_loop ins told fuel i h ≠ Err OutOfFuel.
Proof.
  intros Hins Hf fuel. induction fuel as [|fuel IH]; intros i h Hwf Hn Hi;
    cbn [rehash_loop]; unfold prime_at;
    destruct (primeNum !! (numPoint_ h - 1)%nat) as [bound|] eqn:Hb; cbn; try done;
    apply prime_pos in Hb as [_ Hb];
    destruct (Z.leb_spec bound (Z.of_nat i)); try done; [lia|].
  destruct (told !! i) as [c|]; cbn; [|done]. destruct c as [|x c]; [apply IH; auto; lia|].
  pose proof (Hf (x :: c) h ltac:(done) Hwf Hn) as Hne.
  destruct (ins (x :: c) h) as [h1|[]] eqn:Hi1; cbn; try done.
  destruct (Hins (x :: c) h h1 ltac:(done) Hwf Hi1) as (Hwf1 & Hn1 & _). apply IH; [done|lia|lia].
Qed.

Lemma insert_chain_fueled fuel : ins_fueled (insert_chain fuel) (17 - fuel).
Proof.
  induction fuel as [|fuel IH]; intros c h Hc Hwf Hn; destruct c as [|i c]; try done;
    destruct (insert_chain_wf 0 i c h Hwf) as (p & old & Hp & _);
    pose proof (lookup_lt_Some _ _ _ Hp) as Hlt; cbn in Hlt; [lia|].
  destruct (insert_chain_wf (S fuel) i c h Hwf) as (p' & old' & _ & _ & ->). cbv zeta.
  destruct (sum_ h + 1 =? p' - 1); [|done].
  unfold prime_at. destruct (primeNum !! S (numPoint_ h)) as [q|] eqn:Hq; cbn [rbind of_option]; [|done].
  apply (rehash_loop_fueled _ _ (17 - fuel)).
  - apply insert_chain_ok.
  - done.
  - exists q. cbn. split; [done|]. apply calloc_length.
  - cbn. lia.
  - unfold rehash_fuel. lia.
Qed.

(** Insertions fail in one way only, apart from the fuel. *)
Definition ins_bounds (ins : chain → Mhash → result Mhash) : Prop :=
  ∀ c h f, c ≠ [] → ins c h = Err f → f = OutOfBounds ∨ f = OutOfFuel.

Lemma rehash_loop_bounds ins told : ins_bounds ins → ∀ fuel i h f, rehash_loop ins told fuel i h = Err f → f = OutOfBounds ∨ f = OutOfFuel.
Proof.
  intros Hins fuel. induction fuel as [|fuel IH]; intros i h f; cbn [rehash_loop]; unfold prime_at;
    (destruct (primeNum !! (numPoint_ h - 1)%nat) as [bound|]; cbn; [|intros [= <-]; by left]); (destruct (bound <=? Z.of_nat i); [done|]).
  - intros [= <-]. by right.
  - destruct (told !! i) as [[|x c]|]; cbn; [by apply IH| |intros [= <-]; by left].
    destruct (ins (x :: c) h) as [h1|f'] eqn:Hi; cbn; [apply IH|]. intros [= <-]. by apply (Hins (x :: c) h).
Qed.

Lemma insert_chain_bounds fuel : ins_bounds (insert_chain fuel).
Proof.
  induction fuel as [|fuel IH]; intros [|x c] h f Hc; [done| |done|]; rewrite insert_chain_unfold; unfold getPos_info, getPos, link, prime_at;
    (destruct (primeNum !! numPoint_ h) as [p|] eqn:Hp; cbn [rbind of_option]; [|intros [= <-]; by left]);
    (destruct (head h !! _) as [old|]; cbn [rbind of_option]; [|intros [= <-]; by left]); cbn [head numPoint_ sum_]; rewrite Hp; cbn [rbind of_option]; (destruct (_ =? p - 1); [|done]).
  - intros [= <-]. by right.
  - destruct (primeNum !! S (numPoint_ h)) as [q|]; cbn [rbind of_option]; [|intros [= <-]; by left]. by apply rehash_loop_bounds.
Qed.

Lemma del_loop_ok c l rest n :
  del_loop c l = Ok (rest, n) →
  ∃ dead live0 live, c = dead ++ rest ∧ rest = live0 :: live ∧ l ≤ lsn live0 ∧
    Forall (λ i, lsn i < l) dead ∧ n = Z.of_nat (length dead).
Proof.
  revert rest n. induction c as [|i c IH]; intros rest n; cbn; [done|].
  destruct (Z.ltb_spec (lsn i) l) as [Hlt|Hge].
  - destruct (del_loop c l) as [[rest' n']|]; cbn; [|done]. intros [= <- <-].
    destruct (IH _ _ eq_refl) as (dead & x & live & -> & -> & Hx & HF & ->).
    exists (i :: dead), x, live. split_and!; cbn; auto. lia.
  - intros [= <- <-]. exists [], i, c. split_and!; auto.
Qed.



(** Below the load limit an insertion only appends to its bucket. *)
Lemma insert_light k v h p :
  wf h → primeNum !! numPoint_ h = Some p → sum_ h + 1 ≠ p - 1 →
  ∃ old, head h !! bucket p k = Some old ∧
    insert k v h = Ok {| head := <[bucket p k := old ++ [mkInfo k v]]> (head h);
                         numPoint_ := numPoint_ h; sum_ := sum_ h + 1 |}.
Proof.
  intros Hwf Hp Hs. destruct (insert_chain_wf insert_fuel (mkInfo k v) [] h Hwf)
    as (p' & old & Hp' & Hold & Heq). simplify_eq. exists old. split; [done|].
  unfold insert. rewrite Heq. cbv zeta. by destruct (Z.eqb_spec (sum_ h + 1) (p - 1)).
Qed.

Lemma exist_wf k h p :
  wf h → primeNum !! numPoint_ h = Some p →
  exist k h = Ok (negb (bool_decide (head h !! bucket p k = Some []))).
Proof.
  intros Hwf Hp. destruct (wf_bucket h k Hwf) as (p' & c & Hp' & Hpos & Hc). simplify_eq.
  unfold exist. rewrite Hpos. cbn. rewrite Hc. cbn. by destruct c.
Qed.

Lemma insert_ok k v h h' :
  wf h → insert k v h = Ok h' → wf h' ∧ records h' ≡ₚ records h ++ [mkInfo k v].
Proof.
  intros Hwf Hi.
  by destruct (insert_chain_ok insert_fuel [mkInfo k v] h h' ltac:(done) Hwf Hi) as (? & _ & ?).
Qed.

(** The state reached by a few insertions into the initial table. *)
Definition light (l : list (string * Z)) (h : Mhash) : Prop :=
  wf h ∧ numPoint_ h = 0%nat ∧ sum_ h = Z.of_nat (length l) ∧
  ∀ b, (b < 23)%nat →
    head h !! b = Some ((λ kv, mkInfo kv.1 kv.2) <$> filter (λ kv, bucket 23 kv.1 = b) l).

Lemma light_new : light [] new.
Proof.
  split_and!; [apply wf_new|done|done|]. intros b Hb.
  change (head new) with (calloc 23). unfold calloc. by rewrite lookup_replicate_2 by lia.
Qed.

Lemma light_insert l h k v :
  light l h → (length l < 21)%nat →
  ∃ h', insert k v h = Ok h' ∧ light (l ++ [(k, v)]) h'.
Proof.
  intros (Hwf & Hn & Hs & Hb) Hl.
  destruct (insert_light k v h 23 Hwf) as (old & Hold & Hi); [by rewrite Hn|lia|].
  rewrite Hi. eexists. split; [done|]. split_and!.
  - by apply (insert_ok k v h).
  - done.
  - cbn. rewrite length_app. cbn. lia.
  - intros b Hlt. cbn [head]. rewrite filter_app, fmap_app. pose proof (Hb b Hlt) as Hbb.
    destruct (decide (bucket 23 k = b)) as [<-|Hne].
    + rewrite list_lookup_insert_eq by (eapply lookup_lt_Some; eauto).
      rewrite Hbb in Hold. simplify_eq. rewrite filter_cons_True by done. done.
    + rewrite list_lookup_insert_ne by done. rewrite filter_cons_False by done.
      cbn. by rewrite app_nil_r.
Qed.

Lemma light_insert_all l l0 h :
  light l0 h → (length l0 + length l < 22)%nat →
  ∃ h', insert_all l h = Ok h' ∧ light (l0 ++ l) h'.
Proof.
  revert l0 h. induction l as [|[k v] l IH]; intros l0 h HL Hlen; cbn [insert_all length] in *.
  - exists h. by rewrite app_nil_r.
  - destruct (light_insert l0 h k v HL) as (h1 & -> & HL1); [lia|]. cbn [rbind].
    destruct (IH _ _ HL1) as (h' & Hi & HL'); [rewrite length_app; cbn [length]; lia|].
    exists h'. by rewrite <- app_assoc in HL'.
Qed.

(** ** Properties *)

(** (C30) The recursion of [insert] and [rehash] ends: whatever the hash
    function, an insertion into a well-formed table returns a table or stops at
    a read or write outside of an array; neither the fuel of the model nor a
    null pointer ends it. *)
Theorem mhash_insert_terminates k v h :
  wf h → (∃ h', insert k v h = Ok h') ∨ insert k v h = Err OutOfBounds.
Proof.
  intros Hwf. destruct (insert k v h) as [h'|f] eqn:Hi; [left; by exists h'|right].
  destruct (insert_chain_bounds insert_fuel [mkInfo k v] h f) as [->| ->]; [done|exact Hi|done|]. exfalso.
  refine (insert_chain_fueled insert_fuel [mkInfo k v] h _ Hwf _ Hi); [done|]. unfold insert_fuel. lia.
Qed.

(** (C31) An insertion that returns keeps the table well formed and its
    records are the old ones plus the new one: rehashing loses and
    duplicates no record. *)
Theorem mhash_insert_records k v h h' :
  wf h → insert k v h = Ok h' → wf h' ∧ records h' ≡ₚ records h ++ [mkInfo k v].
Proof. apply insert_ok. Qed.

(** Up to 21 insertions into the initial table all succeed, and [exist]
    then answers for a key whether some inserted key fell into its bucket:
    no inserted key is missed. *)
Theorem mhash_exist_after_inserts l k :
  (length l < 22)%nat →
  ∃ h, insert_all l new = Ok h ∧
    exist k h = Ok (bool_decide (Exists (λ kv, bucket 23 kv.1 = bucket 23 k) l)).
Proof.
  intros Hl. destruct (light_insert_all l [] new light_new) as (h & Hi & Hwf & Hn & Hs & Hb);
    [cbn; lia|]. exists h. split; [done|]. rewrite (exist_wf k h 23); [|done|by rewrite Hn].
  cbn [app] in *. f_equal. rewrite Hb by (by apply bucket_lt).
  rewrite <- bool_decide_not. apply bool_decide_ext.
  rewrite Exists_exists. split.
  - intros Hne. destruct (filter _ l) as [|kv l'] eqn:Hf; [done|].
    exists kv. assert (kv ∈ kv :: l') as Hin by left. rewrite <- Hf in Hin.
    by apply list_elem_of_filter in Hin as [? ?].
  - intros (kv & Hin & Heq) [= Hnil]. apply fmap_nil_inv in Hnil.
    assert (kv ∈ filter (λ kv, bucket 23 kv.1 = bucket 23 k) l) as Hin'
      by (by apply list_elem_of_filter). rewrite Hnil in Hin'. set_solver.
Qed.


Lemma delLessThan_exist k l h h' :
  delLessThan k l h = Ok h' → exist k h' = Ok true.
Proof.
  unfold delLessThan, exist, getPos. destruct (prime_at (numPoint_ h)) as [p|] eqn:Hp; cbn; [|done].
  destruct (head h !! _) as [c|] eqn:Hc; cbn; [|done].
  destruct (del_loop c l) as [[rest n]|] eqn:Hd; cbn; [|done]. intros [= <-]. cbn. rewrite Hp. cbn.
  rewrite list_lookup_insert_eq by (eapply lookup_lt_Some; eauto).
  by apply del_loop_ok in Hd as (dead & x & live & _ & -> & _).
Qed.

End mhash.

(** ** The hash functions of the concrete runs *)

(** The code of the first character. *)
Definition hash_first (s : string) : Z :=
  match s with String c _ => Z.of_N (Ascii.N_of_ascii c) | EmptyString => 0 end.

(** Key "b" shares the bucket of every other key modulo 23, not modulo 29. *)
Definition hash_b (s : string) : Z := if String.eqb s "b" then 23 else 0.

(** [n] one-character keys, of character codes 0 to n-1. *)
Definition letter_keys (n : nat) : list (string * Z) :=
  (λ i, (String (Ascii.ascii_of_nat i) "", Z.of_nat i)) <$> seq 0 n.

(** Filling 22 different buckets makes [rehash] read past the end of the
    old array: it counts every moved chain again, nests, and its loop bound
    grows under it. *)
Theorem mhash_rehash_overruns :
  insert_all hash_first (letter_keys 22) new = Err OutOfBounds.
Proof. vm_compute. reflexivity. Qed.

(** A rehash that returns can lose a key: it moves the chain of a bucket
    to the bucket of its first record, so a record further down the chain is
    no longer in the bucket of its key and [exist] misses it. *)
Theorem mhash_rehash_misplaces :
  ∃ h, insert_all hash_b (("a", 0) :: replicate 21 ("b", 1)) new = Ok h ∧
    mkInfo "b" 1 ∈ records h ∧ exist hash_b "b" h = Ok false.
Proof.
  destruct (insert_all hash_b (("a", 0) :: replicate 21 ("b", 1)) new) as [h|f] eqn:E;
    vm_compute in E; [|discriminate E].
  injection E as <-. eexists. split; [reflexivity|]. split.
  - apply (bool_decide_unpack _). vm_compute. exact I.
  - vm_compute. reflexivity.
Qed.

(** ** Witnesses *)

Lemma mhash_insert_terminates_witness :
  wf new ∧ ((∃ h', insert hash_first "k" 7 new = Ok h') ∨ insert hash_first "k" 7 new = Err OutOfBounds).
Proof. split; [exact wf_new|]. apply (mhash_insert_terminates hash_first "k" 7 new). exact wf_new. Defined.

Lemma mhash_insert_records_witness :
  ∃ h', insert hash_first "k" 7 new = Ok h' ∧ records h' ≡ₚ records new ++ [mkInfo "k" 7].
Proof.
  eexists. split; [vm_compute; reflexivity|].
  apply (mhash_insert_records hash_first "k" 7 new); [exact wf_new|vm_compute; reflexivity].
Defined.

Lemma mhash_exist_after_inserts_witness :
  ∃ h, insert_all hash_first [("x", 1); ("y", 2)] new = Ok h ∧ exist hash_first "y" h = Ok true.
Proof.
  destruct (mhash_exist_after_inserts hash_first [("x", 1); ("y", 2)] "y") as (h & Hi & He);
    [cbn; lia|].
  exists h. split; [exact Hi|]. rewrite He. vm_compute. reflexivity.
Defined.


End Mhash.
