(* ===== verification/TimeWheel.v ===== *)
(** * The time wheel (src/base/timeWheel.h)

    A wheel of [nslosts_] slots, each a vector of timers; [tick] serves the
    current slot and moves on, [takeAllTimeout] ticks once per elapsed
    millisecond.  Timers are heap objects, so each carries the identity of
    its allocation; a callback is a value of the parameter type [F], and
    firing a timer yields its callback.  The callbacks this program installs
    do not touch the wheel. *)

From stdpp Require Import base list sets.
From S2P Require Import Prelude.

Module TimeWheel.

Section wheel.
Context {F : Type}.

(** [class Timer] *)
Record Timer := mkTimer { tid : nat; rotations_ : Z; slot_ : Z; fn : F }.

Definition getRotations (tm : Timer) : Z := rotations_ tm.
Definition decreaseRotations (tm : Timer) : Timer :=
  mkTimer (tid tm) (int32 (rotations_ tm - 1)) (slot_ tm) (fn tm).
Definition active (tm : Timer) : nat * F := (tid tm, fn tm).
Definition getSlot (tm : Timer) : Z := slot_ tm.

(** [class TimeWheel]; [next_tid] is the next fresh allocation. *)
Record TimeWheel := mkTimeWheel {
  nslosts_ : Z; curslot_ : Z; slots_ : list (list Timer); starttime_ : Z; next_tid : nat }.

(** [getCurrentMillisecs()] from the fields of the [timespec] read. *)
Definition getCurrentMillisecs (tv_sec tv_nsec : Z) : Z :=
  uint64 (tv_sec * 1000 + Z.quot tv_nsec (1000 * 1000)).

(** [TimeWheel(int nslots)], constructed when the clock reads [now]. *)
Definition new (nslots now : Z) : TimeWheel :=
  mkTimeWheel nslots 0 (replicate (Z.to_nat nslots) []) now 0.

(** [addTimer]: [timeout] is unsigned, so its test for a negative value
    never holds. *)
Definition addTimer (timeout : Z) (fun_ : F) (w : TimeWheel) : result (Timer * TimeWheel) :=
  let n := uint64 (nslosts_ w) in
  if n =? 0 then Err DivByZero
  else
    let slot := int32 (uint64 (uint64 (curslot_ w) + timeout mod n) mod n) in
    let timer := mkTimer (next_tid w) (int32 (timeout / n)) slot fun_ in
    if slot <? 0 then Err OutOfBounds
    else
      let? l := of_option (slots_ w !! Z.to_nat slot) OutOfBounds in
      Ok (timer, mkTimeWheel (nslosts_ w) (curslot_ w) (<[Z.to_nat slot := l ++ [timer]]> (slots_ w))
                    (starttime_ w) (S (next_tid w))).

(** [std::find] by address, then [erase]. *)
Fixpoint erase_tid (i : nat) (l : list Timer) : list Timer :=
  match l with
  | [] => []
  | tm :: l' => if decide (tid tm = i) then l' else tm :: erase_tid i l'
  end.

(** [delTimer] *)
Definition delTimer (timer : option Timer) (w : TimeWheel) : result TimeWheel :=
  match timer with
  | None => Ok w
  | Some tm =>
      if getSlot tm <? 0 then Err OutOfBounds
      else
        let? l := of_option (slots_ w !! Z.to_nat (getSlot tm)) OutOfBounds in
        Ok (mkTimeWheel (nslosts_ w) (curslot_ w)
               (<[Z.to_nat (getSlot tm) := erase_tid (tid tm) l]> (slots_ w))
               (starttime_ w) (next_tid w))
  end.

(** The loop of [tick] over the current slot: the timers that stay, and the
    callbacks run, in order. *)
Fixpoint tick_slot (l : list Timer) : list Timer * list (nat * F) :=
  match l with
  | [] => ([], [])
  | tm :: l' =>
      let '(kept, fired) := tick_slot l' in
      if 0 <? getRotations tm then (decreaseRotations tm :: kept, fired)
      else (kept, active tm :: fired)
  end.

(** [tick()] *)
Definition tick (w : TimeWheel) : result (list (nat * F) * TimeWheel) :=
  if nslosts_ w =? 0 then Err DivByZero
  else
    let? l := of_option (slots_ w !! Z.to_nat (curslot_ w)) OutOfBounds in
    let '(kept, fired) := tick_slot l in
    Ok (fired, mkTimeWheel (nslosts_ w) (Z.rem (int32 (curslot_ w + 1)) (nslosts_ w))
                  (<[Z.to_nat (curslot_ w) := kept]> (slots_ w)) (starttime_ w) (next_tid w)).

(** [for (int i = 0; i < cnt; ++i) tick();] *)
Fixpoint ticks (cnt : nat) (w : TimeWheel) : result (list (nat * F) * TimeWheel) :=
  match cnt with
  | O => Ok ([], w)
  | S cnt' =>
      let? (fired, w1) := tick w in
      let? (fired', w2) := ticks cnt' w1 in
      Ok (fired ++ fired', w2)
  end.

(** [takeAllTimeout()] when the clock reads [ms]: the reading is narrowed to
    [int], and the elapsed time computed modulo 2^64 and narrowed again. *)
Definition takeAllTimeout (ms : Z) (w : TimeWheel) : result (list (nat * F) * TimeWheel) :=
  let now := int32 ms in
  let cnt := int32 (uint64 (uint64 now - starttime_ w)) in
  let? (fired, w1) := ticks (Z.to_nat cnt) w in
  Ok (fired, mkTimeWheel (nslosts_ w1) (curslot_ w1) (slots_ w1) (uint64 now) (next_tid w1)).

(** [start()]: one [takeAllTimeout] per wake-up of [epoll_wait], for the
    clock readings of a finite part of the endless loop. *)
Fixpoint start (readings : list Z) (w : TimeWheel) : result (list (nat * F) * TimeWheel) :=
  match readings with
  | [] => Ok ([], w)
  | ms :: readings' =>
      let? (fired, w1) := takeAllTimeout ms w in
      let? (fired', w2) := start readings' w1 in
      Ok (fired ++ fired', w2)
  end.

(** [init()]: whether a failure of [epoll_create1] is reported; the thread it
    starts runs [start]. *)
Definition init_reports (epollfd : Z) : bool := 1 =? epollfd.

(** [~TimeWheel()]: the timers it deletes, slot by slot. *)
Definition destroy (w : TimeWheel) : list nat := tid <$> concat (slots_ w).

(** ** Invariant *)

Definition slot_ok (s : nat) (l : list Timer) : Prop :=
  Forall (λ tm, slot_ tm = Z.of_nat s ∧ 0 ≤ rotations_ tm < 2 ^ 31) l.

Record wf (w : TimeWheel) : Prop := {
  wf_n : 0 < nslosts_ w < 2 ^ 31;
  wf_cur : 0 ≤ curslot_ w < nslosts_ w;
  wf_len : length (slots_ w) = Z.to_nat (nslosts_ w);
  wf_slots : ∀ s l, slots_ w !! s = Some l → slot_ok s l;
  wf_nodup : NoDup (tid <$> concat (slots_ w));
  wf_fresh : Forall (λ i, (i < next_tid w)%nat) (tid <$> concat (slots_ w)) }.

(** Ticks left before the timer [i] with callback [f] runs. *)
Definition pending (w : TimeWheel) (i : nat) (f : F) (r : Z) : Prop :=
  ∃ s l tm, slots_ w !! s = Some l ∧ tm ∈ l ∧ tid tm = i ∧ fn tm = f ∧
    r = (Z.of_nat s - curslot_ w) mod nslosts_ w + nslosts_ w * rotations_ tm.

(** ** Lemmas *)

Lemma concat_lookup (ls : list (list Timer)) i l :
  ls !! i = Some l → concat ls = concat (take i ls) ++ l ++ concat (drop (S i) ls).
Proof.
  intros H. rewrite <- (take_drop_middle _ _ _ H) at 1. by rewrite concat_app.
Qed.

Lemma concat_insert (ls : list (list Timer)) i l l' :
  ls !! i = Some l →
  concat (<[i := l']> ls) = concat (take i ls) ++ l' ++ concat (drop (S i) ls).
Proof.
  intros H. rewrite insert_take_drop by (eapply lookup_lt_Some; eauto).
  by rewrite concat_app.
Qed.

Lemma tick_slot_sublist l : (tid <$> (tick_slot l).1) `sublist_of` (tid <$> l).
Proof.
  induction l as [|tm l IH]; cbn; [done|]. destruct (tick_slot l) as [kept fired].
  destruct (0 <? getRotations tm); cbn in *; by constructor.
Qed.

Lemma tick_slot_kept l tm :
  tm ∈ l → 0 < rotations_ tm → decreaseRotations tm ∈ (tick_slot l).1.
Proof.
  intros Hin Hr. induction l as [|x l IH]; [set_solver|]. cbn.
  destruct (tick_slot l) as [kept fired]. cbn in *. unfold getRotations.
  apply elem_of_cons in Hin as [<-|Hin].
  - destruct (Z.ltb_spec 0 (rotations_ tm)); [left|lia].
  - destruct (0 <? rotations_ x); [right|]; by apply IH.
Qed.

Lemma tick_slot_fired l i f :
  (i, f) ∈ (tick_slot l).2 ↔ ∃ tm, tm ∈ l ∧ rotations_ tm ≤ 0 ∧ tid tm = i ∧ fn tm = f.
Proof.
  induction l as [|x l IH]; cbn; [set_solver|]. destruct (tick_slot l) as [kept fired].
  cbn in *. unfold getRotations, active. destruct (Z.ltb_spec 0 (rotations_ x)).
  - cbn. rewrite IH. split; [set_solver|]. intros (tm & Hin & Hr & ?).
    apply elem_of_cons in Hin as [->|]; [lia|]. eauto 10.
  - cbn. rewrite elem_of_cons, IH. split.
    + intros [[= -> ->]|(tm & ? & ?)]; [exists x|exists tm]; set_solver.
    + intros (tm & [->|Hin]%elem_of_cons & Hr & <- & <-); [by left|right; eauto 10].
Qed.

Lemma tick_slot_from l tm :
  tm ∈ (tick_slot l).1 → ∃ tm0, tm0 ∈ l ∧ 0 < rotations_ tm0 ∧ tm = decreaseRotations tm0.
Proof.
  induction l as [|x l IH]; cbn; [set_solver|]. destruct (tick_slot l) as [kept fired].
  cbn in *. unfold getRotations. destruct (Z.ltb_spec 0 (rotations_ x)); cbn.
  - intros [->|Hin]%elem_of_cons; [exists x; set_solver|]. apply IH in Hin. set_solver.
  - intros Hin. apply IH in Hin. set_solver.
Qed.

Lemma sub_mod a b n :
  0 ≤ a < n → 0 ≤ b < n → (a - b) mod n = if b <=? a then a - b else a - b + n.
Proof.
  intros Ha Hb. destruct (Z.leb_spec b a); [by rewrite Z.mod_small by lia|].
  symmetry. apply (Z.mod_unique _ _ (-1)); lia.
Qed.

(** The current slot moves by one, around the wheel. *)
Lemma next_slot c n :
  0 < n < 2 ^ 31 → 0 ≤ c < n →
  Z.rem (int32 (c + 1)) n = if c + 1 =? n then 0 else c + 1.
Proof.
  intros Hn Hc. assert (int32 (c + 1) = if c + 1 =? 2 ^ 31 then - 2 ^ 31 else c + 1) as ->.
  { destruct (Z.eqb_spec (c + 1) (2 ^ 31)); [lia|]. apply wrap_s_small; cbn; lia. }
  destruct (Z.eqb_spec (c + 1) (2 ^ 31)); [lia|].
  rewrite Z.rem_mod_nonneg by lia. destruct (Z.eqb_spec (c + 1) n) as [->|].
  - by apply Z.mod_same; lia.
  - by apply Z.mod_small; lia.
Qed.

Lemma pending_nonneg w i f r : wf w → pending w i f r → 0 ≤ r.
Proof.
  intros [] (s & l & tm & Hs & Hin & _ & _ & ->). apply wf_slots0 in Hs.
  unfold slot_ok in Hs. rewrite Forall_forall in Hs. destruct (Hs _ Hin) as [_ ?].
  pose proof (Z.mod_pos_bound (Z.of_nat s - curslot_ w) (nslosts_ w)). nia.
Qed.

Lemma slot_lt w s l : wf w → slots_ w !! s = Some l → 0 ≤ Z.of_nat s < nslosts_ w.
Proof. intros [] Hs%lookup_lt_Some. lia. Qed.

(** A timer sits in one place of the wheel. *)
Lemma timer_unique w s1 s2 l1 l2 (t1 t2 : Timer) :
  wf w → slots_ w !! s1 = Some l1 → slots_ w !! s2 = Some l2 →
  t1 ∈ l1 → t2 ∈ l2 → tid t1 = tid t2 → t1 = t2.
Proof.
  intros [] H1 H2 Hin1 Hin2 Heq.
  assert (t1 ∈ concat (slots_ w)) as Hc1 by (by eapply elem_of_concat_lookup; [exact H1|]).
  assert (t2 ∈ concat (slots_ w)) as Hc2 by (by eapply elem_of_concat_lookup; [exact H2|]).
  apply list_elem_of_lookup in Hc1 as [i1 Hi1], Hc2 as [i2 Hi2].
  assert (i1 = i2) as ->; [|congruence].
  eapply (NoDup_lookup _ _ _ (tid t1) wf_nodup0); rewrite list_lookup_fmap.
  - by rewrite Hi1.
  - by rewrite Hi2, Heq.
Qed.

Lemma pending_unique w i f1 f2 r1 r2 :
  wf w → pending w i f1 r1 → pending w i f2 r2 → f1 = f2 ∧ r1 = r2.
Proof.
  intros Hwf (s1 & l1 & t1 & Hs1 & Hin1 & <- & <- & ->) (s2 & l2 & t2 & Hs2 & Hin2 & Ht & <- & ->).
  assert (t1 = t2) as <- by (by apply (timer_unique w s1 s2 l1 l2)).
  split; [done|]. destruct Hwf.
  pose proof (wf_slots0 _ _ Hs1) as H1. pose proof (wf_slots0 _ _ Hs2) as H2.
  unfold slot_ok in *. rewrite Forall_forall in H1, H2.
  destruct (H1 _ Hin1) as [E1 _], (H2 _ Hin2) as [E2 _]. congruence.
Qed.

(** What one tick does to the wheel, seen through [pending]. *)
Record tick_rel (w : TimeWheel) (fired : list (nat * F)) (w' : TimeWheel) : Prop := {
  tr_wf : wf w';
  tr_n : nslosts_ w' = nslosts_ w;
  tr_start : starttime_ w' = starttime_ w;
  tr_next : next_tid w' = next_tid w;
  tr_pending : ∀ i f r, pending w' i f r ↔ 0 ≤ r ∧ pending w i f (r + 1);
  tr_fired : ∀ i f, (i, f) ∈ fired ↔ pending w i f 0 }.

Lemma tick_pending_eq w s l (tm : Timer) :
  wf w → slots_ w !! s = Some l → tm ∈ l →
  (Z.of_nat s - Z.rem (int32 (curslot_ w + 1)) (nslosts_ w)) mod nslosts_ w =
    if decide (Z.of_nat s = curslot_ w) then nslosts_ w - 1
    else (Z.of_nat s - curslot_ w) mod nslosts_ w - 1.
Proof.
  intros Hwf Hs Hin. pose proof (slot_lt _ _ _ Hwf Hs) as Hlt. destruct Hwf.
  rewrite next_slot by done. rewrite (sub_mod _ (curslot_ w)) by lia.
  rewrite sub_mod by (try lia; destruct (Z.eqb_spec (curslot_ w + 1) (nslosts_ w)); lia).
  case_decide; destruct (Z.eqb_spec (curslot_ w + 1) (nslosts_ w));
    repeat match goal with |- context [?a <=? ?b] => destruct (Z.leb_spec a b) end; lia.
Qed.

Lemma tick_wf w l :
  wf w → slots_ w !! Z.to_nat (curslot_ w) = Some l →
  wf (mkTimeWheel (nslosts_ w) (Z.rem (int32 (curslot_ w + 1)) (nslosts_ w))
         (<[Z.to_nat (curslot_ w) := (tick_slot l).1]> (slots_ w)) (starttime_ w) (next_tid w)).
Proof.
  intros [] Hl. assert (sublist (tid <$> concat (<[Z.to_nat (curslot_ w) := (tick_slot l).1]> (slots_ w)))
    (tid <$> concat (slots_ w))) as Hsub.
  { rewrite (concat_insert _ _ _ _ Hl), (concat_lookup _ _ _ Hl), !fmap_app.
    apply sublist_app; [done|]. apply sublist_app; [apply tick_slot_sublist|done]. }
  split; cbn; auto.
  - rewrite next_slot by lia. destruct (Z.eqb_spec (curslot_ w + 1) (nslosts_ w)); lia.
  - by rewrite length_insert.
  - intros s l' [(<- & <- & Hlt)|[Hne Hs]]%list_lookup_insert_Some; [|eauto].
    apply Forall_forall. intros tm (tm0 & Hin & Hr & ->)%tick_slot_from.
    specialize (wf_slots0 _ _ Hl). unfold slot_ok in wf_slots0.
    rewrite Forall_forall in wf_slots0. destruct (wf_slots0 _ Hin). cbn. split; [done|].
    rewrite wrap_s_small; cbn; lia.
  - eapply sublist_NoDup; eauto.
  - rewrite Forall_forall in *. eauto using elem_of_sublist.
Qed.

(** The slot being served: its timers, and where they stand. *)
Lemma cur_slot w :
  wf w → ∃ l, slots_ w !! Z.to_nat (curslot_ w) = Some l ∧
    ∀ tm, tm ∈ l → slot_ tm = curslot_ w ∧ 0 ≤ rotations_ tm < 2 ^ 31.
Proof.
  intros []. destruct (lookup_lt_is_Some_2 (slots_ w) (Z.to_nat (curslot_ w))) as [l Hl]; [lia|].
  exists l. split; [done|]. intros tm Hin. specialize (wf_slots0 _ _ Hl).
  unfold slot_ok in wf_slots0. rewrite Forall_forall in wf_slots0.
  specialize (wf_slots0 _ Hin). rewrite Z2Nat.id in wf_slots0 by lia. done.
Qed.

Section one_tick.
Context (w : TimeWheel) (l : list Timer) (Hwf : wf w).
Context (Hl : slots_ w !! Z.to_nat (curslot_ w) = Some l).
Context (Hlok : ∀ tm, tm ∈ l → slot_ tm = curslot_ w ∧ 0 ≤ rotations_ tm < 2 ^ 31).

Definition after_tick : TimeWheel :=
  mkTimeWheel (nslosts_ w) (Z.rem (int32 (curslot_ w + 1)) (nslosts_ w))
     (<[Z.to_nat (curslot_ w) := (tick_slot l).1]> (slots_ w)) (starttime_ w) (next_tid w).

Lemma tick_pending_back i f r : pending after_tick i f r → pending w i f (r + 1).
Proof.
  intros (s & l' & tm & Hs & Hin & <- & <- & ->). destruct Hwf.
  apply list_lookup_insert_Some in Hs as [(<- & <- & _)|[Hne Hs]].
  - destruct (tick_slot_from _ _ Hin) as (tm0 & Hin0 & Hr & ->). destruct (Hlok _ Hin0) as [_ Hb].
    exists (Z.to_nat (curslot_ w)), l, tm0. split_and!; auto.
    cbn [rotations_ decreaseRotations nslosts_ curslot_ after_tick].
    rewrite (tick_pending_eq w _ l tm0) by done. rewrite !Z2Nat.id by lia.
    rewrite decide_True by done. rewrite Z.sub_diag, Z.mod_0_l by lia.
    rewrite wrap_s_small by (cbn; lia). lia.
  - exists s, l', tm. split_and!; auto. cbn [nslosts_ curslot_ after_tick].
    rewrite (tick_pending_eq w s l' tm) by done. rewrite decide_False by lia. lia.
Qed.

Lemma tick_pending_forth i f r : 0 ≤ r → pending w i f (r + 1) → pending after_tick i f r.
Proof.
  intros Hr (s & l' & tm & Hs & Hin & <- & <- & Heq). destruct Hwf.
  destruct (decide (Z.of_nat s = curslot_ w)) as [Hsc|Hsc].
  - assert (s = Z.to_nat (curslot_ w)) as -> by lia. rewrite Hl in Hs. simplify_eq.
    rewrite Hsc, Z.sub_diag, Z.mod_0_l in Heq by lia.
    assert (0 < rotations_ tm) by nia. destruct (Hlok _ Hin) as [_ Hb].
    eexists _, _, (decreaseRotations tm).
    split; [apply list_lookup_insert_eq; by eapply lookup_lt_Some|].
    split_and!; auto using tick_slot_kept. cbn [rotations_ decreaseRotations nslosts_ curslot_ after_tick].
    rewrite (tick_pending_eq w _ l tm) by done. rewrite decide_True by done.
    rewrite wrap_s_small by (cbn; lia). lia.
  - exists s, l', tm. split; [cbn; rewrite list_lookup_insert_ne by lia; done|].
    split_and!; auto. cbn [nslosts_ curslot_ after_tick]. rewrite (tick_pending_eq w s l' tm) by done.
    rewrite decide_False by done. lia.
Qed.

Lemma tick_fired_iff i f : (i, f) ∈ (tick_slot l).2 ↔ pending w i f 0.
Proof.
  rewrite tick_slot_fired. destruct Hwf. split.
  - intros (tm & Hin & Hr & <- & <-). exists (Z.to_nat (curslot_ w)), l, tm.
    split_and!; auto. destruct (Hlok _ Hin). rewrite Z2Nat.id, Z.sub_diag, Z.mod_0_l by lia. nia.
  - intros (s & l' & tm & Hs & Hin & <- & <- & Heq). pose proof (slot_lt _ _ _ Hwf Hs) as Hlt.
    pose proof (wf_slots0 _ _ Hs) as Hok. unfold slot_ok in Hok. rewrite Forall_forall in Hok.
    destruct (Hok _ Hin) as [_ Hb]. rewrite sub_mod in Heq by lia.
    assert (s = Z.to_nat (curslot_ w)) as ->
      by (destruct (Z.leb_spec (curslot_ w) (Z.of_nat s)); nia).
    rewrite Hl in Hs. simplify_eq. exists tm. split_and!; auto.
    destruct (Z.leb_spec (curslot_ w) (Z.of_nat (Z.to_nat (curslot_ w)))); nia.
Qed.

End one_tick.

Lemma tick_ok w : wf w → ∃ fired w', tick w = Ok (fired, w') ∧ tick_rel w fired w'.
Proof.
  intros Hwf. destruct (cur_slot w Hwf) as (l & Hl & Hlok).
  exists (tick_slot l).2, (after_tick w l). split.
  - unfold tick. destruct (Z.eqb_spec (nslosts_ w) 0); [destruct Hwf; lia|].
    rewrite Hl. cbn [of_option rbind]. unfold after_tick. by destruct (tick_slot l).
  - pose proof (tick_wf w l Hwf Hl) as Hwf'. split; auto.
    + intros i f r. split; [|intros [? ?]; by apply (tick_pending_forth w l)].
      intros Hp. split; [by eapply pending_nonneg in Hp|by apply (tick_pending_back w l)].
    + intros i f. by apply (tick_fired_iff w l).
Qed.

(** [k] ticks: every timer with fewer than [k] ticks left has run, the
    others are [k] ticks closer. *)
Lemma ticks_ok k w :
  wf w → ∃ fired w', ticks k w = Ok (fired, w') ∧ wf w' ∧
    nslosts_ w' = nslosts_ w ∧ starttime_ w' = starttime_ w ∧ next_tid w' = next_tid w ∧
    (∀ i f r, pending w' i f r ↔ 0 ≤ r ∧ pending w i f (r + Z.of_nat k)) ∧
    (∀ i f, (i, f) ∈ fired ↔ ∃ r, r < Z.of_nat k ∧ pending w i f r).
Proof.
  revert w. induction k as [|k IH]; intros w Hwf; cbn [ticks].
  - exists [], w. split_and!; auto.
    + intros i f r. replace (r + Z.of_nat 0) with r by lia. split; [|naive_solver].
      intros Hp. split; [by eapply pending_nonneg|done].
    + intros i f. split; [set_solver|]. intros (r & Hr & Hp).
      apply pending_nonneg in Hp; [lia|done].
  - destruct (tick_ok w Hwf) as (fired & w1 & -> & []). cbn [rbind].
    destruct (IH w1 tr_wf0) as (fired' & w2 & -> & Hwf2 & Hn & Hs & Hi & Hp & Hf). cbn [rbind].
    exists (fired ++ fired'), w2. split_and!; auto; try congruence.
    + intros i f r. rewrite Hp, tr_pending0.
      replace (r + Z.of_nat (S k)) with (r + Z.of_nat k + 1) by lia. naive_solver lia.
    + intros i f. rewrite elem_of_app, tr_fired0, Hf. split.
      * intros [H0|(r & Hr & H1%tr_pending0)]; [exists 0; split; [lia|done]|].
        exists (r + 1). destruct H1. split; [lia|done].
      * intros (r & Hr & Hpr). pose proof (pending_nonneg _ _ _ _ Hwf Hpr).
        destruct (decide (r = 0)) as [->|]; [by left|right]. exists (r - 1). split; [lia|].
        apply tr_pending0. replace (r - 1 + 1) with r by lia. split; [lia|done].
Qed.

(** The slot and the rotations [addTimer] computes. *)
Lemma addTimer_slot c n timeout :
  0 < n < 2 ^ 31 → 0 ≤ c < n →
  int32 (uint64 (uint64 c + timeout mod uint64 n) mod uint64 n) = (c + timeout mod n) mod n.
Proof.
  intros Hn Hc. rewrite (wrap_u_small 64 n), (wrap_u_small 64 c) by (cbn; lia).
  pose proof (Z.mod_pos_bound timeout n ltac:(lia)).
  rewrite (wrap_u_small 64) by (cbn; lia). apply int32_id.
  pose proof (Z.mod_pos_bound (c + timeout mod n) n ltac:(lia)). unfold int32_ok. lia.
Qed.

Lemma countdown c n timeout :
  0 < n → 0 ≤ c < n → 0 ≤ timeout →
  ((c + timeout mod n) mod n - c) mod n + n * (timeout / n) = timeout.
Proof.
  intros Hn Hc Ht. rewrite Zminus_mod_idemp_l.
  replace (c + timeout mod n - c) with (timeout mod n) by lia.
  rewrite Z.mod_mod by lia. pose proof (Z.div_mod timeout n). lia.
Qed.

Lemma addTimer_eq w timeout f :
  wf w → 0 ≤ timeout → timeout / nslosts_ w < 2 ^ 31 →
  let slot := (curslot_ w + timeout mod nslosts_ w) mod nslosts_ w in
  let tm := mkTimer (next_tid w) (timeout / nslosts_ w) slot f in
  ∃ l, slots_ w !! Z.to_nat slot = Some l ∧ 0 ≤ slot < nslosts_ w ∧
    addTimer timeout f w =
      Ok (tm, mkTimeWheel (nslosts_ w) (curslot_ w) (<[Z.to_nat slot := l ++ [tm]]> (slots_ w))
                 (starttime_ w) (S (next_tid w))).
Proof.
  intros [] Ht Hrot slot tm. unfold addTimer. rewrite addTimer_slot by done.
  rewrite (wrap_u_small 64 (nslosts_ w)) by (cbn; lia).
  destruct (Z.eqb_spec (nslosts_ w) 0); [lia|]. fold slot.
  assert (0 ≤ slot < nslosts_ w) as Hslot by (apply Z.mod_pos_bound; lia).
  destruct (Z.ltb_spec slot 0); [lia|].
  destruct (lookup_lt_is_Some_2 (slots_ w) (Z.to_nat slot)) as [l Hl]; [lia|].
  exists l. split; [done|]. split; [done|]. rewrite Hl. cbn [of_option rbind].
  rewrite int32_id; [done|].
  pose proof (Z.div_pos timeout (nslosts_ w)). unfold int32_ok. lia.
Qed.

Lemma addTimer_ok w timeout f :
  wf w → 0 ≤ timeout → timeout / nslosts_ w < 2 ^ 31 →
  ∃ tm w', addTimer timeout f w = Ok (tm, w') ∧ wf w' ∧ tid tm = next_tid w ∧
    starttime_ w' = starttime_ w ∧ nslosts_ w' = nslosts_ w ∧
    ∀ i g r, pending w' i g r ↔ (i = next_tid w ∧ g = f ∧ r = timeout) ∨ pending w i g r.
Proof.
  intros Hwf Ht Hrot.
  destruct (addTimer_eq w timeout f Hwf Ht Hrot) as (l & Hl & Hslot & Heq).
  set (slot := (curslot_ w + timeout mod nslosts_ w) mod nslosts_ w) in *.
  set (tm := mkTimer (next_tid w) (timeout / nslosts_ w) slot f) in *.
  eexists tm, _. split; [exact Heq|]. pose proof Hwf as [].
  assert (tid <$> concat (<[Z.to_nat slot := l ++ [tm]]> (slots_ w)) ≡ₚ
    next_tid w :: (tid <$> concat (slots_ w))) as Hperm.
  { rewrite (concat_insert _ _ _ _ Hl), (concat_lookup _ _ _ Hl), !fmap_app. cbn. solve_Permutation. }
  split_and!; auto.
  - split; cbn; auto.
    + by rewrite length_insert.
    + intros s l' [(<- & <- & Hlt)|[Hne Hs]]%list_lookup_insert_Some; [|eauto].
      apply Forall_app. split; [by apply wf_slots0|]. constructor; [|done].
      unfold tm. cbn [slot_ rotations_].
      pose proof (Z.div_pos timeout (nslosts_ w)). split; [by rewrite Z2Nat.id by lia|lia].
    + rewrite Hperm. constructor; [|done]. intros Hin. rewrite Forall_forall in wf_fresh0.
      specialize (wf_fresh0 _ Hin). lia.
    + rewrite Hperm. constructor; [lia|]. eapply Forall_impl; [done|]. cbn. lia.
  - intros i g r. split.
    + intros (s & l' & tm' & Hs & Hin & <- & <- & ->). cbn [slots_ curslot_ nslosts_] in *.
      apply list_lookup_insert_Some in Hs as [(<- & <- & _)|[Hne Hs]].
      * apply elem_of_app in Hin as [Hin|Hin]; [|apply list_elem_of_singleton in Hin as ->].
        -- right. exists (Z.to_nat slot), l, tm'. split_and!; auto.
        -- left. split_and!; auto. change (rotations_ tm) with (timeout / nslosts_ w).
           rewrite Z2Nat.id by lia. apply countdown; lia.
      * right. exists s, l', tm'. split_and!; auto.
    + assert (Z.to_nat slot < length (slots_ w))%nat as Hlt by (by eapply lookup_lt_Some).
      intros [(-> & -> & ->)|(s & l' & tm' & Hs & Hin & <- & <- & ->)].
      * exists (Z.to_nat slot), (l ++ [tm]), tm. cbn [slots_ curslot_ nslosts_].
        rewrite list_lookup_insert_eq by done. split_and!; auto; [set_solver|].
        change (rotations_ tm) with (timeout / nslosts_ w).
        rewrite Z2Nat.id by lia. symmetry. apply countdown; lia.
      * destruct (decide (s = Z.to_nat slot)) as [->|].
        -- rewrite Hl in Hs. simplify_eq. exists (Z.to_nat slot), (l' ++ [tm]), tm'.
           cbn [slots_ curslot_ nslosts_]. rewrite list_lookup_insert_eq by done.
           split_and!; auto. set_solver.
        -- exists s, l', tm'. cbn [slots_ curslot_ nslosts_].
           rewrite list_lookup_insert_ne by done. split_and!; auto.
Qed.

Lemma erase_tid_sublist i l : (tid <$> erase_tid i l) `sublist_of` (tid <$> l).
Proof. induction l as [|x l IH]; cbn; [done|]. case_decide; cbn; by constructor. Qed.

Lemma erase_tid_spec i l tm :
  NoDup (tid <$> l) → tm ∈ erase_tid i l ↔ tm ∈ l ∧ tid tm ≠ i.
Proof.
  induction l as [|x l IH]; cbn; [set_solver|]. intros [Hx Hnd]%NoDup_cons.
  case_decide as Hi.
  - split; [|set_solver]. intros Hin. split; [set_solver|]. intros <-.
    apply Hx. rewrite Hi. by apply list_elem_of_fmap_2.
  - rewrite !elem_of_cons, IH by done. naive_solver.
Qed.

Lemma delTimer_wf w s l i :
  wf w → slots_ w !! s = Some l →
  wf (mkTimeWheel (nslosts_ w) (curslot_ w) (<[s := erase_tid i l]> (slots_ w)) (starttime_ w) (next_tid w)).
Proof.
  intros [] Hl. assert (sublist (tid <$> concat (<[s := erase_tid i l]> (slots_ w)))
    (tid <$> concat (slots_ w))) as Hsub.
  { rewrite (concat_insert _ _ _ _ Hl), (concat_lookup _ _ _ Hl), !fmap_app.
    apply sublist_app; [done|]. apply sublist_app; [apply erase_tid_sublist|done]. }
  split; cbn; auto.
  - by rewrite length_insert.
  - intros s' l' [(<- & <- & Hlt)|[Hne Hs]]%list_lookup_insert_Some; [|eauto].
    specialize (wf_slots0 _ _ Hl). unfold slot_ok in *. clear -wf_slots0.
    induction wf_slots0; cbn; [done|]. case_decide; by try constructor.
  - eapply sublist_NoDup; eauto.
  - rewrite Forall_forall in *. eauto using elem_of_sublist.
Qed.

Lemma slot_nodup w s l : wf w → slots_ w !! s = Some l → NoDup (tid <$> l).
Proof.
  intros [] Hl. rewrite (concat_lookup _ _ _ Hl), !fmap_app in wf_nodup0.
  apply NoDup_app in wf_nodup0 as (_ & _ & H). by apply NoDup_app in H as (? & _ & _).
Qed.

Lemma pending_erase w s l (tm : Timer) i g r :
  wf w → slots_ w !! s = Some l → tm ∈ l →
  pending (mkTimeWheel (nslosts_ w) (curslot_ w) (<[s := erase_tid (tid tm) l]> (slots_ w))
              (starttime_ w) (next_tid w)) i g r ↔ i ≠ tid tm ∧ pending w i g r.
Proof.
  intros Hwf Hl Hin. pose proof (slot_nodup _ _ _ Hwf Hl) as Hnd. split.
  - intros (s' & l' & tm' & Hs & Hin' & <- & <- & ->). cbn [slots_ curslot_ nslosts_] in *.
    apply list_lookup_insert_Some in Hs as [(<- & <- & _)|[Hne Hs]].
    + apply erase_tid_spec in Hin' as [Hin' Hid]; [|done]. split; [done|].
      exists s, l, tm'. split_and!; auto.
    + split; [|exists s', l', tm'; split_and!; auto]. intros Heq.
      assert (tm' = tm) as -> by (by apply (timer_unique w s' s l' l)).
      destruct Hwf. pose proof (wf_slots0 _ _ Hl) as H1. pose proof (wf_slots0 _ _ Hs) as H2.
      unfold slot_ok in *. rewrite Forall_forall in H1, H2.
      destruct (H1 _ Hin), (H2 _ Hin'). lia.
  - intros (Hi & s' & l' & tm' & Hs & Hin' & <- & <- & ->).
    destruct (decide (s = s')) as [<-|].
    + rewrite Hl in Hs. simplify_eq. exists s, (erase_tid (tid tm) l'), tm'.
      cbn [slots_ curslot_ nslosts_]. rewrite list_lookup_insert_eq by (by eapply lookup_lt_Some).
      split_and!; auto. by apply erase_tid_spec.
    + exists s', l', tm'. cbn [slots_ curslot_ nslosts_].
      rewrite list_lookup_insert_ne by done. split_and!; auto.
Qed.

(** The clock the wheel last saw, modulo 2^32. *)
Definition clock_ok (w : TimeWheel) (last : Z) : Prop := (starttime_ w - last) mod 2 ^ 32 = 0.

Lemma uint64_mod32 z : (uint64 z - z) mod 2 ^ 32 = 0.
Proof.
  unfold wrap_u. rewrite (Z.mod_eq z (2 ^ 64)) by lia.
  replace (z - 2 ^ 64 * (z / 2 ^ 64) - z) with (- (2 ^ 32 * (z / 2 ^ 64)) * 2 ^ 32) by lia.
  apply Z_mod_mult.
Qed.

Lemma int32_mod32 z : (int32 z - z) mod 2 ^ 32 = 0.
Proof.
  unfold wrap_s. rewrite (Z.mod_eq (z + 2 ^ (32 - 1)) (2 ^ 32)) by lia.
  replace (z + 2 ^ (32 - 1) - 2 ^ 32 * ((z + 2 ^ (32 - 1)) / 2 ^ 32) - 2 ^ (32 - 1) - z)
    with (- ((z + 2 ^ (32 - 1)) / 2 ^ 32) * 2 ^ 32) by lia.
  apply Z_mod_mult.
Qed.

Lemma mod32_trans x y z :
  (x - y) mod 2 ^ 32 = 0 → (y - z) mod 2 ^ 32 = 0 → (x - z) mod 2 ^ 32 = 0.
Proof.
  intros [k1 H1]%Z.mod_divide [k2 H2]%Z.mod_divide; [|lia..].
  apply Z.mod_divide; [lia|]. exists (k1 + k2). lia.
Qed.

(** The narrowing to [int] and the sign extension cancel out. *)
Lemma elapsed_exact s last ms :
  (s - last) mod 2 ^ 32 = 0 → last ≤ ms < last + 2 ^ 31 →
  int32 (uint64 (uint64 (int32 ms) - s)) = ms - last.
Proof.
  intros Hs Hms. rewrite <- (int32_id (ms - last)) by (unfold int32_ok; lia).
  apply int32_eqm. eapply mod32_trans; [apply uint64_mod32|].
  pose proof (mod32_trans _ _ _ (uint64_mod32 (int32 ms)) (int32_mod32 ms)) as Hm.
  apply Z.mod_divide in Hm as [k1 Hm], Hs as [k2 Hs]; [|lia..].
  apply Z.mod_divide; [lia|]. exists (k1 - k2). lia.
Qed.

(** Readings of a clock that never goes back, no two further apart than an
    [int] of milliseconds (24 days). *)
Fixpoint paced (last : Z) (readings : list Z) : Prop :=
  match readings with
  | [] => True
  | ms :: readings' => last ≤ ms < last + 2 ^ 31 ∧ paced ms readings'
  end.

Fixpoint last_reading (d : Z) (readings : list Z) : Z :=
  match readings with [] => d | ms :: readings' => last_reading ms readings' end.

Lemma last_reading_le d l : paced d l → d ≤ last_reading d l.
Proof. revert d. induction l as [|x l IH]; cbn; intros d; [lia|]. intros [? Hp%IH]. lia. Qed.

Lemma takeAllTimeout_ok w last ms :
  wf w → clock_ok w last → last ≤ ms < last + 2 ^ 31 →
  ∃ fired w', takeAllTimeout ms w = Ok (fired, w') ∧ wf w' ∧ clock_ok w' ms ∧
    (∀ i f r, pending w' i f r ↔ 0 ≤ r ∧ pending w i f (r + (ms - last))) ∧
    (∀ i f, (i, f) ∈ fired ↔ ∃ r, r < ms - last ∧ pending w i f r).
Proof.
  intros Hwf Hc Hms. unfold takeAllTimeout. rewrite (elapsed_exact _ last) by done.
  destruct (ticks_ok (Z.to_nat (ms - last)) w Hwf)
    as (fired & w1 & -> & Hwf1 & Hn & Hs & Hi & Hp & Hf). cbn [rbind].
  rewrite Z2Nat.id in Hp, Hf by lia.
  eexists fired, _. split; [done|]. split_and!; auto.
  - destruct Hwf1. by split.
  - unfold clock_ok. cbn. eapply mod32_trans; [apply uint64_mod32|apply int32_mod32].
Qed.

Lemma start_ok readings w last :
  wf w → clock_ok w last → paced last readings →
  ∃ fired w', start readings w = Ok (fired, w') ∧ wf w' ∧
    (∀ i f, (i, f) ∈ fired ↔ ∃ r, r < last_reading last readings - last ∧ pending w i f r).
Proof.
  revert w last. induction readings as [|ms readings IH]; intros w last Hwf Hc Hp; cbn [start].
  - exists [], w. split_and!; auto. intros i f. split; [set_solver|].
    cbn [last_reading]. intros (r & Hr & Hpr). apply pending_nonneg in Hpr; [lia|done].
  - destruct Hp as [Hms Hp]. pose proof (last_reading_le _ _ Hp).
    destruct (takeAllTimeout_ok w last ms Hwf Hc Hms) as (f1 & w1 & -> & Hwf1 & Hc1 & Hp1 & Hf1).
    destruct (IH w1 ms Hwf1 Hc1 Hp) as (f2 & w2 & Hst & Hwf2 & Hf2). cbn [rbind]. rewrite Hst.
    cbn [rbind last_reading]. eexists _, w2. split; [done|]. split; [done|].
    intros i f. rewrite elem_of_app, Hf1, Hf2. split.
    + intros [(r & Hr & Hpr)|(r & Hr & [Hr0 Hpr]%Hp1)]; [exists r|exists (r + (ms - last))];
        (split; [lia|done]).
    + intros (r & Hr & Hpr). destruct (decide (r < ms - last)); [left; eauto|right].
      exists (r - (ms - last)). split; [lia|]. apply Hp1. split; [lia|].
      by replace (r - (ms - last) + (ms - last)) with r by lia.
Qed.

(** ** Properties *)

(** One tick is a countdown: on a well-formed wheel [tick] returns, the
    callbacks it runs are those of the timers with no tick left, and every
    other timer is left with one tick less. *)
Theorem timewheel_tick_countdown w :
  wf w → ∃ fired w', tick w = Ok (fired, w') ∧ wf w' ∧
    (∀ i f r, pending w' i f r ↔ 0 ≤ r ∧ pending w i f (r + 1)) ∧
    (∀ i f, (i, f) ∈ fired ↔ pending w i f 0).
Proof.
  intros Hwf. destruct (tick_ok w Hwf) as (fired & w' & Ht & []). exists fired, w'. auto.
Qed.

(** (C10) A timer added with a delay runs exactly when the wheel has seen more
    than that many milliseconds go by: for clock readings that never go back,
    the loop of the wheel returns and has run the callback if and only if the
    last reading is later than the delay, and the 32-bit clock arithmetic
    never shows. *)
Theorem timewheel_fires_on_time w t0 timeout f readings :
  wf w → clock_ok w t0 → 0 ≤ timeout → timeout / nslosts_ w < 2 ^ 31 →
  paced t0 readings →
  ∃ tm w1 fired w2,
    addTimer timeout f w = Ok (tm, w1) ∧ start readings w1 = Ok (fired, w2) ∧
    ((tid tm, f) ∈ fired ↔ timeout < last_reading t0 readings - t0).
Proof.
  intros Hwf Hc Ht Hrot Hp.
  destruct (addTimer_ok w timeout f Hwf Ht Hrot) as (tm & w1 & Ha & Hwf1 & Htid & Hst & Hn & Hpen).
  destruct (start_ok readings w1 t0 Hwf1) as (fired & w2 & Hs & Hwf2 & Hf); [|done|].
  { unfold clock_ok in *. by rewrite Hst. }
  exists tm, w1, fired, w2. split_and!; auto. rewrite Hf, Htid. split.
  - intros (r & Hr & Hpr). apply (pending_unique w1 _ f f timeout) in Hpr as [_ <-]; [lia|done|].
    apply Hpen. by left.
  - intros Hlt. exists timeout. split; [done|]. apply Hpen. by left.
Qed.

(** [addTimer] and [delTimer] change one timer only: adding makes the new
    timer due after its delay, deleting it again takes it out of the wheel,
    and every other timer keeps its due time. *)
Theorem timewheel_add_del w timeout f :
  wf w → 0 ≤ timeout → timeout / nslosts_ w < 2 ^ 31 →
  ∃ tm w1 w2, addTimer timeout f w = Ok (tm, w1) ∧ delTimer (Some tm) w1 = Ok w2 ∧
    wf w1 ∧ wf w2 ∧ pending w1 (tid tm) f timeout ∧
    (∀ i g r, i ≠ tid tm → pending w1 i g r ↔ pending w i g r) ∧
    (∀ i g r, pending w2 i g r ↔ i ≠ tid tm ∧ pending w1 i g r).
Proof.
  intros Hwf Ht Hrot.
  destruct (addTimer_ok w timeout f Hwf Ht Hrot) as (tm & w1 & Ha & Hwf1 & Htid & Hst & Hn & Hpen).
  destruct (addTimer_eq w timeout f Hwf Ht Hrot) as (l & Hl & Hslot & Ha').
  set (slot := (curslot_ w + timeout mod nslosts_ w) mod nslosts_ w) in *.
  pose proof Ha as Ha0. rewrite Ha' in Ha0. injection Ha0 as Etm Ew1.
  assert (slots_ w1 !! Z.to_nat slot = Some (l ++ [tm])) as Hl1.
  { rewrite <- Ew1, <- Etm. cbn. apply list_lookup_insert_eq. by eapply lookup_lt_Some. }
  assert (getSlot tm = slot) as Hgs by (by rewrite <- Etm).
  eexists tm, w1, _. split; [exact Ha|]. split.
  { unfold delTimer. rewrite Hgs. destruct (Z.ltb_spec slot 0); [lia|]. rewrite Hl1. done. }
  split; [done|]. split; [by apply delTimer_wf|]. split; [apply Hpen; naive_solver|].
  split; [intros i g r Hi; rewrite Hpen; naive_solver|].
  intros i g r. apply pending_erase; [done|done|]. set_solver.
Qed.

(** The destructor deletes every timer that is still pending, each once, and
    nothing else. *)
Theorem timewheel_destroy w :
  wf w → NoDup (destroy w) ∧ ∀ i, i ∈ destroy w ↔ ∃ f r, pending w i f r.
Proof.
  intros Hwf. split; [by apply wf_nodup|]. intros i. unfold destroy. rewrite list_elem_of_fmap. split.
  - intros (tm & -> & Hin). apply list_elem_of_concat in Hin as (l & Hin & Hl). apply list_elem_of_lookup in Hl as [s Hs].
    exists (fn tm). eexists. exists s, l, tm. done.
  - intros (f & r & s & l & tm & Hs & Hin & <- & _). exists tm. split; [done|]. by eapply elem_of_concat_lookup.
Qed.

(** The failure value of [epoll_create1] is -1, and goes unreported. *)
Theorem timewheel_init_misses_failure : init_reports (-1) = false.
Proof. reflexivity. Qed.

End wheel.

(** ** Witnesses: the wheel of the log player, 60 * 100 slots *)

Lemma wheel_wf_new {F} n now : 0 < n < 2 ^ 31 → wf (F := F) (new n now).
Proof.
  intros Hn. assert (concat (replicate (Z.to_nat n) ([] : list (Timer (F := F)))) = []) as Hc.
  { by induction (Z.to_nat n). }
  split; cbn; rewrite ?Hc; auto; [lia|apply length_replicate| |constructor].
  intros s l [-> _]%lookup_replicate. constructor.
Qed.

Lemma timewheel_tick_countdown_witness :
  ∃ fired w', tick (new (F := Z) 6000 17) = Ok (fired, w') ∧ wf w'.
Proof.
  destruct (timewheel_tick_countdown (new (F := Z) 6000 17)) as (fired & w' & Ht & Hwf & _);
    [apply wheel_wf_new; lia|]. eauto.
Defined.

Lemma timewheel_fires_on_time_witness :
  ∃ tm w1 fired w2,
    addTimer 8000 5 (new 6000 (2 ^ 31 - 100)) = Ok (tm, w1) ∧
    start [2 ^ 31 + 5000; 2 ^ 31 + 9000] w1 = Ok (fired, w2) ∧ (tid tm, 5) ∈ fired.
Proof.
  destruct (timewheel_fires_on_time (new 6000 (2 ^ 31 - 100)) (2 ^ 31 - 100) 8000 5
    [2 ^ 31 + 5000; 2 ^ 31 + 9000]) as (tm & w1 & fired & w2 & Ha & Hs & Hf).
  - apply wheel_wf_new. lia.
  - vm_compute. reflexivity.
  - lia.
  - vm_compute. reflexivity.
  - cbn. lia.
  - exists tm, w1, fired, w2. split; [exact Ha|]. split; [exact Hs|]. apply Hf. cbn. lia.
Defined.

Lemma timewheel_add_del_witness :
  ∃ tm w1 w2, addTimer 8000 5 (new 6000 0) = Ok (tm, w1) ∧ delTimer (Some tm) w1 = Ok w2 ∧ wf w2.
Proof.
  destruct (timewheel_add_del (new 6000 0) 8000 5) as (tm & w1 & w2 & Ha & Hd & _ & Hwf & _).
  - apply wheel_wf_new. lia.
  - lia.
  - vm_compute. reflexivity.
  - eauto 10.
Defined.

End TimeWheel.
