(* ===== verification/TimeWheelThreads.v ===== *)
(** * The time wheel with its own thread

    src/base/timeWheel.h: [init] starts a thread that ticks, while [addTimer] is
    called by the threads that handle messages; there is no lock ("a vector of
    fixed length, so it should be lock-free").  Here [tick] is cut at every
    access to the vector of the current slot and [addTimer] between reading
    [curslot_] and [push_back].  The vectors of the slots do grow: a slot has a
    capacity and a block of memory that [push_back] replaces when it is full,
    and an iterator belongs to a block.

    As long as no timer is added to the slot that is being served, every
    interleaving has the effect of whole ticks and whole insertions; a timer
    added to that slot can free the memory under the iterator. *)

From stdpp Require Import base list.
From S2P Require Import Prelude TimeWheel.

Module TimeWheelThreads.
Import TimeWheel.

Section threads.
Context {F : Type}.
Abbreviation Timer := (Timer (F := F)).

(** [std::vector<Timer *>] with its capacity and the block it lives in. *)
Record vec := mkvec { elems : list Timer; capacity : nat; block : nat }.

(** [push_back]: a full vector moves to a new block of twice the size. *)
Definition push_back (tm : Timer) (v : vec) : vec :=
  if (length (elems v) <? capacity v)%nat then mkvec (elems v ++ [tm]) (capacity v) (block v)
  else mkvec (elems v ++ [tm]) (length (elems v) + Nat.max (length (elems v)) 1) (S (block v)).

Definition set_elems (l : list Timer) (v : vec) : vec := mkvec l (capacity v) (block v).

(** An iterator: a block and an index. *)
Record iterator := mkit { it_block : nat; it_pos : nat }.

(** Where the thread of the wheel is in [tick]. *)
Inductive place :=
| Outside
| AtTest (it : iterator)
| AtRotations (it : iterator)
| AtDecrease (it : iterator)
| AtTake (it : iterator)
| AtActive (it : iterator) (timer : Timer)
| AtErase (it : iterator)
| AtAdvance.

(** The wheel, the place of its thread and the timers whose slot has been
    computed but which are not yet in their vector. *)
Record state := mkstate {
  nslots : Z; curslot : Z; slots : list vec; next : nat; at_ : place; adding : list (Z * Timer) }.

Definition set_at p s := mkstate (nslots s) (curslot s) (slots s) (next s) p (adding s).
Definition set_slots l s := mkstate (nslots s) (curslot s) l (next s) (at_ s) (adding s).

(** [slots_\[curslot_\]] *)
Definition current (s : state) : result vec := of_option (slots s !! Z.to_nat (curslot s)) OutOfBounds.

(** [*it] *)
Definition deref (it : iterator) (s : state) : result Timer :=
  let? v := current s in
  if (block v =? it_block it)%nat then of_option (elems v !! it_pos it) OutOfBounds else Err UseAfterFree.

Definition put_current (v : vec) (s : state) : state := set_slots (<[Z.to_nat (curslot s) := v]> (slots s)) s.

(** One access of [tick]; a callback that runs is an output. *)
Definition turn (s : state) : result (list (nat * F) * state) :=
  match at_ s with
  | Outside => let? v := current s in Ok ([], set_at (AtTest (mkit (block v) 0)) s)
  | AtTest it =>
      let? v := current s in
      let at_end := (block v =? it_block it)%nat && (it_pos it =? length (elems v))%nat in
      Ok ([], set_at (if at_end then AtAdvance else AtRotations it) s)
  | AtRotations it =>
      let? timer := deref it s in
      Ok ([], set_at (if 0 <? getRotations timer then AtDecrease it else AtTake it) s)
  | AtDecrease it =>
      let? timer := deref it s in
      let? v := current s in
      Ok ([], set_at (AtTest (mkit (it_block it) (S (it_pos it))))
                (put_current (set_elems (<[it_pos it := decreaseRotations timer]> (elems v)) v) s))
  | AtTake it => let? timer := deref it s in Ok ([], set_at (AtActive it timer) s)
  | AtActive it timer => Ok ([active timer], set_at (AtErase it) s)
  | AtErase it =>
      let? _ := deref it s in
      let? v := current s in
      Ok ([], set_at (AtTest it) (put_current (set_elems (delete (it_pos it) (elems v)) v) s))
  | AtAdvance =>
      if nslots s =? 0 then Err DivByZero
      else Ok ([], mkstate (nslots s) (Z.rem (int32 (curslot s + 1)) (nslots s)) (slots s) (next s) Outside (adding s))
  end.

(** [addTimer] up to the new object, and its [push_back]. *)
Definition choose_slot (timeout : Z) (fun_ : F) (s : state) : result state :=
  let n := uint64 (nslots s) in
  if n =? 0 then Err DivByZero
  else
    let slot := int32 (uint64 (uint64 (curslot s) + timeout mod n) mod n) in
    let timer := mkTimer (next s) (int32 (timeout / n)) slot fun_ in
    Ok (mkstate (nslots s) (curslot s) (slots s) (S (next s)) (at_ s) (adding s ++ [(slot, timer)])).

Definition push_slot (i : nat) (s : state) : result state :=
  match adding s !! i with
  | None => Ok s
  | Some (slot, timer) =>
      if slot <? 0 then Err OutOfBounds
      else
        let? v := of_option (slots s !! Z.to_nat slot) OutOfBounds in
        Ok (mkstate (nslots s) (curslot s) (<[Z.to_nat slot := push_back timer v]> (slots s)) (next s) (at_ s) (delete i (adding s)))
  end.

Inductive act := Turn | Choose (timeout : Z) (fun_ : F) | Push (i : nat).

Definition do (a : act) (s : state) : result (list (nat * F) * state) :=
  match a with
  | Turn => turn s
  | Choose t f => let? s := choose_slot t f s in Ok ([], s)
  | Push i => let? s := push_slot i s in Ok ([], s)
  end.

Fixpoint run (l : list act) (s : state) : result (list (nat * F) * state) :=
  match l with
  | [] => Ok ([], s)
  | a :: l => let? (f, s) := do a s in let? (f', s) := run l s in Ok (f ++ f', s)
  end.

(** ** The wheel with whole operations *)

Definition whole (s : state) : TimeWheel (F := F) := mkTimeWheel (nslots s) (curslot s) (elems <$> slots s) 0 (next s).

(** A whole tick, or the two ends of an insertion. *)
Inductive op := Tick | Alloc | Put (slot : Z) (tm : Timer).

Definition apply (o : op) (w : TimeWheel (F := F)) : result (list (nat * F) * TimeWheel (F := F)) :=
  match o with
  | Tick => tick w
  | Alloc => Ok ([], mkTimeWheel (nslosts_ w) (curslot_ w) (slots_ w) (starttime_ w) (S (next_tid w)))
  | Put slot tm =>
      if slot <? 0 then Err OutOfBounds
      else let? l := of_option (slots_ w !! Z.to_nat slot) OutOfBounds in
        Ok ([], mkTimeWheel (nslosts_ w) (curslot_ w) (<[Z.to_nat slot := l ++ [tm]]> (slots_ w)) (starttime_ w) (next_tid w))
  end.

Fixpoint apply_all (os : list op) (w : TimeWheel (F := F)) : result (list (nat * F) * TimeWheel (F := F)) :=
  match os with
  | [] => Ok ([], w)
  | o :: os => let? (f, w) := apply o w in let? (f', w) := apply_all os w in Ok (f ++ f', w)
  end.

(** The whole operation that an action completes: the last access of a tick is
    the tick. *)
Definition ticked (s : state) : list op := match at_ s with AtAdvance => [Tick] | _ => [] end.



(** ** Simulation *)

(** How far the thread is in a slot whose timers are [served ++ rest], and the
    callbacks it has run. *)
Inductive midway (b : nat) (served rest : list Timer) : place → list (nat * F) → Prop :=
| mid_test : midway b served rest (AtTest (mkit b (length (tick_slot served).1))) (tick_slot served).2
| mid_rotations tm rest' :
    rest = tm :: rest' → midway b served rest (AtRotations (mkit b (length (tick_slot served).1))) (tick_slot served).2
| mid_decrease tm rest' :
    rest = tm :: rest' → 0 < rotations_ tm → midway b served rest (AtDecrease (mkit b (length (tick_slot served).1))) (tick_slot served).2
| mid_take tm rest' :
    rest = tm :: rest' → rotations_ tm ≤ 0 → midway b served rest (AtTake (mkit b (length (tick_slot served).1))) (tick_slot served).2
| mid_active tm rest' :
    rest = tm :: rest' → rotations_ tm ≤ 0 → midway b served rest (AtActive (mkit b (length (tick_slot served).1)) tm) (tick_slot served).2
| mid_erase tm rest' :
    rest = tm :: rest' → rotations_ tm ≤ 0 →
    midway b served rest (AtErase (mkit b (length (tick_slot served).1))) ((tick_slot served).2 ++ [active tm])
| mid_advance : rest = [] → midway b served rest AtAdvance (tick_slot served).2.

(** The whole wheel [w] is [s] with the current slot as it was when the thread
    entered it; [fired] has run and is not yet counted by [w]. *)
Inductive sim (s : state) (w : TimeWheel (F := F)) (fired : list (nat * F)) : Prop :=
| sim_outside : at_ s = Outside → w = whole s → fired = [] → sim s w fired
| sim_midway v served rest :
    slots s !! Z.to_nat (curslot s) = Some v → elems v = (tick_slot served).1 ++ rest →
    midway (block v) served rest (at_ s) fired →
    w = mkTimeWheel (nslots s) (curslot s) (<[Z.to_nat (curslot s) := served ++ rest]> (elems <$> slots s)) 0 (next s) →
    sim s w fired.

Record inv (s : state) : Prop := {
  inv_n : 0 < nslots s < 2 ^ 31;
  inv_cur : 0 ≤ curslot s < nslots s;
  inv_len : length (slots s) = Z.to_nat (nslots s);
  inv_adding : Forall (λ p, 0 ≤ p.1 < nslots s) (adding s) }.

Lemma tick_slot_app (l l' : list Timer) :
  tick_slot (l ++ l') = ((tick_slot l).1 ++ (tick_slot l').1, (tick_slot l).2 ++ (tick_slot l').2).
Proof.
  induction l as [|tm l IH]; cbn; [by destruct (tick_slot l')|]. rewrite IH. destruct (tick_slot l) as [k f]. cbn.
  by destruct (0 <? getRotations tm).
Qed.

Lemma inv_current s : inv s → ∃ v, slots s !! Z.to_nat (curslot s) = Some v ∧ current s = Ok v.
Proof.
  intros [Hn Hc Hl _]. destruct (lookup_lt_is_Some_2 (slots s) (Z.to_nat (curslot s))) as [v Hv]; [lia|].
  exists v. unfold current. by rewrite Hv.
Qed.

(** The timer under the iterator. *)
Lemma deref_next s v served tm rest :
  slots s !! Z.to_nat (curslot s) = Some v → elems v = (tick_slot served).1 ++ tm :: rest →
  deref (mkit (block v) (length (tick_slot served).1)) s = Ok tm.
Proof.
  intros Hv He. unfold deref, current. rewrite Hv. cbn. rewrite Nat.eqb_refl, He. by rewrite list_lookup_middle.
Qed.

Lemma inv_put s v p : inv s → inv (set_at p (put_current v s)).
Proof. intros [Hn Hc Hl Ha]. split; cbn; [done|done|by rewrite length_insert|done]. Qed.

(** Inside a slot, every access succeeds and keeps the whole wheel as it was,
    until the last one, which is the tick. *)
Lemma sim_turn s w fired :
  inv s → sim s w fired →
  ∃ f s' g w' fired', turn s = Ok (f, s') ∧ inv s' ∧ apply_all (ticked s) w = Ok (g, w') ∧ fired ++ f = g ++ fired' ∧ sim s' w' fired'.
Proof.
  intros Hinv Hsim. pose proof Hinv as [Hn Hc Hl Ha]. destruct Hsim as [Hat -> ->|v served rest Hv He Hmid ->].
  { destruct (inv_current s Hinv) as (v & Hv & Hcur). unfold turn, ticked. rewrite Hat, Hcur. cbn [rbind].
    eexists _, _, [], _, []. split_and!; [reflexivity|by split|reflexivity|reflexivity|].
    apply (sim_midway _ _ _ v [] (elems v)); [done|done|constructor|]. cbn. unfold whole. f_equal.
    rewrite list_insert_id; [done|]. by rewrite list_lookup_fmap, Hv. }
  assert (current s = Ok v) as Hcur by (unfold current; by rewrite Hv).
  set (i := Z.to_nat (curslot s)) in *. unfold turn, ticked.
  inversion Hmid as [Hat Hf|tm rest' -> Hat Hf|tm rest' -> Hr Hat Hf|tm rest' -> Hr Hat Hf|tm rest' -> Hr Hat Hf|tm rest' -> Hr Hat Hf| -> Hat Hf];
    rewrite ?(deref_next s v served tm rest' Hv He); cbn [rbind]; rewrite ?Hcur; cbn [rbind].
  - eexists _, _, [], _, _. split_and!; [reflexivity|by split|reflexivity|rewrite app_nil_r; reflexivity|].
    apply (sim_midway _ _ _ v served rest); [done|done| |done]. cbn [at_ set_at it_block it_pos]. rewrite Nat.eqb_refl, He, length_app. cbn [andb].
    destruct (Nat.eqb_spec (length (tick_slot served).1) (length (tick_slot served).1 + length rest)).
    + destruct rest; [by constructor|cbn in *; lia].
    + destruct rest as [|tm rest']; [cbn in *; lia|by econstructor].
  - eexists _, _, [], _, _. split_and!; [reflexivity|by split|reflexivity|rewrite app_nil_r; reflexivity|].
    apply (sim_midway _ _ _ v served (tm :: rest')); [done|done| |done]. cbn [at_ set_at]. unfold getRotations.
    destruct (Z.ltb_spec 0 (rotations_ tm)); by econstructor.
  - assert (tick_slot [tm] = ([decreaseRotations tm], [])) as Htm by (cbn; unfold getRotations; by destruct (Z.ltb_spec 0 (rotations_ tm)); [|lia]).
    pose proof (tick_slot_app served [tm]) as Happ. rewrite Htm in Happ. cbn in Happ. rewrite app_nil_r in Happ.
    eexists _, _, [], _, (tick_slot (served ++ [tm])).2. split_and!; [reflexivity|by apply inv_put|reflexivity|rewrite Happ, app_nil_r; cbn; congruence|].
    eapply (sim_midway _ _ _ (set_elems _ v) (served ++ [tm]) rest').
    + cbn. fold i. apply list_lookup_insert_eq. rewrite Hl. unfold i. lia.
    + cbn. rewrite He, Happ. cbn. rewrite insert_app_r_alt by done. rewrite Nat.sub_diag. cbn. by rewrite <- app_assoc.
    + cbn [at_ set_at block set_elems it_block it_pos]. replace (S (length (tick_slot served).1)) with (length (tick_slot (served ++ [tm])).1) by (rewrite Happ; cbn; rewrite length_app; cbn; lia). constructor.
    + cbn. f_equal. fold i. rewrite list_fmap_insert, list_insert_insert_eq. by rewrite <- app_assoc.
  - eexists _, _, [], _, _. split_and!; [reflexivity|by split|reflexivity|rewrite app_nil_r; reflexivity|].
    apply (sim_midway _ _ _ v served (tm :: rest')); [done|done| |done]. cbn [at_ set_at]. by econstructor.
  - eexists _, _, [], _, _. split_and!; [reflexivity|by split|reflexivity|reflexivity|].
    apply (sim_midway _ _ _ v served (tm :: rest')); [done|done| |done]. cbn [at_ set_at]. by econstructor.
  - assert (tick_slot [tm] = ([], [active tm])) as Htm by (cbn; unfold getRotations; by destruct (Z.ltb_spec 0 (rotations_ tm)); [lia|]).
    pose proof (tick_slot_app served [tm]) as Happ. rewrite Htm in Happ. cbn in Happ. rewrite app_nil_r in Happ.
    eexists _, _, [], _, (tick_slot (served ++ [tm])).2. split_and!; [reflexivity|by apply inv_put|reflexivity|rewrite Happ, app_nil_r; cbn; congruence|].
    eapply (sim_midway _ _ _ (set_elems _ v) (served ++ [tm]) rest').
    + cbn. fold i. apply list_lookup_insert_eq. rewrite Hl. unfold i. lia.
    + cbn. rewrite He, Happ. cbn. by rewrite delete_middle.
    + cbn [at_ set_at block set_elems it_block it_pos]. replace (length (tick_slot served).1) with (length (tick_slot (served ++ [tm])).1) by (by rewrite Happ). constructor.
    + cbn. f_equal. fold i. rewrite list_fmap_insert, list_insert_insert_eq. by rewrite <- app_assoc.
  - destruct (Z.eqb_spec (nslots s) 0); [lia|]. rewrite app_nil_r in *.
    eexists _, _, _, _, []. split_and!; [reflexivity| | |rewrite !app_nil_r; reflexivity|].
    + split; cbn; [done| |done|done]. rewrite int32_id by (unfold int32_ok; lia). pose proof (Z.rem_bound_pos (curslot s + 1) (nslots s)). lia.
    + cbn. unfold tick. cbn. destruct (Z.eqb_spec (nslots s) 0); [lia|]. fold i.
      rewrite list_lookup_insert_eq by (rewrite length_fmap, Hl; unfold i; lia). cbn. rewrite (surjective_pairing (tick_slot served)). cbn. rewrite app_nil_r. reflexivity.
    + apply sim_outside; [done| |done]. unfold whole. cbn. f_equal. rewrite list_insert_insert_eq, <- He. rewrite list_insert_id; [done|].
      by rewrite list_lookup_fmap, Hv.
Qed.







Lemma sim_whole s w fired : at_ s = Outside → sim s w fired → w = whole s ∧ fired = [].
Proof.
  intros Hat [_ -> ->|v served rest _ _ Hmid _]; [done|]. rewrite Hat in Hmid. inversion Hmid.
Qed.


(** Accesses left in a tick. *)
Definition left (s : state) : nat :=
  let n := length (default [] (elems <$> slots s !! Z.to_nat (curslot s))) in
  match at_ s with
  | Outside => 0
  | AtTest it => 5 * (n - it_pos it) + 2
  | AtRotations it => 5 * (n - it_pos it) + 1
  | AtDecrease it => 5 * (n - S (it_pos it)) + 3
  | AtTake it => 5 * (n - S (it_pos it)) + 5
  | AtActive it _ => 5 * (n - S (it_pos it)) + 4
  | AtErase it => 5 * (n - S (it_pos it)) + 3
  | AtAdvance => 1
  end.

Lemma turn_left s w fired f s' : inv s → sim s w fired → at_ s ≠ Outside → turn s = Ok (f, s') → (left s' < left s)%nat.
Proof.
  intros Hinv Hsim Hat Ht. destruct Hsim as [Hat' _ _|v served rest Hv He Hmid _]; [done|].
  assert (current s = Ok v) as Hcur by (unfold current; by rewrite Hv).
  assert (length (elems v) = length (tick_slot served).1 + length rest)%nat as Hlen by (by rewrite He, length_app).
  pose proof (inv_len s Hinv) as Hl. pose proof (inv_cur s Hinv) as Hc. unfold turn in Ht.
  inversion Hmid as [Hp Hf|tm rest' -> Hp Hf|tm rest' -> Hr Hp Hf|tm rest' -> Hr Hp Hf|tm rest' -> Hr Hp Hf|tm rest' -> Hr Hp Hf| -> Hp Hf];
    rewrite <- Hp in Ht; unfold left; rewrite <- Hp, ?Hv; cbn [length fmap option_fmap option_map from_option id it_pos] in *;
    rewrite ?(deref_next s v served tm rest' Hv He) in Ht; cbn [rbind] in Ht; rewrite ?Hcur in Ht; cbn [rbind] in Ht.
  - cbn [it_block it_pos] in Ht. rewrite Nat.eqb_refl, Hlen in Ht. cbn [andb] in Ht. injection Ht as <- <-.
    destruct (Nat.eqb_spec (length (tick_slot served).1) (length (tick_slot served).1 + length rest)); cbn; rewrite ?Hv; cbn; lia.
  - injection Ht as <- <-. destruct (0 <? _); cbn; rewrite ?Hv; cbn; lia.
  - injection Ht as <- <-. cbn. rewrite list_lookup_insert_eq by lia. cbn. rewrite length_insert. lia.
  - injection Ht as <- <-. cbn. rewrite Hv. cbn. lia.
  - injection Ht as <- <-. cbn. rewrite Hv. cbn. lia.
  - injection Ht as <- <-. cbn. rewrite list_lookup_insert_eq by lia. cbn. rewrite length_delete by (rewrite He; rewrite list_lookup_middle; done). lia.
  - destruct (nslots s =? 0); [done|]. injection Ht as <- <-. cbn. lia.
Qed.

(** The rest of a tick. *)
Lemma tick_rest n s w fired :
  inv s → sim s w fired → at_ s ≠ Outside → (left s ≤ n)%nat →
  ∃ k f s', (k ≤ n)%nat ∧ run (replicate k Turn) s = Ok (f, s') ∧ at_ s' = Outside ∧ tick w = Ok (fired ++ f, whole s').
Proof.
  revert s w fired. induction n as [|n IH]; intros s w fired Hinv Hsim Hat Hn.
  { destruct (sim_turn s w fired Hinv Hsim) as (f & s' & _ & _ & _ & Ht & _). pose proof (turn_left _ _ _ _ _ Hinv Hsim Hat Ht). lia. }
  destruct (sim_turn s w fired Hinv Hsim) as (f & s' & g & w' & fired' & Ht & Hinv' & Hap & Hf & Hsim').
  pose proof (turn_left _ _ _ _ _ Hinv Hsim Hat Ht) as Hlt. assert (at_ s = AtAdvance ∨ at_ s ≠ AtAdvance) as [Hadv|Hadv] by (destruct (at_ s); by (left + right)).
  - assert (at_ s' = Outside ∧ f = []) as [Hat' ->].
    { unfold turn in Ht. rewrite Hadv in Ht. destruct (nslots s =? 0); [done|]. by injection Ht as <- <-. }
    destruct (sim_whole _ _ _ Hat' Hsim') as [-> ->]. exists 1%nat, [], s'. split_and!; [lia|cbn; by rewrite Ht|done|].
    unfold ticked in Hap. rewrite Hadv in Hap. cbn in Hap. destruct (tick w) as [[g1 w1]|]; [|done]. cbn in Hap. injection Hap as <- <-.
    rewrite Hf, !app_nil_r. done.
  - assert (ticked s = []) as Htk by (unfold ticked; by destruct (at_ s)). rewrite Htk in Hap. injection Hap as <- <-. cbn in Hf.
    assert (at_ s' ≠ Outside) as Hat'.
    { unfold turn in Ht. destruct (at_ s); try done; repeat match type of Ht with (let? _ := ?x in _) = _ => destruct x; [|done]; cbn [rbind] in Ht end;
        injection Ht as <- <-; cbn; try done; by destruct (_ && _) || destruct (0 <? _). }
    destruct (IH s' w fired' Hinv' Hsim' Hat' ltac:(lia)) as (k & f' & s'' & Hk & Hrun & Hat'' & Htick).
    exists (S k), (f ++ f'), s''. split_and!; [lia|cbn [replicate run do]; rewrite Ht; cbn [rbind]; by rewrite Hrun|done|].
    by rewrite Htick, app_assoc, Hf.
Qed.

(** A tick ends: left alone, the thread of the wheel leaves [tick] after at
    most five accesses per timer of the slot and three more, and what it has
    done is exactly one [tick] of the wheel. *)
Theorem timewheel_tick_terminates s v :
  inv s → at_ s = Outside → slots s !! Z.to_nat (curslot s) = Some v →
  ∃ k f s', (k ≤ 5 * length (elems v) + 3)%nat ∧ run (replicate k Turn) s = Ok (f, s') ∧ at_ s' = Outside ∧ tick (whole s) = Ok (f, whole s').
Proof.
  intros Hinv Hat Hv. destruct (sim_turn s (whole s) [] Hinv) as (f0 & s0 & g0 & w0 & fired0 & Ht & Hinv0 & Hap & Hf & Hsim0); [by apply sim_outside|].
  assert (at_ s0 = AtTest (mkit (block v) 0) ∧ slots s0 = slots s ∧ curslot s0 = curslot s ∧ f0 = []) as (Hat0 & Hs0 & Hc0 & ->).
  { unfold turn, current in Ht. rewrite Hat, Hv in Ht. cbn in Ht. by injection Ht as <- <-. }
  unfold ticked in Hap. rewrite Hat in Hap. injection Hap as <- <-. cbn in Hf. subst fired0.
  destruct (tick_rest (left s0) s0 (whole s) [] Hinv0 Hsim0) as (k & f & s' & Hk & Hrun & Hat' & Htick); [by rewrite Hat0|done|].
  exists (S k), f, s'. split_and!; [|cbn [replicate run do]; rewrite Ht; cbn [rbind]; by rewrite Hrun|done|done].
  unfold left in Hk. rewrite Hat0, Hs0, Hc0, Hv in Hk. cbn in Hk. lia.
Qed.

(** The places at which the thread holds an iterator that it goes on to use. *)
Definition holds (p : place) (it : iterator) : Prop :=
  p = AtRotations it ∨ p = AtDecrease it ∨ p = AtTake it ∨ p = AtErase it.

(** (C12) The wheel is not lock-free: when the vector of the slot being served is
    full and another thread pushes a timer into it, the elements move to a new
    block and the next access of the thread of the wheel goes through an
    iterator into freed memory. *)
Theorem timewheel_push_frees_iterator s it v i tm :
  inv s → slots s !! Z.to_nat (curslot s) = Some v → length (elems v) = capacity v →
  it_block it = block v → holds (at_ s) it → adding s !! i = Some (curslot s, tm) →
  run [Push i; Turn] s = Err UseAfterFree.
Proof.
  intros [Hn Hc Hl _] Hv Hfull Hb Hp Hi. cbn [run do]. unfold push_slot. rewrite Hi. destruct (Z.ltb_spec (curslot s) 0); [lia|].
  rewrite Hv. cbn [of_option rbind]. unfold push_back. rewrite Hfull, Nat.ltb_irrefl. unfold turn, deref, current. cbn [at_ curslot slots rbind].
  rewrite list_lookup_insert_eq by lia.
  assert ((S (block v) =? it_block it)%nat = false) as Hne by (apply Nat.eqb_neq; lia).
  destruct Hp as [-> | [-> | [-> | ->]]]; cbn -[Nat.eqb]; by rewrite Hne.
Qed.

End threads.

(** ** Witnesses: a wheel of three slots *)

Definition small_wheel : state (F := Z) :=
  mkstate 3 0 [mkvec [mkTimer 0 0 0 7; mkTimer 1 2 0 8] 2 0; mkvec [] 0 0; mkvec [] 0 0] 2 Outside [].

Lemma small_inv : inv small_wheel.
Proof. split; cbn; [lia|lia|reflexivity|constructor]. Defined.



Lemma timewheel_tick_terminates_witness :
  ∃ k f s', (k ≤ 13)%nat ∧ run (replicate k Turn) small_wheel = Ok (f, s') ∧ tick (whole small_wheel) = Ok (f, whole s').
Proof.
  destruct (timewheel_tick_terminates small_wheel (mkvec [mkTimer 0 0 0 7; mkTimer 1 2 0 8] 2 0) small_inv eq_refl eq_refl) as (k & f & s' & Hk & Hrun & _ & Ht).
  exists k, f, s'. split_and!; [exact Hk|exact Hrun|exact Ht].
Defined.

(** The thread has run the first callback and is about to erase its timer, and
    a timer of one whole turn is about to enter the same slot. *)
Definition disturbed_wheel : state (F := Z) :=
  mkstate 3 0 [mkvec [mkTimer 0 0 0 7; mkTimer 1 2 0 8] 2 0; mkvec [] 0 0; mkvec [] 0 0] 3 (AtErase (mkit 0 0)) [(0, mkTimer 2 1 0 9)].

Lemma timewheel_push_frees_iterator_witness :
  run [Turn; Turn; Turn; Turn; Turn; Choose 3 9] small_wheel = Ok ([(0%nat, 7)], disturbed_wheel) ∧
  run [Push 0; Turn] disturbed_wheel = Err UseAfterFree.
Proof.
  split; [vm_compute; reflexivity|].
  apply (timewheel_push_frees_iterator disturbed_wheel (mkit 0 0) (mkvec [mkTimer 0 0 0 7; mkTimer 1 2 0 8] 2 0) 0 (mkTimer 2 1 0 9)).
  - split; cbn; [lia|lia|reflexivity|]. constructor; [cbn; lia|constructor].
  - reflexivity.
  - reflexivity.
  - reflexivity.
  - right; right; right. reflexivity.
  - reflexivity.
Defined.

End TimeWheelThreads.
