(* ===== verification/ThreadPool.v ===== *)
(** * The thread pool (src/base/threadPool.h)

    A fixed set of workers, a FIFO of tasks and the [stop] flag.  A worker is
    at the test of its [while] loop, waiting on the condition variable,
    running a task, or gone; the mutex makes each of its critical sections
    one step, so an execution is a sequence of steps of the workers and of
    the owner's calls.  [T] is the type of tasks. *)

From stdpp Require Import base list.
From S2P Require Import Prelude.

Module ThreadPool.

Section pool.
Context {T : Type}.

Inductive worker :=
| Loop            (** at [while (!this->stop)] *)
| Waiting         (** inside [condition.wait], or about to test its predicate *)
| Running (task : T)
| Exited.

Record ThreadPool := mkThreadPool { workers : list worker; tasks : list T; stop : bool }.

(** [ThreadPool(size_t threads)] *)
Definition new (threads : nat) : ThreadPool := mkThreadPool (replicate threads Loop) [] false.

(** [enqueue(function<void()> task)] *)
Definition enqueue (task : T) (p : ThreadPool) : result ThreadPool :=
  if stop p then Err (Throw RuntimeError)
  else Ok (mkThreadPool (workers p) (tasks p ++ [task]) (stop p)).

(** The critical section of [~ThreadPool()]. *)
Definition destroy (p : ThreadPool) : ThreadPool := mkThreadPool (workers p) (tasks p) true.

(** One step of worker [i]: the loop test; the wake-up, which returns when
    the pool is stopped and empty and takes the first task otherwise; the end
    of the task. [None] when the worker cannot move. *)
Definition worker_step (i : nat) (p : ThreadPool) : option ThreadPool :=
  match workers p !! i with
  | Some Loop =>
      Some (mkThreadPool (<[i := if stop p then Exited else Waiting]> (workers p)) (tasks p) (stop p))
  | Some Waiting =>
      match tasks p with
      | task :: rest => Some (mkThreadPool (<[i := Running task]> (workers p)) rest (stop p))
      | [] => if stop p then Some (mkThreadPool (<[i := Exited]> (workers p)) [] (stop p)) else None
      end
  | Some (Running _) => Some (mkThreadPool (<[i := Loop]> (workers p)) (tasks p) (stop p))
  | Some Exited | None => None
  end.

(** The task worker [i] takes if it moves now. *)
Definition taken (i : nat) (p : ThreadPool) : list T :=
  match workers p !! i, tasks p with
  | Some Waiting, task :: _ => [task]
  | _, _ => []
  end.

(** Executions: labelled steps, with the tasks accepted and the tasks taken. *)
Inductive step : ThreadPool → list T → list T → ThreadPool → Prop :=
| step_worker i p p' : worker_step i p = Some p' → step p [] (taken i p) p'
| step_enqueue x p p' : enqueue x p = Ok p' → step p [x] [] p'
| step_destroy p : step p [] [] (destroy p).

Inductive steps : ThreadPool → list T → list T → ThreadPool → Prop :=
| steps_refl p : steps p [] [] p
| steps_trans p a1 k1 p1 a2 k2 p2 :
    steps p a1 k1 p1 → step p1 a2 k2 p2 → steps p (a1 ++ a2) (k1 ++ k2) p2.

(** Only the workers move (the owner is inside [join]). *)
Inductive worker_steps : nat → ThreadPool → ThreadPool → Prop :=
| wsteps_0 p : worker_steps 0 p p
| wsteps_S n i p p1 p2 :
    worker_step i p = Some p1 → worker_steps n p1 p2 → worker_steps (S n) p p2.

(** Steps a worker of a stopped pool can still make, at most. *)
Definition steps_left (w : worker) : nat :=
  match w with Waiting => 3 | Running _ => 2 | Loop => 1 | Exited => 0 end.

Definition pool_left (p : ThreadPool) : nat := sum_list_with steps_left (workers p).

(** ** Lemmas *)

Lemma worker_step_tasks i p p' :
  worker_step i p = Some p' → tasks p = taken i p ++ tasks p' ∧ stop p' = stop p.
Proof.
  unfold worker_step, taken. destruct (workers p !! i) as [[]|]; try done.
  - intros [= <-]. done.
  - destruct (tasks p); [destruct (stop p) eqn:Hs; [|done]|]; intros [= <-]; auto.
  - intros [= <-]. done.
Qed.

Lemma step_tasks p a k p' : step p a k p' → tasks p ++ a = k ++ tasks p'.
Proof.
  destruct 1 as [i p p' Hw|x p p' He|p]; cbn.
  - rewrite app_nil_r. by apply worker_step_tasks in Hw as [? _].
  - unfold enqueue in He. destruct (stop p); [done|]. injection He as <-. done.
  - by rewrite app_nil_r.
Qed.

Lemma steps_tasks p a k p' : steps p a k p' → tasks p ++ a = k ++ tasks p'.
Proof.
  induction 1 as [p|p a1 k1 p1 a2 k2 p2 _ IH Hs]; [by rewrite app_nil_r|].
  apply step_tasks in Hs. by rewrite app_assoc, IH, <- app_assoc, Hs, app_assoc.
Qed.

Lemma worker_step_left i p p' :
  stop p = true → worker_step i p = Some p' → (pool_left p' < pool_left p)%nat.
Proof.
  intros Hs. unfold worker_step, pool_left. rewrite Hs.
  destruct (workers p !! i) as [w|] eqn:Hw; [|done].
  pose proof (λ y, sum_list_with_insert steps_left _ i w y Hw) as Hsum.
  destruct w; try done; [|destruct (tasks p)|]; intros [= <-]; cbn [workers];
    [specialize (Hsum Exited)|specialize (Hsum Exited)|
     match goal with |- context [Running ?x] => specialize (Hsum (Running x)) end
    |specialize (Hsum Loop)]; cbn in Hsum; lia.
Qed.

Lemma worker_steps_left n p p' :
  stop p = true → worker_steps n p p' → stop p' = true ∧ (n + pool_left p' ≤ pool_left p)%nat.
Proof.
  intros Hs Hn. induction Hn as [p|n i p p1 p2 Hi Hn IH]; [split; [done|lia]|].
  pose proof (worker_step_left _ _ _ Hs Hi). apply worker_step_tasks in Hi as [_ Hs1].
  rewrite Hs in Hs1. destruct (IH Hs1). split; [done|lia].
Qed.

Lemma worker_step_progress i p w :
  stop p = true → workers p !! i = Some w → w ≠ Exited → is_Some (worker_step i p).
Proof.
  intros Hs Hi Hw. unfold worker_step. rewrite Hi, Hs. destruct w; try done; eauto.
  destruct (tasks p); eauto.
Qed.

Lemma pool_left_bound p : (pool_left p ≤ 3 * length (workers p))%nat.
Proof.
  unfold pool_left. induction (workers p) as [|w ws IH]; cbn -[Nat.mul]; [lia|].
  destruct w; cbn -[Nat.mul]; lia.
Qed.

Lemma all_exited (ws : list worker) :
  Forall (λ w, w = Exited) ws ∨ ∃ i w, ws !! i = Some w ∧ w ≠ Exited.
Proof.
  induction ws as [|w ws [IH|(i & w' & Hi & Hw)]]; [by left| |right; by exists (S i), w'].
  destruct w; [right; by exists 0%nat, Loop|right; by exists 0%nat, Waiting
              |right; by exists 0%nat, (Running task)|left; by constructor].
Qed.

(** ** Properties *)

(** In every execution of the pool the tasks accepted so far are the
    tasks taken by the workers, in the order they were enqueued, followed by
    those still queued: tasks start in FIFO order, each at most once, and
    none is lost. *)
Theorem threadpool_fifo n accepted started p :
  steps (new n) accepted started p → accepted = started ++ tasks p.
Proof. intros H. by apply steps_tasks in H. Qed.

(** After [stop] the pool drains: from any state of a stopped pool the
    workers can make at most three steps each, and until every worker has
    left some worker can move, so every [join] of the destructor returns once
    the running tasks do. *)
Theorem threadpool_join_returns p :
  stop p = true →
  (∀ n p', worker_steps n p p' → (n ≤ 3 * length (workers p))%nat) ∧
  (∀ n p', worker_steps n p p' →
     Forall (λ w, w = Exited) (workers p') ∨ ∃ i p'', worker_step i p' = Some p'').
Proof.
  intros Hs. split; intros n p' Hn; destruct (worker_steps_left _ _ _ Hs Hn) as [Hs' Hl].
  - pose proof (pool_left_bound p). lia.
  - destruct (all_exited (workers p')) as [He|(i & w & Hi & Hw)]; [by left|right].
    exists i. by apply (worker_step_progress i p' w).
Qed.

End pool.

(** ** Witnesses *)

Lemma threadpool_fifo_witness :
  ∃ p : ThreadPool, steps (new 1) [1; 2] [1] p ∧ [1; 2] = [1] ++ tasks p.
Proof.
  assert (steps (new 1) [1; 2] [1] (mkThreadPool [Running 1] [2] false)) as Hs.
  { apply (steps_trans _ [1; 2] [] (mkThreadPool [Waiting] [1; 2] false) [] [1]);
      [|exact (step_worker 0 (mkThreadPool [Waiting] [1; 2] false) _ eq_refl)].
    apply (steps_trans _ [1; 2] [] (mkThreadPool [Loop] [1; 2] false) [] []);
      [|exact (step_worker 0 (mkThreadPool [Loop] [1; 2] false) _ eq_refl)].
    apply (steps_trans _ [1] [] (mkThreadPool [Loop] [1] false) [2] []); [|by apply step_enqueue].
    apply (steps_trans _ [] [] (new 1) [1] []); [apply steps_refl|by apply step_enqueue]. }
  eexists. split; [exact Hs|]. apply (threadpool_fifo 1 _ _ _ Hs).
Defined.

Lemma threadpool_join_returns_witness :
  let p := mkThreadPool [Waiting; Running 7] [3] true in
  stop p = true ∧ ∀ n p', worker_steps n p p' → (n ≤ 6)%nat.
Proof.
  split; [reflexivity|].
  exact (proj1 (threadpool_join_returns (mkThreadPool [Waiting; Running 7] [3] true) eq_refl)).
Defined.

(** A stopped pool can leave tasks unrun: the only worker runs what it holds
    and leaves. *)
Example threadpool_drops_queued :
  ∃ p', worker_steps 2 (mkThreadPool [Running 1] [2] true) p' ∧ p' = mkThreadPool [Exited] [2] true.
Proof.
  eexists. split; [|reflexivity].
  apply (wsteps_S 1 0 _ (mkThreadPool [Loop] [2] true)); [reflexivity|].
  apply (wsteps_S 0 0 _ (mkThreadPool [Exited] [2] true)); [reflexivity|]. apply wsteps_0.
Qed.

End ThreadPool.
