(* ===== verification/ThreadPoolCv.v ===== *)
(** * The thread pool with its condition variable (src/base/threadPool.h)

    ThreadPool.v lets a worker that waits move as soon as there is work.  Here
    the sleep inside [condition.wait] is explicit: a worker that finds nothing
    to do sleeps until a notification (or a spurious wake-up) lets it test the
    predicate again; [enqueue] and the destructor change the shared state under
    the mutex and notify in a later step.

    Shown: this pool refines the one of ThreadPool.v; no wake-up is lost; after
    the destructor has stopped the pool every worker leaves that is not inside
    a task that never comes back. *)

From stdpp Require Import base list.
From S2P Require Import Prelude ThreadPool.

Module ThreadPoolCv.
Import ThreadPool.

Section pool.
Context {T : Type}.
(** The tasks that come back; [TimeWheel::start], which the time wheel puts on
    a pool of its own, never does. *)
Context (returns : T → bool).

(** A worker: at the loop test; about to take the mutex and test the
    predicate; asleep in [wait]; running a task; gone. *)
Inductive thread :=
| AtLoop
| Entering
| Asleep
| Busy (task : T)
| Gone.

(** [notify]: calls of [notify_one] that [enqueue] still has to make;
    [notify_all]: the destructor still has to call [notify_all]. *)
Record pool := mkpool {
  threads : list thread; queue : list T; stopped : bool; notify : nat; notify_all : bool }.

Definition set_thread (i : nat) (t : thread) (p : pool) : pool :=
  mkpool (<[i := t]> (threads p)) (queue p) (stopped p) (notify p) (notify_all p).

Definition start (n : nat) : pool := mkpool (replicate n AtLoop) [] false 0 false.

(** One step of worker [i] that does not need a notification. *)
Definition thread_step (i : nat) (p : pool) : option pool :=
  match threads p !! i with
  | Some AtLoop => Some (set_thread i (if stopped p then Gone else Entering) p)
  | Some Entering =>
      match queue p with
      | task :: rest => Some (set_thread i (Busy task) (mkpool (threads p) rest (stopped p) (notify p) (notify_all p)))
      | [] => Some (set_thread i (if stopped p then Gone else Asleep) p)
      end
  | Some (Busy task) => if returns task then Some (set_thread i AtLoop p) else None
  | Some Asleep | Some Gone | None => None
  end.

(** The task worker [i] takes if it moves now. *)
Definition takes (i : nat) (p : pool) : list T :=
  match threads p !! i, queue p with Some Entering, task :: _ => [task] | _, _ => [] end.

Definition enqueue (task : T) (p : pool) : result pool :=
  if stopped p then Err (Throw RuntimeError)
  else Ok (mkpool (threads p) (queue p ++ [task]) (stopped p) (S (notify p)) (notify_all p)).

Definition destroy (p : pool) : pool := mkpool (threads p) (queue p) true (notify p) true.

Definition wake (t : thread) : thread := match t with Asleep => Entering | t => t end.

Definition no_sleeper (p : pool) : Prop := Forall (λ t, t ≠ Asleep) (threads p).

(** Steps, with the tasks accepted and the tasks taken. *)
Inductive step : pool → list T → list T → pool → Prop :=
| step_thread i p p' : thread_step i p = Some p' → step p [] (takes i p) p'
| step_spurious i p : threads p !! i = Some Asleep → step p [] [] (set_thread i Entering p)
| step_enqueue x p p' : enqueue x p = Ok p' → step p [x] [] p'
| step_notify_one i p k :
    notify p = S k → threads p !! i = Some Asleep →
    step p [] [] (mkpool (<[i := Entering]> (threads p)) (queue p) (stopped p) k (notify_all p))
| step_notify_none p k :
    notify p = S k → no_sleeper p →
    step p [] [] (mkpool (threads p) (queue p) (stopped p) k (notify_all p))
| step_destroy p : step p [] [] (destroy p)
| step_notify_all p :
    notify_all p = true → step p [] [] (mkpool (wake <$> threads p) (queue p) (stopped p) (notify p) false).

Inductive steps : pool → list T → list T → pool → Prop :=
| steps_refl p : steps p [] [] p
| steps_snoc p a k p1 a' k' p2 : steps p a k p1 → step p1 a' k' p2 → steps p (a ++ a') (k ++ k') p2.

(** ** Refinement *)

(** The pool of ThreadPool.v: a worker in [wait] is waiting, asleep or not. *)
Definition abs_thread (t : thread) : worker (T := T) :=
  match t with AtLoop => Loop | Entering | Asleep => Waiting | Busy x => Running x | Gone => Exited end.
Definition abs (p : pool) : ThreadPool (T := T) := mkThreadPool (abs_thread <$> threads p) (queue p) (stopped p).

Lemma abs_set i t p : abs (set_thread i t p) = mkThreadPool (<[i := abs_thread t]> (workers (abs p))) (queue p) (stopped p).
Proof. unfold abs. cbn. by rewrite list_fmap_insert. Qed.

Lemma abs_set_same i t t' p : threads p !! i = Some t → abs_thread t = abs_thread t' → abs (set_thread i t' p) = abs p.
Proof.
  intros Hi Ht. rewrite abs_set, <- Ht. unfold abs. cbn. f_equal. apply list_insert_id. by rewrite list_lookup_fmap, Hi.
Qed.

Lemma abs_wake p : abs_thread <$> (wake <$> threads p) = abs_thread <$> threads p.
Proof. rewrite <- list_fmap_compose. apply list_fmap_ext. by intros i [] _. Qed.

Lemma thread_step_takes i p p' : thread_step i p = Some p' → takes i p = taken i (abs p).
Proof.
  unfold thread_step, takes, taken. cbn [abs workers tasks]. rewrite list_lookup_fmap.
  by destruct (threads p !! i) as [[]|], (queue p).
Qed.

(** A worker goes to sleep without the abstract pool noticing; its other steps
    are the abstract ones. *)
Lemma thread_step_refines i p p' :
  thread_step i p = Some p' → worker_step i (abs p) = Some (abs p') ∨ (takes i p = [] ∧ abs p' = abs p).
Proof.
  unfold thread_step, worker_step. cbn [abs workers tasks stop]. rewrite list_lookup_fmap.
  destruct (threads p !! i) as [[]|] eqn:Hi; try done; cbn [fmap option_fmap option_map abs_thread].
  - intros [= <-]. left. f_equal. rewrite abs_set. by destruct (stopped p).
  - destruct (queue p) as [|x rest] eqn:Hq.
    + destruct (stopped p) eqn:Hst; intros [= <-]; [left|right].
      * f_equal. by rewrite abs_set, Hq, Hst.
      * split; [unfold takes; by rewrite Hi, Hq|by eapply abs_set_same].
    + intros [= <-]. left. f_equal. unfold abs. cbn. by rewrite list_fmap_insert.
  - destruct (returns task); [|done]. intros [= <-]. left. f_equal. by rewrite abs_set.
Qed.

(** A step is a step of the abstract pool, or changes nothing there. *)
Lemma step_refines p a k p' :
  step p a k p' → ThreadPool.step (abs p) a k (abs p') ∨ (a = [] ∧ k = [] ∧ abs p' = abs p).
Proof.
  destruct 1 as [i p p' Hs|i p Hi|x p p' He|i p n Hn Hi|p n Hn Hno|p|p Hall].
  - destruct (thread_step_refines _ _ _ Hs) as [Hw|[Ht Habs]]; [left|by right].
    rewrite (thread_step_takes _ _ _ Hs). by apply step_worker.
  - right. split_and!; [done|done|by eapply abs_set_same].
  - left. apply ThreadPool.step_enqueue. unfold enqueue in He. unfold ThreadPool.enqueue. cbn. destruct (stopped p) eqn:Hst; [done|].
    by injection He as <-.
  - right. split_and!; [done|done|]. exact (abs_set_same i Asleep Entering p Hi eq_refl).
  - by right.
  - left. apply (ThreadPool.step_destroy (abs p)).
  - right. split_and!; [done|done|]. unfold abs. cbn. by rewrite abs_wake.
Qed.

(** (C26) The pool with its condition variable refines the pool of ThreadPool.v:
    whatever the order of steps, notifications and spurious wake-ups, there is
    an execution there that accepts and starts the same tasks in the same
    order, so its guarantees hold here. *)
Theorem threadpool_cv_refines n a k p :
  steps (start n) a k p → ThreadPool.steps (new n) a k (abs p).
Proof.
  intros Hs. remember (start n) as p0 eqn:Hp0. induction Hs as [p0|p0 a k p1 a' k' p2 _ IH Hstep]; subst p0.
  - unfold abs, start. cbn. rewrite fmap_replicate. constructor.
  - specialize (IH eq_refl). destruct (step_refines _ _ _ _ Hstep) as [Habs|(-> & -> & ->)].
    + by eapply ThreadPool.steps_trans.
    + by rewrite !app_nil_r.
Qed.

(** ** Wake-ups *)

Definition entering (p : pool) : nat := sum_list_with (λ t, match t with Entering => 1 | _ => 0 end)%nat (threads p).

(** While a worker sleeps every queued task has a worker on its way to the
    queue or a notification on its way to a worker; and when the pool is
    stopped while a worker sleeps, [notify_all] is still to come. *)
Record awake (p : pool) : Prop := {
  awake_tasks : Asleep ∈ threads p → (length (queue p) ≤ notify p + entering p)%nat;
  awake_stop : Asleep ∈ threads p → stopped p = true → notify_all p = true }.

Lemma entering_set i t t' p :
  threads p !! i = Some t →
  (entering (set_thread i t' p) + (match t with Entering => 1 | _ => 0 end) =
   entering p + (match t' with Entering => 1 | _ => 0 end))%nat.
Proof. intros Hi. unfold entering. cbn. by apply (sum_list_with_insert (λ t, match t with Entering => 1 | _ => 0 end)%nat). Qed.

Lemma asleep_insert i t (l : list thread) : t ≠ Asleep → Asleep ∈ <[i := t]> l → Asleep ∈ l.
Proof.
  intros Ht [j Hj]%list_elem_of_lookup_1. apply list_lookup_insert_Some in Hj as [(_ & ? & _)|[_ Hj]]; [done|].
  by eapply list_elem_of_lookup_2.
Qed.

Lemma asleep_wake (l : list thread) : Asleep ∉ wake <$> l.
Proof. intros [t [Ht _]]%list_elem_of_fmap. by destruct t. Qed.

Lemma awake_set i t t' p :
  threads p !! i = Some t → t' ≠ Asleep → (t = Entering → queue p = []) → awake p → awake (set_thread i t' p).
Proof.
  intros Hi Ht' Hq [Htasks Hstop]. pose proof (entering_set i t t' p Hi) as He. split; cbn.
  - intros Hz%asleep_insert; [|done]. specialize (Htasks Hz). destruct t; [|rewrite Hq in Htasks |- * by done|..]; cbn in *; lia.
  - intros Hz%asleep_insert; auto.
Qed.

Lemma awake_thread i p p' : awake p → thread_step i p = Some p' → awake p'.
Proof.
  intros Ha. unfold thread_step. destruct (threads p !! i) as [[]|] eqn:Hi; try done.
  - intros [= <-]. eapply awake_set; [done|by destruct (stopped p)|done|done].
  - destruct (queue p) as [|x rest] eqn:Hq; [destruct (stopped p) eqn:Hst|]; intros [= <-].
    + by eapply awake_set.
    + split; cbn; [rewrite Hq; cbn; lia|congruence].
    + pose proof (entering_set i _ (Busy x) p Hi) as He. destruct Ha as [Ht Hs]. rewrite Hq in Ht.
      split; cbn; intros Hz%asleep_insert; try done; [|auto]. specialize (Ht Hz). unfold entering in *. cbn in *. lia.
  - destruct (returns task); [|done]. intros [= <-]. by eapply awake_set.
Qed.

Lemma awake_step p a k p' : awake p → step p a k p' → awake p'.
Proof.
  intros Ha. destruct 1 as [i p p' Hs|i p Hi|x p p' He|i p n Hn Hi|p n Hn Hno|p|p Hall].
  - by eapply awake_thread.
  - by eapply awake_set.
  - unfold enqueue in He. destruct (stopped p) eqn:Hst; [done|]. injection He as <-. destruct Ha as [Ht _].
    split; cbn; [|done]. intros Hz. specialize (Ht Hz). rewrite length_app. unfold entering in *. cbn in *. lia.
  - pose proof (entering_set i _ Entering p Hi) as He. destruct Ha as [Ht Hs].
    split; cbn; intros Hz%asleep_insert; try done; [|auto]. specialize (Ht Hz). unfold entering in *. cbn in *. lia.
  - assert (Asleep ∉ threads p) as Hz by (intros [j Hj]%list_elem_of_lookup_1; by apply (Forall_lookup_1 _ _ _ _ Hno Hj)).
    by split.
  - destruct Ha. by split.
  - split; cbn; by intros ?%asleep_wake.
Qed.

Lemma awake_steps n a k p : steps (start n) a k p → awake p.
Proof.
  intros Hs. remember (start n) as p0 eqn:Hp0. induction Hs as [p0|p0 a k p1 a' k' p2 _ IH Hstep]; subst p0.
  - split; cbn; [lia|done].
  - eapply awake_step; [by apply IH|done].
Qed.

(** (C27) No wake-up is lost: in every execution, as long as some worker sleeps
    in [wait], every queued task has a worker on its way to the queue or a
    [notify_one] still to come, and once the pool is stopped a [notify_all] is
    still to come. *)
Theorem threadpool_no_lost_wakeup n a k p :
  steps (start n) a k p → Asleep ∈ threads p →
  (length (queue p) ≤ notify p + entering p)%nat ∧ (stopped p = true → notify_all p = true).
Proof. intros [Ht Hs]%awake_steps Hz. auto. Qed.

(** Steps that a worker of a stopped pool can still make, at most. *)
Definition left_of (t : thread) : nat :=
  match t with Asleep => 4 | Entering => 3 | Busy _ => 2 | AtLoop => 1 | Gone => 0 end.
Definition left (p : pool) : nat :=
  (sum_list_with left_of (threads p) + notify p + (if notify_all p then 1 else 0))%nat.

(** The steps of the other threads while the owner is inside [join]. *)
Inductive drain : nat → pool → pool → Prop :=
| drain_0 p : drain 0 p p
| drain_S m p k p1 p2 : p1 ≠ destroy p → step p [] k p1 → drain m p1 p2 → drain (S m) p p2.

Lemma left_set i t t' p :
  threads p !! i = Some t → (left_of t' < left_of t)%nat → (left (set_thread i t' p) < left p)%nat.
Proof.
  intros Hi Ht. pose proof (sum_list_with_insert left_of (threads p) i t t' Hi). unfold left. cbn. lia.
Qed.

Lemma left_wake (l : list thread) : (sum_list_with left_of (wake <$> l) ≤ sum_list_with left_of l)%nat.
Proof. induction l as [|t l IH]; cbn; [done|]. destruct t; cbn; lia. Qed.

Lemma left_step p k p' :
  stopped p = true → p' ≠ destroy p → step p [] k p' → stopped p' = true ∧ (left p' < left p)%nat.
Proof.
  intros Hst Hne Hstep. inversion Hstep as [i p0 p1 Hs| | x p0 p1 He | | | |]; subst; try done.
  - unfold thread_step in Hs. destruct (threads p !! i) as [t|] eqn:Hi; [|done].
    destruct t as [| | |x|]; try done; [|destruct (queue p) as [|y rest]|destruct (returns x); [|done]]; rewrite ?Hst in Hs; injection Hs as <-; (split; [done|]).
    + apply (left_set _ _ _ _ Hi). cbn. lia.
    + apply (left_set _ _ _ _ Hi). cbn. lia.
    + pose proof (sum_list_with_insert left_of (threads p) i _ (Busy y) Hi) as Hl. unfold left. cbn in *. lia.
    + apply (left_set _ _ _ _ Hi). cbn. lia.
  - split; [done|]. eapply left_set; [eassumption|cbn; lia].
  - split; [done|]. pose proof (sum_list_with_insert left_of (threads p) i _ Entering H0) as Hl. unfold left. cbn in *. lia.
  - split; [done|]. unfold left. cbn. lia.
  - split; [done|]. unfold left. cbn. pose proof (left_wake (threads p)). rewrite H. lia.
Qed.

Lemma left_bound p : (left p ≤ 4 * length (threads p) + notify p + 1)%nat.
Proof.
  unfold left. assert (sum_list_with left_of (threads p) ≤ 4 * length (threads p))%nat.
  { induction (threads p) as [|t l IH]; cbn -[Nat.mul]; [lia|]. destruct t; cbn -[Nat.mul]; lia. }
  destruct (notify_all p); lia.
Qed.

Lemma drain_left m p p' : stopped p = true → drain m p p' → stopped p' = true ∧ (m + left p' ≤ left p)%nat.
Proof.
  intros Hst Hd. induction Hd as [p|m p k p1 p2 Hne Hs Hd IH]; [by split|].
  destruct (left_step _ _ _ Hst Hne Hs) as [Hst1 Hl]. destruct (IH Hst1). split; [done|lia].
Qed.

Lemma drain_awake m p p' : awake p → drain m p p' → awake p'.
Proof. intros Ha Hd. induction Hd as [p|m p k p1 p2 _ Hs _ IH]; [done|]. apply IH. by eapply awake_step. Qed.

(** A worker inside a task that never comes back. *)
Definition stuck (t : thread) : Prop := match t with Busy x => returns x = false | _ => False end.

Lemma stuck_step i x p a k p' :
  returns x = false → threads p !! i = Some (Busy x) → step p a k p' → threads p' !! i = Some (Busy x).
Proof.
  intros Hx Hi. destruct 1 as [j p p' Hs|j p Hj|y p p' He|j p n Hn Hj|p n Hn Hno|p|p Hall]; cbn; try done.
  - assert (∃ t q, threads p' = <[j := t]> (threads p) ∧ threads p !! j = Some q ∧ q ≠ Busy x) as (t & q & -> & Hj & Hq).
    { unfold thread_step in Hs. destruct (threads p !! j) as [[| | |z|]|] eqn:Hj; try done; [|destruct (queue p)|destruct (returns z) eqn:Hz; [|done]];
        injection Hs as <-; eexists _, _; split_and!; try done. intros [= ->]. congruence. }
    rewrite list_lookup_insert_ne; [done|]. intros ->. congruence.
  - rewrite list_lookup_insert_ne; [done|]. intros ->. congruence.
  - unfold enqueue in He. destruct (stopped p); [done|]. by injection He as <-.
  - rewrite list_lookup_insert_ne; [done|]. intros ->. congruence.
  - by rewrite list_lookup_fmap, Hi.
Qed.

Lemma stuck_drain i x m p p' :
  returns x = false → threads p !! i = Some (Busy x) → drain m p p' → threads p' !! i = Some (Busy x).
Proof. intros Hx Hi Hd. induction Hd as [p|m p k p1 p2 _ Hs _ IH]; [done|]. apply IH. by eapply stuck_step. Qed.

Lemma all_left (l : list thread) : Forall (λ t, t = Gone ∨ stuck t) l ∨ ∃ i t, l !! i = Some t ∧ t ≠ Gone ∧ ¬ stuck t.
Proof.
  induction l as [|t l [IH|(i & t' & Hi & Ht)]]; [by left| |right; by exists (S i), t'].
  destruct t as [| | |x|]; [right; eexists 0%nat, _; split_and!; [done|done|by intros []]..| |left; constructor; [by left|done]].
  destruct (returns x) eqn:Hx; [right; eexists 0%nat, _; split_and!; [done|done|cbn; congruence]|left; constructor; [by right|done]].
Qed.

(** (C28) Joining after [stop], without relying on spurious wake-ups.  From any
    reachable state of a stopped pool the other threads make at most four steps
    per worker, one per pending notification and one more; until every worker
    has left or is inside a task that never comes back, a worker or a pending
    notification can move; and a worker inside such a task stays there, so
    that [join] comes back unless a worker has taken such a task (as the worker
    of the time wheel's pool has: [TimeWheel::start] is an endless loop). *)
Theorem threadpool_cv_join n a k p :
  steps (start n) a k p → stopped p = true →
  (∀ m p', drain m p p' → (m ≤ 4 * length (threads p) + notify p + 1)%nat) ∧
  (∀ m p', drain m p p' → Forall (λ t, t = Gone ∨ stuck t) (threads p') ∨
     (∃ i p'', thread_step i p' = Some p'') ∨ (notify_all p' = true)) ∧
  (∀ m p' i x, drain m p p' → threads p !! i = Some (Busy x) → returns x = false → threads p' !! i = Some (Busy x)).
Proof.
  intros Ha%awake_steps Hst. split; [|split]; [intros m p' Hd..|intros m p' i x Hd Hi Hx; by eapply stuck_drain].
  - destruct (drain_left _ _ _ Hst Hd) as [_ Hl]. pose proof (left_bound p). lia.
  - destruct (drain_left _ _ _ Hst Hd) as [Hst' _]. destruct (drain_awake _ _ _ Ha Hd) as [_ Hall].
    destruct (all_left (threads p')) as [|(i & t & Hi & Ht & Hs)]; [by left|right]. destruct (decide (notify_all p' = true)) as [|Hno]; [by right|left].
    exists i. unfold thread_step. rewrite Hi. destruct t as [| | |x|]; try done; [by eexists|destruct (queue p'); by eexists| |].
    + exfalso. apply Hno, Hall; [by eapply list_elem_of_lookup_2|done].
    + cbn in Hs. destruct (returns x); [by eexists|done].
Qed.
End pool.

(** ** Witnesses *)

(** Task 0 never comes back. *)
Definition demo_returns (x : Z) : bool := negb (x =? 0).

(** One worker that went to sleep before the task came. *)
Definition sleepy : pool (T := Z) := mkpool [Asleep] [7] false 1 false.

Lemma sleepy_reached : steps demo_returns (start 1) [7] [] sleepy.
Proof.
  apply (steps_snoc _ _ [] [] (mkpool [Asleep] [] false 0 false) [7] []); [|by apply step_enqueue].
  apply (steps_snoc _ _ [] [] (mkpool [Entering] [] false 0 false) [] []); [|exact (step_thread demo_returns 0 (mkpool [Entering] [] false 0 false) _ eq_refl)].
  apply (steps_snoc _ _ [] [] (start 1) [] []); [constructor|exact (step_thread demo_returns 0 (start 1) _ eq_refl)].
Defined.

Lemma threadpool_cv_refines_witness : ThreadPool.steps (new 1) [7] [] (abs sleepy).
Proof. exact (threadpool_cv_refines demo_returns 1 [7] [] sleepy sleepy_reached). Defined.

Lemma threadpool_no_lost_wakeup_witness : Asleep ∈ threads sleepy ∧ (length (queue sleepy) ≤ 1)%nat.
Proof.
  assert (Asleep ∈ threads sleepy) as Hz by apply list_elem_of_here. split; [exact Hz|].
  exact (proj1 (threadpool_no_lost_wakeup demo_returns 1 [7] [] sleepy sleepy_reached Hz)).
Defined.

(** The pool of the time wheel: one worker, inside a task that never comes back. *)
Definition wheel_pool : pool (T := Z) := mkpool [Busy 0] [] false 1 false.

Lemma wheel_pool_reached : steps demo_returns (start 1) [0] [0] wheel_pool.
Proof.
  apply (steps_snoc _ _ [0] [] (mkpool [Entering] [0] false 1 false) [] [0]);
    [|exact (step_thread demo_returns 0 (mkpool [Entering] [0] false 1 false) _ eq_refl)].
  apply (steps_snoc _ _ [] [] (mkpool [Entering] [] false 0 false) [0] []); [|by apply step_enqueue].
  apply (steps_snoc _ _ [] [] (start 1) [] []); [constructor|exact (step_thread demo_returns 0 (start 1) _ eq_refl)].
Defined.

Lemma threadpool_cv_join_witness :
  (∀ m p', drain demo_returns m (destroy sleepy) p' → (m ≤ 6)%nat) ∧
  (∀ m p', drain demo_returns m (destroy wheel_pool) p' → threads p' !! 0%nat = Some (Busy 0)).
Proof.
  split.
  - refine (proj1 (threadpool_cv_join demo_returns 1 [7] [] (destroy sleepy) _ eq_refl)).
    apply (steps_snoc _ _ [7] [] sleepy [] []); [exact sleepy_reached|constructor].
  - intros m p' Hd. refine (proj2 (proj2 (threadpool_cv_join demo_returns 1 [0] [0] (destroy wheel_pool) _ eq_refl)) m p' 0%nat 0 Hd eq_refl eq_refl).
    apply (steps_snoc _ _ [0] [0] wheel_pool [] []); [exact wheel_pool_reached|constructor].
Defined.

End ThreadPoolCv.
