(* ===== verification/Config.v ===== *)
(** * Configuration (src/base/configManager.cc, configManager.h, singleton.h)

    [ConfigManager::init] reads the keys of an ini file into the fields of a
    singleton; the property tree of boost is a parameter, two lookup
    functions that may throw.  [Singleton] hands out one object, created by
    the first call. *)

From stdpp Require Import base gmap strings list.
From S2P Require Import Prelude.

Module Config.

(** [class ConfigManager] *)
Record ConfigManager := mkConfigManager {
  logDir_ : string;
  gtmListenAddress_ : string;
  gtmAddress_ : string;
  gtmPort_ : Z;
  gtmThreads_ : Z;
  gtmTransactionsDir_ : string;
  dbsListenAddress_ : string;
  dbsAddress_ : string;
  dbsPort_ : Z;
  dbsThreads_ : Z;
  dbAddress_ : string;
  dbPort_ : Z;
  dbName_ : string;
  dbPasswd_ : string;
  dbtmThreadNum_ : Z;
  dbtmRocksDbPath_ : string;
  dbtmUser_ : string;
  dbtmPasswd_ : string;
  dbtmDbName_ : string;
  dbtmDbPort_ : Z;
  dbtmLogPath_ : string;
  dbtlListenAddress_ : string;
  dbtlAddress_ : string;
  dbtlPort_ : Z;
  dbtlUseRocksDb_ : bool;
  esListenAddress_ : string;
  esPort_ : Z;
  lpMaxRetryTime_ : Z }.

(** [new ConfigManager()] value-initialises the fields. *)
Definition ConfigManager_new : ConfigManager :=
  mkConfigManager "" "" "" 0 0 "" "" "" 0 0 "" 0 "" "" 0 "" "" "" "" 0 "" "" "" 0 false "" 0 0.

(** [SetOrDefaultS], [SetOrDefaultI]: an empty or zero value leaves the field alone. *)
Definition SetOrDefaultS (old value : string) : string := if String.eqb value "" then old else value.
Definition SetOrDefaultI (old value : Z) : Z := if value =? 0 then old else value.

Section init.

(** [pt.get<string>], [pt.get<int>] and [pt.get<bool>] of the parsed file:
    a missing key and a value of another type throw. *)
Context (get_string : string → result string) (get_int : string → result Z) (get_bool : string → result bool).

Definition setS (old key : string) : result string := let? v := get_string key in Ok (SetOrDefaultS old v).
Definition setI (old : Z) (key : string) : result Z := let? v := get_int key in Ok (SetOrDefaultI old v).

(** [ConfigManager::init], after [read_ini] *)
Definition init (c : ConfigManager) : result ConfigManager :=
  let? logDir := setS (logDir_ c) "basis.logDir" in
  let? gtmListenAddress := setS (gtmListenAddress_ c) "gtm.listenaddress" in
  let? gtmAddress := setS (gtmAddress_ c) "gtm.address" in
  let? gtmPort := setI (gtmPort_ c) "gtm.port" in
  let? gtmThreads := setI (gtmThreads_ c) "gtm.threads" in
  let? gtmTransactionsDir := setS (gtmTransactionsDir_ c) "gtm.transactionsDir" in
  let? dbsListenAddress := setS (dbsListenAddress_ c) "dbservice.listenaddress" in
  let? dbsAddress := setS (dbsAddress_ c) "dbservice.address" in
  let? dbsPort := setI (dbsPort_ c) "dbservice.port" in
  let? dbsThreads := setI (dbsThreads_ c) "dbservice.threads" in
  let? dbAddress := setS (dbAddress_ c) "db.dbaddress" in
  let? dbPort := setI (dbPort_ c) "db.dbport" in
  let? dbName := setS (dbName_ c) "db.dbname" in
  let? dbPasswd := setS (dbPasswd_ c) "db.dbpasswd" in
  let? dbtmThreadNum := setI (dbtmThreadNum_ c) "dbtm.threadnum" in
  let? dbtmRocksDbPath := setS (dbtmRocksDbPath_ c) "dbtm.rocksdbpath" in
  let? dbtmUser := setS (dbtmUser_ c) "dbtm.user" in
  let? dbtmPasswd := setS (dbtmPasswd_ c) "dbtm.passwd" in
  let? dbtmDbName := setS (dbtmDbName_ c) "dbtm.dbname" in
  let? dbtmDbPort := setI (dbtmDbPort_ c) "dbtm.dbport" in
  let? dbtmLogPath := setS (dbtmLogPath_ c) "dbtm.logpath" in
  let? dbtlListenAddress := setS (dbtlListenAddress_ c) "dbtl.listenaddress" in
  let? dbtlAddress := setS (dbtlAddress_ c) "dbtl.address" in
  let? dbtlPort := setI (dbtlPort_ c) "dbtl.port" in
  let? dbtlUseRocksDb := get_bool "dbtl.userocksdb" in
  let? esListenAddress := setS (esListenAddress_ c) "es.listenaddress" in
  let? esPort := setI (esPort_ c) "es.port" in
  let? lpMaxRetryTime := setI (lpMaxRetryTime_ c) "logplayer.maxretrytime" in
  Ok (mkConfigManager logDir gtmListenAddress gtmAddress gtmPort gtmThreads gtmTransactionsDir
        dbsListenAddress dbsAddress dbsPort dbsThreads dbAddress dbPort dbName dbPasswd
        dbtmThreadNum dbtmRocksDbPath dbtmUser dbtmPasswd dbtmDbName dbtmDbPort dbtmLogPath
        dbtlListenAddress dbtlAddress dbtlPort dbtlUseRocksDb esListenAddress esPort lpMaxRetryTime).

(** The keys [init] asks for, with their type. *)
Definition string_keys : list string :=
  ["basis.logDir"; "gtm.listenaddress"; "gtm.address"; "gtm.transactionsDir"; "dbservice.listenaddress";
   "dbservice.address"; "db.dbaddress"; "db.dbname"; "db.dbpasswd"; "dbtm.rocksdbpath"; "dbtm.user";
   "dbtm.passwd"; "dbtm.dbname"; "dbtm.logpath"; "dbtl.listenaddress"; "dbtl.address"; "es.listenaddress"].
Definition int_keys : list string :=
  ["gtm.port"; "gtm.threads"; "dbservice.port"; "dbservice.threads"; "db.dbport"; "dbtm.threadnum";
   "dbtm.dbport"; "dbtl.port"; "es.port"; "logplayer.maxretrytime"].

Definition complete : bool :=
  forallb (λ k, is_ok (get_string k)) string_keys && forallb (λ k, is_ok (get_int k)) int_keys &&
  is_ok (get_bool "dbtl.userocksdb").

Lemma setS_ok old k : is_ok (setS old k) = is_ok (get_string k).
Proof. unfold setS. by destruct (get_string k). Qed.
Lemma setI_ok old k : is_ok (setI old k) = is_ok (get_int k).
Proof. unfold setI. by destruct (get_int k). Qed.

Lemma config_init_complete_iff c : is_ok (init c) = complete.
Proof.
  unfold complete, init. cbn [forallb string_keys int_keys].
  rewrite <- (setS_ok (logDir_ c)), <- (setS_ok (gtmListenAddress_ c)), <- (setS_ok (gtmAddress_ c)),
    <- (setI_ok (gtmPort_ c)), <- (setI_ok (gtmThreads_ c)), <- (setS_ok (gtmTransactionsDir_ c)),
    <- (setS_ok (dbsListenAddress_ c)), <- (setS_ok (dbsAddress_ c)), <- (setI_ok (dbsPort_ c)),
    <- (setI_ok (dbsThreads_ c)), <- (setS_ok (dbAddress_ c)), <- (setI_ok (dbPort_ c)), <- (setS_ok (dbName_ c)),
    <- (setS_ok (dbPasswd_ c)), <- (setI_ok (dbtmThreadNum_ c)), <- (setS_ok (dbtmRocksDbPath_ c)),
    <- (setS_ok (dbtmUser_ c)), <- (setS_ok (dbtmPasswd_ c)), <- (setS_ok (dbtmDbName_ c)),
    <- (setI_ok (dbtmDbPort_ c)), <- (setS_ok (dbtmLogPath_ c)), <- (setS_ok (dbtlListenAddress_ c)),
    <- (setS_ok (dbtlAddress_ c)), <- (setI_ok (dbtlPort_ c)), <- (setS_ok (esListenAddress_ c)),
    <- (setI_ok (esPort_ c)), <- (setI_ok (lpMaxRetryTime_ c)).
  repeat match goal with |- context [rbind ?r _] =>
    let E := fresh in destruct r eqn:E; cbn [rbind is_ok andb]; rewrite ?andb_false_r; [|done] end.
  done.
Qed.

(** Configuration is all or nothing: [init] returns exactly when the
    file has all 28 keys with a value of the right type, and throws
    otherwise, whatever the fields held before. *)
Theorem config_init_complete c : is_ok (init c) = complete.
Proof. apply config_init_complete_iff. Qed.

End init.

(** The keys of the file that is shipped, config/config.ini. *)
Definition shipped_keys : list string :=
  ["basis.logDir"; "gtm.listenaddress"; "gtm.address"; "gtm.port"; "gtm.threads"; "gtm.transactionsDir";
   "dbservice.listenaddress"; "dbservice.address"; "dbservice.port"; "dbservice.threads";
   "db.address"; "db.port"; "db.dbname"; "db.dbpasswd";
   "dbtm.threadnum"; "dbtm.rocksdbpath"; "dbtm.user"; "dbtm.passwd"; "dbtm.dbname"; "dbtm.dbport"; "dbtm.logpath";
   "dbtl.listenaddress"; "dbtl.address"; "dbtl.port"; "dbtl.userocksdb";
   "es.listenaddress"; "es.port"; "logplayer.maxretrytime"].

Lemma shipped_rejected get_string get_int get_bool c :
  (∀ k, k ∉ shipped_keys → get_string k = Err (Throw PtreeBadPath)) →
  is_ok (init get_string get_int get_bool c) = false.
Proof.
  intros Hk. rewrite config_init_complete_iff. unfold complete.
  cbn [forallb string_keys]. rewrite (Hk "db.dbaddress"); [|by apply (bool_decide_unpack _)].
  cbn [is_ok andb]. by rewrite !andb_false_r.
Qed.

(** The shipped configuration file cannot be loaded: it names the
    database endpoint [address] and [port], while [init] asks for [dbaddress]
    and [dbport]; a property tree that throws for keys not in the file makes
    [init] throw. *)
Theorem config_shipped_rejected get_string get_int get_bool c :
  (∀ k, k ∉ shipped_keys → get_string k = Err (Throw PtreeBadPath)) →
  is_ok (init get_string get_int get_bool c) = false.
Proof. apply shipped_rejected. Qed.

Definition demo_string (k : string) : result string :=
  if bool_decide (k ∈ shipped_keys) then Ok "x" else Err (Throw PtreeBadPath).
Definition demo_int (k : string) : result Z :=
  if bool_decide (k ∈ shipped_keys) then Ok 1 else Err (Throw PtreeBadPath).

Lemma config_shipped_rejected_witness :
  is_ok (init demo_string demo_int (λ _, Ok false) ConfigManager_new) = false.
Proof.
  apply config_shipped_rejected. intros k Hk. unfold demo_string. by rewrite bool_decide_eq_false_2.
Defined.

End Config.

(** ** [Singleton] *)

Module Singleton.

Section singleton.
Context {T : Type}.

(** The two static members, the objects alive at their addresses, and how
    often the constructor has run. *)
Record statics := mkstatics {
  m_InstanceFlag : bool; m_pInstance : option nat; heap : gmap nat T; constructed : nat }.

Definition statics_new : statics := mkstatics false None ∅ 0.

(** [initInstance]: [new T()] at a fresh address *)
Definition initInstance (t : T) (s : statics) : statics :=
  let a := fresh (dom (heap s)) in
  mkstatics (m_InstanceFlag s) (Some a) (<[a := t]> (heap s)) (S (constructed s)).

(** [pthread_once] and the read of the pointer *)
Definition getInstance (t : T) (s : statics) : option nat * statics :=
  let s := if m_InstanceFlag s then s
           else let s' := initInstance t s in mkstatics true (m_pInstance s') (heap s') (constructed s') in
  (m_pInstance s, s).

Definition destroyInstance (s : statics) : statics :=
  mkstatics (m_InstanceFlag s) (m_pInstance s)
    (match m_pInstance s with Some a => delete a (heap s) | None => heap s end) (constructed s).

(** Calls in a row, with the pointers they returned. *)
Fixpoint calls (ts : list T) (s : statics) : list (option nat) * statics :=
  match ts with
  | [] => ([], s)
  | t :: ts' => let '(p, s) := getInstance t s in let '(ps, s) := calls ts' s in (p :: ps, s)
  end.

Lemma calls_done ts s p :
  m_InstanceFlag s = true → m_pInstance s = p → calls ts s = (replicate (length ts) p, s).
Proof. intros Hf Hp. induction ts as [|t ts IH]; [done|]. cbn. unfold getInstance. rewrite Hf, Hp. by rewrite IH. Qed.

Lemma calls_new t ts :
  ∃ a s, calls (t :: ts) statics_new = (Some a :: replicate (length ts) (Some a), s) ∧
    m_pInstance s = Some a ∧ m_InstanceFlag s = true ∧ heap s !! a = Some t ∧ constructed s = 1%nat.
Proof.
  cbn [calls]. destruct (getInstance t statics_new) as [p s] eqn:E.
  unfold getInstance, initInstance, statics_new in E. cbn in E. injection E as <- <-.
  erewrite calls_done by done. eexists _, _. split; [done|]. cbn. by rewrite lookup_insert_eq.
Qed.

(** A singleton: however often [getInstance] is called, every call
    returns the same non-null pointer, it points to the object the first
    call constructed, and the constructor has run once; but after
    [destroyInstance] the same pointer is still handed out and its object is
    gone. *)
Theorem singleton_one_instance t ts ts' :
  ∃ a s, calls (t :: ts) statics_new = (Some a :: replicate (length ts) (Some a), s) ∧
    heap s !! a = Some t ∧ constructed s = 1%nat ∧
    ∃ s', calls ts' (destroyInstance s) = (replicate (length ts') (Some a), s') ∧ heap s' !! a = None.
Proof.
  destruct (calls_new t ts) as (a & s & Hc & Hp & Hf & Hh & Hn). exists a, s. split; [done|]. split; [done|].
  split; [done|]. eexists. split; [by apply calls_done|]. cbn. rewrite Hp. by rewrite lookup_delete_eq.
Qed.

End singleton.

End Singleton.
