(* ===== verification/Gtm.v ===== *)
(** * The global transaction manager (src/transaction/gtm)

    State: the next transaction id, the endpoints of every transaction type
    and, for every transaction over more than one endpoint, the votes still
    missing.  Handlers: [getTxid], [judgeConflict], [init] (the parser of the
    transactions file) and the dispatcher [onMessage] of gtmmain.cc. *)

From Stdlib Require Import Ascii.
From stdpp Require Import base gmap strings list.
From S2P Require Import Prelude NetMsg.

Module GTM.

(** [struct IpandPort] *)
Record IpandPort := mkIpandPort { ip_ : string; port_ : Z }.

(** [struct txidInfo] *)
Record txidInfo := mktxidInfo {
  serverNum : Z; connList_ : list TcpConnectionPtr; isConflict : bool }.

(** [class GTM]; a null entry of [table_] is what [operator\[\]] leaves behind. *)
Record GTM := mkGTM {
  txid_ : Z;
  transInfo_ : gmap string (list IpandPort);
  table_ : gmap Z (option txidInfo) }.

(** [new GTM()] value-initialises the object. *)
Definition GTM_new : GTM := mkGTM 0 ∅ ∅.

Definition set_txid (f : Z → Z) (g : GTM) : GTM := mkGTM (f (txid_ g)) (transInfo_ g) (table_ g).
Definition set_transInfo f (g : GTM) : GTM := mkGTM (txid_ g) (f (transInfo_ g)) (table_ g).
Definition set_table f (g : GTM) : GTM := mkGTM (txid_ g) (transInfo_ g) (f (table_ g)).

(** [txidInfo(int num)] *)
Definition txidInfo_new (num : Z) : txidInfo := mktxidInfo num [] false.

(** The endpoint list of the reply. *)
Definition to_ipAndPort (e : IpandPort) : ipAndPort := mkipAndPort (Some (ip_ e)) (port_ e).

(** [GTM::getTxid] *)
Definition getTxid (conn : TcpConnectionPtr) (transType : string) : prog GTM event unit :=
  let* g := get in
  let list := default [] (transInfo_ g !! transType) in
  modify (set_transInfo (<[transType := list]>)) ;;;
  (if 1 <? Z.of_nat (length list)
   then modify (set_table (<[txid_ g := Some (txidInfo_new (Z.of_nat (length list)))]>))
   else ret tt) ;;;
  let app := mkAppMsg kTxid (txid_ g) (Some (to_ipAndPort <$> list)) in
  modify (set_txid (λ x, int32 (x + 1))) ;;;
  send conn (Msg_AppMsg app).

(** [GTM::judgeConflict] *)
Definition judgeConflict (conn : TcpConnectionPtr) (data : GtmMsg) : prog GTM event unit :=
  let txid := GtmMsg_txid data in
  let* g := get in
  let '(p, tbl) := subscript None txid (table_ g) in
  modify (set_table (λ _, tbl)) ;;;
  match p with
  | None => throw NullDeref
  | Some info =>
      let info := mktxidInfo (int32 (serverNum info - 1)) (connList_ info ++ [conn])
                    (isConflict info || GtmMsg_isLocalConflict data) in
      modify (set_table (<[txid := Some info]>)) ;;;
      (if serverNum info =? 0 then
         for_each (connList_ info) (λ c,
           send c (Msg_DbtmMsg (mkDbtmMsg kJudgeConflit txid (isConflict info) 0))) ;;;
         modify (set_table (delete txid))
       else ret tt)
  end.

(** [onMessage] of gtmmain.cc *)
Definition onMessage (conn : TcpConnectionPtr) (msg : RootMsg) : prog GTM event unit :=
  let* gtm := lift (as_GtmMsg msg) in
  if GtmMsg_cmd gtm =? kGetTxid then
    let* transType := lift (str (GtmMsg_transType gtm)) in
    getTxid conn transType
  else if GtmMsg_cmd gtm =? kJudgeConflit then judgeConflict conn gtm
  else ret tt.

(** ** [GTM::init]: the transactions file *)

(** [size_t pos = -1] *)
Definition npos : Z := 2 ^ 64 - 1.

(** The loop over [info] from offset [ed], with its local [st] and [pos];
    offsets are [size_t]. *)
Fixpoint parse_info (info : string) (rest : string) (st ed pos : Z) (acc : list IpandPort)
    : result (list IpandPort) :=
  match rest with
  | EmptyString => Ok acc
  | String c rest' =>
      if Ascii.eqb c ":" then parse_info info rest' st (ed + 1) ed acc
      else if Ascii.eqb c ";" && (st <? ed) then
        let? ip := substr info st (uint64 (pos - st + 1)) in
        let? digits := substr info (uint64 (pos + 1)) (uint64 (ed - pos - 1)) in
        let? port := stoi digits in
        parse_info info rest' (ed + 1) (ed + 1) pos (acc ++ [mkIpandPort ip port])
      else parse_info info rest' st (ed + 1) pos acc
  end.

(** The words of the file, as [fin >> s] reads them. *)
Fixpoint words (s : string) (cur : string) : list string :=
  match s with
  | EmptyString => match cur with EmptyString => [] | _ => [cur] end
  | String c s' =>
      if is_space c
      then match cur with EmptyString => words s' "" | _ => cur :: words s' "" end
      else words s' (cur +:+ String c "")
  end.

(** [transInfo_\[type\].emplace_back] for every endpoint of [l]. *)
Definition add_endpoints (type : string) (l : list IpandPort)
    (m : gmap string (list IpandPort)) : gmap string (list IpandPort) :=
  match l with [] => m | _ => <[type := default [] (m !! type) ++ l]> m end.

(** [while (fin >> type) { fin >> info; ... }]: a last type without an info
    word leaves [info] as it was. *)
Fixpoint init_loop (ws : list string) (info : string) (m : gmap string (list IpandPort))
    : result (gmap string (list IpandPort)) :=
  match ws with
  | [] => Ok m
  | [type] =>
      let? l := parse_info info info 0 0 npos [] in Ok (add_endpoints type l m)
  | type :: info :: ws' =>
      let? l := parse_info info info 0 0 npos [] in
      init_loop ws' info (add_endpoints type l m)
  end.

(** [GTM::init], given the contents of the file. *)
Definition init (file : string) : prog GTM event unit :=
  let* g := get in
  let* m := lift (init_loop (words file "") "" (transInfo_ g)) in
  modify (set_transInfo (λ _, m)).

(** ** Votes *)

(** A vote: transaction, connection of the voter, local conflict. *)
Record vote := mkvote { v_txid : Z; v_conn : conn; v_conflict : bool }.

Definition vote_msg (v : vote) : GtmMsg := mkGtmMsg kJudgeConflit (v_txid v) (v_conflict v) None.

(** The votes of several transactions, in the order they arrive. *)
Definition judge_all (vs : list vote) : prog GTM event unit :=
  for_each vs (λ v, judgeConflict (Some (v_conn v)) (vote_msg v)).

Definition votes_for (tx : Z) (vs : list vote) : list vote := filter (λ v, v_txid v = tx) vs.

Definition any_conflict (vs : list vote) : bool := existsb v_conflict vs.

(** The decision message sent to a voter. *)
Definition decision (tx : Z) (b : bool) (v : vote) : event :=
  ESend (v_conn v) (Msg_DbtmMsg (mkDbtmMsg kJudgeConflit tx b 0)).

(** The events that concern transaction [tx]. *)
Definition about (tx : Z) (e : event) : Prop :=
  match e with ESend _ (Msg_DbtmMsg m) => DbtmMsg_txid m = tx | _ => False end.
#[export] Instance about_dec tx e : Decision (about tx e).
Proof. destruct e; try (right; intros []; done). destruct m; try (right; intros []; done). cbn. apply _. Defined.

(** The entry of a transaction after the votes [vs], out of [n]. *)
Definition entry_after (n : nat) (vs : list vote) : option (option txidInfo) :=
  if decide (length vs = n) then None
  else Some (Some (mktxidInfo (Z.of_nat n - Z.of_nat (length vs)) (Some ∘ v_conn <$> vs) (any_conflict vs))).

(** Every transaction voted on has been registered for at least as many
    servers as vote. *)
Definition can_vote (g : GTM) (vs : list vote) : Prop :=
  ∀ tx, votes_for tx vs ≠ [] →
    ∃ info, table_ g !! tx = Some (Some info) ∧
      Z.of_nat (length (votes_for tx vs)) ≤ serverNum info < 2 ^ 31 ∧
      Forall (λ c, is_Some c) (connList_ info).

(** ** Lemmas *)

Lemma for_each_send (cs : list TcpConnectionPtr) m (g : GTM) :
  Forall (λ c, is_Some c) cs →
  for_each cs (λ c, send c m) g = ((λ c, ESend (default 0%nat c) m) <$> cs, Ok (tt, g)).
Proof.
  intros HF. induction HF as [|c cs [x ->] HF IH]; cbn; [done|].
  unfold bind. cbn. by rewrite IH.
Qed.

(** One vote, on each branch. *)
Lemma judgeConflict_spec v g info :
  table_ g !! v_txid v = Some (Some info) →
  0 < serverNum info < 2 ^ 31 → Forall (λ c, is_Some c) (connList_ info) →
  judgeConflict (Some (v_conn v)) (vote_msg v) g =
    let info' := mktxidInfo (serverNum info - 1) (connList_ info ++ [Some (v_conn v)])
                   (isConflict info || v_conflict v) in
    if serverNum info =? 1 then
      ((λ c, ESend (default 0%nat c)
          (Msg_DbtmMsg (mkDbtmMsg kJudgeConflit (v_txid v) (isConflict info') 0))) <$> connList_ info',
       Ok (tt, set_table (delete (v_txid v)) g))
    else ([], Ok (tt, set_table (<[v_txid v := Some info']>) g)).
Proof.
  intros Hl Hn HF. unfold judgeConflict. cbn [vote_msg GtmMsg_txid GtmMsg_isLocalConflict].
  unfold bind at 1. cbn [get]. rewrite (subscript_some _ (Some info)) by done.
  unfold bind at 1. cbn [modify]. rewrite (int32_id (serverNum info - 1)) by (unfold int32_ok; lia).
  unfold bind at 1. cbn [modify serverNum connList_ isConflict].
  destruct (Z.eqb_spec (serverNum info - 1) 0), (Z.eqb_spec (serverNum info) 1); try lia.
  - unfold bind. rewrite for_each_send by (apply Forall_app; split; [done|by repeat constructor]).
    cbn [modify app]. rewrite !app_nil_r. cbv zeta. f_equal. f_equal. f_equal.
    unfold set_table. cbn. f_equal. by rewrite delete_insert_eq.
  - cbn. by repeat f_equal.
Qed.

Lemma votes_for_cons tx v vs :
  votes_for tx (v :: vs) = if decide (v_txid v = tx) then v :: votes_for tx vs else votes_for tx vs.
Proof. unfold votes_for. rewrite filter_cons. done. Qed.

(** What the votes [vs] on [tx] do to its entry, and the events they cause. *)
Definition voted (tx : Z) (info : txidInfo) (vs : list vote) (es : list event) (g' : GTM) : Prop :=
  let conns := connList_ info ++ (Some ∘ v_conn <$> vs) in
  let b := isConflict info || any_conflict vs in
  if decide (Z.of_nat (length vs) = serverNum info)
  then table_ g' !! tx = None ∧
       filter (about tx) es =
         (λ c, ESend (default 0%nat c) (Msg_DbtmMsg (mkDbtmMsg kJudgeConflit tx b 0))) <$> conns
  else table_ g' !! tx = Some (Some (mktxidInfo (serverNum info - Z.of_nat (length vs)) conns b)) ∧
       filter (about tx) es = [].

Lemma filter_about_ne tx tx' b (cs : list TcpConnectionPtr) :
  tx ≠ tx' →
  filter (about tx) ((λ c, ESend (default 0%nat c)
    (Msg_DbtmMsg (mkDbtmMsg kJudgeConflit tx' b 0))) <$> cs) = [].
Proof.
  intros Hne. induction cs as [|c cs IH]; [done|].
  rewrite fmap_cons, filter_cons_False; [done|]. cbn. congruence.
Qed.

Lemma filter_about_eq tx b (cs : list TcpConnectionPtr) :
  filter (about tx) ((λ c, ESend (default 0%nat c)
    (Msg_DbtmMsg (mkDbtmMsg kJudgeConflit tx b 0))) <$> cs) =
  (λ c, ESend (default 0%nat c) (Msg_DbtmMsg (mkDbtmMsg kJudgeConflit tx b 0))) <$> cs.
Proof.
  induction cs as [|c cs IH]; [done|].
  rewrite fmap_cons, filter_cons_True by done. by rewrite IH.
Qed.

Lemma can_vote_head g v vs :
  can_vote g (v :: vs) → ∃ info, table_ g !! v_txid v = Some (Some info) ∧
    Z.of_nat (S (length (votes_for (v_txid v) vs))) ≤ serverNum info < 2 ^ 31 ∧
    Forall (λ c, is_Some c) (connList_ info).
Proof.
  intros Hcan. destruct (Hcan (v_txid v)) as (info & Hl & Hn & HF);
    rewrite votes_for_cons, decide_True in * by done; [done|].
  exists info. done.
Qed.

(** The state after one vote, as the rest of the run needs it. *)
Lemma can_vote_tail g v vs info :
  can_vote g (v :: vs) → table_ g !! v_txid v = Some (Some info) →
  can_vote (if serverNum info =? 1 then set_table (delete (v_txid v)) g
            else set_table (<[v_txid v := Some (mktxidInfo (serverNum info - 1)
                   (connList_ info ++ [Some (v_conn v)]) (isConflict info || v_conflict v))]>) g) vs.
Proof.
  intros Hcan Hl tx Hne. destruct (can_vote_head _ _ _ Hcan) as (info' & Hl' & Hn & HF). simplify_eq.
  destruct (decide (v_txid v = tx)) as [<-|Htx].
  - assert (length (votes_for (v_txid v) vs) ≠ 0%nat) by (by destruct (votes_for (v_txid v) vs)).
    destruct (Z.eqb_spec (serverNum info) 1); [lia|]. eexists. cbn. rewrite lookup_insert_eq.
    split; [done|]. cbn. split; [lia|]. apply Forall_app. split; [done|by repeat constructor].
  - destruct (Hcan tx) as (i & Hi & Hr & HFi); rewrite votes_for_cons, decide_False in * by done; [done|].
    exists i. split; [|done]. destruct (serverNum info =? 1); cbn.
    + by rewrite lookup_delete_ne.
    + by rewrite lookup_insert_ne.
Qed.

(** A vote moves into the entry what it takes from the votes to come. *)
Lemma voted_cons tx info v vs es g' :
  voted tx (mktxidInfo (serverNum info - 1) (connList_ info ++ [Some (v_conn v)])
              (isConflict info || v_conflict v)) vs es g' →
  voted tx info (v :: vs) es g'.
Proof.
  unfold voted. cbn [serverNum connList_ isConflict length fmap list_fmap any_conflict existsb].
  rewrite <- app_assoc, <- orb_assoc. cbn [app].
  destruct (decide (Z.of_nat (length vs) = serverNum info - 1));
    destruct (decide (Z.of_nat (S (length vs)) = serverNum info)); try lia; [done|].
  intros [Hl Hf]. split; [|done]. rewrite Hl. do 2 f_equal. f_equal. lia.
Qed.

Lemma voted_app tx info vs es1 es2 g' :
  filter (about tx) es1 = [] → voted tx info vs es2 g' → voted tx info vs (es1 ++ es2) g'.
Proof. intros H1. unfold voted. rewrite filter_app, H1. done. Qed.

Lemma judge_all_ok vs g :
  can_vote g vs →
  ∃ es g', judge_all vs g = (es, Ok (tt, g')) ∧
    txid_ g' = txid_ g ∧ transInfo_ g' = transInfo_ g ∧
    (∀ tx, votes_for tx vs = [] → table_ g' !! tx = table_ g !! tx ∧ filter (about tx) es = []) ∧
    ∀ tx info, table_ g !! tx = Some (Some info) →
      Z.of_nat (length (votes_for tx vs)) ≤ serverNum info → 0 < serverNum info →
      voted tx info (votes_for tx vs) es g'.
Proof.
  revert g. induction vs as [|v vs IH]; intros g Hcan.
  { exists [], g. split_and!; auto. intros tx info Hl _ Hpos. unfold voted. cbn.
    rewrite decide_False by lia. rewrite app_nil_r, orb_false_r, Z.sub_0_r. by destruct info. }
  destruct (can_vote_head _ _ _ Hcan) as (info & Hl & Hn & HF).
  pose proof (can_vote_tail _ _ _ _ Hcan Hl) as Hcan'.
  unfold judge_all. cbn [for_each]. unfold bind. rewrite (judgeConflict_spec v g info) by (auto; lia).
  cbv zeta. cbn [connList_ isConflict]. fold (judge_all vs).
  destruct (Z.eqb_spec (serverNum info) 1) as [H1|H1];
    destruct (IH _ Hcan') as (es & g' & -> & Htx & Hti & Hnone & Hrest);
    eexists _, g'; (split; [reflexivity|]); (split; [done|]); (split; [done|]);
    setoid_rewrite votes_for_cons; split.
  - intros tx Hv. case_decide as Htxv; [done|]. destruct (Hnone tx Hv) as [Ht Hf].
    rewrite filter_app, filter_about_ne by done. split; [|done].
    rewrite Ht. cbn. by rewrite lookup_delete_ne.
  - intros tx inf Hlt Hlen Hpos. case_decide as Htxv.
    + subst tx. simplify_eq. cbn [length] in Hlen.
      assert (votes_for (v_txid v) vs = []) as Hv0
        by (apply nil_length_inv; cbn in *; lia).
      destruct (Hnone _ Hv0) as [Ht Hf]. rewrite Hv0. unfold voted. cbn [length].
      rewrite decide_True by lia. rewrite Ht. cbn [table_ set_table].
      rewrite lookup_delete_eq, filter_app, filter_about_eq, Hf, app_nil_r.
      cbn. by rewrite orb_false_r.
    + apply voted_app; [by apply filter_about_ne|]. apply Hrest; auto.
      cbn. by rewrite lookup_delete_ne.
  - intros tx Hv. case_decide as Htxv; [done|]. destruct (Hnone tx Hv) as [Ht Hf].
    split; [|done]. rewrite Ht. cbn. by rewrite lookup_insert_ne.
  - intros tx inf Hlt Hlen Hpos. case_decide as Htxv.
    + subst tx. simplify_eq. cbn [length] in Hlen. apply voted_cons, Hrest; cbn; [|lia|lia].
      by rewrite lookup_insert_eq.
    + apply Hrest; auto. cbn. by rewrite lookup_insert_ne.
Qed.

(** (C4) Global conflict decision: when the servers of several transactions
    vote in any order, each transaction that was registered for [n] servers
    and got [n] votes is answered once, after its last vote, to every voter
    in the order of the votes and with the disjunction of the votes; its
    entry is then gone. Votes of one transaction do not disturb another. *)
Theorem gtm_decides_by_disjunction vs g tx n :
  can_vote g vs →
  table_ g !! tx = Some (Some (txidInfo_new (Z.of_nat n))) →
  length (votes_for tx vs) = n → (0 < n)%nat →
  ∃ es g', judge_all vs g = (es, Ok (tt, g')) ∧ table_ g' !! tx = None ∧
    filter (about tx) es =
      decision tx (any_conflict (votes_for tx vs)) <$> votes_for tx vs.
Proof.
  intros Hcan Hl Hn Hpos. destruct (judge_all_ok vs g Hcan) as (es & g' & Hrun & _ & _ & _ & Hv).
  exists es, g'. split; [done|]. specialize (Hv _ _ Hl). cbn in Hv.
  specialize (Hv ltac:(lia) ltac:(lia)). unfold voted in Hv. cbn in Hv.
  rewrite decide_True in Hv by lia. destruct Hv as [Ht Hf]. split; [done|].
  rewrite Hf, <- list_fmap_compose. apply list_fmap_ext. done.
Qed.

(** Until the last vote is in, nothing is sent for the transaction and
    its entry holds exactly the votes so far. *)
Theorem gtm_waits_for_all_votes vs g tx n :
  can_vote g vs →
  table_ g !! tx = Some (Some (txidInfo_new (Z.of_nat n))) →
  (length (votes_for tx vs) < n)%nat →
  ∃ es g', judge_all vs g = (es, Ok (tt, g')) ∧ filter (about tx) es = [] ∧
    table_ g' !! tx = entry_after n (votes_for tx vs).
Proof.
  intros Hcan Hl Hn. destruct (judge_all_ok vs g Hcan) as (es & g' & Hrun & _ & _ & _ & Hv).
  exists es, g'. split; [done|]. specialize (Hv _ _ Hl). cbn in Hv.
  specialize (Hv ltac:(lia) ltac:(lia)). unfold voted in Hv. cbn in Hv.
  rewrite decide_False in Hv by lia. destruct Hv as [Ht Hf]. split; [done|].
  unfold entry_after. rewrite decide_False by lia. done.
Qed.

(** ** Transaction ids *)

Definition endpoints (g : GTM) (type : string) : list IpandPort := default [] (transInfo_ g !! type).

(** The reply to one request. *)
Definition reply (g : GTM) (id : Z) (r : conn * string) : event :=
  ESend r.1 (Msg_AppMsg (mkAppMsg kTxid id (Some (to_ipAndPort <$> endpoints g r.2)))).

(** Requests for transactions, in the order they arrive. *)
Definition get_all (reqs : list (conn * string)) : prog GTM event unit :=
  for_each reqs (λ r, getTxid (Some r.1) r.2).

Lemma getTxid_spec c type g :
  getTxid (Some c) type g =
    ([reply g (txid_ g) (c, type)],
     Ok (tt, mkGTM (int32 (txid_ g + 1)) (<[type := endpoints g type]> (transInfo_ g))
               (if 1 <? Z.of_nat (length (endpoints g type))
                then <[txid_ g := Some (txidInfo_new (Z.of_nat (length (endpoints g type))))]> (table_ g)
                else table_ g))).
Proof.
  unfold getTxid. unfold bind at 1. cbn [get]. fold (endpoints g type). unfold bind. cbn [modify].
  by destruct (1 <? Z.of_nat (length (endpoints g type))).
Qed.

Lemma endpoints_insert g type ty t' n :
  endpoints (mkGTM n (<[type := endpoints g type]> (transInfo_ g)) t') ty = endpoints g ty.
Proof.
  unfold endpoints. cbn. destruct (decide (type = ty)) as [->|].
  - by rewrite lookup_insert_eq.
  - by rewrite lookup_insert_ne.
Qed.

Lemma int32_inj_range x i j :
  0 ≤ i < 2 ^ 32 → 0 ≤ j < 2 ^ 32 → int32 (x + i) = int32 (x + j) → i = j.
Proof.
  intros Hi Hj Heq. unfold wrap_s in Heq.
  assert ((x + i + 2 ^ (32 - 1)) mod 2 ^ 32 = (x + j + 2 ^ (32 - 1)) mod 2 ^ 32) as H by lia.
  rewrite !Z.mod_eq in H by lia.
  assert (∃ k, i - j = k * 2 ^ 32) as [k Hk].
  { eexists ((x + i + 2 ^ (32 - 1)) / 2 ^ 32 - (x + j + 2 ^ (32 - 1)) / 2 ^ 32). lia. }
  assert (k = 0) by nia. lia.
Qed.

Lemma get_all_ok reqs g :
  int32_ok (txid_ g) →
  ∃ g', get_all reqs g = (imap (λ i r, reply g (int32 (txid_ g + Z.of_nat i)) r) reqs, Ok (tt, g')) ∧
    txid_ g' = int32 (txid_ g + Z.of_nat (length reqs)) ∧ (∀ ty, endpoints g' ty = endpoints g ty).
Proof.
  revert g. induction reqs as [|[c ty] reqs IH]; intros g Hok.
  { exists g. split_and!; [done| |done]. cbn. rewrite Z.add_0_r. symmetry. by apply int32_id. }
  unfold get_all. cbn [for_each]. unfold bind. rewrite getTxid_spec. fold (get_all reqs).
  match goal with |- context [get_all reqs ?g1] => set (g1' := g1) end.
  destruct (IH g1') as (g' & -> & Htx & Hep); [apply int32_range|].
  exists g'. split_and!.
  - cbn [imap app]. f_equal. f_equal.
    { rewrite Z.add_0_r. by rewrite int32_id. }
    apply imap_ext. intros i x _. unfold compose, reply. f_equal. f_equal. f_equal.
    + unfold g1'. cbn [txid_]. rewrite int32_add_l. f_equal. lia.
    + unfold g1'. by rewrite endpoints_insert.
  - rewrite Htx. unfold g1'. cbn [txid_ length]. rewrite int32_add_l. f_equal. lia.
  - intros ty'. rewrite Hep. unfold g1'. apply endpoints_insert.
Qed.

(** The ids handed out in a run. *)
Definition txids_of (es : list event) : list Z :=
  omap (λ e, match e with ESend _ (Msg_AppMsg m) => Some (AppMsg_txid m) | _ => None end) es.

Lemma txids_of_replies (f : nat → Z) g reqs :
  txids_of (imap (λ i r, reply g (f i) r) reqs) = f <$> seq 0 (length reqs).
Proof.
  revert f. induction reqs as [|r reqs IH]; intros f; cbn [imap length seq]; [done|].
  unfold txids_of. cbn [omap list_omap reply]. fold txids_of. rewrite fmap_cons. f_equal.
  rewrite <- fmap_S_seq, <- list_fmap_compose. apply (IH (f ∘ S)).
Qed.

(** (C29) Transaction ids: every request is answered on its own connection
    with the endpoints of its type, ids count up from the current one in
    32-bit arithmetic, and no id is handed out twice within 2^32 requests. *)
Theorem gtm_txids_distinct reqs g :
  int32_ok (txid_ g) → Z.of_nat (length reqs) ≤ 2 ^ 32 →
  ∃ es g', get_all reqs g = (es, Ok (tt, g')) ∧
    es = imap (λ i r, reply g (int32 (txid_ g + Z.of_nat i)) r) reqs ∧ NoDup (txids_of es).
Proof.
  intros Hok Hlen. destruct (get_all_ok reqs g Hok) as (g' & Hrun & _). eexists _, g'.
  split; [exact Hrun|]. split; [done|].
  rewrite (txids_of_replies (λ i, int32 (txid_ g + Z.of_nat i))).
  apply NoDup_fmap_2_strong; [|apply NoDup_seq].
  intros i j Hi%elem_of_seq Hj%elem_of_seq Heq. apply int32_inj_range in Heq; lia.
Qed.

(** One transaction from its request to its decision: a request for a
    type with [n > 1] endpoints registers [n] voters under the id it hands
    out, and [n] votes under that id are then answered with their
    disjunction. *)
Theorem gtm_register_then_decide g c type vs :
  1 < Z.of_nat (length (endpoints g type)) < 2 ^ 31 →
  Forall (λ v, v_txid v = txid_ g) vs → length vs = length (endpoints g type) →
  ∃ es g', bind (getTxid (Some c) type) (λ _, judge_all vs) g =
      (reply g (txid_ g) (c, type) :: es, Ok (tt, g')) ∧
    filter (about (txid_ g)) es = decision (txid_ g) (any_conflict vs) <$> vs ∧
    table_ g' !! txid_ g = None.
Proof.
  intros Hn Hvs Hlen. unfold bind. rewrite getTxid_spec.
  destruct (Z.ltb_spec 1 (Z.of_nat (length (endpoints g type)))); [|lia].
  match goal with |- context [judge_all vs ?g1] => set (g1' := g1) end.
  assert (table_ g1' !! txid_ g = Some (Some (txidInfo_new (Z.of_nat (length vs))))) as Hl.
  { unfold g1'. cbn. by rewrite lookup_insert_eq, Hlen. }
  assert (votes_for (txid_ g) vs = vs) as Hvf.
  { clear -Hvs. induction Hvs as [|v vs Hv _ IH]; [done|]. rewrite votes_for_cons, decide_True by done.
    by rewrite IH. }
  destruct (judge_all_ok vs g1') as (es & g' & Hrun & _ & _ & _ & Hv).
  { intros tx Hne. assert (tx = txid_ g) as ->.
    { destruct (votes_for tx vs) as [|v l] eqn:Hf; [done|].
      assert (v ∈ votes_for tx vs) as Hin by (rewrite Hf; left).
      apply list_elem_of_filter in Hin as [<- Hin]. rewrite Forall_forall in Hvs. auto. }
    eexists. split; [exact Hl|]. cbn. rewrite Hvf. split; [lia|done]. }
  exists es, g'. rewrite Hrun. split; [done|].
  specialize (Hv _ _ Hl). rewrite Hvf in Hv. cbn in Hv.
  specialize (Hv ltac:(lia) ltac:(lia)). unfold voted in Hv. cbn in Hv.
  rewrite decide_True in Hv by lia. destruct Hv as [Ht Hf]. split; [|done].
  rewrite Hf, <- list_fmap_compose. by apply list_fmap_ext.
Qed.

(** ** The transactions file *)

(** The info word of a list of endpoints, as the file writes it. *)
Fixpoint render (l : list IpandPort) : string :=
  match l with
  | [] => ""
  | e :: l' => ip_ e +:+ ":" +:+ to_string (port_ e) +:+ ";" +:+ render l'
  end.

Definition plain (s : string) : bool :=
  string_forallb (λ c, negb (Ascii.eqb c ":") && negb (Ascii.eqb c ";")) s.

Definition endpoint_ok (e : IpandPort) : Prop :=
  plain (ip_ e) = true ∧ 0 ≤ port_ e < 2 ^ 31.

(** Plain characters only move [ed]. *)
Lemma parse_plain info w rest st ed pos acc :
  plain w = true →
  parse_info info (w +:+ rest) st ed pos acc = parse_info info rest st (ed + strlen w) pos acc.
Proof.
  revert ed. induction w as [|c w IH]; intros ed.
  - intros _. cbn [String.append String.length]. by rewrite Z.add_0_r.
  - unfold plain. cbn [string_forallb]. rewrite andb_true_iff, andb_true_iff, !negb_true_iff.
    intros [[Hc1 Hc2] Hw]. cbn [String.append parse_info]. rewrite Hc1, Hc2. cbn [andb].
    rewrite IH by done. f_equal. cbn [String.length]. lia.
Qed.

Lemma plain_port z : 0 ≤ z → plain (to_string z) = true.
Proof.
  intros Hz. eapply string_forallb_impl; [|by apply to_string_digits].
  intros c. destruct (Ascii.eqb_spec c ":") as [->|]; [done|].
  destruct (Ascii.eqb_spec c ";") as [->|]; done.
Qed.

Lemma parse_render l :
  Forall endpoint_ok l → ∀ pre pos acc,
  strlen (pre +:+ render l) < 2 ^ 62 →
  parse_info (pre +:+ render l) (render l) (strlen pre) (strlen pre) pos acc =
    Ok (acc ++ ((λ e, mkIpandPort (ip_ e +:+ ":") (port_ e)) <$> l)).
Proof.
  induction 1 as [|[ip port] l [Hip Hport] _ IH]; intros pre pos acc Hlen.
  { cbn. by rewrite app_nil_r. }
  cbn [ip_ port_] in *. cbn [render ip_ port_] in *.
  set (P := to_string port) in *. set (R := render l) in *.
  set (info := pre +:+ ip +:+ ":" +:+ P +:+ ";" +:+ R) in *.
  assert (plain P = true) as HP by (apply plain_port; lia).
  rewrite parse_plain by done. cbn [String.append parse_info]. rewrite Ascii.eqb_refl.
  rewrite parse_plain by done. cbn [String.append parse_info].
  rewrite (eq_refl : Ascii.eqb ";" ":" = false), Ascii.eqb_refl.
  assert (info = pre +:+ (ip +:+ ":") +:+ (P +:+ ";" +:+ R)) as E1.
  { unfold info. by rewrite !string_app_assoc. }
  assert (info = (pre +:+ ip +:+ ":") +:+ P +:+ (";" +:+ R)) as E2.
  { unfold info. by rewrite !string_app_assoc. }
  assert (info = (pre +:+ ip +:+ ":" +:+ P +:+ ";") +:+ R) as E3.
  { unfold info. by rewrite !string_app_assoc. }
  pose proof Hlen as Hlen'. rewrite E1, !string_length_app in Hlen'. cbn [String.length] in Hlen'.
  destruct (Z.ltb_spec (strlen pre) (strlen pre + strlen ip + 1 + strlen P)); [|lia]. cbn [andb].
  replace (uint64 (strlen pre + strlen ip - strlen pre + 1)) with (strlen (ip +:+ ":"))
    by (rewrite wrap_u_small, string_length_app; cbn [String.length]; lia).
  rewrite E1 at 1. rewrite substr_app. cbn [rbind].
  replace (uint64 (strlen pre + strlen ip + 1)) with (strlen (pre +:+ ip +:+ ":"))
    by (rewrite wrap_u_small, !string_length_app; cbn [String.length]; lia).
  replace (uint64 (strlen pre + strlen ip + 1 + strlen P - (strlen pre + strlen ip) - 1))
    with (strlen P) by (rewrite wrap_u_small; lia).
  rewrite E2 at 1. rewrite substr_app. cbn [rbind].
  pose proof (stoi_to_string port "" ltac:(lia) ltac:(unfold int32_ok; lia) eq_refl) as Hst.
  rewrite string_app_nil_r in Hst. fold P in Hst. rewrite Hst. cbn [rbind].
  replace (strlen pre + strlen ip + 1 + strlen P + 1) with (strlen (pre +:+ ip +:+ ":" +:+ P +:+ ";"))
    by (rewrite !string_length_app; cbn [String.length]; lia).
  rewrite E3. rewrite IH by (rewrite <- E3; done).
  rewrite fmap_cons. cbn [ip_ port_]. by rewrite <- app_assoc.
Qed.

(** Reading back an info word: for endpoints whose address holds neither
    colon nor semicolon, the parser of [init] finds every endpoint in order
    with its port, and with the colon kept at the end of the address (the
    length passed to [substr] is one too long). *)
Theorem gtm_init_reads_endpoints l :
  Forall endpoint_ok l → strlen (render l) < 2 ^ 62 →
  parse_info (render l) (render l) 0 0 npos [] =
    Ok ((λ e, mkIpandPort (ip_ e +:+ ":") (port_ e)) <$> l).
Proof. intros HF Hlen. by apply (parse_render l HF ""). Qed.

(** ** Witnesses *)

Definition demo_votes : list vote :=
  [mkvote 4 1 false; mkvote 9 2 true; mkvote 4 3 true].

Definition demo_gtm : GTM :=
  mkGTM 10 {["buy" := [mkIpandPort "h:" 1; mkIpandPort "g:" 2]]}
    {[4 := Some (txidInfo_new 2); 9 := Some (txidInfo_new 2)]}.

Lemma demo_can_vote : can_vote demo_gtm demo_votes.
Proof.
  intros tx Hne. destruct (decide (tx = 4)) as [->|]; [|destruct (decide (tx = 9)) as [->|]].
  - exists (txidInfo_new 2). split; [reflexivity|]. split; [by vm_compute|constructor].
  - exists (txidInfo_new 2). split; [reflexivity|]. split; [by vm_compute|constructor].
  - exfalso. apply Hne. unfold demo_votes. rewrite !votes_for_cons. cbn [v_txid].
    by rewrite !decide_False by congruence.
Qed.

Lemma gtm_decides_by_disjunction_witness :
  ∃ es g', judge_all demo_votes demo_gtm = (es, Ok (tt, g')) ∧
    filter (about 4) es = [decision 4 true (mkvote 4 1 false); decision 4 true (mkvote 4 3 true)].
Proof.
  destruct (gtm_decides_by_disjunction demo_votes demo_gtm 4 2) as (es & g' & Hr & _ & Hf).
  - exact demo_can_vote.
  - reflexivity.
  - reflexivity.
  - lia.
  - exists es, g'. split; [exact Hr|]. rewrite Hf. reflexivity.
Defined.

Lemma gtm_waits_for_all_votes_witness :
  ∃ es g', judge_all demo_votes demo_gtm = (es, Ok (tt, g')) ∧ filter (about 9) es = [].
Proof.
  destruct (gtm_waits_for_all_votes demo_votes demo_gtm 9 2) as (es & g' & Hr & Hf & _).
  - exact demo_can_vote.
  - reflexivity.
  - vm_compute. lia.
  - exists es, g'. split; [exact Hr|exact Hf].
Defined.

Lemma gtm_txids_distinct_witness :
  ∃ es g', get_all [(1%nat, "buy"); (2%nat, "sell")] demo_gtm = (es, Ok (tt, g')) ∧
    NoDup (txids_of es).
Proof.
  destruct (gtm_txids_distinct [(1%nat, "buy"); (2%nat, "sell")] demo_gtm) as (es & g' & Hr & _ & Hn).
  - unfold int32_ok. cbn. lia.
  - by vm_compute.
  - exists es, g'. split; [exact Hr|exact Hn].
Defined.

Lemma gtm_register_then_decide_witness :
  ∃ es g', bind (getTxid (Some 7%nat) "buy")
      (λ _, judge_all [mkvote 10 1 false; mkvote 10 2 false]) demo_gtm =
      (reply demo_gtm 10 (7%nat, "buy") :: es, Ok (tt, g')) ∧ table_ g' !! 10 = None.
Proof.
  destruct (gtm_register_then_decide demo_gtm 7 "buy" [mkvote 10 1 false; mkvote 10 2 false])
    as (es & g' & Hr & _ & Ht).
  - vm_compute. split; reflexivity.
  - repeat constructor.
  - reflexivity.
  - exists es, g'. split; [exact Hr|exact Ht].
Defined.

Lemma gtm_init_reads_endpoints_witness :
  parse_info "127.0.0.1:1234;127.0.0.1:2345;" "127.0.0.1:1234;127.0.0.1:2345;" 0 0 npos [] =
    Ok [mkIpandPort "127.0.0.1:" 1234; mkIpandPort "127.0.0.1:" 2345].
Proof.
  apply (gtm_init_reads_endpoints [mkIpandPort "127.0.0.1" 1234; mkIpandPort "127.0.0.1" 2345]).
  - repeat constructor; cbn; lia.
  - vm_compute. reflexivity.
Defined.

End GTM.
