(* ===== verification/GtmSpec.v ===== *)
(** * What the GTM promises, as a function of its history

    A specification of the transaction manager without a state: the answer to
    a message is a function of the messages handled before it.  Ids are counted
    off the requests; the ballot of a transaction is read off the history, from
    the request that opened it to the votes since.  The handlers of Gtm.v are
    shown to give these answers on every sequence of messages, faults included,
    and agreement between the voters is proved of the specification. *)

From stdpp Require Import base gmap strings list.
From S2P Require Import Prelude NetMsg Gtm.

Module GtmSpec.
Import GTM.

(** A message that the GTM gets, with its connection. *)
Abbreviation arrival := (conn * GtmMsg)%type.

Definition is_request (x : arrival) : bool := GtmMsg_cmd x.2 =? kGetTxid.
Definition is_vote (x : arrival) : bool := GtmMsg_cmd x.2 =? kJudgeConflit.

(** A vote as it arrived. *)
Definition vote_of (x : arrival) : vote := mkvote (GtmMsg_txid x.2) x.1 (GtmMsg_isLocalConflict x.2).

(** The handler on a sequence of messages. *)
Definition handle (x : arrival) : prog GTM event unit := onMessage (Some x.1) (Msg_GtmMsg x.2).
Definition handle_all (h : list arrival) : prog GTM event unit := for_each h handle.

(** ** The specification *)

Section spec.
(** The first id and the endpoints of every transaction type. *)
Context (first : Z) (ep : string → list IpandPort).

(** A past is a history with its newest message in front. *)
Fixpoint requests (past : list arrival) : nat :=
  match past with [] => 0 | x :: past => (if is_request x then 1 else 0) + requests past end.

Definition next_id (past : list arrival) : Z := int32 (first + Z.of_nat (requests past)).

(** The number of voters a request asks for. *)
Definition voters (x : arrival) : nat := length (ep (default "" (GtmMsg_transType x.2))).

Definition opens (past : list arrival) (x : arrival) (tx : Z) : bool :=
  is_request x && (next_id past =? tx) && (1 <? voters x)%nat.

(** The newest ballot on [tx]: its voters, and the votes since it was opened. *)
Fixpoint ballot (past : list arrival) (tx : Z) : option (nat * list vote) :=
  match past with
  | [] => None
  | x :: past =>
      if opens past x tx then Some (voters x, [])
      else if is_vote x && (GtmMsg_txid x.2 =? tx)
      then (λ b, (b.1, b.2 ++ [vote_of x])) <$> ballot past tx
      else ballot past tx
  end.

(** The answer to one message: ids in order with the endpoints of the type;
    nothing for a vote until the ballot is complete, then its disjunction to
    every voter; a vote without an open ballot ends the process, as does a
    request without a type. *)
Definition answer (past : list arrival) (x : arrival) : list event * result unit :=
  if is_request x then
    match GtmMsg_transType x.2 with
    | Some ty => ([ESend x.1 (Msg_AppMsg (mkAppMsg kTxid (next_id past) (Some (to_ipAndPort <$> ep ty))))], Ok tt)
    | None => ([], Err NullDeref)
    end
  else if is_vote x then
    match ballot past (GtmMsg_txid x.2) with
    | Some (n, vs) =>
        if (length vs <? n)%nat then
          let vs := vs ++ [vote_of x] in
          (if (length vs =? n)%nat then decision (GtmMsg_txid x.2) (any_conflict vs) <$> vs else [], Ok tt)
        else ([], Err NullDeref)
    | None => ([], Err NullDeref)
    end
  else ([], Ok tt).

Fixpoint answers (past h : list arrival) : list event * result unit :=
  match h with
  | [] => ([], Ok tt)
  | x :: h =>
      match answer past x with
      | (es, Ok _) => let '(es', r) := answers (x :: past) h in (es ++ es', r)
      | (es, Err f) => (es, Err f)
      end
  end.

(** ** Refinement *)

(** What the table holds for a ballot. *)
Definition entry (b : option (nat * list vote)) : option (option txidInfo) :=
  b ← b; if (length b.2 <? b.1)%nat
         then Some (Some (mktxidInfo (Z.of_nat b.1 - Z.of_nat (length b.2)) (Some ∘ v_conn <$> b.2) (any_conflict b.2)))
         else None.

Lemma entry_open n vs :
  (length vs < n)%nat →
  entry (Some (n, vs)) = Some (Some (mktxidInfo (Z.of_nat n - Z.of_nat (length vs)) (Some ∘ v_conn <$> vs) (any_conflict vs))).
Proof. intros Hn. unfold entry. cbn -[Nat.ltb]. by rewrite (proj2 (Nat.ltb_lt _ _) Hn). Qed.

Lemma entry_closed n vs : (n ≤ length vs)%nat → entry (Some (n, vs)) = None.
Proof. intros Hn. unfold entry. cbn -[Nat.ltb]. by rewrite (proj2 (Nat.ltb_ge _ _) Hn). Qed.

Record matches (past : list arrival) (g : GTM) : Prop := {
  m_id : txid_ g = next_id past;
  m_ep : ∀ ty, endpoints g ty = ep ty;
  m_table : ∀ tx, table_ g !! tx = entry (ballot past tx) }.

Context (ep_small : ∀ ty, Z.of_nat (length (ep ty)) < 2 ^ 31).

Lemma ballot_small past tx n vs : ballot past tx = Some (n, vs) → Z.of_nat n < 2 ^ 31.
Proof using ep_small.
  revert n vs. induction past as [|x past IH]; intros n vs; cbn; [done|].
  destruct (opens past x tx); [intros [= <- <-]; apply ep_small|].
  destruct (_ && _); [|apply IH]. destruct (ballot past tx) as [[n' vs']|]; [|done]. intros [= <- <-]. by eapply IH.
Qed.

Lemma next_id_cons past x : next_id (x :: past) = if is_request x then int32 (next_id past + 1) else next_id past.
Proof.
  unfold next_id. cbn [requests]. destruct (is_request x); [|done]. rewrite int32_add_l. f_equal. lia.
Qed.

Lemma request_not_vote x : is_request x = true → is_vote x = false.
Proof. unfold is_request, is_vote. intros ->%Z.eqb_eq. done. Qed.

(** A request. *)
Lemma matches_request past g x ty :
  is_request x = true → GtmMsg_transType x.2 = Some ty → matches past g →
  ∃ g', handle x g = ((answer past x).1, Ok (tt, g')) ∧ matches (x :: past) g'.
Proof.
  intros Hx Hty [Hid Hep Htbl]. pose proof (request_not_vote x Hx) as Hv. unfold is_request in Hx.
  pose proof (getTxid_spec x.1 ty g) as Hget. eexists. split.
  - unfold handle, onMessage, answer, is_request, bind. cbn [lift as_GtmMsg]. rewrite Hx, Hty. cbn [str of_option].
    rewrite Hget. cbn [app fst]. f_equal. unfold reply. cbn [fst snd]. by rewrite Hep, Hid.
  - split.
    + cbn [txid_]. rewrite next_id_cons. unfold is_request. by rewrite Hx, Hid.
    + intros ty'. by rewrite endpoints_insert.
    + intros tx. cbn [table_ ballot]. rewrite Hv. cbn [andb]. unfold opens, is_request, voters. rewrite Hx, Hty, Hep, Hid.
      cbn [andb from_option id]. destruct (Z.ltb_spec 1 (Z.of_nat (length (ep ty)))), (Nat.ltb_spec 1 (length (ep ty))); try lia.
      * rewrite andb_true_r. destruct (Z.eqb_spec (next_id past) tx) as [->|Hne].
        -- rewrite lookup_insert_eq, entry_open by (cbn; lia). cbn. by rewrite Z.sub_0_r.
        -- rewrite lookup_insert_ne by done. apply Htbl.
      * rewrite andb_false_r. apply Htbl.
Qed.

(** A vote in an open ballot. *)
Lemma matches_vote past g x n vs :
  is_request x = false → is_vote x = true → ballot past (GtmMsg_txid x.2) = Some (n, vs) → (length vs < n)%nat →
  matches past g → ∃ g', handle x g = ((answer past x).1, Ok (tt, g')) ∧ matches (x :: past) g'.
Proof using ep_small.
  intros Hr Hv Hb Hn [Hid Hep Htbl]. pose proof (ballot_small _ _ _ _ Hb) as Hsmall.
  pose proof (Htbl (GtmMsg_txid x.2)) as He. rewrite Hb, entry_open in He by done.
  assert (handle x g = judgeConflict (Some (v_conn (vote_of x))) (vote_msg (vote_of x)) g) as ->.
  { unfold handle, onMessage. unfold is_request in Hr. unfold is_vote in Hv.
    rewrite (bind_quiet _ _ _ x.2 g) by done. rewrite Hr, Hv. done. }
  rewrite (judgeConflict_spec (vote_of x) g _ He); [|cbn [serverNum]; lia|apply Forall_fmap, Forall_true; intros v; by eexists].
  cbn [serverNum connList_ isConflict vote_of v_txid v_conn v_conflict]. unfold answer. rewrite Hr, Hv, Hb.
  destruct (Nat.ltb_spec (length vs) n) as [_|]; [|lia]. rewrite length_app. cbn [length].
  assert (any_conflict vs || GtmMsg_isLocalConflict x.2 = any_conflict (vs ++ [vote_of x])) as Hany.
  { unfold any_conflict. rewrite existsb_app. cbn. by rewrite orb_false_r. }
  assert (∀ tx, ballot (x :: past) tx = if GtmMsg_txid x.2 =? tx then (λ b, (b.1, b.2 ++ [vote_of x])) <$> ballot past tx else ballot past tx) as Hbal.
  { intros tx. cbn [ballot]. unfold opens. by rewrite Hr, Hv. }
  destruct (Z.eqb_spec (Z.of_nat n - Z.of_nat (length vs)) 1), (Nat.eqb_spec (length vs + 1) n); try lia; (eexists; split; [|split]).
  - cbn [fst]. f_equal. rewrite fmap_app, <- list_fmap_compose, fmap_app. rewrite Hany. reflexivity.
  - cbn [txid_ set_table]. rewrite next_id_cons, Hr. done.
  - intros ty. unfold endpoints. cbn. apply Hep.
  - intros tx. rewrite Hbal. cbn [table_ set_table]. destruct (Z.eqb_spec (GtmMsg_txid x.2) tx) as [<-|Hne].
    + rewrite lookup_delete_eq, Hb. cbn [fmap option_fmap option_map fst snd]. rewrite entry_closed; [done|]. rewrite length_app. cbn. lia.
    + rewrite lookup_delete_ne by done. apply Htbl.
  - done.
  - cbn [txid_ set_table]. rewrite next_id_cons, Hr. done.
  - intros ty. unfold endpoints. cbn. apply Hep.
  - intros tx. rewrite Hbal. cbn [table_ set_table]. destruct (Z.eqb_spec (GtmMsg_txid x.2) tx) as [<-|Hne].
    + rewrite lookup_insert_eq, Hb. cbn [fmap option_fmap option_map fst snd]. rewrite entry_open by (rewrite length_app; cbn; lia).
      rewrite fmap_app, Hany, length_app. cbn [length]. do 3 f_equal. lia.
    + rewrite lookup_insert_ne by done. apply Htbl.
Qed.

(** Every message: the answer of the specification, and the relation again. *)
Lemma matches_step past g x :
  matches past g →
  match answer past x with
  | (es, Ok _) => ∃ g', handle x g = (es, Ok (tt, g')) ∧ matches (x :: past) g'
  | (es, Err f) => handle x g = (es, Err f)
  end.
Proof using ep_small.
  intros Hm. destruct (is_request x) eqn:Hr; [|destruct (is_vote x) eqn:Hv].
  - destruct (GtmMsg_transType x.2) as [ty|] eqn:Hty.
    + destruct (matches_request past g x ty Hr Hty Hm) as (g' & Hh & Hm'). unfold answer in *. rewrite Hr, Hty in *. by eexists.
    + unfold answer. rewrite Hr, Hty. unfold handle, onMessage. unfold is_request in Hr.
      rewrite (bind_quiet _ _ _ x.2 g) by done. rewrite Hr. unfold bind. by rewrite Hty.
  - assert (entry (ballot past (GtmMsg_txid x.2)) = None → handle x g = ([], Err NullDeref)) as Hnull.
    { rewrite <- (m_table _ _ Hm). intros Hnone. unfold handle, onMessage. unfold is_request in Hr. unfold is_vote in Hv.
      rewrite (bind_quiet _ _ _ x.2 g) by done. rewrite Hr, Hv. unfold judgeConflict, bind. cbn [get].
      by rewrite (subscript_none _ _ _ Hnone). }
    unfold answer. rewrite Hr, Hv. destruct (ballot past (GtmMsg_txid x.2)) as [[n vs]|] eqn:Hb; [|by apply Hnull].
    destruct (Nat.ltb_spec (length vs) n) as [Hn|Hn].
    + destruct (matches_vote past g x n vs Hr Hv Hb Hn Hm) as (g' & Hh & Hm'). exists g'. split; [|done].
      rewrite Hh. unfold answer. rewrite Hr, Hv, Hb. destruct (Nat.ltb_spec (length vs) n); [done|lia].
    + by apply Hnull, entry_closed.
  - unfold answer. rewrite Hr, Hv. exists g. split.
    + unfold handle, onMessage. unfold is_request in Hr. unfold is_vote in Hv. rewrite (bind_quiet _ _ _ x.2 g) by done. by rewrite Hr, Hv.
    + destruct Hm as [Hid Hep Htbl]. split; [by rewrite next_id_cons, Hr|done|]. intros tx. cbn [ballot]. unfold opens. rewrite Hr, Hv. apply Htbl.
Qed.

Lemma matches_answers past h g :
  matches past g →
  match answers past h with
  | (es, Ok _) => ∃ g', handle_all h g = (es, Ok (tt, g')) ∧ matches (rev h ++ past) g'
  | (es, Err f) => handle_all h g = (es, Err f)
  end.
Proof using ep_small.
  revert past g. induction h as [|x h IH]; intros past g Hm; [by exists g|].
  cbn [answers]. unfold handle_all. cbn [for_each rev]. pose proof (matches_step past g x Hm) as Hx.
  destruct (answer past x) as [es [[]|f]]; [|by apply bind_fault]. destruct Hx as (g1 & Hh & Hm1).
  specialize (IH _ _ Hm1). fold (handle_all h). destruct (answers (x :: past) h) as [es' [[]|f]].
  - destruct IH as (g2 & Hh2 & Hm2). exists g2. rewrite (bind_step _ _ _ _ _ _ Hh), Hh2. by rewrite <- app_assoc.
  - by rewrite (bind_step _ _ _ _ _ _ Hh), IH.
Qed.

(** ** Agreement *)

(** No message of the past was answered with a fault, and what was answered. *)
Fixpoint fine (past : list arrival) : Prop :=
  match past with [] => True | x :: past => fine past ∧ (answer past x).2 = Ok tt end.
Fixpoint said (past : list arrival) : list event :=
  match past with [] => [] | x :: past => said past ++ (answer past x).1 end.

(** All votes on [tx] in the past, the oldest first. *)
Fixpoint votes_on (tx : Z) (past : list arrival) : list vote :=
  match past with
  | [] => []
  | x :: past => votes_on tx past ++ (if is_vote x && (GtmMsg_txid x.2 =? tx) then [vote_of x] else [])
  end.

Lemma answers_said past h :
  fine past → let '(es, r) := answers past h in
  ∃ h1 h2, h = h1 ++ h2 ∧ fine (rev h1 ++ past) ∧ said (rev h1 ++ past) = said past ++ es ∧ (r = Ok tt → h2 = []).
Proof.
  revert past. induction h as [|x h IH]; intros past Hf; cbn [answers].
  { exists [], []. split_and!; [done|done|symmetry; apply app_nil_r|done]. }
  destruct (answer past x) as [es [[]|f]] eqn:Hx.
  - specialize (IH (x :: past)). destruct (answers (x :: past) h) as [es' r].
    destruct IH as (h1 & h2 & -> & Hf' & Hs & Hr); [by split; [|rewrite Hx]|].
    exists (x :: h1), h2. cbn [rev]. rewrite <- !app_assoc. split_and!; [done|done| |done].
    cbn [app]. rewrite Hs. cbn [said]. rewrite Hx. by rewrite <- app_assoc.
  - exists [], (x :: h). split_and!; [done|done| |done]. cbn. assert (es = []) as ->; [|by rewrite app_nil_r].
    revert Hx. unfold answer. destruct (is_request x); [destruct (GtmMsg_transType x.2); naive_solver|].
    destruct (is_vote x); [|naive_solver]. destruct (ballot past _) as [[n vs]|]; [|naive_solver]. destruct (_ <? _)%nat; naive_solver.
Qed.

(** The request that opened the ballot on [tx]. *)
Definition opened_by (past : list arrival) (tx : Z) (n : nat) : Prop :=
  ∃ newer x older, past = newer ++ x :: older ∧ is_request x = true ∧ next_id older = tx ∧ voters x = n.

Lemma requests_app p q : requests (p ++ q) = (requests p + requests q)%nat.
Proof. induction p as [|x p IH]; cbn; [done|]. rewrite IH. lia. Qed.

Lemma requests_rev p : requests (rev p) = requests p.
Proof. induction p as [|x p IH]; cbn; [done|]. rewrite requests_app, IH. cbn. lia. Qed.

Lemma opened_by_cons past x tx n : opened_by past tx n → opened_by (x :: past) tx n.
Proof. intros (newer & y & older & -> & H). by exists (x :: newer), y, older. Qed.

(** An id that has been handed out is not the next one. *)
Lemma opened_not_next past tx n : Z.of_nat (requests past) < 2 ^ 32 → opened_by past tx n → next_id past ≠ tx.
Proof.
  intros Hlt (newer & x & older & -> & Hx & <- & _). rewrite requests_app in Hlt. cbn [requests] in Hlt. rewrite Hx in Hlt.
  unfold next_id. rewrite requests_app. cbn [requests]. rewrite Hx. intros Heq%int32_inj_range; lia.
Qed.

Lemma ballot_votes past tx :
  fine past → Z.of_nat (requests past) ≤ 2 ^ 32 →
  match ballot past tx with
  | None => votes_on tx past = []
  | Some (n, vs) => vs = votes_on tx past ∧ opened_by past tx n
  end.
Proof.
  induction past as [|x past IH]; intros Hf Hn; [done|]. destruct Hf as [Hf Hx].
  assert (Z.of_nat (requests past) ≤ 2 ^ 32) as Hn' by (cbn [requests] in Hn; lia). specialize (IH Hf Hn').
  cbn [ballot votes_on]. destruct (opens past x tx) eqn:Ho.
  - unfold opens in Ho. rewrite !andb_true_iff, Z.eqb_eq in Ho. destruct Ho as [[Hr Htx] _].
    rewrite (request_not_vote x Hr). cbn [andb]. rewrite app_nil_r. split; [|by exists [], x, past].
    destruct (ballot past tx) as [[n vs]|]; [|by rewrite IH]. destruct IH as [_ Hop].
    cbn [requests] in Hn. rewrite Hr in Hn. by destruct (opened_not_next past tx n ltac:(lia) Hop).
  - destruct (is_vote x && (GtmMsg_txid x.2 =? tx)) eqn:Hv.
    + apply andb_true_iff in Hv as [Hv <-%Z.eqb_eq]. unfold answer in Hx. rewrite Hv in Hx.
      destruct (is_request x) eqn:Hr; [by rewrite (request_not_vote x Hr) in Hv|].
      destruct (ballot past (GtmMsg_txid x.2)) as [[n vs]|]; [|done]. destruct IH as [-> Hop].
      split; [done|by apply opened_by_cons].
    + rewrite app_nil_r. destruct (ballot past tx) as [[n vs]|]; [|done]. destruct IH as [-> Hop].
      split; [done|by apply opened_by_cons].
Qed.

(** The decision on [tx] as a message. *)
Definition decides (tx : Z) (b : bool) (c : conn) (e : event) : Prop :=
  e = ESend c (Msg_DbtmMsg (mkDbtmMsg kJudgeConflit tx b 0)).

Lemma answer_decides past x tx b c e :
  decides tx b c e → e ∈ (answer past x).1 →
  is_vote x = true ∧ GtmMsg_txid x.2 = tx ∧ ∃ n vs, ballot past tx = Some (n, vs) ∧ length (vs ++ [vote_of x]) = n ∧
    b = any_conflict (vs ++ [vote_of x]) ∧ c ∈ v_conn <$> vs ++ [vote_of x].
Proof.
  intros ->. unfold answer. destruct (is_request x).
  { destruct (GtmMsg_transType x.2); cbn; [by intros [=]%list_elem_of_singleton|by intros ?%not_elem_of_nil]. }
  destruct (is_vote x); [|by intros ?%not_elem_of_nil].
  destruct (ballot past (GtmMsg_txid x.2)) as [[n vs]|] eqn:Hb; [|by intros ?%not_elem_of_nil].
  destruct (_ <? _)%nat; [|by intros ?%not_elem_of_nil]. cbn [fst]. destruct (Nat.eqb_spec (length (vs ++ [vote_of x])) n) as [Hl|]; [|by intros ?%not_elem_of_nil].
  intros (v & Hv & Hin)%list_elem_of_fmap. unfold decision in Hv. injection Hv as -> -> ->.
  split_and!; [done|done|]. exists n, vs. split_and!; [done|done|done|]. by apply list_elem_of_fmap_2.
Qed.

Lemma said_decides past tx b c e :
  fine past → Z.of_nat (requests past) ≤ 2 ^ 32 → decides tx b c e → e ∈ said past →
  opened_by past tx (length (votes_on tx past)) ∧ b = any_conflict (votes_on tx past) ∧ c ∈ v_conn <$> votes_on tx past.
Proof.
  intros Hf Hn He Hin. assert (∃ vs, ballot past tx = Some (length vs, vs) ∧ b = any_conflict vs ∧ c ∈ v_conn <$> vs) as (vs & Hb & -> & Hc).
  2: { pose proof (ballot_votes past tx Hf Hn) as Hbv. rewrite Hb in Hbv. by destruct Hbv as [-> ?]. }
  induction past as [|x past IH]; [by apply not_elem_of_nil in Hin|]. destruct Hf as [Hf Hx].
  assert (Z.of_nat (requests past) ≤ 2 ^ 32) as Hn' by (cbn [requests] in Hn; lia).
  cbn [said] in Hin. apply elem_of_app in Hin as [Hin|Hin].
  - destruct (IH Hf Hn' Hin) as (vs & Hb & Hany & Hc). exists vs. split; [|done]. cbn [ballot].
    pose proof (ballot_votes past tx Hf Hn') as Hbv. rewrite Hb in Hbv. destruct Hbv as [_ Hop].
    destruct (opens past x tx) eqn:Ho.
    { unfold opens in Ho. rewrite !andb_true_iff, Z.eqb_eq in Ho. destruct Ho as [[Hr Htx] _]. cbn [requests] in Hn. rewrite Hr in Hn.
      by destruct (opened_not_next past tx _ ltac:(lia) Hop). }
    destruct (is_vote x && (GtmMsg_txid x.2 =? tx)) eqn:Hv; [|done]. apply andb_true_iff in Hv as [Hv <-%Z.eqb_eq].
    exfalso. revert Hx. unfold answer. rewrite Hv, Hb. destruct (is_request x) eqn:Hr; [by rewrite (request_not_vote x Hr) in Hv|].
    by rewrite Nat.ltb_irrefl.
  - destruct (answer_decides _ _ _ _ _ _ He Hin) as (Hv & <- & n & vs & Hb & Hl & Hany & Hc).
    exists (vs ++ [vote_of x]). split; [|done]. cbn [ballot]. unfold opens.
    destruct (is_request x) eqn:Hr; [by rewrite (request_not_vote x Hr) in Hv|]. cbn [andb]. rewrite Hv, Z.eqb_refl, Hb. cbn. by rewrite Hl.
Qed.
End spec.

(** A GTM that has just read its transactions file. *)
Definition started (g : GTM) : Prop :=
  table_ g = ∅ ∧ int32_ok (txid_ g) ∧ ∀ ty, Z.of_nat (length (endpoints g ty)) < 2 ^ 31.

Lemma started_matches g : started g → matches (txid_ g) (endpoints g) [] g.
Proof.
  intros (Ht & Hid & _). split; [|done|].
  - unfold next_id. cbn. rewrite Z.add_0_r. by rewrite int32_id.
  - intros tx. by rewrite Ht, lookup_empty.
Qed.

(** The events and the outcome of a run, the final state left out. *)
Definition observed {A} (x : list event * result (A * GTM)) : list event * result A :=
  (x.1, match x.2 with Ok (a, _) => Ok a | Err f => Err f end).

(** (C2) The GTM implements its specification: from a fresh start, whatever
    messages arrive, in whatever order, it emits the answers that the history
    determines, and stops exactly where the specification stops. *)
Theorem gtm_refines_history g h :
  started g → observed (handle_all h g) = answers (txid_ g) (endpoints g) [] h.
Proof.
  intros Hs. pose proof (matches_answers _ _ (proj2 (proj2 Hs)) [] h g (started_matches g Hs)) as Hm.
  destruct (answers _ _ [] h) as [es [[]|f]]; [destruct Hm as (g' & -> & _)|rewrite Hm]; done.
Qed.

(** What a run has said is what the specification says of the messages handled. *)
Lemma handled_said g h es r :
  started g → handle_all h g = (es, r) →
  ∃ h1, h1 `prefix_of` h ∧ fine (txid_ g) (endpoints g) (rev h1) ∧ es = said (txid_ g) (endpoints g) (rev h1).
Proof.
  intros Hs Hr. pose proof (answers_said (txid_ g) (endpoints g) [] h I) as Ha.
  pose proof (matches_answers _ _ (proj2 (proj2 Hs)) [] h g (started_matches g Hs)) as Hm.
  destruct (answers _ _ [] h) as [es' r']. destruct Ha as (h1 & h2 & -> & Hf & Hsaid & _). rewrite app_nil_r in *.
  exists h1. split_and!; [by exists h2|done|]. cbn in Hsaid. rewrite Hsaid.
  destruct r' as [[]|f]; [destruct Hm as (g' & Hm & _)|]; rewrite Hm in Hr; by injection Hr as <- <-.
Qed.

(** Agreement: among the decisions that a run of the GTM sends for one
    transaction, within the 2^32 requests after which ids come again, no two
    differ; the decision is the disjunction of all votes handled on it, which
    are as many as the endpoints of the request that got the id, and goes to
    their senders. *)
Theorem gtm_agreement g h es r tx b c e :
  started g → Z.of_nat (requests h) ≤ 2 ^ 32 → handle_all h g = (es, r) → decides tx b c e → e ∈ es →
  (∀ b' c' e', decides tx b' c' e' → e' ∈ es → b' = b) ∧
  ∃ h1, h1 `prefix_of` h ∧ let vs := votes_on tx (rev h1) in
    b = any_conflict vs ∧ c ∈ v_conn <$> vs ∧ opened_by (txid_ g) (endpoints g) (rev h1) tx (length vs).
Proof.
  intros Hs Hn Hr He Hin. destruct (handled_said g h es r Hs Hr) as (h1 & [h2 ->] & Hf & ->).
  assert (Z.of_nat (requests (rev h1)) ≤ 2 ^ 32) as Hn1 by (rewrite requests_app in Hn; rewrite requests_rev; lia).
  destruct (said_decides _ _ _ _ _ _ _ Hf Hn1 He Hin) as (Hop & -> & Hc). split.
  - intros b' c' e' He' Hin'. by destruct (said_decides _ _ _ _ _ _ _ Hf Hn1 He' Hin') as (_ & -> & _).
  - exists h1. split; [by exists h2|done].
Qed.


(** ** Witnesses: two transactions that vote at the same time *)

Definition two_gtm : GTM := mkGTM 7 {["buy" := [mkIpandPort "h:" 1; mkIpandPort "g:" 2]]} ∅.

Definition ask (c : conn) : arrival := (c, mkGtmMsg kGetTxid 0 false (Some "buy")).
Definition cast (c : conn) (tx : Z) (b : bool) : arrival := (c, mkGtmMsg kJudgeConflit tx b None).

Definition two_history : list arrival :=
  [ask 1; ask 1; cast 2 7 false; cast 3 8 true; cast 3 7 false; cast 2 8 false].

Lemma two_started : started two_gtm.
Proof.
  split_and!; [done|unfold int32_ok; cbn; lia|]. intros ty. unfold endpoints, two_gtm. cbn [transInfo_].
  destruct (decide (ty = "buy")) as [->|]; [by vm_compute|]. by rewrite lookup_singleton_ne.
Defined.

Lemma gtm_refines_history_witness :
  observed (handle_all (two_history ++ [cast 2 7 true]) two_gtm) =
    ([ESend 1 (Msg_AppMsg (mkAppMsg kTxid 7 (Some [mkipAndPort (Some "h:") 1; mkipAndPort (Some "g:") 2])));
       ESend 1 (Msg_AppMsg (mkAppMsg kTxid 8 (Some [mkipAndPort (Some "h:") 1; mkipAndPort (Some "g:") 2])));
       decision 7 false (mkvote 7 2 false); decision 7 false (mkvote 7 3 false);
       decision 8 true (mkvote 8 3 true); decision 8 true (mkvote 8 2 false)], Err NullDeref).
Proof. etransitivity; [exact (gtm_refines_history two_gtm (two_history ++ [cast 2 7 true]) two_started)|vm_compute; reflexivity]. Defined.

Lemma gtm_agreement_witness :
  ∃ es g', handle_all two_history two_gtm = (es, Ok (tt, g')) ∧
    (∀ b' c' e', decides 8 b' c' e' → e' ∈ es → b' = true).
Proof.
  destruct (handle_all two_history two_gtm) as [es r] eqn:Hr.
  assert (ESend 2 (Msg_DbtmMsg (mkDbtmMsg kJudgeConflit 8 true 0)) ∈ es ∧ ∃ g', r = Ok (tt, g')) as [Hin (g' & ->)].
  { vm_compute in Hr. injection Hr as <- <-. split; [do 5 apply list_elem_of_further; apply list_elem_of_here|by eexists]. }
  exists es, g'. split; [reflexivity|].
  refine (proj1 (gtm_agreement two_gtm two_history es _ 8 true 2 _ two_started _ Hr eq_refl Hin)). vm_compute. discriminate.
Defined.

End GtmSpec.
