(* ===== verification/GtmThreads.v ===== *)
(** * GTM with several I/O threads (gtmmain.cc, [setThreadNum])

    gtmmain.cc starts the server with [gtmThreads()] I/O threads, and each runs
    the handlers of its own connections.  The members of [GTM] have no lock;
    only [txid_] is atomic.  Here the two handlers are cut at every access to
    shared memory, with the objects that [table_] points to in a heap, and the
    threads interleave at these points.  The interleavings are sequentially
    consistent and every operation of a map is one step: a race in the C++
    sense can only do worse.

    Shown: one handler alone is the handler of Gtm.v; one thread is a
    sequential GTM; with several threads ids stay within the number of
    requests, but ids can be given twice and votes can be lost. *)

From stdpp Require Import base gmap strings list relations.
From S2P Require Import Prelude NetMsg Gtm.

Module GtmThreads.
Import GTM.

(** ** Shared memory *)

(** The members of [GTM], with [table_] holding addresses; an address is an
    index into the heap, [None] there an object that was deleted. *)
Record shared := mkshared {
  s_txid : Z;
  s_transInfo : gmap string (list IpandPort);
  s_table : gmap Z (option nat);
  s_heap : list (option txidInfo) }.

Definition on_txid f s := mkshared (f (s_txid s)) (s_transInfo s) (s_table s) (s_heap s).
Definition on_transInfo f s := mkshared (s_txid s) (f (s_transInfo s)) (s_table s) (s_heap s).
Definition on_table f s := mkshared (s_txid s) (s_transInfo s) (f (s_table s)) (s_heap s).
Definition on_heap f s := mkshared (s_txid s) (s_transInfo s) (s_table s) (f (s_heap s)).

(** [new struct txidInfo(n)] *)
Definition new_info (n : Z) : prog shared event nat :=
  let* s := get in
  modify (on_heap (λ h, h ++ [Some (txidInfo_new n)])) ;;; ret (length (s_heap s)).

(** Reading and writing through a [txidInfo *]. *)
Definition load_info (p : option nat) : prog shared event txidInfo :=
  let* s := get in
  match p with
  | None => throw NullDeref
  | Some a => match s_heap s !! a with Some (Some i) => ret i | _ => throw UseAfterFree end
  end.
Definition store_info (p : option nat) (f : txidInfo → txidInfo) : prog shared event unit :=
  let* i := load_info p in
  match p with Some a => modify (on_heap (<[a := Some (f i)]>)) | None => throw NullDeref end.

Definition set_serverNum n (i : txidInfo) := mktxidInfo n (connList_ i) (isConflict i).
Definition set_connList f (i : txidInfo) := mktxidInfo (serverNum i) (f (connList_ i)) (isConflict i).
Definition set_isConflict b (i : txidInfo) := mktxidInfo (serverNum i) (connList_ i) b.

(** ** Threads *)

(** Where a thread is: what it does next, with its locals. *)
Inductive pc :=
| Done
| GetList (conn : TcpConnectionPtr) (transType : string)
| RegLoad (conn : TcpConnectionPtr) (list : list IpandPort)
| RegStore (conn : TcpConnectionPtr) (list : list IpandPort) (id : Z)
| ReplyLoad (conn : TcpConnectionPtr) (list : list IpandPort)
| Incr (conn : TcpConnectionPtr) (list : list IpandPort) (id : Z)
| Send (conn : TcpConnectionPtr) (list : list IpandPort) (id : Z)
| Find (conn : TcpConnectionPtr) (data : GtmMsg)
| Append (conn : TcpConnectionPtr) (data : GtmMsg) (info : option nat)
| OrLoad (data : GtmMsg) (info : option nat)
| OrStore (data : GtmMsg) (info : option nat) (b : bool)
| DecLoad (txid : Z) (info : option nat)
| DecStore (txid : Z) (info : option nat) (n : Z)
| Loop (txid : Z) (info : option nat) (i : nat)
| Erase (txid : Z) (info : option nat)
| Delete (info : option nat).

(** One access to shared memory of [GTM::getTxid]. *)
Definition getTxid_step (p : pc) : prog shared event pc :=
  match p with
  | GetList conn transType =>
      let* s := get in
      let list := default [] (s_transInfo s !! transType) in
      modify (on_transInfo (<[transType := list]>)) ;;;
      ret (if 1 <? Z.of_nat (length list) then RegLoad conn list else ReplyLoad conn list)
  | RegLoad conn list => let* s := get in ret (RegStore conn list (s_txid s))
  | RegStore conn list id =>
      let* a := new_info (Z.of_nat (length list)) in
      modify (on_table (<[id := Some a]>)) ;;; ret (ReplyLoad conn list)
  | ReplyLoad conn list => let* s := get in ret (Incr conn list (s_txid s))
  | Incr conn list id => modify (on_txid (λ x, int32 (x + 1))) ;;; ret (Send conn list id)
  | Send conn list id =>
      send conn (Msg_AppMsg (mkAppMsg kTxid id (Some (to_ipAndPort <$> list)))) ;;; ret Done
  | p => ret p
  end.

(** One access to shared memory of [GTM::judgeConflict]. *)
Definition judgeConflict_step (p : pc) : prog shared event pc :=
  match p with
  | Find conn data =>
      let* s := get in
      let '(info, tbl) := subscript None (GtmMsg_txid data) (s_table s) in
      modify (on_table (λ _, tbl)) ;;; ret (Append conn data info)
  | Append conn data info =>
      store_info info (set_connList (λ l, l ++ [conn])) ;;; ret (OrLoad data info)
  | OrLoad data info => let* i := load_info info in ret (OrStore data info (isConflict i))
  | OrStore data info b =>
      store_info info (set_isConflict (b || GtmMsg_isLocalConflict data)) ;;;
      ret (DecLoad (GtmMsg_txid data) info)
  | DecLoad txid info => let* i := load_info info in ret (DecStore txid info (int32 (serverNum i - 1)))
  | DecStore txid info n =>
      store_info info (set_serverNum n) ;;; ret (if n =? 0 then Loop txid info 0 else Done)
  | Loop txid info i =>
      let* o := load_info info in
      match connList_ o !! i with
      | None => ret (Erase txid info)
      | Some c => send c (Msg_DbtmMsg (mkDbtmMsg kJudgeConflit txid (isConflict o) 0)) ;;; ret (Loop txid info (S i))
      end
  | Erase txid info => modify (on_table (delete txid)) ;;; ret (Delete info)
  | Delete info =>
      load_info info ;;;
      match info with Some a => modify (on_heap (<[a := None]>)) ;;; ret Done | None => throw NullDeref end
  | p => ret p
  end.

Definition tstep (p : pc) : prog shared event pc :=
  match p with
  | GetList _ _ | RegLoad _ _ | RegStore _ _ _ | ReplyLoad _ _ | Incr _ _ _ | Send _ _ _ => getTxid_step p
  | p => judgeConflict_step p
  end.

(** A message for a handler, as [onMessage] hands it over. *)
Inductive task :=
| TGet (conn : TcpConnectionPtr) (transType : string)
| TVote (conn : TcpConnectionPtr) (data : GtmMsg).

Definition start (t : task) : pc :=
  match t with TGet c ty => GetList c ty | TVote c d => Find c d end.

(** The handler of Gtm.v that the task runs. *)
Definition handle (t : task) : prog GTM event unit :=
  match t with TGet c ty => getTxid c ty | TVote c d => judgeConflict c d end.

(** A thread that is not interrupted. *)
Fixpoint run_alone (fuel : nat) (p : pc) : prog shared event unit :=
  match p, fuel with
  | Done, _ => ret tt
  | _, O => throw OutOfFuel
  | _, S fuel => let* p' := tstep p in run_alone fuel p'
  end.

(** ** The process: every thread with the messages it still has to handle *)

Record machine := mkmachine { m_shared : shared; m_threads : list (pc * list task) }.

Inductive mstep : machine → list event → machine → Prop :=
| step_access s ths i p q es p' s' :
    ths !! i = Some (p, q) → p ≠ Done → tstep p s = (es, Ok (p', s')) →
    mstep (mkmachine s ths) es (mkmachine s' (<[i := (p', q)]> ths))
| step_next s ths i t q :
    ths !! i = Some (Done, t :: q) →
    mstep (mkmachine s ths) [] (mkmachine s (<[i := (start t, q)]> ths)).

Inductive msteps : machine → list event → machine → Prop :=
| msteps_refl m : msteps m [] m
| msteps_snoc m es m' es' m'' : msteps m es m' → mstep m' es' m'' → msteps m (es ++ es') m''.

(** One turn of thread [i], as a function, for schedules. *)
Definition turn (i : nat) (m : machine) : result (list event * machine) :=
  match m_threads m !! i with
  | None => Err OutOfBounds
  | Some (Done, []) => Err OutOfBounds
  | Some (Done, t :: q) => Ok ([], mkmachine (m_shared m) (<[i := (start t, q)]> (m_threads m)))
  | Some (p, q) =>
      match tstep p (m_shared m) with
      | (es, Ok (p', s')) => Ok (es, mkmachine s' (<[i := (p', q)]> (m_threads m)))
      | (_, Err f) => Err f
      end
  end.

Fixpoint schedule (turns : list nat) (m : machine) : result (list event * machine) :=
  match turns with
  | [] => Ok ([], m)
  | i :: turns =>
      let? (es, m) := turn i m in
      let? (es', m) := schedule turns m in
      Ok (es ++ es', m)
  end.

(** ** One handler alone *)

(** The view of Gtm.v: every address replaced by its object. *)
Definition deref (h : list (option txidInfo)) (p : option nat) : option txidInfo := p ≫= λ a, mjoin (h !! a).
Definition view (s : shared) : GTM := mkGTM (s_txid s) (s_transInfo s) (deref (s_heap s) <$> s_table s).

(** Every address in [table_] is of a live object, and no two ids share one. *)
Definition swf (s : shared) : Prop :=
  (∀ tx a, s_table s !! tx = Some (Some a) → ∃ i, s_heap s !! a = Some (Some i)) ∧
  (∀ tx tx' a, s_table s !! tx = Some (Some a) → s_table s !! tx' = Some (Some a) → tx = tx').

(** Enough steps for a handler: six accesses, and for a decision one per
    connection and three more. *)
Definition cost (t : task) (s : shared) : nat :=
  match t with
  | TGet _ _ => 6
  | TVote _ d => 10 + from_option (λ p, from_option (λ i, length (connList_ i)) 0%nat (deref (s_heap s) p)) 0%nat (s_table s !! GtmMsg_txid d)
  end.

(** The result of a thread stands for the result of a handler. *)
Definition agrees (r : result (unit * shared)) (r' : result (unit * GTM)) : Prop :=
  match r, r' with
  | Ok (_, s), Ok (_, g) => view s = g ∧ swf s
  | Err f, Err f' => f = f'
  | _, _ => False
  end.

Lemma view_new_info s tx i :
  swf s →
  deref (s_heap s ++ [Some i]) <$> <[tx := Some (length (s_heap s))]> (s_table s) =
  <[tx := Some i]> (deref (s_heap s) <$> s_table s).
Proof.
  intros [Hlive _]. rewrite fmap_insert. unfold deref at 1. cbn. rewrite list_lookup_middle by done. cbn.
  apply map_eq. intros k. destruct (decide (k = tx)) as [->|]; [by rewrite !lookup_insert_eq|].
  rewrite !lookup_insert_ne, !lookup_fmap by done. destruct (s_table s !! k) as [[a|]|] eqn:Hk; [|done..].
  destruct (Hlive _ _ Hk) as [j Hj]. cbn. do 2 f_equal. by rewrite lookup_app_l by (by eapply lookup_lt_Some).
Qed.

Lemma swf_new_info s tx i ti n :
  swf s → swf (mkshared n ti (<[tx := Some (length (s_heap s))]> (s_table s)) (s_heap s ++ [Some i])).
Proof.
  intros [Hlive Hinj]. split; cbn.
  - intros k a Hk. destruct (decide (k = tx)) as [->|].
    + rewrite lookup_insert_eq in Hk. injection Hk as <-. exists i. by rewrite list_lookup_middle.
    + rewrite lookup_insert_ne in Hk by done. destruct (Hlive _ _ Hk) as [j Hj]. exists j. by apply lookup_app_l_Some.
  - assert (∀ k, s_table s !! k = Some (Some (length (s_heap s))) → False) as Hnew.
    { intros k Hk. destruct (Hlive _ _ Hk) as [j Hj%lookup_lt_Some]. lia. }
    intros k k' a [[? [=]]|[? Hk]]%lookup_insert_Some [[? [=]]|[? Hk']]%lookup_insert_Some; subst; naive_solver.
Qed.

Lemma swf_fields s n ti : swf s → swf (mkshared n ti (s_table s) (s_heap s)).
Proof. done. Qed.

(** A step without events, one that ends the thread, and one that faults. *)
Lemma alone_quiet fuel p p' s s' :
  p ≠ Done → tstep p s = ([], Ok (p', s')) → run_alone (S fuel) p s = run_alone fuel p' s'.
Proof. intros Hp Hs. destruct p; try done; cbn [run_alone]; by rewrite (bind_quiet _ _ _ _ _ Hs). Qed.

Lemma alone_fault fuel p es f s :
  p ≠ Done → tstep p s = (es, Err f) → run_alone (S fuel) p s = (es, Err f).
Proof. intros Hp Hs. destruct p; try done; cbn [run_alone]; by rewrite (bind_fault _ _ _ _ _ Hs). Qed.

Lemma alone_done fuel s : run_alone fuel Done s = ([], Ok (tt, s)).
Proof. by destruct fuel. Qed.

Lemma alone_reply fuel c l id s g :
  view s = g → swf s →
  let m := Msg_AppMsg (mkAppMsg kTxid id (Some (to_ipAndPort <$> l))) in
  ∃ r, run_alone (S fuel) (Send c l id) s = ((send c m g).1, r) ∧ agrees r (send c m g).2.
Proof.
  intros Hv Hwf m. destruct c as [c|].
  - exists (Ok (tt, s)). split; [|done]. cbn [run_alone]. by rewrite (bind_step _ _ _ _ _ _ (eq_refl : tstep (Send (Some c) l id) s = _)), alone_done.
  - exists (Err NullDeref). split; [by apply alone_fault|done].
Qed.

Lemma get_alone c ty fuel s :
  swf s → (6 ≤ fuel)%nat →
  ∃ r, run_alone fuel (GetList c ty) s = ((getTxid c ty (view s)).1, r) ∧ agrees r (getTxid c ty (view s)).2.
Proof.
  intros Hwf Hfuel. do 6 (destruct fuel as [|fuel]; [lia|]). clear Hfuel.
  set (l := default [] (s_transInfo s !! ty)).
  unfold getTxid. rewrite (bind_quiet get _ _ _ _ eq_refl). cbv zeta. cbn [view transInfo_]. fold l.
  rewrite (bind_quiet (modify _) _ _ _ _ eq_refl).
  rewrite (alone_quiet _ _ (if 1 <? Z.of_nat (length l) then RegLoad c l else ReplyLoad c l) _ (on_transInfo (<[ty := l]>) s)) by done.
  destruct (1 <? Z.of_nat (length l)).
  - rewrite !(bind_quiet (modify _) _ _ _ _ eq_refl).
    do 4 (erewrite alone_quiet by (done || reflexivity)). apply alone_reply; [|exact (swf_new_info s _ _ _ _ Hwf)].
    unfold view, set_txid, set_table, set_transInfo. cbn. by rewrite view_new_info.
  - rewrite (bind_quiet (ret _) _ _ _ _ eq_refl), (bind_quiet (modify _) _ _ _ _ eq_refl).
    do 2 (erewrite alone_quiet by (done || reflexivity)). by apply alone_reply.
Qed.

(** Writing to the object of one id. *)
Lemma view_store s tx a i :
  swf s → s_table s !! tx = Some (Some a) →
  deref (<[a := Some i]> (s_heap s)) <$> s_table s = <[tx := Some i]> (deref (s_heap s) <$> s_table s).
Proof.
  intros [Hlive Hinj] Htx. apply map_eq. intros k. rewrite lookup_fmap. destruct (decide (k = tx)) as [->|Hne].
  - rewrite Htx, lookup_insert_eq. destruct (Hlive _ _ Htx) as [j Hj%lookup_lt_Some]. cbn. by rewrite list_lookup_insert_eq.
  - rewrite lookup_insert_ne, lookup_fmap by done. destruct (s_table s !! k) as [[b|]|] eqn:Hk; [|done..].
    cbn. rewrite list_lookup_insert_ne; [done|]. intros <-. by eapply Hne, Hinj.
Qed.

Lemma swf_store s a i : swf s → swf (on_heap (<[a := Some i]>) s).
Proof.
  intros [Hlive Hinj]. split; [|done]. intros k b Hk. cbn. destruct (Hlive _ _ Hk) as [j Hj].
  destruct (decide (a = b)) as [->|]; [|rewrite list_lookup_insert_ne by done; eauto].
  rewrite list_lookup_insert_eq by (by eapply lookup_lt_Some). eauto.
Qed.

(** Dropping an id and its object. *)
Lemma view_drop s tx a :
  swf s → s_table s !! tx = Some (Some a) →
  deref (<[a := None]> (s_heap s)) <$> delete tx (s_table s) = delete tx (deref (s_heap s) <$> s_table s).
Proof.
  intros [Hlive Hinj] Htx. apply map_eq. intros k. rewrite lookup_fmap. destruct (decide (k = tx)) as [->|Hne].
  - by rewrite !lookup_delete_eq.
  - rewrite !lookup_delete_ne, lookup_fmap by done. destruct (s_table s !! k) as [[b|]|] eqn:Hk; [|done..].
    cbn. rewrite list_lookup_insert_ne; [done|]. intros <-. by eapply Hne, Hinj.
Qed.

Lemma swf_drop s tx a :
  swf s → s_table s !! tx = Some (Some a) → swf (on_heap (<[a := None]>) (on_table (delete tx) s)).
Proof.
  intros [Hlive Hinj] Htx. split; cbn.
  - intros k b [Hne Hk]%lookup_delete_Some. rewrite list_lookup_insert_ne; [by eauto|]. intros <-. by eapply Hne, Hinj.
  - intros k k' b [_ Hk]%lookup_delete_Some [_ Hk']%lookup_delete_Some. eauto.
Qed.

Lemma load_info_ok a i s : s_heap s !! a = Some (Some i) → load_info (Some a) s = ([], Ok (i, s)).
Proof. intros Ha. unfold load_info. rewrite (bind_quiet get _ _ _ _ eq_refl). by rewrite Ha. Qed.

Lemma store_info_ok a i f s :
  s_heap s !! a = Some (Some i) → store_info (Some a) f s = ([], Ok (tt, on_heap (<[a := Some (f i)]>) s)).
Proof. intros Ha. unfold store_info. by rewrite (bind_quiet _ _ _ _ _ (load_info_ok a i s Ha)). Qed.

(** Sending does not look at the state. *)
Lemma sends_parallel {S T} cs m (s : S) (t : T) :
  ∃ es (sent : bool), for_each cs (λ c, send c m) s = (es, if sent then Ok (tt, s) else Err NullDeref) ∧
          for_each cs (λ c, send c m) t = (es, if sent then Ok (tt, t) else Err NullDeref).
Proof.
  induction cs as [|[c|] cs (es & r & H1 & H2)]; [by exists [], true| |by exists [], false].
  exists (ESend c m :: es), r. cbn [for_each]. split.
  - by rewrite (bind_step (send (Some c) m) _ s [ESend c m] tt s eq_refl), H1.
  - by rewrite (bind_step (send (Some c) m) _ t [ESend c m] tt t eq_refl), H2.
Qed.

Lemma loop_alone tx a i s fuel k :
  s_heap s !! a = Some (Some i) → (length (drop k (connList_ i)) + 3 ≤ fuel)%nat →
  run_alone fuel (Loop tx (Some a) k) s =
    (for_each (drop k (connList_ i)) (λ c, send c (Msg_DbtmMsg (mkDbtmMsg kJudgeConflit tx (isConflict i) 0))) ;;;
     modify (λ s, on_heap (<[a := None]>) (on_table (delete tx) s))) s.
Proof.
  intros Ha. remember (drop k (connList_ i)) as l eqn:Hl. revert k fuel Hl.
  induction l as [|c l IH]; intros k fuel Hl Hfuel; (destruct fuel as [|fuel]; [cbn in Hfuel; lia|]).
  - assert (connList_ i !! k = None) as Hk by (apply lookup_ge_None; pose proof (length_drop (connList_ i) k); rewrite <- Hl in *; cbn in *; lia).
    cbn [for_each]. rewrite (bind_quiet (ret tt) _ _ _ _ eq_refl). cbn in Hfuel. do 2 (destruct fuel as [|fuel]; [lia|]).
    rewrite (alone_quiet _ _ (Erase tx (Some a)) _ s); [|done|cbn; by rewrite (bind_quiet _ _ _ _ _ (load_info_ok _ _ _ Ha)), Hk].
    rewrite (alone_quiet _ _ (Delete (Some a)) _ (on_table (delete tx) s)) by done.
    rewrite (alone_quiet _ _ Done _ (on_heap (<[a := None]>) (on_table (delete tx) s))); [by rewrite alone_done|done|].
    cbn. by rewrite (bind_quiet _ _ _ _ _ (load_info_ok a i (on_table (delete tx) s) Ha)).
  - assert (connList_ i !! k = Some c) as Hk.
    { rewrite <- (Nat.add_0_r k), <- lookup_drop, <- Hl. done. }
    assert (l = drop (S k) (connList_ i)) as Hl'.
    { rewrite (drop_S _ _ _ Hk) in Hl. by injection Hl. }
    cbn in Hfuel. cbn [for_each]. rewrite bind_assoc.
    specialize (IH (S k) fuel Hl' ltac:(lia)). cbn [run_alone tstep judgeConflict_step].
    rewrite bind_assoc, (bind_quiet _ _ _ _ _ (load_info_ok _ _ _ Ha)), Hk, bind_assoc. destruct c as [c|]; [|done].
    rewrite !(bind_step (send (Some c) _) _ s _ tt s eq_refl). cbn beta. by rewrite bind_ret_l, IH.
Qed.

(** A vote for an id that has no object. *)
Lemma vote_alone_null c d fuel s :
  mjoin (s_table s !! GtmMsg_txid d) = None →
  run_alone (S (S fuel)) (Find c d) s = ([], Err NullDeref) ∧ judgeConflict c d (view s) = ([], Err NullDeref).
Proof.
  intros Hnull. split.
  - destruct (subscript None (GtmMsg_txid d) (s_table s)) as [p tbl] eqn:Hsub.
    assert (p = None) as ->.
    { pose proof (subscript_fst None (GtmMsg_txid d) (s_table s)) as Hp. rewrite Hsub in Hp. cbn in Hp. rewrite Hp.
      by destruct (s_table s !! _) as [[]|]. }
    rewrite (alone_quiet _ _ (Append c d None) _ (on_table (λ _, tbl) s)).
    + apply alone_fault; done.
    + done.
    + cbn [tstep judgeConflict_step]. rewrite (bind_quiet get _ _ _ _ eq_refl), Hsub. done.
  - unfold judgeConflict. rewrite (bind_quiet get _ _ _ _ eq_refl).
    destruct (subscript None (GtmMsg_txid d) (table_ (view s))) as [p tbl] eqn:Hsub.
    rewrite (bind_quiet (modify _) _ _ _ _ eq_refl). assert (p = None) as ->; [|done].
    pose proof (subscript_fst None (GtmMsg_txid d) (table_ (view s))) as Hp. rewrite Hsub in Hp. cbn in Hp. rewrite Hp, lookup_fmap.
    by destruct (s_table s !! _) as [[]|].
Qed.

(** A vote up to the test of the counter. *)
Definition voted_info (c : TcpConnectionPtr) (d : GtmMsg) (i : txidInfo) : txidInfo :=
  mktxidInfo (int32 (serverNum i - 1)) (connList_ i ++ [c]) (isConflict i || GtmMsg_isLocalConflict d).

Lemma vote_alone_count c d fuel s a i :
  s_table s !! GtmMsg_txid d = Some (Some a) → s_heap s !! a = Some (Some i) →
  run_alone (6 + fuel) (Find c d) s =
  run_alone fuel (if serverNum (voted_info c d i) =? 0 then Loop (GtmMsg_txid d) (Some a) 0 else Done)
    (on_heap (<[a := Some (voted_info c d i)]>) s).
Proof.
  intros Htx Ha. pose proof (lookup_lt_Some _ _ _ Ha) as Hlt.
  assert (∀ j, s_heap (on_heap (<[a := Some j]>) s) !! a = Some (Some j)) as Hin
    by (intros; cbn; by rewrite list_lookup_insert_eq).
  assert (∀ j j', on_heap (<[a := Some j']>) (on_heap (<[a := Some j]>) s) = on_heap (<[a := Some j']>) s) as Hcomp
    by (intros; unfold on_heap; cbn; by rewrite list_insert_insert_eq).
  set (i1 := set_connList (λ l, l ++ [c]) i). set (i2 := set_isConflict (isConflict i || GtmMsg_isLocalConflict d) i1).
  cbn [Nat.add].
  rewrite (alone_quiet _ _ (Append c d (Some a)) _ s); [|done|].
  2: { cbn [tstep judgeConflict_step]. rewrite (bind_quiet get _ _ _ _ eq_refl). rewrite (subscript_some _ _ _ _ Htx). by destruct s. }
  rewrite (alone_quiet _ _ (OrLoad d (Some a)) _ (on_heap (<[a := Some i1]>) s)); [|done|].
  2: { cbn [tstep judgeConflict_step]. by rewrite (bind_quiet _ _ _ _ _ (store_info_ok _ _ _ _ Ha)). }
  rewrite (alone_quiet _ _ (OrStore d (Some a) (isConflict i)) _ (on_heap (<[a := Some i1]>) s)); [|done|].
  2: { cbn [tstep judgeConflict_step]. by rewrite (bind_quiet _ _ _ _ _ (load_info_ok _ _ _ (Hin i1))). }
  rewrite (alone_quiet _ _ (DecLoad (GtmMsg_txid d) (Some a)) _ (on_heap (<[a := Some i2]>) s)); [|done|].
  2: { cbn [tstep judgeConflict_step]. by rewrite (bind_quiet _ _ _ _ _ (store_info_ok _ _ _ _ (Hin i1))), Hcomp. }
  rewrite (alone_quiet _ _ (DecStore (GtmMsg_txid d) (Some a) (int32 (serverNum i - 1))) _ (on_heap (<[a := Some i2]>) s)); [|done|].
  2: { cbn [tstep judgeConflict_step]. by rewrite (bind_quiet _ _ _ _ _ (load_info_ok _ _ _ (Hin i2))). }
  erewrite alone_quiet; [|done|cbn [tstep judgeConflict_step]; rewrite (bind_quiet _ _ _ _ _ (store_info_ok _ _ _ _ (Hin i2))), Hcomp; reflexivity].
  done.
Qed.

Lemma vote_alone c d fuel s :
  swf s → (cost (TVote c d) s ≤ fuel)%nat →
  ∃ r, run_alone fuel (Find c d) s = ((judgeConflict c d (view s)).1, r) ∧ agrees r (judgeConflict c d (view s)).2.
Proof.
  intros Hwf Hfuel. pose proof Hwf as [Hlive _].
  destruct (mjoin (s_table s !! GtmMsg_txid d)) as [a|] eqn:Htx; cycle 1.
  { do 2 (destruct fuel as [|fuel]; [cbn in Hfuel; lia|]). destruct (vote_alone_null c d fuel s Htx) as [-> ->].
    by exists (Err NullDeref). }
  assert (s_table s !! GtmMsg_txid d = Some (Some a)) as Ht by (destruct (s_table s !! _) as [[]|]; naive_solver).
  destruct (Hlive _ _ Ht) as [i Ha]. unfold cost in Hfuel. rewrite Ht in Hfuel. cbn in Hfuel. rewrite Ha in Hfuel. cbn in Hfuel.
  replace fuel with (6 + (fuel - 6))%nat by lia. rewrite (vote_alone_count c d _ s a i Ht Ha).
  unfold judgeConflict. rewrite (bind_quiet get _ _ _ _ eq_refl).
  rewrite (subscript_some _ (Some i)) by (cbn; by rewrite lookup_fmap, Ht; cbn; rewrite Ha).
  rewrite !(bind_quiet (modify _) _ _ _ _ eq_refl). fold (voted_info c d i). set (i' := voted_info c d i).
  set (s1 := on_heap (<[a := Some i']>) s).
  assert (view s1 = set_table (<[GtmMsg_txid d := Some i']>) (view s)) as Hv
    by (unfold view, set_table; cbn; by rewrite (view_store s (GtmMsg_txid d))).
  assert (swf s1) as Hwf1 by (by apply swf_store).
  assert (s_heap s1 !! a = Some (Some i')) as Ha1 by (cbn; apply list_lookup_insert_eq; by eapply lookup_lt_Some).
  change (set_table _ (set_table _ (view s))) with (set_table (<[GtmMsg_txid d := Some i']>) (view s)). rewrite <- Hv.
  destruct (serverNum i' =? 0); [|rewrite alone_done; by exists (Ok (tt, s1))].
  rewrite (loop_alone _ a i') by (done || (rewrite drop_0; unfold i', voted_info; cbn [connList_]; rewrite length_app; cbn [length]; lia)). rewrite drop_0.
  destruct (sends_parallel (connList_ i') (Msg_DbtmMsg (mkDbtmMsg kJudgeConflit (GtmMsg_txid d) (isConflict i') 0)) s1 (view s1))
    as (es & [|] & H1 & H2).
  - rewrite (bind_step _ _ _ _ _ _ H1), (bind_step _ _ _ _ _ _ H2). eexists. split; [done|]. cbn. split; [|by apply swf_drop].
    unfold view, set_table. cbn. by rewrite (view_drop s1).
  - rewrite (bind_fault _ _ _ _ _ H1), (bind_fault _ _ _ _ _ H2). by exists (Err NullDeref).
Qed.

Lemma task_alone t fuel s :
  swf s → (cost t s ≤ fuel)%nat →
  ∃ r, run_alone fuel (start t) s = ((handle t (view s)).1, r) ∧ agrees r (handle t (view s)).2.
Proof. destruct t; [apply get_alone|apply vote_alone]. Qed.

(** ** One thread *)

Definition idle (s : shared) (qs : list (list task)) : machine := mkmachine s (pair Done <$> qs).

(** Thread 0 of a process with no other, for at most [n] turns. *)
Fixpoint drive (n : nat) (p : pc) (q : list task) : prog shared event unit :=
  match n with
  | O => throw OutOfFuel
  | S n =>
      match p, q with
      | Done, [] => ret tt
      | Done, t :: q => drive n (start t) q
      | p, q => let* p' := tstep p in drive n p' q
      end
  end.

#[local] Instance pc_done_dec p : Decision (p = Done).
Proof. destruct p; first [by left|by right]. Defined.

Lemma drive_access n p q : p ≠ Done → drive (S n) p q = (let* p' := tstep p in drive n p' q).
Proof. by destruct p. Qed.

(** A thread runs its handler to the end and goes on with its queue. *)
Lemma drive_alone fuel p q s es r :
  run_alone fuel p s = (es, r) → r ≠ Err OutOfFuel →
  ∃ k, ∀ n, drive (k + n) p q s =
    match r with Ok (_, s') => (es ++ (drive n Done q s').1, (drive n Done q s').2) | Err f => (es, Err f) end.
Proof.
  revert p s es r. induction fuel as [|fuel IH]; intros p s es r Hrun Hr; (destruct (decide (p = Done)) as [->|Hp]).
  1, 3: rewrite alone_done in Hrun; injection Hrun as <- <-; exists 0%nat; intros n; cbn; by destruct (drive n Done q s).
  - destruct p; try done; cbn in Hrun; by injection Hrun as <- <-.
  - destruct (tstep p s) as [es1 [[p' s']|f]] eqn:Hs.
    + assert (run_alone (S fuel) p s = (es1 ++ (run_alone fuel p' s').1, (run_alone fuel p' s').2)) as Hstep.
      { destruct p; try done; cbn [run_alone]; by rewrite (bind_step _ _ _ _ _ _ Hs). }
      destruct (run_alone fuel p' s') as [es2 r2] eqn:Hrest. rewrite Hstep in Hrun. injection Hrun as <- ->.
      destruct (IH _ _ _ _ Hrest Hr) as [k Hk]. exists (S k). intros n. cbn [Nat.add]. rewrite drive_access by done.
      rewrite (bind_step _ _ _ _ _ _ Hs), Hk. cbn. destruct r as [[? s2]|f]; cbn; by rewrite ?app_assoc.
    + rewrite (alone_fault _ _ _ _ _ Hp Hs) in Hrun. injection Hrun as <- <-. exists 1%nat. intros n. cbn [Nat.add].
      rewrite drive_access by done. by rewrite (bind_fault _ _ _ _ _ Hs).
Qed.

(** The only fault of a handler. *)
Lemma handle_fault t g es f : handle t g = (es, Err f) → f = NullDeref.
Proof.
  destruct t as [c ty|c d]; cbn [handle].
  - destruct c as [c|]; [by rewrite getTxid_spec|]. unfold getTxid. rewrite (bind_quiet get _ _ _ _ eq_refl).
    rewrite (bind_quiet (modify _) _ _ _ _ eq_refl). cbv zeta. destruct (1 <? _); rewrite !(bind_quiet _ _ _ _ _ eq_refl); by intros [= _ <-].
  - unfold judgeConflict. rewrite (bind_quiet get _ _ _ _ eq_refl).
    destruct (subscript _ _ _) as [[i|] tbl]; rewrite (bind_quiet (modify _) _ _ _ _ eq_refl); [|by intros [= _ <-]].
    rewrite (bind_quiet (modify _) _ _ _ _ eq_refl). destruct (_ =? 0); [|done].
    match goal with |- context [for_each ?cs (λ c, send c ?m)] =>
      match goal with |- context [bind _ _ ?g0] => destruct (sends_parallel cs m g0 g0) as (es' & [|] & H1 & _) end end.
    + by rewrite (bind_step _ _ _ _ _ _ H1).
    + rewrite (bind_fault _ _ _ _ _ H1). by intros [= _ <-].
Qed.

(** With enough turns one thread emits what the sequential handlers emit. *)
Lemma drive_handles q s :
  swf s → ∃ k, ∀ n, (k ≤ n)%nat → ∃ r,
    drive n Done q s = ((for_each q handle (view s)).1, r) ∧ agrees r (for_each q handle (view s)).2.
Proof.
  revert s. induction q as [|t q IH]; intros s Hwf.
  { exists 1%nat. intros [|n] Hn; [lia|]. by exists (Ok (tt, s)). }
  destruct (task_alone t (cost t s) s Hwf ltac:(lia)) as (r & Hrun & Hag).
  destruct (handle t (view s)) as [es r'] eqn:Hh. cbn [fst snd] in Hrun, Hag.
  assert (r ≠ Err OutOfFuel) as Hr.
  { intros ->. destruct r' as [|f]; [done|]. cbn in Hag. subst f. by apply handle_fault in Hh. }
  destruct (drive_alone _ _ q _ _ _ Hrun Hr) as [k Hk]. cbn [for_each].
  destruct r as [[[] s']|f], r' as [[[] g]|f']; try done.
  - destruct Hag as [<- Hwf']. destruct (IH s' Hwf') as [k' Hk']. exists (S (k + k')). intros n Hn.
    destruct n as [|n]; [lia|]. destruct (Hk' (n - k)%nat ltac:(lia)) as (r & Hd & Hag).
    exists r. cbn [drive]. replace n with (k + (n - k))%nat by lia. rewrite Hk, Hd.
    by rewrite (bind_step _ _ _ _ _ _ Hh).
  - cbn in Hag. subst f'. exists (S k). intros n Hn. destruct n as [|n]; [lia|]. exists (Err f). cbn [drive].
    replace n with (k + (n - k))%nat by lia. rewrite Hk. by rewrite (bind_fault _ _ _ _ _ Hh).
Qed.

(** A reachable state of a process with one thread is on the way of [drive]. *)
Lemma drive_reach s q es m :
  msteps (idle s [q]) es m → ∃ p q' k, m_threads m = [(p, q')] ∧
    ∀ n, drive (k + n) Done q s = (es ++ (drive n p q' (m_shared m)).1, (drive n p q' (m_shared m)).2).
Proof.
  intros Hsteps. remember (idle s [q]) as m0 eqn:Hm0. induction Hsteps as [m0|m0 es m1 es' m2 Hsteps IH Hstep]; subst m0.
  { exists Done, q, 0%nat. split; [done|]. intros n. cbn. by destruct (drive n Done q s). }
  destruct IH as (p & q' & k & Hth & Hk); [done|].
  destruct Hstep as [s1 ths i p1 q1 es1 p' s' Hi Hp Hs|s1 ths i t q1 Hi]; cbn in Hth; subst ths;
    (destruct i; [|done]); injection Hi as -> ->.
  - exists p', q1, (S k). split; [done|]. intros n. replace (S k + n)%nat with (k + S n)%nat by lia.
    rewrite Hk. cbn [m_shared]. rewrite drive_access by done. rewrite (bind_step _ _ _ _ _ _ Hs). cbn. by rewrite app_assoc.
  - exists (start t), q1, (S k). split; [done|]. intros n. replace (S k + n)%nat with (k + S n)%nat by lia.
    rewrite Hk. cbn. by rewrite app_nil_r.
Qed.

Lemma drive_msteps n p q s es es0 m0 s' :
  msteps m0 es0 (mkmachine s [(p, q)]) → drive n p q s = (es, Ok (tt, s')) →
  msteps m0 (es0 ++ es) (mkmachine s' [(Done, [])]).
Proof.
  revert p q s es es0. induction n as [|n IH]; intros p q s es es0 Hm Hd; [done|].
  destruct (decide (p = Done)) as [->|Hp].
  - destruct q as [|t q]; cbn in Hd.
    + injection Hd as <- <-. by rewrite app_nil_r.
    + eapply IH; [|done]. rewrite <- (app_nil_r es0). eapply msteps_snoc; [done|].
      by apply (step_next s [(Done, t :: q)] 0 t q).
  - rewrite drive_access in Hd by done. apply bind_ok in Hd as (p' & s1 & es1 & es2 & Hs & Hd & ->).
    rewrite app_assoc. eapply IH; [|done]. eapply msteps_snoc; [done|]. by apply (step_access s [(p, q)] 0 p q).
Qed.

(** (C23) A GTM with one I/O thread refines the sequential one: whatever
    messages wait, at any moment the process has sent a prefix of what the
    handlers of Gtm.v send when they run one after the other; when it has
    nothing left to do it has sent all of it and its memory stands for their
    state; and it gets there exactly when no handler faults. *)
Theorem gtm_one_thread s q :
  swf s →
  let '(es, r) := for_each q handle (view s) in
  (∀ es' m, msteps (idle s [q]) es' m →
    es' `prefix_of` es ∧ (m_threads m = [(Done, [])] → es' = es ∧ r = Ok (tt, view (m_shared m)))) ∧
  (∀ g, r = Ok (tt, g) ↔ ∃ s', msteps (idle s [q]) es (mkmachine s' [(Done, [])]) ∧ view s' = g).
Proof.
  intros Hwf. destruct (for_each q handle (view s)) as [es r] eqn:Hseq.
  destruct (drive_handles q s Hwf) as [k0 Hk0]. rewrite Hseq in Hk0. cbn [fst snd] in Hk0.
  assert (∀ es' m, msteps (idle s [q]) es' m →
    es' `prefix_of` es ∧ (m_threads m = [(Done, [])] → es' = es ∧ r = Ok (tt, view (m_shared m)))) as Hreach.
  { intros es' m Hm. destruct (drive_reach _ _ _ _ Hm) as (p & q' & k & Hth & Hk).
    destruct (Hk0 (k + S k0)%nat ltac:(lia)) as (r' & Hd & Hag). rewrite Hk in Hd. injection Hd as Hes Hr. split.
    - by exists (drive (S k0) p q' (m_shared m)).1.
    - rewrite Hth. intros [= -> ->]. cbn in Hes, Hr. rewrite app_nil_r in Hes. subst r'. split; [done|].
      destruct r as [[[] g]|]; [|done]. by destruct Hag as [-> _]. }
  split; [done|]. intros g. split.
  - intros ->. destruct (Hk0 k0 ltac:(lia)) as ([[[] s']|f] & Hd & Hag); [|done]. destruct Hag as [Hv _]. exists s'. split; [|done].
    apply (drive_msteps k0 Done q s es [] _ s'); [constructor|done].
  - intros (s' & Hm & <-). by apply Hreach in Hm as [_ [_ ->]].
Qed.

(** ** Several threads: ids *)

(** A thread that has yet to increase [txid_], one that has yet to reply, and
    the ids it holds. *)
Definition wants (p : pc) : nat :=
  match p with GetList _ _ | RegLoad _ _ | RegStore _ _ _ | ReplyLoad _ _ | Incr _ _ _ => 1 | _ => 0 end.
Definition owes (p : pc) : nat := match p with Send _ _ _ => 1 | p => wants p end.
Definition held (p : pc) : list Z :=
  match p with RegStore _ _ id | Incr _ _ id | Send _ _ id => [id] | _ => [] end.

Definition requests (q : list task) : nat := sum_list_with (λ t, match t with TGet _ _ => 1 | TVote _ _ => 0 end)%nat q.

Definition total (f : pc → nat) (ths : list (pc * list task)) : nat :=
  sum_list_with (λ th, f th.1 + requests th.2)%nat ths.

(** Accesses through [info] leave the other members alone. *)
Lemma load_info_inv p s es i s' : load_info p s = (es, Ok (i, s')) → es = [] ∧ s' = s.
Proof. unfold load_info. intros H. bind_inv. destruct p as [a|]; [|done]. by destruct (s_heap s !! a) as [[]|]; bind_inv. Qed.

Lemma store_info_inv p f s es u s' :
  store_info p f s = (es, Ok (u, s')) → es = [] ∧ s_txid s' = s_txid s ∧ s_table s' = s_table s.
Proof. unfold store_info. intros H. bind_inv. apply load_info_inv in Hm as [-> ->]. by destruct p; bind_inv. Qed.

Ltac info_inv :=
  repeat match goal with
  | H : load_info _ _ = (_, Ok _) |- _ => apply load_info_inv in H as [-> ->]
  | H : store_info _ _ _ = (_, Ok _) |- _ => apply store_info_inv in H as (-> & ? & ?)
  end.

(** What one access can do to the ids. *)
Definition id_effect (p : pc) (s : shared) (es : list event) (p' : pc) (s' : shared) : Prop :=
  (wants p' ≤ wants p)%nat ∧
  s_txid s' = (if (wants p' <? wants p)%nat then int32 (s_txid s + 1) else s_txid s) ∧
  (∀ id, id ∈ held p' → id ∈ held p ∨ id = s_txid s ∧ wants p = 1%nat) ∧
  (∀ id, id ∈ txids_of es → id ∈ held p) ∧
  (length (txids_of es) + owes p' = owes p)%nat ∧
  (∀ tx a, s_table s' !! tx = Some (Some a) → s_table s !! tx = Some (Some a) ∨ tx ∈ held p).

Lemma getTxid_step_ids p s es p' s' :
  wants p = 1%nat ∨ owes p = 1%nat → getTxid_step p s = (es, Ok (p', s')) → id_effect p s es p' s'.
Proof.
  intros Hp. destruct p; try (cbn in Hp; lia); cbn [getTxid_step]; intros Hs; unfold new_info in Hs.
  6: destruct conn; [cbn [send] in Hs|done].
  all: bind_inv; repeat case_match; repeat (split; [cbn; first [done|lia|set_solver]|]); try (cbn; set_solver).
  cbn. intros tx a [[-> _]|[_ Hk]]%lookup_insert_Some; set_solver.
Qed.

Lemma id_effect_quiet p s es p' s' :
  owes p = 0%nat → owes p' = 0%nat → held p' = [] → txids_of es = [] → s_txid s' = s_txid s →
  (∀ tx a, s_table s' !! tx = Some (Some a) → s_table s !! tx = Some (Some a)) → id_effect p s es p' s'.
Proof.
  intros Hp Hp' Hh Hes Htx Htbl. assert (wants p = 0 ∧ wants p' = 0)%nat as [Hw Hw'] by (by destruct p, p').
  unfold id_effect. rewrite Hp, Hp', Hh, Hes, Htx, Hw, Hw'. split_and!; try done; set_solver.
Qed.

Lemma judgeConflict_step_ids p s es p' s' :
  owes p = 0%nat → judgeConflict_step p s = (es, Ok (p', s')) → id_effect p s es p' s'.
Proof.
  intros Hp. destruct p; try done; cbn [judgeConflict_step]; intros Hs.
  2: { bind_inv. destruct (subscript _ _ _) as [info tbl] eqn:Hsub. bind_inv. apply id_effect_quiet; try done. cbn.
    unfold subscript in Hsub. destruct (s_table s !! GtmMsg_txid data) eqn:Hl; injection Hsub as <- <-; [done|].
    by intros tx a [[_ [=]]|[_ ?]]%lookup_insert_Some. }
  7: { apply bind_ok in Hs as (o & s1 & es1 & es2 & Ho & Hs & ->). info_inv.
    destruct (connList_ o !! i) as [[c|]|]; [cbn [send] in Hs|done|]; bind_inv; by apply id_effect_quiet. }
  all: bind_inv; info_inv; try (destruct info; [|done]); bind_inv; repeat case_match.
  all: apply id_effect_quiet; try done; cbn; try congruence.
  by intros tx a [_ ?]%lookup_delete_Some.
Qed.

Lemma tstep_ids p s es p' s' : p ≠ Done → tstep p s = (es, Ok (p', s')) → id_effect p s es p' s'.
Proof.
  intros Hp Hs. destruct p; try done; first [by apply judgeConflict_step_ids | apply getTxid_step_ids; [cbn; auto|done]].
Qed.

(** The id that the [j]-th of [n] requests would get from a sequential GTM. *)
Definition id_of (x : Z) (n : nat) (id : Z) : Prop := ∃ j : nat, (j < n)%nat ∧ id = int32 (x + Z.of_nat j).

(** After [k] increments out of [n] requests. *)
Record ids_inv (x : Z) (n : nat) (tbl : gmap Z (option nat)) (es : list event) (m : machine) : Prop := {
  inv_count : ∃ k, s_txid (m_shared m) = int32 (x + Z.of_nat k) ∧ (k + total wants (m_threads m) = n)%nat;
  inv_held : ∀ i p q id, m_threads m !! i = Some (p, q) → id ∈ held p → id_of x n id;
  inv_sent : ∀ id, id ∈ txids_of es → id_of x n id;
  inv_owed : (length (txids_of es) + total owes (m_threads m) = n)%nat;
  inv_table : ∀ tx a, s_table (m_shared m) !! tx = Some (Some a) → tbl !! tx = Some (Some a) ∨ id_of x n tx }.

Lemma txids_of_app es es' : txids_of (es ++ es') = txids_of es ++ txids_of es'.
Proof. apply omap_app. Qed.

Lemma ids_inv_step x n tbl es m es' m' :
  ids_inv x n tbl es m → mstep m es' m' → ids_inv x n tbl (es ++ es') m'.
Proof.
  intros [[k [Htx Hk]] Hheld Hsent Howed Htable] Hstep.
  destruct Hstep as [s ths i p q es1 p' s' Hi Hp Hs|s ths i t q Hi]; cbn [m_shared m_threads] in *.
  - destruct (tstep_ids _ _ _ _ _ Hp Hs) as (Hw & Htx' & Hh & Hes & Ho & Htbl).
    pose proof (sum_list_with_insert (λ th, wants th.1 + requests th.2)%nat ths i _ (p', q) Hi) as Hsw.
    pose proof (sum_list_with_insert (λ th, owes th.1 + requests th.2)%nat ths i _ (p', q) Hi) as Hso.
    pose proof (sum_list_with_le (λ th, wants th.1 + requests th.2)%nat ths i _ Hi) as Hle.
    unfold total in *. cbn in Hsw, Hso, Hle. split; cbn [m_shared m_threads]; unfold total.
    + destruct (Nat.ltb_spec (wants p') (wants p)).
      * exists (S k). assert (wants p = 1 ∧ wants p' = 0)%nat by (destruct p, p'; cbn in *; lia). split; [|lia].
        rewrite Htx', Htx, int32_add_l. f_equal. lia.
      * exists k. split; [congruence|lia].
    + intros i' p1 q1 id Hi' Hid. destruct (decide (i = i')) as [<-|]; [|rewrite list_lookup_insert_ne in Hi' by done; eauto].
      rewrite list_lookup_insert_eq in Hi' by (by eapply lookup_lt_Some). injection Hi' as <- <-.
      destruct (Hh id Hid) as [?|[-> Hw1]]; [by eauto|]. exists k. split; [lia|done].
    + intros id. rewrite txids_of_app, elem_of_app. intros [?|?%Hes]; eauto.
    + rewrite txids_of_app, length_app. lia.
    + intros tx a Ha. destruct (Htbl tx a Ha); eauto.
  - pose proof (sum_list_with_insert (λ th, wants th.1 + requests th.2)%nat ths i _ (start t, q) Hi) as Hsw.
    pose proof (sum_list_with_insert (λ th, owes th.1 + requests th.2)%nat ths i _ (start t, q) Hi) as Hso.
    assert (wants (start t) = requests [t] ∧ owes (start t) = requests [t] ∧ held (start t) = []) as (Hw & Ho & Hh) by (by destruct t).
    unfold total in *. cbn in Hsw, Hso, Hw, Ho. split; cbn [m_shared m_threads]; unfold total; rewrite ?app_nil_r; try done.
    + exists k. split; [done|]. lia.
    + intros i' p1 q1 id Hi' Hid. destruct (decide (i = i')) as [<-|]; [|rewrite list_lookup_insert_ne in Hi' by done; eauto].
      rewrite list_lookup_insert_eq in Hi' by (by eapply lookup_lt_Some). injection Hi' as <- <-. rewrite Hh in Hid. by apply not_elem_of_nil in Hid.
    + lia.
Qed.

Lemma ids_inv_init s qs :
  int32_ok (s_txid s) → ids_inv (s_txid s) (sum_list_with requests qs) (s_table s) [] (idle s qs).
Proof.
  intros Hok. assert (∀ f, f Done = 0%nat → total f (m_threads (idle s qs)) = sum_list_with requests qs) as Htot.
  { intros f Hf. unfold total, idle. cbn. clear Hok. induction qs as [|q qs IH]; [done|]. cbn. rewrite Hf, IH. done. }
  split; cbn [length].
  - exists 0%nat. rewrite Htot by done. split; [|done]. cbn. rewrite Z.add_0_r, int32_id by done. done.
  - intros i p q id Hi. cbn in Hi. rewrite list_lookup_fmap in Hi. destruct (qs !! i); [|done]. injection Hi as <- <-. by intros ?%not_elem_of_nil.
  - by intros id ?%not_elem_of_nil.
  - by rewrite Htot.
  - by left.
Qed.

(** (C33) Ids under any number of I/O threads and any interleaving, votes
    included: from [n] waiting requests every id that is sent or registered is
    one of the [n] ids a sequential GTM would use, one reply is sent per
    request, and when all is handled the counter stands [n] further. *)
Theorem gtm_threads_ids_bounded s qs es m :
  int32_ok (s_txid s) → msteps (idle s qs) es m →
  let n := sum_list_with requests qs in
  (∀ id, id ∈ txids_of es → id_of (s_txid s) n id) ∧
  (∀ tx a, s_table (m_shared m) !! tx = Some (Some a) → s_table s !! tx = Some (Some a) ∨ id_of (s_txid s) n tx) ∧
  (length (txids_of es) ≤ n)%nat ∧
  (Forall (λ th, th = (Done, [])) (m_threads m) →
    length (txids_of es) = n ∧ s_txid (m_shared m) = int32 (s_txid s + Z.of_nat n)).
Proof.
  intros Hok Hsteps n. assert (ids_inv (s_txid s) n (s_table s) es m) as [[k [Htx Hk]] _ Hsent Howed Htable].
  { remember (idle s qs) as m0 eqn:Hm0. induction Hsteps as [|m0 es m1 es' m2 ? IH Hstep]; subst; [by apply ids_inv_init|].
    by eapply ids_inv_step; [apply IH|]. }
  split_and!; [done|done|lia|]. intros Hdone.
  assert (∀ f, f Done = 0%nat → total f (m_threads m) = 0%nat) as Hzero.
  { intros f Hf. clear -Hdone Hf. unfold total. induction Hdone as [|th ths -> _ IH]; [done|]. cbn. rewrite Hf. done. }
  rewrite (Hzero owes) in Howed by done. rewrite (Hzero wants) in Hk by done. split; [lia|]. rewrite Htx. do 2 f_equal. lia.
Qed.

(** ** Several threads: races *)

Lemma msteps_access m0 es s pre p q post es' p' s' :
  msteps m0 es (mkmachine s (pre ++ (p, q) :: post)) → p ≠ Done → tstep p s = (es', Ok (p', s')) →
  msteps m0 (es ++ es') (mkmachine s' (pre ++ (p', q) :: post)).
Proof.
  intros Hm Hp Hs. eapply msteps_snoc; [done|].
  replace (pre ++ (p', q) :: post) with (<[length pre := (p', q)]> (pre ++ (p, q) :: post)).
  - eapply step_access; [by apply list_lookup_middle|done|done].
  - rewrite insert_app_r_alt, Nat.sub_diag by done. done.
Qed.

(** An access that sends nothing. *)
Lemma msteps_quiet m0 es s pre p q post p' s' :
  msteps m0 es (mkmachine s (pre ++ (p, q) :: post)) → p ≠ Done → tstep p s = ([], Ok (p', s')) →
  msteps m0 es (mkmachine s' (pre ++ (p', q) :: post)).
Proof. intros. rewrite <- (app_nil_r es). by eapply msteps_access. Qed.

Lemma msteps_take m0 es s pre t q post :
  msteps m0 es (mkmachine s (pre ++ (Done, t :: q) :: post)) → msteps m0 es (mkmachine s (pre ++ (start t, q) :: post)).
Proof.
  intros Hm. rewrite <- (app_nil_r es). eapply msteps_snoc; [done|].
  replace (pre ++ (start t, q) :: post) with (<[length pre := (start t, q)]> (pre ++ (Done, t :: q) :: post)).
  - eapply step_next. by apply list_lookup_middle.
  - rewrite insert_app_r_alt, Nat.sub_diag by done. done.
Qed.

Definition request (r : conn * string) : pc * list task := (Done, [TGet (Some r.1) r.2]).

(** A thread that has loaded the id [x] for its reply. *)
Definition loaded (x : Z) (r : conn * string) (th : pc * list task) : Prop :=
  ∃ l, th = (Incr (Some r.1) l x, []).

Lemma load_all m0 es s pre reqs :
  msteps m0 es (mkmachine s (pre ++ (request <$> reqs))) →
  ∃ s' ths, msteps m0 es (mkmachine s' (pre ++ ths)) ∧ s_txid s' = s_txid s ∧ Forall2 (loaded (s_txid s)) reqs ths.
Proof.
  revert s pre. induction reqs as [|[c ty] reqs IH]; intros s pre Hm; [by exists s, []|].
  rewrite fmap_cons in Hm. apply msteps_take in Hm. cbn [start fst snd] in Hm.
  eapply msteps_quiet in Hm; [|done|reflexivity]. set (l := default [] (s_transInfo s !! ty)) in Hm.
  assert (∃ s1, msteps m0 es (mkmachine s1 (pre ++ (Incr (Some c) l (s_txid s), []) :: (request <$> reqs))) ∧ s_txid s1 = s_txid s)
    as (s1 & Hm1 & Htx).
  { destruct (1 <? Z.of_nat (length l)).
    - do 3 (eapply msteps_quiet in Hm; [|done|reflexivity]). eexists. by split; [exact Hm|].
    - eapply msteps_quiet in Hm; [|done|reflexivity]. eexists. by split; [exact Hm|]. }
  rewrite (cons_middle _ pre), app_assoc in Hm1. destruct (IH s1 _ Hm1) as (s2 & ths & Hm2 & Htx2 & Hths).
  exists s2, ((Incr (Some c) l (s_txid s), []) :: ths). rewrite <- app_assoc in Hm2. split_and!; [done|congruence|].
  constructor; [by exists l|]. by rewrite <- Htx.
Qed.

Lemma send_all x m0 es s pre reqs ths :
  msteps m0 es (mkmachine s (pre ++ ths)) → Forall2 (loaded x) reqs ths → Forall (λ th, th = (Done, [])) pre →
  ∃ es' m, msteps m0 (es ++ es') m ∧ Forall (λ th, th = (Done, [])) (m_threads m) ∧ txids_of es' = replicate (length reqs) x.
Proof.
  intros Hm Hths. revert es s pre Hm. induction Hths as [|r th reqs ths [l ->] _ IH]; intros es s pre Hm Hpre.
  { exists [], (mkmachine s (pre ++ [])). rewrite app_nil_r in Hm. rewrite !app_nil_r. done. }
  eapply msteps_quiet in Hm; [|done|reflexivity]. eapply msteps_access in Hm; [|done|reflexivity].
  rewrite (cons_middle _ pre), (app_assoc pre) in Hm.
  destruct (IH _ _ _ Hm) as (es' & m & Hm' & Hdone & Hids); [by apply Forall_app; split; [|constructor]|].
  rewrite <- app_assoc in Hm'. eexists _, m. split_and!; [exact Hm'|done|]. cbn. by rewrite <- Hids.
Qed.

(** (C24) Any number of requests on different I/O threads can all be answered
    with the same id: [txid_.load()] and [txid_++] are two steps. *)
Theorem gtm_threads_same_id s reqs :
  ∃ es m, msteps (idle s ((λ r, [TGet (Some r.1) r.2]) <$> reqs)) es m ∧
    Forall (λ th, th = (Done, [])) (m_threads m) ∧ txids_of es = replicate (length reqs) (s_txid s).
Proof.
  destruct (load_all (idle s ((λ r, [TGet (Some r.1) r.2]) <$> reqs)) [] s [] reqs) as (s' & ths & Hm & Htx & Hths).
  { unfold idle. rewrite <- list_fmap_compose. constructor. }
  destruct (send_all _ _ _ _ _ _ _ Hm Hths) as (es & m & Hm' & Hdone & Hids); [done|]. by exists es, m.
Qed.

(** The steps of a vote on one object, while it is counted. *)
Definition vote_local (p : pc) (i : txidInfo) : option (pc * txidInfo) :=
  match p with
  | Append conn data info => Some (OrLoad data info, set_connList (λ l, l ++ [conn]) i)
  | OrLoad data info => Some (OrStore data info (isConflict i), i)
  | OrStore data info b => Some (DecLoad (GtmMsg_txid data) info, set_isConflict (b || GtmMsg_isLocalConflict data) i)
  | DecLoad txid info => Some (DecStore txid info (int32 (serverNum i - 1)), i)
  | DecStore txid info n => Some (if n =? 0 then Loop txid info 0 else Done, set_serverNum n i)
  | _ => None
  end.
Definition vote_addr (p : pc) : option nat :=
  match p with
  | Append _ _ info | OrLoad _ info | OrStore _ info _ | DecLoad _ info | DecStore _ info _ => info
  | _ => None
  end.

Section one_object.
Context (s : shared) (a : nat) (i0 : txidInfo) (Ha : s_heap s !! a = Some (Some i0)).

Definition with_object (i : txidInfo) : shared := on_heap (<[a := Some i]>) s.

Lemma with_object_lookup i : s_heap (with_object i) !! a = Some (Some i).
Proof. cbn. apply list_lookup_insert_eq. by eapply lookup_lt_Some. Qed.

Lemma with_object_twice i j : on_heap (<[a := Some j]>) (with_object i) = with_object j.
Proof. unfold with_object, on_heap. cbn. by rewrite list_insert_insert_eq. Qed.

Lemma with_object_id : with_object i0 = s.
Proof. unfold with_object, on_heap. rewrite list_insert_id by done. by destruct s. Qed.

Lemma vote_local_step p i p' i' :
  vote_addr p = Some a → vote_local p i = Some (p', i') → tstep p (with_object i) = ([], Ok (p', with_object i')).
Proof.
  intros Hp Hl. destruct p; try done; cbn in Hp; subst info; injection Hl as <- <-; cbn [tstep judgeConflict_step].
  1, 3, 5: by rewrite (bind_quiet _ _ _ _ _ (store_info_ok _ _ _ _ (with_object_lookup i))), with_object_twice.
  all: by rewrite (bind_quiet _ _ _ _ _ (load_info_ok _ _ _ (with_object_lookup i))).
Qed.

Lemma vote_find c d i :
  s_table s !! GtmMsg_txid d = Some (Some a) →
  tstep (Find c d) (with_object i) = ([], Ok (Append c d (Some a), with_object i)).
Proof.
  intros Ht. cbn [tstep judgeConflict_step]. rewrite (bind_quiet get _ _ _ _ eq_refl).
  rewrite (subscript_some _ (Some a)) by done. done.
Qed.

(** One turn of a thread that counts a vote. *)
Lemma vote_turn m0 es pre p q post i p' i' :
  msteps m0 es (mkmachine (with_object i) (pre ++ (p, q) :: post)) →
  vote_addr p = Some a → vote_local p i = Some (p', i') →
  msteps m0 es (mkmachine (with_object i') (pre ++ (p', q) :: post)).
Proof. intros Hm Hp Hl. eapply msteps_quiet; [done|by destruct p|by apply vote_local_step]. Qed.

(** The thread that counted the last vote tells the connections. *)
Lemma loop_turns m0 es pre q post i tx k cs :
  msteps m0 es (mkmachine (with_object i) (pre ++ (Loop tx (Some a) k, q) :: post)) →
  drop k (connList_ i) = Some <$> cs →
  ∃ s', msteps m0 (es ++ ((λ c, ESend c (Msg_DbtmMsg (mkDbtmMsg kJudgeConflit tx (isConflict i) 0))) <$> cs))
    (mkmachine s' (pre ++ (Done, q) :: post)).
Proof.
  revert es k. induction cs as [|c cs IH]; intros es k Hm Hcs.
  - assert (connList_ i !! k = None) as Hk.
    { apply lookup_ge_None. pose proof (length_drop (connList_ i) k) as Hl. rewrite Hcs in Hl. cbn in Hl. lia. }
    pose proof (load_info_ok _ _ _ (with_object_lookup i)) as Hload.
    eapply msteps_quiet in Hm; [|done|cbn [tstep judgeConflict_step]; rewrite (bind_quiet _ _ _ _ _ Hload), Hk; reflexivity].
    apply (msteps_quiet _ _ _ _ _ _ _ (Delete (Some a)) (on_table (delete tx) (with_object i))) in Hm; [|done|done].
    apply (msteps_quiet _ _ _ _ _ _ _ Done (on_heap (<[a := None]>) (on_table (delete tx) (with_object i)))) in Hm; [|done|].
    2: { cbn [tstep judgeConflict_step]. unfold bind at 1. by rewrite (load_info_ok _ i) by apply with_object_lookup. }
    eexists. cbn. rewrite app_nil_r. exact Hm.
  - assert (connList_ i !! k = Some (Some c)) as Hk.
    { rewrite <- (Nat.add_0_r k), <- lookup_drop, Hcs. done. }
    pose proof (load_info_ok _ _ _ (with_object_lookup i)) as Hload.
    eapply msteps_access in Hm; [|done|cbn [tstep judgeConflict_step]; rewrite (bind_quiet _ _ _ _ _ Hload), Hk; reflexivity].
    destruct (IH _ (S k) Hm) as [s' Hs']; [rewrite (drop_S _ _ _ Hk) in Hcs; by injection Hcs|].
    exists s'. rewrite <- app_assoc in Hs'. exact Hs'.
Qed.
End one_object.

(** A turn of thread 0, of thread 1. *)
Ltac turn0 Ha Hm := eapply (vote_turn _ _ _ Ha _ _ []) in Hm; [|reflexivity|reflexivity]; cbn in Hm.
Ltac turn1 Ha Hm := eapply (vote_turn _ _ _ Ha _ _ [_]) in Hm; [|reflexivity|reflexivity]; cbn in Hm.

(** (C25) Two votes on different I/O threads: the flag and the counter are read
    and written in separate steps.  In one interleaving the vote for a conflict
    is overwritten and both services are told to commit; in another the
    counter never reaches zero and nobody is answered. *)
Theorem gtm_threads_lost_vote s tx a c1 c2 :
  s_table s !! tx = Some (Some a) → s_heap s !! a = Some (Some (txidInfo_new 2)) →
  let m0 := idle s [[TVote (Some c1) (vote_msg (mkvote tx c1 true))]; [TVote (Some c2) (vote_msg (mkvote tx c2 false))]] in
  (∃ m, msteps m0 (decision tx false <$> [mkvote tx c1 true; mkvote tx c2 false]) m ∧ m_threads m = [(Done, []); (Done, [])]) ∧
  (∃ m i, msteps m0 [] m ∧ m_threads m = [(Done, []); (Done, [])] ∧
    table_ (view (m_shared m)) !! tx = Some (Some i) ∧ serverNum i = 1 ∧ length (connList_ i) = 2%nat).
Proof.
  intros Ht Ha m0.
  assert (msteps m0 [] (mkmachine (with_object s a (txidInfo_new 2))
    [(Append (Some c1) (vote_msg (mkvote tx c1 true)) (Some a), []); (Append (Some c2) (vote_msg (mkvote tx c2 false)) (Some a), [])])) as Hm.
  { pose proof (msteps_refl m0 : msteps m0 [] (mkmachine s _)) as Hm. rewrite <- (with_object_id _ _ _ Ha) in Hm.
    apply (msteps_take _ _ _ []) in Hm. eapply (msteps_quiet _ _ _ []) in Hm; [|done|by eapply vote_find].
    apply (msteps_take _ _ _ [_]) in Hm. eapply (msteps_quiet _ _ _ [_]) in Hm; [|done|by eapply vote_find]. exact Hm. }
  split.
  - turn0 Ha Hm. turn0 Ha Hm. turn1 Ha Hm. turn1 Ha Hm. turn0 Ha Hm. turn1 Ha Hm.
    turn0 Ha Hm. turn0 Ha Hm. turn1 Ha Hm. turn1 Ha Hm.
    destruct (loop_turns _ _ _ Ha _ _ [_] _ _ _ _ _ [c1; c2] Hm eq_refl) as [s' Hs']. eexists. split; [exact Hs'|done].
  - turn0 Ha Hm. turn0 Ha Hm. turn0 Ha Hm. turn1 Ha Hm. turn1 Ha Hm. turn1 Ha Hm.
    turn0 Ha Hm. turn1 Ha Hm. turn0 Ha Hm. turn1 Ha Hm.
    eexists _, _. split; [exact Hm|]. split; [reflexivity|]. split.
    + cbn. rewrite lookup_fmap, Ht. cbn. rewrite list_lookup_insert_eq by (by eapply lookup_lt_Some). reflexivity.
    + split; reflexivity.
Qed.

(** Schedules are runs. *)
Lemma turn_mstep i m es m' : turn i m = Ok (es, m') → mstep m es m'.
Proof.
  unfold turn. destruct m as [s ths]. cbn. destruct (ths !! i) as [[p q]|] eqn:Hi; [|done].
  destruct (decide (p = Done)) as [->|Hp].
  - destruct q as [|t q]; [done|]. intros [= <- <-]. by apply step_next.
  - intros Ht. destruct (tstep p s) as [es1 [[p' s']|f]] eqn:Hs; destruct p; try done;
      injection Ht as <- <-; by eapply step_access.
Qed.

Lemma schedule_msteps turns m0 es0 m es m' :
  msteps m0 es0 m → schedule turns m = Ok (es, m') → msteps m0 (es0 ++ es) m'.
Proof.
  revert es0 m es. induction turns as [|i turns IH]; intros es0 m es Hm; cbn.
  - intros [= <- <-]. by rewrite app_nil_r.
  - destruct (turn i m) as [[es1 m1]|] eqn:Ht; [|done]. cbn. destruct (schedule turns m1) as [[es2 m2]|] eqn:Hr; [|done].
    cbn. intros [= <- <-]. rewrite app_assoc. eapply IH; [|done]. eapply msteps_snoc; [done|by eapply turn_mstep].
Qed.

(** ** Witnesses *)

Definition demo_shared : shared :=
  mkshared 5 {["t" := [mkIpandPort "a" 1; mkIpandPort "b" 2]]} {[ 4 := Some 0%nat ]} [Some (txidInfo_new 2)].

Lemma demo_shared_wf : swf demo_shared.
Proof.
  split; cbn.
  - intros tx a [<- [= <-]]%lookup_singleton_Some. eexists. reflexivity.
  - intros tx tx' a [<- _]%lookup_singleton_Some [<- _]%lookup_singleton_Some. done.
Defined.

Lemma gtm_one_thread_witness :
  ∃ es s', msteps (idle demo_shared [[TGet (Some 1%nat) "t"; TVote (Some 2%nat) (vote_msg (mkvote 4 2 true))]]) es (mkmachine s' [(Done, [])]) ∧
    txids_of es = [5].
Proof.
  pose proof (gtm_one_thread demo_shared [TGet (Some 1%nat) "t"; TVote (Some 2%nat) (vote_msg (mkvote 4 2 true))] demo_shared_wf) as H.
  cbv zeta in H. destruct (for_each _ _ _) as [es r] eqn:E. vm_compute in E. injection E as <- <-.
  destruct H as [_ H]. destruct (proj1 (H _) eq_refl) as (s' & Hs' & _). eexists _, s'. split; [exact Hs'|reflexivity].
Defined.

Lemma gtm_threads_ids_bounded_witness :
  ∃ es m, msteps (idle demo_shared [[TGet (Some 1%nat) "t"]; [TGet (Some 2%nat) "t"]]) es m ∧ txids_of es = [5; 6] ∧
    s_txid (m_shared m) = int32 (5 + 2).
Proof.
  set (m0 := idle demo_shared [[TGet (Some 1%nat) "t"]; [TGet (Some 2%nat) "t"]]).
  assert (∃ es m, schedule [0; 0; 0; 0; 0; 0; 1; 1; 1; 1; 1; 1; 0; 1]%nat m0 = Ok (es, m) ∧ txids_of es = [5; 6] ∧
    Forall (λ th, th = (Done, [])) (m_threads m)) as (es & m & Hs & Hids & Hdone)
    by (eexists _, _; split; [vm_compute; reflexivity|split; [reflexivity|repeat constructor]]).
  pose proof (schedule_msteps _ m0 [] _ _ _ (msteps_refl _) Hs) as Hm. exists es, m. split; [exact Hm|split; [exact Hids|]].
  refine (proj2 (proj2 (proj2 (proj2 (gtm_threads_ids_bounded demo_shared _ es m _ Hm))) Hdone)). split; vm_compute; congruence.
Defined.

Lemma gtm_threads_lost_vote_witness :
  ∃ m, msteps (idle demo_shared [[TVote (Some 1%nat) (vote_msg (mkvote 4 1 true))]; [TVote (Some 2%nat) (vote_msg (mkvote 4 2 false))]])
    (decision 4 false <$> [mkvote 4 1 true; mkvote 4 2 false]) m.
Proof.
  destruct (gtm_threads_lost_vote demo_shared 4 0%nat 1%nat 2%nat) as [[m [Hm _]] _]; [reflexivity|reflexivity|].
  exists m. exact Hm.
Defined.

End GtmThreads.
