(* ===== verification/App.v ===== *)
(** * The application client (src/transaction/app)

    State: the connection to the global transaction manager, the id of the
    current transaction and the connections to its entity services.
    Operations: start a transaction, add statements, commit, and the two
    message handlers.  Messages are built with the generated code; a message
    that is created the regular way is sent as the record it carries, which
    the round trip of the byte format justifies, and [startTran], which uses
    the builder out of order, runs on the builder itself. *)

From Stdlib Require Import Ascii.
From stdpp Require Import base gmap strings list.
From S2P Require Import Prelude NetMsg FlatBuilder FlatTable NetGenerated Config.

Module App.

(** [class App]; [txid_] has no initial value. *)
Record App := mkApp {
  gtmConn_ : TcpConnectionPtr; txid_ : option Z; connList_ : list TcpConnectionPtr }.

Definition App_new : App := mkApp None None [].

Definition set_gtmConn c (a : App) : App := mkApp c (txid_ a) (connList_ a).
Definition set_txid t (a : App) : App := mkApp (gtmConn_ a) (Some t) (connList_ a).
Definition add_conn c (a : App) : App := mkApp (gtmConn_ a) (txid_ a) (connList_ a ++ [c]).

Definition get_txid : prog App event Z := let* a := get in lift (of_option (txid_ a) Uninit).

(** [App::App]: the address is read through the [c_str()] of a temporary. *)
Definition App_ctor `{Stale} (cfg : Config.ConfigManager) : prog App event unit :=
  let* ip := lift (stale (Config.gtmAddress_ cfg)) in
  emit (EConnect ip (uint16 (Config.gtmPort_ cfg))).

Definition onGtmConnection (conn : TcpConnectionPtr) : prog App event unit := modify (set_gtmConn conn).
Definition onESConnection (conn : TcpConnectionPtr) : prog App event unit := modify (add_conn conn).

Definition connect2ES (data : option (list ipAndPort)) : prog App event unit :=
  let* l := lift (of_option data NullDeref) in
  for_each l (λ e,
    let* ip := lift (str (ipAndPort_ip e)) in
    emit (EConnect ip (uint16 (ipAndPort_port e)))).

(** [App::onMessage], the replies of the transaction manager *)
Definition onMessage (msg : RootMsg) : prog App event unit :=
  let* data := lift (as_AppMsg msg) in
  if AppMsg_cmd data =? kTxid then
    modify (set_txid (AppMsg_txid data)) ;;;
    connect2ES (AppMsg_list data)
  else LOG ERROR "receive error cmd".

(** ** Statements *)

Fixpoint word_length (s : string) : nat :=
  match s with
  | EmptyString => 0
  | String c s' => if Ascii.eqb c " " then 0 else S (word_length s')
  end.

Fixpoint sdrop (n : nat) (s : string) : string :=
  match n, s with
  | O, _ => s
  | S n', String _ s' => sdrop n' s'
  | S _, EmptyString => EmptyString
  end.

(** [while (pos2 < len && str\[pos2\] != ' ') pos2++], the [substr] from
    [pos1 = pos2], and [pos1 = ++pos2]: the word and the next position. *)
Definition next_word (s : string) (pos : Z) : result (string * Z) :=
  let pos2 := if pos <? strlen s then pos + Z.of_nat (word_length (sdrop (Z.to_nat pos) s)) else pos in
  let? w := substr s pos (pos2 - pos) in Ok (w, pos2 + 1).

(** The value [cmd] gets, if any. *)
Definition command_of (type : string) : option Z :=
  if String.eqb (c_string type) "add" then Some kAdd
  else if String.eqb (c_string type) "delete" then Some kDelete
  else if String.eqb (c_string type) "Change" then Some kChange
  else if String.eqb (c_string type) "Search" then Some kSearch
  else None.

(** [connList_.front()->send(...)] *)
Definition send_front (m : RootMsg) : prog App event unit :=
  let* a := get in
  match connList_ a with [] => throw OutOfBounds | c :: _ => send c m end.

(** [App::add] *)
Definition add (s : string) : prog App event unit :=
  let* (type, pos) := lift (next_word s 0) in
  let cmd := command_of type in
  (match cmd with Some _ => ret tt | None => LOG ERROR "order error" end) ;;;
  let* (w, pos) := lift (next_word s pos) in
  let* typ := lift (stoi w) in
  let* (key, pos) := lift (next_word s pos) in
  let* cmd := lift (of_option cmd Uninit) in
  if (cmd =? kAdd) || (cmd =? kChange) then
    let* (attr, pos) := lift (next_word s pos) in
    let* (val, _) := lift (next_word s pos) in
    let* txid := get_txid in
    send_front (Msg_ESMsg (mkESMsg cmd txid false typ (Some key) (Some attr) (Some val)))
  else
    let* txid := get_txid in
    send_front (Msg_ESMsg (mkESMsg cmd txid false typ (Some key) None None)).

(** [App::commit] *)
Definition commit : prog App event unit :=
  let* txid := get_txid in
  let* a := get in
  let need := negb (Z.of_nat (length (connList_ a)) =? 1) in
  for_each (connList_ a) (λ c, send c (Msg_ESMsg (mkESMsg kCommit txid need 0 None None None))).

(** The calls of [startTran] on its builder, up to the bytes it sends. *)
Definition startTran_bytes (type : string) : result (list byte) :=
  let? (start, fbb) := StartTable FlatBufferBuilder_new in
  let? fbb := add_field (GtmMsgBuilder_add_cmd kGetTxid) fbb in
  let? (trantype, fbb) := CreateString type fbb in
  let? fbb := add_field (GtmMsgBuilder_add_transType trantype) fbb in
  let? (orc, fbb) := EndTable start fbb in
  let? (root, fbb) := CreateRootMsg (any_type (Msg_GtmMsg (mkGtmMsg 0 0 false None))) orc fbb in
  let? fbb := Finish root fbb in
  GetBufferPointer fbb.

(** [App::startTran] *)
Definition startTran (type : string) : prog App event unit :=
  let* bytes := lift (startTran_bytes type) in
  let* msg := lift (deserialize bytes) in
  let* a := get in
  send (gtmConn_ a) msg.

(** [App::showResult] *)
Definition showResult (status txid : Z) : prog App event unit :=
  if status =? kTranSuccess
  then LOG INFO ("[" +:+ to_string txid +:+ "] transaction executed successfully")
  else LOG INFO ("[" +:+ to_string txid +:+ "] transaction execution failed").

(** [onMessage] of appmain.cc: the table lies in a temporary string that is
    gone when it is read, and the first case falls through to the default. *)
Definition main_onMessage `{Stale} (msg : RootMsg) : prog App event unit :=
  let* msg := lift (stale msg) in
  let* data := lift (as_AppMsg msg) in
  (if (AppMsg_cmd data =? kTranSuccess) || (AppMsg_cmd data =? kTranFail)
   then showResult (AppMsg_cmd data) (AppMsg_txid data) else ret tt) ;;;
  LOG ERROR "receive error cmd".

(** The body of [main] after its initialisation. *)
Definition main_body `{Stale} (cfg : Config.ConfigManager) : prog App event unit :=
  App_ctor cfg ;;; startTran "buy" ;;; add "buy apple 1" ;;; commit.

(** ** Words of a statement *)

Definition no_space (w : string) : bool := string_forallb (λ c, negb (Ascii.eqb c " ")) w.

Lemma sdrop_app a b : sdrop (String.length a) (a +:+ b) = b.
Proof. by induction a. Qed.

Lemma word_length_app w rest :
  no_space w = true → (rest = "" ∨ ∃ r, rest = " " +:+ r) → word_length (w +:+ rest) = String.length w.
Proof.
  intros Hw Hr. induction w as [|c w IH]; cbn.
  - destruct Hr as [->|[r ->]]; done.
  - unfold no_space in *. cbn in Hw. apply andb_true_iff in Hw as [Hc Hw]. apply negb_true_iff in Hc. rewrite Hc.
    f_equal. auto.
Qed.

(** A word is found between its predecessor and the next space or the end. *)
Lemma next_word_spec pre w rest :
  no_space w = true → (rest = "" ∨ ∃ r, rest = " " +:+ r) →
  next_word (pre +:+ w +:+ rest) (strlen pre) = Ok (w, strlen pre + strlen w + 1).
Proof.
  intros Hw Hr. unfold next_word. rewrite Nat2Z.id, sdrop_app, word_length_app by done. rewrite !string_length_app.
  assert ((if strlen pre <? Z.of_nat (String.length pre + (String.length w + String.length rest))
           then strlen pre + strlen w else strlen pre) = strlen pre + strlen w) as ->.
  { destruct (Z.ltb_spec (strlen pre) (Z.of_nat (String.length pre + (String.length w + String.length rest)))); lia. }
  replace (strlen pre + strlen w - strlen pre) with (strlen w) by lia. by rewrite substr_app.
Qed.

(** The words of a statement, found one after the other. *)
Fixpoint words_at (s : string) (pos : Z) (ws : list string) : Prop :=
  match ws with
  | [] => True
  | w :: ws' => next_word s pos = Ok (w, pos + strlen w + 1) ∧ words_at s (pos + strlen w + 1) ws'
  end.

Fixpoint join (ws : list string) : string :=
  match ws with [] => "" | [w] => w | w :: ws' => w +:+ " " +:+ join ws' end.

Lemma words_at_join ws :
  Forall (λ w, no_space w = true) ws → words_at (join ws) 0 ws.
Proof.
  intros HF. assert (∀ pre, words_at (pre +:+ join ws) (strlen pre) ws) as H; [|by apply (H "")].
  induction HF as [|w ws Hw HF IH]; intros pre; [done|]. destruct ws as [|w' ws].
  - cbn [join words_at]. split; [|done]. rewrite <- (string_app_nil_r (pre +:+ w)), string_app_assoc.
    apply next_word_spec; [done|by left].
  - cbn [words_at]. change (join (w :: w' :: ws)) with (w +:+ " " +:+ join (w' :: ws)). split.
    + apply next_word_spec; [done|right; eauto].
    + specialize (IH (pre +:+ w +:+ " ")). rewrite !string_length_app, !string_app_assoc in IH. cbn [String.length] in IH.
      replace (strlen pre + strlen w + 1) with (Z.of_nat (String.length pre + (String.length w + 1))) by lia. exact IH.
Qed.

(** The statement as the user writes it, and the message it becomes. *)
Definition statement (cmd : string) (typ : Z) (key attr val : string) : string :=
  join [cmd; to_string typ; key; attr; val].

Lemma digits_no_space z : 0 ≤ z → no_space (to_string z) = true.
Proof.
  intros Hz. eapply string_forallb_impl; [|by apply to_string_digits].
  intros c. by destruct (Ascii.eqb_spec c " ") as [->|].
Qed.

Lemma stoi_digits z : 0 ≤ z < 2 ^ 31 → stoi (to_string z) = Ok z.
Proof.
  intros Hz. rewrite <- (string_app_nil_r (to_string z)). apply stoi_to_string; [lia|unfold int32_ok; lia|done].
Qed.

Section statements.
Context (typ : Z) (key attr val : string) (a : App) (txid : Z) (c : conn) (cs : list TcpConnectionPtr).
Hypothesis Hty : 0 ≤ typ < 2 ^ 31.
Hypothesis Hk : no_space key = true.
Hypothesis Htx : txid_ a = Some txid.
Hypothesis Hcs : connList_ a = Some c :: cs.

Lemma add_statement :
  no_space attr = true → no_space val = true →
  add (join ["add"; to_string typ; key; attr; val]) a =
    ([ESend c (Msg_ESMsg (mkESMsg kAdd txid false typ (Some key) (Some attr) (Some val)))], Ok (tt, a)).
Proof.
  intros Ha Hv.
  pose proof (words_at_join ["add"; to_string typ; key; attr; val]) as (H1 & H2 & H3 & H4 & H5 & _).
  { repeat constructor; try done. apply digits_no_space. lia. }
  unfold add, bind. rewrite H1. cbn [lift]. change (command_of "add") with (Some kAdd). cbn [ret].
  rewrite H2. cbn [lift]. rewrite stoi_digits by done.
  cbn [lift]. rewrite H3. cbn [lift of_option]. change ((kAdd =? kAdd) || _) with true. cbv iota. rewrite H4. cbn [lift]. rewrite H5. cbn [lift].
  unfold get_txid, send_front, bind. cbn [get]. rewrite Htx. cbn [of_option lift]. rewrite Hcs. done.
Qed.

Lemma delete_statement :
  add (join ["delete"; to_string typ; key]) a =
    ([ESend c (Msg_ESMsg (mkESMsg kDelete txid false typ (Some key) None None))], Ok (tt, a)).
Proof.
  pose proof (words_at_join ["delete"; to_string typ; key]) as (H1 & H2 & H3 & _).
  { repeat constructor; try done. apply digits_no_space. lia. }
  unfold add, bind. rewrite H1. cbn [lift]. change (command_of "delete") with (Some kDelete). cbn [ret].
  rewrite H2. cbn [lift]. rewrite stoi_digits by done.
  cbn [lift]. rewrite H3. cbn [lift of_option]. change ((kDelete =? kAdd) || (kDelete =? kChange)) with false. cbv iota.
  unfold get_txid, send_front, bind. cbn [get]. rewrite Htx. cbn [of_option lift]. rewrite Hcs. done.
Qed.

End statements.

(** What a statement becomes: "add T K A V" with a numeric type sends
    exactly one message, on the first connection of the transaction, with
    the command, the transaction id, the type and the three words; "delete T
    K" sends the key only. *)
Theorem app_add_sends typ key attr val a txid c cs :
  0 ≤ typ < 2 ^ 31 → no_space key = true → no_space attr = true → no_space val = true →
  txid_ a = Some txid → connList_ a = Some c :: cs →
  add (join ["add"; to_string typ; key; attr; val]) a =
    ([ESend c (Msg_ESMsg (mkESMsg kAdd txid false typ (Some key) (Some attr) (Some val)))], Ok (tt, a)) ∧
  add (join ["delete"; to_string typ; key]) a =
    ([ESend c (Msg_ESMsg (mkESMsg kDelete txid false typ (Some key) None None))], Ok (tt, a)).
Proof.
  intros Hty Hk Ha Hv Htx Hcs. split; [by eapply add_statement|by eapply delete_statement].
Qed.

(** The statements the comment in app.cc documents are not accepted:
    with "node" or "edge" as the type, every one of the four commands ends in
    the exception of [stoi], and nothing is sent. *)
Theorem app_documented_statements_throw cmd kind ws a :
  cmd ∈ ["add"; "change"; "delete"; "search"] → kind ∈ ["node"; "edge"] →
  Forall (λ w, no_space w = true) ws →
  ∃ es, add (join (cmd :: kind :: ws)) a = (es, Err (Throw InvalidArgument)) ∧ sent es = [].
Proof.
  intros Hc Hk Hws.
  assert (no_space cmd = true) as Hc' by (repeat (apply elem_of_cons in Hc as [->|Hc]; [done|]); by apply not_elem_of_nil in Hc).
  assert (no_space kind = true ∧ stoi kind = Err (Throw InvalidArgument)) as [Hk' Hst]
    by (repeat (apply elem_of_cons in Hk as [->|Hk]; [done|]); by apply not_elem_of_nil in Hk).
  pose proof (words_at_join (cmd :: kind :: ws)) as (H1 & H2 & _); [by repeat constructor|].
  unfold add, bind. rewrite H1. cbn [lift]. destruct (command_of cmd).
  - cbn [ret]. rewrite H2. cbn [lift]. rewrite Hst. cbn. eauto.
  - cbn [LOG emit]. rewrite H2. cbn [lift]. rewrite Hst. cbn. eauto.
Qed.

Lemma for_each_send_some {S} (cs : list conn) m (s : S) :
  for_each (Some <$> cs) (λ c, send c m) s = ((λ c, ESend c m) <$> cs, Ok (tt, s)).
Proof. induction cs as [|c cs IH]; [done|]. rewrite !fmap_cons. cbn [for_each send]. unfold bind. cbn. by rewrite IH. Qed.

(** Commit: every entity service of the transaction gets one commit
    message, in the order of the connections, all with the same id; it asks
    for a global check exactly when there is not one connection. *)
Theorem app_commit_all a txid cs :
  txid_ a = Some txid → connList_ a = Some <$> cs →
  commit a = ((λ c, ESend c (Msg_ESMsg (mkESMsg kCommit txid (negb (Z.of_nat (length cs) =? 1)) 0 None None None))) <$> cs,
              Ok (tt, a)).
Proof.
  intros Htx Hcs. unfold commit, get_txid, bind. cbn [get]. rewrite Htx. cbn [of_option lift]. rewrite Hcs, length_fmap.
  by rewrite for_each_send_some.
Qed.

Definition endpoint (e : string * Z) : ipAndPort := mkipAndPort (Some e.1) e.2.

Lemma connect2ES_ok (l : list (string * Z)) a :
  connect2ES (Some (endpoint <$> l)) a = ((λ e, EConnect e.1 (uint16 e.2)) <$> l, Ok (tt, a)).
Proof.
  unfold connect2ES. unfold bind at 1. cbn [of_option lift].
  assert (for_each (endpoint <$> l) (λ e, let* ip := lift (str (ipAndPort_ip e)) in
    emit (EConnect ip (uint16 (ipAndPort_port e)))) a = ((λ e, EConnect e.1 (uint16 e.2)) <$> l, Ok (tt, a))) as ->; [|done].
  induction l as [|[ip port] l IH]; [done|]. rewrite !fmap_cons. cbn [for_each endpoint]. unfold bind in *. cbn in *. by rewrite IH.
Qed.

(** The reply of the transaction manager: its id becomes the current
    one, and one connection is opened per endpoint, in the order of the
    list, with the port cut to 16 bits. *)
Theorem app_learns_endpoints a t (l : list (string * Z)) :
  onMessage (Msg_AppMsg (mkAppMsg kTxid t (Some (endpoint <$> l)))) a =
    ((λ e, EConnect e.1 (uint16 e.2)) <$> l, Ok (tt, set_txid t a)).
Proof.
  unfold onMessage, bind. cbn [as_AppMsg lift AppMsg_cmd AppMsg_txid AppMsg_list].
  change (kTxid =? kTxid) with true. cbv iota. cbn [modify]. by rewrite connect2ES_ok.
Qed.

Lemma startTran_asserts type a : startTran type a = ([], Err AssertFail).
Proof. reflexivity. Qed.

(** A transaction cannot be started: [startTran] creates the string of
    the type while its table is open, which the builder forbids with an
    assertion; the program of appmain.cc ends there without having sent
    anything, whatever the configuration. *)
Theorem app_main_sends_nothing `{Stale} cfg :
  (∀ type a, startTran type a = ([], Err AssertFail)) ∧
  ∃ es f, main_body cfg App_new = (es, Err f) ∧ sent es = [].
Proof.
  split; [apply startTran_asserts|]. unfold main_body, App_ctor, bind.
  destruct (stale (Config.gtmAddress_ cfg)) as [ip|f]; cbn [lift]; [|by eexists [], f].
  cbn [emit]. rewrite startTran_asserts. by eexists _, _.
Qed.

(** A result that arrives is never shown without an error line: the
    handler of appmain.cc reads the message from a string that is already
    destroyed, and when its bytes are still there, the missing [break] adds
    the error line after the result. *)
Theorem app_result_handler status txid a :
  status = kTranSuccess ∨ status = kTranFail →
  main_onMessage (H := stale_caught) (Msg_AppMsg (mkAppMsg status txid None)) a = ([], Err UseAfterFree) ∧
  main_onMessage (H := stale_kept) (Msg_AppMsg (mkAppMsg status txid None)) a =
    ([ELog INFO ("[" +:+ to_string txid +:+ (if status =? kTranSuccess then "] transaction executed successfully"
                                             else "] transaction execution failed"));
      ELog ERROR "receive error cmd"], Ok (tt, a)).
Proof. by intros [-> | ->]. Qed.

(** ** Witnesses *)

Definition demo_app : App := mkApp (Some 1%nat) (Some 5) [Some 2%nat; Some 3%nat].

Lemma app_add_sends_witness :
  add "add 1 k a v" demo_app =
    ([ESend 2 (Msg_ESMsg (mkESMsg kAdd 5 false 1 (Some "k") (Some "a") (Some "v")))], Ok (tt, demo_app)).
Proof. apply (app_add_sends 1 "k" "a" "v" demo_app 5 2 [Some 3%nat]); done || lia. Defined.

Lemma app_documented_statements_throw_witness :
  ∃ es, add "search node k" demo_app = (es, Err (Throw InvalidArgument)) ∧ sent es = [].
Proof.
  apply (app_documented_statements_throw "search" "node" ["k"]).
  - do 3 apply list_elem_of_further. apply list_elem_of_here.
  - apply list_elem_of_here.
  - repeat constructor.
Defined.

Lemma app_commit_all_witness :
  commit demo_app = ((λ c, ESend c (Msg_ESMsg (mkESMsg kCommit 5 true 0 None None None))) <$> [2%nat; 3%nat], Ok (tt, demo_app)).
Proof. apply (app_commit_all demo_app 5 [2%nat; 3%nat]); reflexivity. Defined.

Lemma app_result_handler_witness :
  main_onMessage (H := stale_caught) (Msg_AppMsg (mkAppMsg kTranFail 5 None)) demo_app = ([], Err UseAfterFree).
Proof. apply app_result_handler. right. reflexivity. Defined.

End App.
