(* ===== verification/Es.v ===== *)
(** * The entity service (src/transaction/entity_service)

    Between the application and the database service: statements become read
    and write sets, commits are forwarded, and the connection of the
    application is remembered for the result. *)

From stdpp Require Import base gmap strings list.
From S2P Require Import Prelude NetMsg Config App.

Module ES.

(** [class ES] *)
Record ES := mkES { table_ : gmap Z TcpConnectionPtr; dbsConn_ : TcpConnectionPtr }.

Definition ES_new : ES := mkES ∅ None.

Definition set_table f (e : ES) : ES := mkES (f (table_ e)) (dbsConn_ e).
Definition set_dbsConn c (e : ES) : ES := mkES (table_ e) c.

(** [ES::ES]: the address is read through the [c_str()] of a temporary. *)
Definition ES_ctor `{Stale} (cfg : Config.ConfigManager) : prog ES event unit :=
  let* ip := lift (stale (Config.dbsAddress_ cfg)) in
  emit (EConnect ip (uint16 (Config.dbsPort_ cfg))).

Definition onDbsConnection (conn : TcpConnectionPtr) : prog ES event unit := modify (set_dbsConn conn).

(** [ES::forward] *)
Definition forward (data : ESMsg) : prog ES event unit :=
  let* e := get in
  send (dbsConn_ e) (Msg_DbServiceMsg
    (mkDbServiceMsg kCommit (ESMsg_txid data) (ESMsg_needGlobalConflict data) None None)).

(** [ES::solve] *)
Definition solve (msg : ESMsg) : prog ES event unit :=
  let* key := lift (str (ESMsg_key msg)) in
  let* dbs :=
    (if (ESMsg_cmd msg =? kAdd) || (ESMsg_cmd msg =? kDelete) then
       let* attr := lift (str (ESMsg_attr msg)) in
       let* val := lift (str (ESMsg_val msg)) in
       ret (mkDbServiceMsg kData (ESMsg_txid msg) false None (Some [mkData (Some key) (Some attr) (Some val)]))
     else
       ret (mkDbServiceMsg kData (ESMsg_txid msg) false (Some [mkData (Some key) None None]) None)) in
  let* e := get in
  send (dbsConn_ e) (Msg_DbServiceMsg dbs).

(** [ES::retResult] *)
Definition retResult (status txid : Z) : prog ES event unit :=
  let* e := get in
  let '(conn, tbl) := subscript None txid (table_ e) in
  modify (set_table (λ _, tbl)) ;;;
  send conn (Msg_AppMsg (mkAppMsg status txid None)).

(** [onMessage] of esmain.cc *)
Definition onMessage (conn : TcpConnectionPtr) (msg : RootMsg) : prog ES event unit :=
  let* data := lift (as_ESMsg msg) in
  let cmd := ESMsg_cmd data in
  modify (set_table (<[ESMsg_txid data := conn]>)) ;;;
  (if (cmd =? kAdd) || (cmd =? kDelete) || (cmd =? kChange) || (cmd =? kSearch) then solve data
   else if cmd =? kCommit then forward data
   else if (cmd =? kTranSuccess) || (cmd =? kTranFail) then ret tt
   else LOG ERROR "receive error cmd").

(** Messages in the order they arrive, each with its connection. *)
Definition serve (l : list (conn * RootMsg)) : prog ES event unit :=
  for_each l (λ m, onMessage (Some m.1) m.2).

(** What the application sends: statements with everything the entity
    service reads, and commits. *)
Inductive request :=
| RAdd (txid typ : Z) (key attr val : string)
| RSearch (txid typ : Z) (key : string)
| RCommit (txid : Z) (global : bool).

Definition request_msg (r : request) : RootMsg :=
  match r with
  | RAdd t ty k a v => Msg_ESMsg (mkESMsg kAdd t false ty (Some k) (Some a) (Some v))
  | RSearch t ty k => Msg_ESMsg (mkESMsg kSearch t false ty (Some k) None None)
  | RCommit t g => Msg_ESMsg (mkESMsg kCommit t g 0 None None None)
  end.

Definition request_txid (r : request) : Z :=
  match r with RAdd t _ _ _ _ | RSearch t _ _ | RCommit t _ => t end.

(** The message the database service gets for it. *)
Definition forwarded (r : request) : DbServiceMsg :=
  match r with
  | RAdd t _ k a v => mkDbServiceMsg kData t false None (Some [mkData (Some k) (Some a) (Some v)])
  | RSearch t _ k => mkDbServiceMsg kData t false (Some [mkData (Some k) None None]) None
  | RCommit t g => mkDbServiceMsg kCommit t g None None
  end.

(** The connections remembered after the requests [l]. *)
Definition remember (l : list (conn * request)) (t : gmap Z TcpConnectionPtr) : gmap Z TcpConnectionPtr :=
  foldl (λ t m, <[request_txid m.2 := Some m.1]> t) t l.

Lemma onMessage_request c r t d :
  onMessage (Some c) (request_msg r) (mkES t (Some d)) =
    ([ESend d (Msg_DbServiceMsg (forwarded r))], Ok (tt, mkES (<[request_txid r := Some c]> t) (Some d))).
Proof. by destruct r. Qed.

Lemma serve_requests l t d :
  serve ((λ m, (m.1, request_msg m.2)) <$> l) (mkES t (Some d)) =
    ((λ m, ESend d (Msg_DbServiceMsg (forwarded m.2))) <$> l, Ok (tt, mkES (remember l t) (Some d))).
Proof.
  revert t. induction l as [|[c r] l IH]; intros t; [done|]. rewrite !fmap_cons. unfold serve. cbn [for_each].
  unfold bind. cbn [fst snd]. rewrite onMessage_request. fold (serve ((λ m, (m.1, request_msg m.2)) <$> l)).
  by rewrite IH.
Qed.

Lemma remember_last l t c r l' :
  (∀ m, m ∈ l' → request_txid m.2 ≠ request_txid r) →
  remember (l ++ (c, r) :: l') t !! request_txid r = Some (Some c).
Proof.
  intros Hne. unfold remember. rewrite foldl_app. cbn [foldl].
  generalize (foldl (λ (t0 : gmap Z TcpConnectionPtr) (m : conn * request), <[request_txid m.2 := Some m.1]> t0) t l). cbn [fst snd].
  assert (∀ t1 : gmap Z TcpConnectionPtr, t1 !! request_txid r = Some (Some c) →
    foldl (λ (t0 : gmap Z TcpConnectionPtr) (m : conn * request), <[request_txid m.2 := Some m.1]> t0) t1 l' !! request_txid r = Some (Some c)) as H.
  { induction l' as [|m l' IH]; intros t1 Ht1; [done|]. cbn [foldl]. apply IH; [intros; apply Hne; by right|].
    rewrite lookup_insert_ne; [done|]. apply Hne. left. }
  intros t1. apply H. apply lookup_insert_eq.
Qed.

(** The entity service is transparent: statements and commits of any
    number of applications, interleaved, reach the database service one for
    one and in order, an insertion as a one-element write set, a search as a
    one-element read set, a commit with its flag. *)
Theorem es_forwards_in_order l t d :
  ∃ e, serve ((λ m, (m.1, request_msg m.2)) <$> l) (mkES t (Some d)) =
    ((λ m, ESend d (Msg_DbServiceMsg (forwarded m.2))) <$> l, Ok (tt, e)).
Proof. rewrite serve_requests. eauto. Qed.

(** The result finds its application: after any traffic, the result of a
    transaction goes to the connection that last sent a message for it. *)
Theorem es_result_reaches_app l l' c r t d status :
  (∀ m, m ∈ l' → request_txid m.2 ≠ request_txid r) →
  ∃ es e, bind (serve ((λ m, (m.1, request_msg m.2)) <$> (l ++ (c, r) :: l'))) (λ _, retResult status (request_txid r))
      (mkES t (Some d)) = (es ++ [ESend c (Msg_AppMsg (mkAppMsg status (request_txid r) None))], Ok (tt, e)).
Proof.
  intros Hne. unfold bind. rewrite serve_requests.
  unfold retResult, bind. cbn [get table_]. rewrite (subscript_some _ (Some c)) by (by apply remember_last).
  cbn. eauto.
Qed.

(** A delete statement of the application stops the entity service: it
    carries no attribute and no value, and both are read, so the service
    dereferences a null pointer; nothing is sent, although the transaction
    is already registered. A change, which carries both, is turned into a
    read. *)
Theorem es_delete_faults c txid typ key a v e d :
  dbsConn_ e = Some d →
  onMessage (Some c) (Msg_ESMsg (mkESMsg kDelete txid false typ (Some key) None None)) e = ([], Err NullDeref) ∧
  emitted (onMessage (Some c) (Msg_ESMsg (mkESMsg kChange txid false typ (Some key) (Some a) (Some v))) e) =
    [ESend d (Msg_DbServiceMsg (mkDbServiceMsg kData txid false (Some [mkData (Some key) None None]) None))].
Proof. destruct e as [t x]. cbn. intros ->. done. Qed.

(** The results of the transaction log never go further: a success or
    failure message that reaches the entity service is not answered or
    forwarded, it only replaces the remembered connection. *)
Theorem es_results_dropped c status txid e :
  status = kTranSuccess ∨ status = kTranFail →
  onMessage (Some c) (Msg_ESMsg (mkESMsg status txid false 0 None None None)) e =
    ([], Ok (tt, set_table (<[txid := Some c]>) e)).
Proof. by intros [-> | ->]. Qed.

(** ** Witnesses *)

Lemma es_result_reaches_app_witness :
  ∃ es e, bind (serve ((λ m, (m.1, request_msg m.2)) <$>
      [(1%nat, RAdd 7 0 "k" "a" "v"); (1%nat, RCommit 7 false); (2%nat, RSearch 8 0 "k")]))
      (λ _, retResult kTranSuccess 7) (mkES ∅ (Some 9%nat)) =
    (es ++ [ESend 1 (Msg_AppMsg (mkAppMsg kTranSuccess 7 None))], Ok (tt, e)).
Proof.
  apply (es_result_reaches_app [(1%nat, RAdd 7 0 "k" "a" "v")] [(2%nat, RSearch 8 0 "k")] 1%nat (RCommit 7 false)).
  intros m Hm. apply list_elem_of_singleton in Hm. subst m. cbn. lia.
Defined.

Lemma es_delete_faults_witness :
  onMessage (Some 1%nat) (Msg_ESMsg (mkESMsg kDelete 7 false 0 (Some "k") None None)) (mkES ∅ (Some 9%nat)) = ([], Err NullDeref).
Proof. apply (es_delete_faults 1 7 0 "k" "a" "v" (mkES ∅ (Some 9%nat)) 9). reflexivity. Defined.

Lemma es_results_dropped_witness :
  emitted (onMessage (Some 1%nat) (Msg_ESMsg (mkESMsg kTranFail 7 false 0 None None None)) ES_new) = [].
Proof. rewrite (es_results_dropped 1 kTranFail 7 ES_new); [reflexivity|right; reflexivity]. Defined.

End ES.
