(* ===== verification/Dbs.v ===== *)
(** * The database service and its transaction manager

    src/transaction/dbservice (dbservice.cc, dbtm.cc, dbservicemain.cc) and
    src/base/mydb.cc.  One process: the message handler of the event loop
    collects the read and write sets of a transaction and enqueues work; the
    pool runs the work of [Dbtm], which checks conflicts against the keys
    written by earlier transactions and sends the log.  Transactions are heap
    objects shared by the maps of both classes and by queued tasks, so the
    heap is part of the state and a pointer to a deleted transaction is
    caught.  The handler and the tasks interleave as whole steps. *)

From Stdlib Require Import Ascii.
From stdpp Require Import base gmap strings list.
From S2P Require Import Prelude NetMsg NetGenerated Hash Config.

Module Dbs.

(** [struct Data] and [struct transaction] *)
Record Item := mkItem { item_key : string; item_label : string; item_attribute : string; item_value : string }.

Record transaction := mktransaction {
  txid : Z;
  readSet : list Item;
  writeSet : list Item;
  needGlobalConflct : bool;
  lsn : Z;
  alreadyCommit : bool }.

Abbreviation ptr := (option nat).

(** What the pool is asked to run; [solve] gets a pointer into the message. *)
Inductive task :=
| TGetLsn (txid : Z)
| TJudgeLocal (trans : ptr)
| TSolve (data : DbtmMsg).

(** [class DbService] with its [Dbtm], and the transactions on the heap *)
Record DbService := mkDbService {
  table_ : gmap Z TcpConnectionPtr;
  txidTrans_ : gmap Z ptr;
  tasks_ : list task;
  dbtm_table_ : gmap Z ptr;
  wcheck : Mhash.Mhash;
  dbtlConn_ : TcpConnectionPtr;
  gtmConn_ : TcpConnectionPtr;
  heap_ : gmap nat transaction }.

Definition DbService_new : DbService := mkDbService ∅ ∅ [] ∅ Mhash.new None None ∅.

Definition set_table f s := mkDbService (f (table_ s)) (txidTrans_ s) (tasks_ s) (dbtm_table_ s) (wcheck s) (dbtlConn_ s) (gtmConn_ s) (heap_ s).
Definition set_txidTrans f s := mkDbService (table_ s) (f (txidTrans_ s)) (tasks_ s) (dbtm_table_ s) (wcheck s) (dbtlConn_ s) (gtmConn_ s) (heap_ s).
Definition set_tasks f s := mkDbService (table_ s) (txidTrans_ s) (f (tasks_ s)) (dbtm_table_ s) (wcheck s) (dbtlConn_ s) (gtmConn_ s) (heap_ s).
Definition set_dbtm_table f s := mkDbService (table_ s) (txidTrans_ s) (tasks_ s) (f (dbtm_table_ s)) (wcheck s) (dbtlConn_ s) (gtmConn_ s) (heap_ s).
Definition set_wcheck f s := mkDbService (table_ s) (txidTrans_ s) (tasks_ s) (dbtm_table_ s) (f (wcheck s)) (dbtlConn_ s) (gtmConn_ s) (heap_ s).
Definition set_dbtlConn c s := mkDbService (table_ s) (txidTrans_ s) (tasks_ s) (dbtm_table_ s) (wcheck s) c (gtmConn_ s) (heap_ s).
Definition set_gtmConn c s := mkDbService (table_ s) (txidTrans_ s) (tasks_ s) (dbtm_table_ s) (wcheck s) (dbtlConn_ s) c (heap_ s).
Definition set_heap f s := mkDbService (table_ s) (txidTrans_ s) (tasks_ s) (dbtm_table_ s) (wcheck s) (dbtlConn_ s) (gtmConn_ s) (f (heap_ s)).

Abbreviation P := (prog DbService event).

(** ** Pointers *)

Definition deref (p : ptr) : P (nat * transaction) :=
  match p with
  | None => throw NullDeref
  | Some a => let* s := get in
              match heap_ s !! a with Some t => ret (a, t) | None => throw UseAfterFree end
  end.

Definition store (a : nat) (t : transaction) : P unit := modify (set_heap (<[a := t]>)).

(** [delete p] *)
Definition delete_ptr (p : ptr) : P unit :=
  match p with None => ret tt | Some a => modify (set_heap (delete a)) end.

(** [txidTrans_\[txid\]] and [dbtm_->table_\[txid\]] *)
Definition txidTrans_at (id : Z) : P ptr :=
  let* s := get in
  let '(p, m) := subscript None id (txidTrans_ s) in
  modify (set_txidTrans (λ _, m)) ;;; ret p.
Definition dbtm_table_at (id : Z) : P ptr :=
  let* s := get in
  let '(p, m) := subscript None id (dbtm_table_ s) in
  modify (set_dbtm_table (λ _, m)) ;;; ret p.

Definition enqueue (t : task) : P unit := modify (set_tasks (λ l, l ++ [t])).

(** The four fields of [transaction] that handlers assign. *)
Definition set_needGlobal g (t : transaction) := mktransaction (txid t) (readSet t) (writeSet t) g (lsn t) (alreadyCommit t).
Definition set_lsn l (t : transaction) := mktransaction (txid t) (readSet t) (writeSet t) (needGlobalConflct t) l (alreadyCommit t).
Definition set_alreadyCommit c (t : transaction) := mktransaction (txid t) (readSet t) (writeSet t) (needGlobalConflct t) (lsn t) c.
Definition add_sets r w (t : transaction) := mktransaction (txid t) (readSet t ++ r) (writeSet t ++ w) (needGlobalConflct t) (lsn t) (alreadyCommit t).

(** [txidTrans_\[txid\]->field = value] *)
Definition assign (id : Z) (f : transaction → transaction) : P unit :=
  let* p := txidTrans_at id in let* (a, t) := deref p in store a (f t).
Definition field {A} (id : Z) (f : transaction → A) : P A :=
  let* p := txidTrans_at id in let* (_, t) := deref p in ret (f t).

(** ** The environment: MySQL and the file system *)

Section dbtm.

Context `{Stale}.
Context (std_hash : string → Z).
Context (cfg : Config.ConfigManager).
(** [mysql_query] succeeds; [open] and [remove] succeed; [mysql_init] and [mysql_real_connect] return a handle. *)
Context (mysql_query_ok : string → bool) (open_ok remove_ok : string → bool) (mysql_init_ok mysql_connect_ok : bool).

(** [MyDb::MyDb], [MyDb::initDB] and [MyDb::exeSQL] *)
Definition MyDb_ctor : P unit :=
  if mysql_init_ok then ret tt else LOG ERROR "mysql Error:" ;;; throw (Exit 1).
Definition MyDb_initDB : P bool :=
  if mysql_connect_ok then ret true else LOG ERROR "Error: " ;;; throw (Exit 1).
Definition MyDb_exeSQL (sql : string) : P bool :=
  emit (ESql (c_string sql)) ;;;
  if mysql_query_ok (c_string sql) then ret true else LOG ERROR "Query Error: " ;;; ret false.

Definition sqlExec (sql : string) : P unit :=
  let* ok := MyDb_exeSQL sql in
  if ok : bool then ret tt else LOG WARNING "mysql insert to tranInfo failed".

(** [sql += txid] on an [int] appends one character. *)
Definition char_of_int (z : Z) : string := String (Ascii.ascii_of_N (Z.to_N (z mod 256))) "".

Definition sqlInsert (id l : Z) (fileName : string) : P unit :=
  sqlExec ("INSERT INTO transInfo(txid,lsn,needLocalConflict,needGlobalConflict,fileName)     VALUES (" +:+
    to_string id +:+ "," +:+ to_string l +:+ ", true, true," +:+ fileName +:+ ");").

Definition sqlDelete_stmt (id : Z) : string := "DELETE FROM transInfo         where txid = " +:+ char_of_int id +:+ ";".
Definition sqlUpdateNeedLocalConflict_stmt (id : Z) : string :=
  "UPDATE transInfo SET needLocalConflict=false WHERE txid=" +:+ char_of_int id +:+ ";".
Definition sqlUpdateNeedGlobalConflict_stmt (id : Z) : string :=
  "UPDATE transInfo SET needGlobalConflict=false WHERE txid=" +:+ char_of_int id +:+ ";".

Definition log_path (id : Z) : string := Config.dbtmLogPath_ cfg +:+ to_string id.

Definition sqlDelete (id : Z) : P unit :=
  sqlExec (sqlDelete_stmt id) ;;;
  emit (ERemove (log_path id)) ;;;
  if remove_ok (log_path id) then ret tt else LOG WARNING "delete local file failed".

Definition sqlUpdateNeedLocalConflict (id : Z) (status : bool) : P unit := sqlExec (sqlUpdateNeedLocalConflict_stmt id).
Definition sqlUpdateNeedGlobalConflict (id : Z) (status : bool) : P unit := sqlExec (sqlUpdateNeedGlobalConflict_stmt id).

(** [Dbtm::initMySql] and [Dbtm::init] *)
Definition initMySql : P unit :=
  sqlExec "CREATE TABLE IF NOT EXISTS `transInfo`(         `id` INT UNSIGNED AUTO_INCREMENT,           `txid` INT UNSIGNED NOT NULL,           `lsn` int,          `needLocalConflict` bool,           `needGlobalConflict` bool,          `fileName` VARCHAR(40),          PRIMARY KEY(`id`)      )ENGINE=InnoDB DEFAULT CHARSET=UTF8;".

Definition Dbtm_init : P unit :=
  let* ip := lift (stale (Config.dbtlAddress_ cfg)) in
  emit (EConnect ip (uint16 (Config.dbtlPort_ cfg))) ;;;
  let* ip := lift (stale (Config.gtmAddress_ cfg)) in
  emit (EConnect ip (uint16 (Config.gtmPort_ cfg))) ;;;
  let* conn := MyDb_initDB in
  (if conn : bool then ret tt else LOG ERROR "connect mysql failed") ;;;
  initMySql.

(** [DbService::DbService]: [new Dbtm(this)] constructs its [MyDb] first. *)
Definition DbService_ctor : P unit := MyDb_ctor ;;; Dbtm_init.

Definition onDbtlConnection (conn : TcpConnectionPtr) : P unit :=
  LOG INFO "connect tbtl success" ;;; modify (set_dbtlConn conn).
Definition onGtmConnection (conn : TcpConnectionPtr) : P unit :=
  LOG INFO "connect gtm success" ;;; modify (set_gtmConn conn).

(** ** Dbtm *)

(** The write set as the tables of the log message *)
Definition log_data (l : list Item) : list Data :=
  (λ d, mkData (Some (item_key d)) (Some (item_attribute d)) (Some (item_value d))) <$> l.

(** [Dbtm::writeToDiskAndSql]: the file is opened read-only and written. *)
Definition writeToDiskAndSql (t : transaction) : P unit :=
  let path := log_path (txid t) in
  emit (EOpen path false) ;;;
  (if open_ok path then ret tt else LOG ERROR "open log file error") ;;;
  emit (EWrite path false (Msg_DbtlMsg (mkDbtlMsg kData (txid t) (Some (log_data (writeSet t)))))) ;;;
  sqlInsert (txid t) (lsn t) (c_string (to_string (txid t))).

(** [Dbtm::sendLog] *)
Definition sendLog (t : transaction) : P unit :=
  let* s := get in
  send (dbtlConn_ s) (Msg_DbtlMsg (mkDbtlMsg kLog (txid t) (Some (log_data (writeSet t))))).

(** [Dbtm::cacheRWSet] *)
Definition cacheRWSet (p : ptr) : P unit :=
  let* (_, t) := deref p in
  for_each (writeSet t) (λ d,
    let* s := get in
    let* h := lift (Mhash.insert std_hash (item_key d) (lsn t) (wcheck s)) in
    modify (set_wcheck (λ _, h))) ;;;
  sendLog t.

(** [Dbtm::getLsn] *)
Definition getLsn (id : Z) : P unit :=
  let* s := get in send (dbtlConn_ s) (Msg_DbtlMsg (mkDbtlMsg kLsn id None)).

(** [Dbtm::judgeGlobalConflict] *)
Definition judgeGlobalConflict (id : Z) : P unit :=
  let* s := get in send (gtmConn_ s) (Msg_GtmMsg (mkGtmMsg kJudgeConflit id false None)).

(** [DbService::retResult] *)
Definition retResult (status id : Z) : P unit :=
  let* s := get in
  let '(conn, tbl) := subscript None id (table_ s) in
  modify (set_table (λ _, tbl)) ;;;
  send conn (Msg_ESMsg (mkESMsg status id false 0 None None None)) ;;;
  let* tran := dbtm_table_at id in
  modify (set_dbtm_table (delete id)) ;;;
  delete_ptr tran.

(** One of the two loops of [judgeLocalConflict]: the keys in order, until
    one is found in the table. *)
Fixpoint check_keys (l : list Item) (bound : Z) : P bool :=
  match l with
  | [] => ret false
  | d :: l' =>
      let* s := get in
      let* h := lift (Mhash.delLessThan std_hash (item_key d) bound (wcheck s)) in
      modify (set_wcheck (λ _, h)) ;;;
      let* e := lift (Mhash.exist std_hash (item_key d) h) in
      if e : bool then ret true else check_keys l' bound
  end.

(** [Dbtm::judgeLocalConflict] *)
Definition judgeLocalConflict (p : ptr) : P unit :=
  let* (a, t) := deref p in
  writeToDiskAndSql t ;;;
  let* c1 := check_keys (readSet t) (lsn t) in
  let* haveConflict := (if c1 : bool then ret true else check_keys (writeSet t) (lsn t)) in
  if negb haveConflict then
    modify (set_dbtm_table (<[txid t := p]>)) ;;;
    modify (set_txidTrans (delete (txid t))) ;;;
    sqlUpdateNeedLocalConflict (txid t) false ;;;
    (if needGlobalConflct t then judgeGlobalConflict (txid t) else cacheRWSet p)
  else
    LOG INFO "There are conflicts between transactions (local)" ;;;
    retResult kTranFail (txid t) ;;;
    let* (_, t) := deref p in
    if needGlobalConflct t then
      let* s := get in
      send (gtmConn_ s) (Msg_GtmMsg (mkGtmMsg kJudgeConflit (txid t) true None))
    else ret tt.

(** [Dbtm::solve], on a message whose buffer is gone when the task runs *)
Definition solve (data : DbtmMsg) : P unit :=
  let* data := lift (stale data) in
  if DbtmMsg_cmd data =? kJudgeConflit then
    if negb (DbtmMsg_isGlobalConflict data) then
      let* p := dbtm_table_at (DbtmMsg_txid data) in
      cacheRWSet p ;;;
      sqlUpdateNeedGlobalConflict (DbtmMsg_txid data) false
    else
      LOG INFO "There are conflicts between transactions (global)" ;;;
      sqlDelete (DbtmMsg_txid data) ;;;
      retResult kTranFail (DbtmMsg_txid data)
  else ret tt.

(** A worker of the pool runs the oldest task. *)
Definition run_task : P unit :=
  let* s := get in
  match tasks_ s with
  | [] => ret tt
  | t :: rest =>
      modify (set_tasks (λ _, rest)) ;;;
      match t with
      | TGetLsn id => getLsn id
      | TJudgeLocal p => judgeLocalConflict p
      | TSolve data => solve data
      end
  end.

(** ** DbService *)

(** The [Data] objects for one of the vectors of the message. *)
Definition read_item (d : Data) : result Item :=
  let? key := str (Data_key d) in
  let? attribute := str (Data_attribute d) in
  let? value := str (Data_value d) in
  Ok (mkItem key "" attribute value).

Fixpoint read_items (l : list Data) : result (list Item) :=
  match l with
  | [] => Ok []
  | d :: l' => let? i := read_item d in let? rest := read_items l' in Ok (i :: rest)
  end.

(** [DbService::getReadWriteSet] *)
Definition getReadWriteSet (conn : TcpConnectionPtr) (data : DbServiceMsg) : P unit :=
  let id := DbServiceMsg_txid data in
  let* s := get in
  (match txidTrans_ s !! id with
   | None =>
       let a := fresh (dom (heap_ s)) in
       modify (set_heap (<[a := mktransaction id [] [] false (-1) false]>)) ;;;
       modify (set_txidTrans (<[id := Some a]>))
   | Some _ => ret tt
   end) ;;;
  let* p := txidTrans_at id in
  let* (a, t) := deref p in
  modify (set_table (<[txid t := conn]>)) ;;;
  let* rset := lift (of_option (DbServiceMsg_readSet data) NullDeref) in
  let* r := lift (read_items rset) in
  store a (add_sets r [] t) ;;;
  let* wset := lift (of_option (DbServiceMsg_writeSet data) NullDeref) in
  let* w := lift (read_items wset) in
  store a (add_sets r w t).

(** [onMessage] of dbservicemain.cc *)
Definition onMessage (conn : TcpConnectionPtr) (msg : RootMsg) : P unit :=
  match msg with
  | Msg_DbServiceMsg data =>
      let id := DbServiceMsg_txid data in
      if DbServiceMsg_cmd data =? kData then
        getReadWriteSet conn data ;;;
        let* l := field id lsn in
        if l =? -1 then assign id (set_lsn 0) ;;; enqueue (TGetLsn id) else ret tt
      else if DbServiceMsg_cmd data =? kCommit then
        assign id (set_needGlobal (DbServiceMsg_needGlobalConflict data)) ;;;
        let* l := field id lsn in
        if 0 <? l then let* p := txidTrans_at id in enqueue (TJudgeLocal p)
        else assign id (set_alreadyCommit true)
      else LOG ERROR "reveive error cmd"
  | Msg_DbtmMsg data =>
      let id := DbtmMsg_txid data in
      if DbtmMsg_cmd data =? kJudgeConflit then enqueue (TSolve data)
      else if DbtmMsg_cmd data =? kLsn then
        assign id (set_lsn (DbtmMsg_lsn data)) ;;;
        let* c := field id alreadyCommit in
        if c : bool then let* p := txidTrans_at id in enqueue (TJudgeLocal p) else ret tt
      else if (DbtmMsg_cmd data =? kTranSuccess) || (DbtmMsg_cmd data =? kTranFail)
      then retResult (DbtmMsg_cmd data) id
      else LOG ERROR "reveive error cmd"
  | _ => ret tt
  end.

End dbtm.

(** ** The transactions of the service, as a map *)

(** The transaction registered under [id]. *)
Definition look (s : DbService) (id : Z) : option transaction :=
  match txidTrans_ s !! id with Some (Some a) => heap_ s !! a | _ => None end.

(** Every registered pointer leads to a live transaction with that id. *)
Definition wf (s : DbService) : Prop :=
  ∀ id p, txidTrans_ s !! id = Some p → ∃ a t, p = Some a ∧ heap_ s !! a = Some t ∧ txid t = id.

Lemma wf_new_service : wf DbService_new.
Proof. intros id p. cbn. by rewrite lookup_empty. Qed.

Lemma wf_look s id p : wf s → txidTrans_ s !! id = Some p → ∃ a t, p = Some a ∧ heap_ s !! a = Some t ∧ txid t = id ∧ look s id = Some t.
Proof. intros Hwf Hp. destruct (Hwf id p Hp) as (a & t & -> & Ha & Ht). exists a, t. unfold look. rewrite Hp. done. Qed.

Lemma look_some s id t : wf s → look s id = Some t → ∃ a, txidTrans_ s !! id = Some (Some a) ∧ heap_ s !! a = Some t ∧ txid t = id.
Proof.
  intros Hwf Hl. unfold look in Hl. destruct (txidTrans_ s !! id) as [p|] eqn:Hp; [|done].
  destruct (Hwf id p Hp) as (a & t' & -> & Ha & Ht). exists a. simplify_eq. done.
Qed.

Lemma txidTrans_at_some s id p : txidTrans_ s !! id = Some p → txidTrans_at id s = ([], Ok (p, s)).
Proof. intros Hp. unfold txidTrans_at, bind. cbn [get]. rewrite (subscript_some _ p) by done. cbn. by destruct s. Qed.

(** Changing the object of [id]: the other transactions stay. *)
Definition upd (s : DbService) (a : nat) (t : transaction) : DbService := set_heap (<[a := t]>) s.

Lemma upd_ok s id a t t' :
  wf s → txidTrans_ s !! id = Some (Some a) → heap_ s !! a = Some t → txid t' = id →
  wf (upd s a t') ∧ look (upd s a t') id = Some t' ∧ ∀ id', id' ≠ id → look (upd s a t') id' = look s id'.
Proof.
  intros Hwf Hp Ha Ht'. destruct (Hwf _ _ Hp) as (a0 & t0 & [= <-] & Ha0 & Ht0). split_and!.
  - intros id2 p2 Hp2. destruct (Hwf _ _ Hp2) as (a2 & t2 & -> & Ha2 & Ht2). exists a2. cbn.
    destruct (decide (a2 = a)) as [->|].
    + exists t'. rewrite lookup_insert_eq. simplify_eq. split_and!; done.
    + exists t2. by rewrite lookup_insert_ne.
  - unfold look. cbn. rewrite Hp. by rewrite lookup_insert_eq.
  - intros id' Hne. unfold look. cbn. destruct (txidTrans_ s !! id') as [p'|] eqn:Hp'; [|done].
    destruct (Hwf _ _ Hp') as (a2 & t2 & -> & Ha2 & Ht2). rewrite lookup_insert_ne; [done|]. intros ->. simplify_eq.
Qed.

Lemma assign_spec s id a t f :
  txidTrans_ s !! id = Some (Some a) → heap_ s !! a = Some t → assign id f s = ([], Ok (tt, upd s a (f t))).
Proof. intros Hp Ha. unfold assign, bind. rewrite (txidTrans_at_some _ _ _ Hp). cbn. by rewrite Ha. Qed.

Lemma field_spec {A} s id a t (f : transaction → A) :
  txidTrans_ s !! id = Some (Some a) → heap_ s !! a = Some t → field id f s = ([], Ok (f t, s)).
Proof. intros Hp Ha. unfold field, bind. rewrite (txidTrans_at_some _ _ _ Hp). cbn. by rewrite Ha. Qed.

Lemma upd_upd s a t t' : upd (upd s a t) a t' = upd s a t'.
Proof. unfold upd, set_heap. cbn. by rewrite insert_insert_eq. Qed.

Lemma heap_upd s a t : heap_ (upd s a t) !! a = Some t.
Proof. cbn. apply lookup_insert_eq. Qed.

(** ** Collecting a transaction *)

(** The message for the sets [r] and [w] of a transaction. *)
Definition data_of (i : Item) : Data := mkData (Some (item_key i)) (Some (item_attribute i)) (Some (item_value i)).
Definition data_msg (id : Z) (r w : list Item) : RootMsg :=
  Msg_DbServiceMsg (mkDbServiceMsg kData id false (Some (data_of <$> r)) (Some (data_of <$> w))).

(** Items as the service builds them, without a label. *)
Definition unlabelled (i : Item) : Item := mkItem (item_key i) "" (item_attribute i) (item_value i).

Lemma read_items_of l : read_items (data_of <$> l) = Ok (unlabelled <$> l).
Proof. induction l as [|i l IH]; [done|]. rewrite !fmap_cons. cbn. by rewrite IH. Qed.

Definition fresh_transaction (id : Z) : transaction := mktransaction id [] [] false (-1) false.

(** One data message: what it does to its transaction and to the queue. *)
Definition collected (r w : list Item) (t : transaction) : transaction :=
  let t := add_sets (unlabelled <$> r) (unlabelled <$> w) t in
  if lsn t =? -1 then set_lsn 0 t else t.

(** The transaction, allocated if it is new. *)
Lemma data_msg_registered s c id r w a t :
  txidTrans_ s !! id = Some (Some a) → heap_ s !! a = Some t → txid t = id →
  onMessage (Some c) (data_msg id r w) s =
    ([], Ok (tt, set_tasks (λ l, l ++ (if lsn t =? -1 then [TGetLsn id] else []))
                   (upd (set_table (<[id := Some c]>) s) a (collected r w t)))).
Proof.
  intros Hp Ha Ht. unfold onMessage, data_msg. cbn [DbServiceMsg_cmd DbServiceMsg_txid].
  change (kData =? kData) with true. cbv iota.
  assert (getReadWriteSet (Some c) (mkDbServiceMsg kData id false (Some (data_of <$> r)) (Some (data_of <$> w))) s =
    ([], Ok (tt, upd (set_table (<[id := Some c]>) s) a (add_sets (unlabelled <$> r) (unlabelled <$> w) t)))) as Hrw.
  { unfold getReadWriteSet. cbn [DbServiceMsg_txid DbServiceMsg_readSet DbServiceMsg_writeSet].
    unfold bind. cbn [get]. rewrite Hp. cbn [ret]. rewrite (txidTrans_at_some _ _ _ Hp). cbn [deref].
    unfold bind. cbn [get]. rewrite Ha. cbn [ret modify of_option lift].
    rewrite !read_items_of. cbn [lift store modify of_option]. rewrite Ht. do 3 f_equal. apply upd_upd. }
  rewrite (bind_quiet _ _ _ _ _ Hrw).
  set (s1 := upd (set_table (<[id := Some c]>) s) a (add_sets (unlabelled <$> r) (unlabelled <$> w) t)).
  assert (txidTrans_ s1 !! id = Some (Some a)) as Hp1 by done.
  pose proof (heap_upd (set_table (<[id := Some c]>) s) a (add_sets (unlabelled <$> r) (unlabelled <$> w) t)) as Ha1. fold s1 in Ha1.
  rewrite (bind_quiet _ _ _ _ _ (field_spec _ _ _ _ lsn Hp1 Ha1)). cbn [lsn add_sets]. unfold collected. cbn [lsn add_sets].
  destruct (lsn t =? -1).
  - rewrite (bind_quiet _ _ _ _ _ (assign_spec _ _ _ _ (set_lsn 0) Hp1 Ha1)). cbn [enqueue modify].
    unfold s1, upd, set_tasks, set_heap. cbn. by rewrite insert_insert_eq.
  - cbn [ret]. do 3 f_equal. unfold s1, set_tasks. cbn. by rewrite app_nil_r.
Qed.

(** A transaction the service has not seen is allocated first. *)
Definition alloc (s : DbService) (id : Z) : DbService :=
  set_txidTrans (<[id := Some (fresh (dom (heap_ s)))]>)
    (set_heap (<[fresh (dom (heap_ s)) := fresh_transaction id]>) s).

Lemma alloc_ok s id :
  wf s → txidTrans_ s !! id = None →
  wf (alloc s id) ∧ look (alloc s id) id = Some (fresh_transaction id) ∧
  (∀ id', id' ≠ id → look (alloc s id) id' = look s id') ∧ look s id = None.
Proof.
  intros Hwf Hn. set (a := fresh (dom (heap_ s))).
  assert (heap_ s !! a = None) as Ha by (apply not_elem_of_dom, is_fresh).
  split_and!.
  - intros id' p. cbn. destruct (decide (id' = id)) as [->|Hne].
    + rewrite lookup_insert_eq. intros [= <-]. exists a, (fresh_transaction id). by rewrite lookup_insert_eq.
    + rewrite lookup_insert_ne by done. intros Hp. destruct (Hwf _ _ Hp) as (b & t & -> & Hb & Ht).
      exists b, t. rewrite lookup_insert_ne; [done|]. fold a. congruence.
  - unfold look. cbn. by rewrite !lookup_insert_eq.
  - intros id' Hne. unfold look. cbn. rewrite lookup_insert_ne by done.
    destruct (txidTrans_ s !! id') as [p|] eqn:Hp; [|done]. destruct (Hwf _ _ Hp) as (b & t & -> & Hb & Ht).
    fold a. rewrite lookup_insert_ne; [done|congruence].
  - unfold look. by rewrite Hn.
Qed.

Lemma getReadWriteSet_alloc s c d :
  txidTrans_ s !! DbServiceMsg_txid d = None →
  getReadWriteSet c d s = getReadWriteSet c d (alloc s (DbServiceMsg_txid d)).
Proof.
  intros Hn. unfold getReadWriteSet. erewrite !(bind_quiet get) by done.
  rewrite Hn. replace (txidTrans_ (alloc s (DbServiceMsg_txid d)) !! DbServiceMsg_txid d)
    with (Some (Some (fresh (dom (heap_ s))))) by (cbn; by rewrite lookup_insert_eq).
  rewrite bind_ret_l. rewrite bind_assoc. by erewrite !(bind_quiet (modify _)) by done.
Qed.

Lemma data_msg_alloc s c id r w :
  txidTrans_ s !! id = None → onMessage c (data_msg id r w) s = onMessage c (data_msg id r w) (alloc s id).
Proof.
  intros Hn. unfold onMessage, data_msg. cbn [DbServiceMsg_cmd DbServiceMsg_txid].
  change (kData =? kData) with true. cbv iota. unfold bind at 1. by rewrite getReadWriteSet_alloc.
Qed.

(** One data message, on any well-formed service. *)
Lemma data_msg_ok s c id r w :
  wf s → ∃ s', onMessage (Some c) (data_msg id r w) s = ([], Ok (tt, s')) ∧ wf s' ∧
    look s' id = Some (collected r w (default (fresh_transaction id) (look s id))) ∧
    (∀ id', id' ≠ id → look s' id' = look s id') ∧
    tasks_ s' = tasks_ s ++ (if lsn (default (fresh_transaction id) (look s id)) =? -1 then [TGetLsn id] else []) ∧
    table_ s' = <[id := Some c]> (table_ s).
Proof.
  intros Hwf.
  assert (∃ s0, wf s0 ∧ look s0 id = Some (default (fresh_transaction id) (look s id)) ∧
    (∀ id', id' ≠ id → look s0 id' = look s id') ∧ tasks_ s0 = tasks_ s ∧ table_ s0 = table_ s ∧
    onMessage (Some c) (data_msg id r w) s = onMessage (Some c) (data_msg id r w) s0) as
    (s0 & Hwf0 & Hl0 & Hne0 & <- & <- & ->).
  { destruct (txidTrans_ s !! id) as [p|] eqn:Hp.
    - destruct (wf_look _ _ _ Hwf Hp) as (a & t & -> & Ha & Ht & Hl). exists s. by rewrite Hl.
    - destruct (alloc_ok s id Hwf Hp) as (H1 & H2 & H3 & H4). exists (alloc s id). rewrite H4.
      split_and!; try done. by apply data_msg_alloc. }
  set (t := default _ _) in *. destruct (look_some _ _ _ Hwf0 Hl0) as (a & Hp & Ha & Ht).
  eexists. split; [by apply data_msg_registered|].
  destruct (upd_ok (set_table (<[id := Some c]>) s0) id a t (collected r w t)) as (H1 & H2 & H3); try done.
  { unfold collected. cbn. by destruct (lsn t =? -1). }
  split_and!; try done. intros id' Hne. rewrite <- (Hne0 id' Hne). by apply H3.
Qed.

(** Messages handled one after the other. *)
Definition serve (l : list (conn * RootMsg)) : P unit := for_each l (λ '(c, m), onMessage (Some c) m).

Lemma serve_app l1 l2 s s1 :
  serve l1 s = ([], Ok (tt, s1)) → serve (l1 ++ l2) s = serve l2 s1.
Proof.
  unfold serve. revert s. induction l1 as [|[c m] l1 IH]; intros s; cbn [app for_each].
  - by intros [= ->].
  - intros Hs. destruct (onMessage (Some c) m s) as [es [[u s2]|f]] eqn:Hm.
    + unfold bind at 1. unfold bind at 1 in Hs. rewrite Hm in Hs |- *.
      destruct (for_each l1 _ s2) as [es' r'] eqn:Hr. injection Hs as [-> ->]%app_eq_nil ->.
      rewrite (IH s2) by done. by destruct (for_each l2 _ s1).
    + by rewrite (bind_fault _ _ _ _ _ Hm) in Hs.
Qed.

(** A data message of connection [c] for transaction [id]. *)
Record batch := mkBatch { b_conn : conn; b_id : Z; b_read : list Item; b_write : list Item }.
Definition batch_msg (b : batch) : conn * RootMsg := (b_conn b, data_msg (b_id b) (b_read b) (b_write b)).

(** The items of one of the sets, if it is there with all its strings. *)
Definition items_of (l : option (list Data)) : option (list Item) :=
  l ← l; match read_items l with Ok items => Some items | Err _ => None end.

(** A message as a batch; there is none if a set or a string is missing. *)
Definition batch_of (x : conn * DbServiceMsg) : option batch :=
  r ← items_of (DbServiceMsg_readSet x.2); w ← items_of (DbServiceMsg_writeSet x.2);
  Some (mkBatch x.1 (DbServiceMsg_txid x.2) r w).

Lemma read_items_err l f : read_items l = Err f → f = NullDeref.
Proof.
  induction l as [|[k a v] l IH]; [done|]. cbn. unfold read_item. cbn.
  destruct k, a, v; cbn; try (by intros [= <-]). destruct (read_items l) as [|f']; cbn; [done|]. intros [= <-]. by apply IH.
Qed.

Lemma read_items_inv l r : read_items l = Ok r → l = data_of <$> r.
Proof.
  revert r. induction l as [|[k a v] l IH]; intros r; cbn; [by intros [= <-]|]. unfold read_item. cbn.
  destruct k, a, v; cbn; try done. destruct (read_items l) as [r'|]; cbn; [|done]. intros [= <-]. rewrite fmap_cons. by rewrite (IH r').
Qed.

Lemma items_of_inv l r : items_of l = Some r → l = Some (data_of <$> r).
Proof. destruct l as [l|]; [|done]. cbn. destruct (read_items l) as [r'|] eqn:Hr; [|done]. intros [= ->]. by rewrite (read_items_inv _ _ Hr). Qed.

(** A complete message is handled as the batch that it holds. *)
Lemma batch_of_msg x b s :
  DbServiceMsg_cmd x.2 = kData → batch_of x = Some b →
  onMessage (Some x.1) (Msg_DbServiceMsg x.2) s = onMessage (Some (batch_msg b).1) (batch_msg b).2 s.
Proof.
  destruct x as [c [cmd id g rs ws]]. unfold batch_of. cbn [fst snd DbServiceMsg_cmd DbServiceMsg_readSet DbServiceMsg_writeSet DbServiceMsg_txid].
  intros ->. destruct (items_of rs) as [r|] eqn:Hr; [|done]. destruct (items_of ws) as [w|] eqn:Hw; [|done]. intros [= <-].
  by rewrite (items_of_inv _ _ Hr), (items_of_inv _ _ Hw).
Qed.

(** An incomplete one dereferences null, on any well-formed service. *)
Lemma incomplete_faults s c d :
  wf s → DbServiceMsg_cmd d = kData → batch_of (c, d) = None → onMessage (Some c) (Msg_DbServiceMsg d) s = ([], Err NullDeref).
Proof.
  intros Hwf Hcmd Hset. unfold onMessage. rewrite Hcmd. change (kData =? kData) with true. cbv iota.
  apply bind_fault.
  assert (∃ s0 a t, getReadWriteSet (Some c) d s = getReadWriteSet (Some c) d s0 ∧
    txidTrans_ s0 !! DbServiceMsg_txid d = Some (Some a) ∧ heap_ s0 !! a = Some t) as (s0 & a & t & -> & Hp & Ha).
  { destruct (txidTrans_ s !! DbServiceMsg_txid d) as [p|] eqn:Hp.
    - destruct (Hwf _ _ Hp) as (a & t & -> & Ha & Ht). by exists s, a, t.
    - destruct (alloc_ok _ _ Hwf Hp) as (Hwf' & Hl & _). destruct (look_some _ _ _ Hwf' Hl) as (a & Hp' & Ha & _).
      exists (alloc s (DbServiceMsg_txid d)), a, (fresh_transaction (DbServiceMsg_txid d)). split; [|done]. by apply getReadWriteSet_alloc. }
  unfold getReadWriteSet, bind. cbn [get]. rewrite Hp. cbn [ret]. rewrite (txidTrans_at_some _ _ _ Hp).
  cbn [deref]. unfold bind. cbn [get]. rewrite Ha. cbn [ret modify]. unfold batch_of in Hset. cbn [fst snd] in Hset.
  destruct (DbServiceMsg_readSet d) as [l|]; cbn; [|done]. cbn in Hset. destruct (read_items l) as [r|f] eqn:Hr; cbn; [|by rewrite (read_items_err _ _ Hr)].
  destruct (DbServiceMsg_writeSet d) as [l'|]; cbn; [|done]. cbn in Hset. destruct (read_items l') as [w|f] eqn:Hw; cbn; [done|].
  by rewrite (read_items_err _ _ Hw).
Qed.

(** The batches of one transaction, and the transactions by first batch. *)
Definition of_id (id : Z) (l : list batch) : list batch := filter (λ b, b_id b = id) l.
Definition first_ids (l : list batch) : list Z :=
  foldl (λ acc b, if decide (b_id b ∈ acc) then acc else acc ++ [b_id b]) [] l.

(** What the service must hold for a transaction after the batches [l]. *)
Definition transaction_of (id : Z) (l : list batch) : option transaction :=
  match of_id id l with
  | [] => None
  | bs => Some (mktransaction id (unlabelled <$> (bs ≫= b_read)) (unlabelled <$> (bs ≫= b_write)) false 0 false)
  end.

Lemma elem_of_first_ids id l : id ∈ first_ids l ↔ of_id id l ≠ [].
Proof.
  induction l as [|b l IH] using rev_ind; [split; [by intros ?%not_elem_of_nil|done]|].
  unfold first_ids, of_id in *. rewrite foldl_snoc, filter_app.
  case_decide as Hd.
  - destruct (decide (b_id b = id)) as [<-|Hne].
    + rewrite filter_cons_True by done. split; [by intros _ [_ ?]%app_eq_nil|done].
    + rewrite filter_cons_False by done. by rewrite filter_nil, app_nil_r.
  - rewrite elem_of_app, list_elem_of_singleton. destruct (decide (b_id b = id)) as [<-|Hne].
    + rewrite filter_cons_True by done. split; [by intros _ [_ ?]%app_eq_nil|by right].
    + rewrite filter_cons_False by done. rewrite filter_nil, app_nil_r. naive_solver.
Qed.

Lemma transaction_of_snoc_ne id l b : b_id b ≠ id → transaction_of id (l ++ [b]) = transaction_of id l.
Proof.
  intros Hne. unfold transaction_of, of_id. rewrite filter_app, filter_cons_False by done.
  by rewrite filter_nil, app_nil_r.
Qed.

Lemma transaction_of_snoc l b :
  transaction_of (b_id b) (l ++ [b]) =
    Some (collected (b_read b) (b_write b) (default (fresh_transaction (b_id b)) (transaction_of (b_id b) l))).
Proof.
  unfold transaction_of, of_id. rewrite filter_app, filter_cons_True by done. rewrite filter_nil.
  destruct (filter _ l) as [|b1 bs]; cbn [app].
  - cbn. by rewrite !app_nil_r.
  - rewrite app_comm_cons, !bind_app, !fmap_app. cbn [mbind list_bind from_option id]. rewrite !app_nil_r. done.
Qed.

Lemma first_ids_snoc l b :
  first_ids (l ++ [b]) = first_ids l ++ (if lsn (default (fresh_transaction (b_id b)) (transaction_of (b_id b) l)) =? -1
                                        then [b_id b] else []).
Proof.
  unfold first_ids at 1. rewrite foldl_snoc. fold (first_ids l). unfold transaction_of.
  case_decide as Hd; rewrite elem_of_first_ids in Hd.
  - destruct (of_id (b_id b) l); [done|]. cbn. by rewrite app_nil_r.
  - destruct (of_id (b_id b) l); [done|]. exfalso. by apply Hd.
Qed.

(** A run of complete messages. *)
Lemma batches_collected (l : list batch) :
  ∃ s, serve (batch_msg <$> l) DbService_new = ([], Ok (tt, s)) ∧ wf s ∧
    (∀ id, look s id = transaction_of id l) ∧ tasks_ s = TGetLsn <$> first_ids l.
Proof.
  induction l as [|b l (s & Hs & Hwf & Hl & Ht)] using rev_ind.
  { exists DbService_new. split_and!; [done|apply wf_new_service| |done]. intros id. unfold look. cbn. by rewrite lookup_empty. }
  destruct (data_msg_ok s (b_conn b) (b_id b) (b_read b) (b_write b) Hwf) as (s' & Hm & Hwf' & Hl' & Hne & Ht' & _).
  exists s'. rewrite fmap_app. rewrite (serve_app _ _ _ _ Hs). split_and!.
  - unfold serve. cbn. rewrite (bind_quiet _ _ _ _ _ Hm). done.
  - done.
  - intros id. destruct (decide (b_id b = id)) as [<-|Hid].
    + by rewrite Hl', Hl, transaction_of_snoc.
    + rewrite (transaction_of_snoc_ne _ _ _ Hid), Hne by done. apply Hl.
  - rewrite Ht', Hl, first_ids_snoc, fmap_app, Ht. f_equal. set (e := lsn _ =? -1). destruct e; reflexivity.
Qed.

Lemma serve_batches ms l s :
  Forall (λ x, DbServiceMsg_cmd x.2 = kData) ms → mapM batch_of ms = Some l →
  serve (prod_map id Msg_DbServiceMsg <$> ms) s = serve (batch_msg <$> l) s.
Proof.
  intros HF Hl%mapM_Some_1. revert s. induction Hl as [|x b ms l Hb _ IH]; intros s; [done|].
  apply Forall_cons_1 in HF as [Hx HF]. rewrite !fmap_cons. unfold serve. destruct x as [c d]. cbn [for_each prod_map fst snd id].
  pose proof (batch_of_msg (c, d) b s Hx Hb) as Hm. cbn [fst snd] in Hm. unfold bind, batch_msg in *. cbn [fst snd] in Hm. rewrite Hm.
  destruct (onMessage (Some (b_conn b)) _ s) as [es [[[] s1]|f]]; [|done].
  specialize (IH HF s1). unfold serve in IH. by rewrite IH.
Qed.

(** The first message without a batch. *)
Lemma mapM_None_split ms :
  mapM batch_of ms = None → ∃ ms1 x ms2 l, ms = ms1 ++ x :: ms2 ∧ mapM batch_of ms1 = Some l ∧ batch_of x = None.
Proof.
  induction ms as [|x ms IH]; [done|]. cbn [mapM]. destruct (batch_of x) as [b|] eqn:Hb; [|intros _; by exists [], x, ms, []]. cbn.
  destruct (mapM batch_of ms) as [l|]; [done|]. intros _. destruct (IH eq_refl) as (ms1 & y & ms2 & l & -> & Hl & Hy).
  exists (x :: ms1), y, ms2, (b :: l). split_and!; [done| |done]. cbn. by rewrite Hb, Hl.
Qed.

(** (C5) Data messages of any number of transactions, interleaved in any way
    and split into any number of messages, handled one after the other by a
    service that has just started.  If every message has both sets, with key,
    attribute and value in every item, the service holds exactly one
    transaction per id, whose read and write sets are the items of that id's
    messages in arrival order, and asks for exactly one lsn per transaction,
    in the order in which the transactions first appeared.  If one of them
    lacks a set or a string, as every data message of this repository's entity
    service does, the service ends in a null dereference. *)
Theorem dbs_collects (ms : list (conn * DbServiceMsg)) :
  Forall (λ x, DbServiceMsg_cmd x.2 = kData) ms →
  match mapM batch_of ms with
  | Some l =>
      ∃ s, serve (prod_map id Msg_DbServiceMsg <$> ms) DbService_new = ([], Ok (tt, s)) ∧
        (∀ id, look s id = transaction_of id l) ∧ tasks_ s = TGetLsn <$> first_ids l
  | None => serve (prod_map id Msg_DbServiceMsg <$> ms) DbService_new = ([], Err NullDeref)
  end.
Proof.
  intros HF. destruct (mapM batch_of ms) as [l|] eqn:Hl.
  - rewrite (serve_batches _ _ _ HF Hl). destruct (batches_collected l) as (s & Hs & _ & Hrest). by exists s.
  - destruct (mapM_None_split _ Hl) as (ms1 & [c d] & ms2 & l & -> & Hl1 & Hd). apply Forall_app in HF as [HF1 [Hx _]%Forall_cons_1].
    destruct (batches_collected l) as (s & Hs & Hwf & _). rewrite <- (serve_batches _ _ _ HF1 Hl1) in Hs.
    rewrite fmap_app, (serve_app _ _ _ _ Hs). cbn. apply bind_fault. by apply incomplete_faults.
Qed.

(** ** Commit and sequence number *)

Definition commit_msg (id : Z) (global : bool) : RootMsg := Msg_DbServiceMsg (mkDbServiceMsg kCommit id global None None).
Definition lsn_msg (id l : Z) : RootMsg := Msg_DbtmMsg (mkDbtmMsg kLsn id false l).

Lemma commit_msg_ok s c id a t g :
  txidTrans_ s !! id = Some (Some a) → heap_ s !! a = Some t →
  onMessage (Some c) (commit_msg id g) s = ([], Ok (tt,
    if 0 <? lsn t then set_tasks (λ l, l ++ [TJudgeLocal (Some a)]) (upd s a (set_needGlobal g t))
    else upd s a (set_alreadyCommit true (set_needGlobal g t)))).
Proof.
  intros Hp Ha. unfold onMessage, commit_msg. cbn [DbServiceMsg_cmd DbServiceMsg_txid DbServiceMsg_needGlobalConflict].
  change (kCommit =? kData) with false. change (kCommit =? kCommit) with true. cbv iota.
  rewrite (bind_quiet _ _ _ _ _ (assign_spec _ _ _ _ _ Hp Ha)).
  assert (txidTrans_ (upd s a (set_needGlobal g t)) !! id = Some (Some a)) as Hp1 by done.
  pose proof (heap_upd s a (set_needGlobal g t)) as Ha1.
  rewrite (bind_quiet _ _ _ _ _ (field_spec _ _ _ _ lsn Hp1 Ha1)). cbn [lsn set_needGlobal].
  destruct (0 <? lsn t).
  - by rewrite (bind_quiet _ _ _ _ _ (txidTrans_at_some _ _ _ Hp1)).
  - rewrite (assign_spec _ _ _ _ _ Hp1 Ha1). by rewrite upd_upd.
Qed.

Lemma lsn_msg_ok s c id a t l :
  txidTrans_ s !! id = Some (Some a) → heap_ s !! a = Some t →
  onMessage (Some c) (lsn_msg id l) s = ([], Ok (tt,
    if alreadyCommit t then set_tasks (λ q, q ++ [TJudgeLocal (Some a)]) (upd s a (set_lsn l t))
    else upd s a (set_lsn l t))).
Proof.
  intros Hp Ha. unfold onMessage, lsn_msg. cbn [DbtmMsg_cmd DbtmMsg_txid DbtmMsg_lsn].
  change (kLsn =? kJudgeConflit) with false. change (kLsn =? kLsn) with true. cbv iota.
  rewrite (bind_quiet _ _ _ _ _ (assign_spec _ _ _ _ _ Hp Ha)).
  assert (txidTrans_ (upd s a (set_lsn l t)) !! id = Some (Some a)) as Hp1 by done.
  pose proof (heap_upd s a (set_lsn l t)) as Ha1.
  rewrite (bind_quiet _ _ _ _ _ (field_spec _ _ _ _ alreadyCommit Hp1 Ha1)). cbn [alreadyCommit set_lsn].
  destruct (alreadyCommit t); [|done].
  by rewrite (bind_quiet _ _ _ _ _ (txidTrans_at_some _ _ _ Hp1)).
Qed.

(** Once a transaction has its sets, its commit and a positive sequence
    number may arrive in either order: exactly one local check is queued, on
    the object that holds the sets, the number and the global flag. *)
Theorem dbs_judges_once s id t l g c1 c2 ms :
  wf s → look s id = Some t → lsn t ≤ 0 → alreadyCommit t = false → 0 < l →
  ms = [(c1, commit_msg id g); (c2, lsn_msg id l)] ∨ ms = [(c2, lsn_msg id l); (c1, commit_msg id g)] →
  ∃ s' a t', serve ms s = ([], Ok (tt, s')) ∧ tasks_ s' = tasks_ s ++ [TJudgeLocal (Some a)] ∧
    heap_ s' !! a = Some t' ∧ readSet t' = readSet t ∧ writeSet t' = writeSet t ∧
    txid t' = id ∧ lsn t' = l ∧ needGlobalConflct t' = g.
Proof.
  intros Hwf Hl Hlsn Hc Hpos Hms. destruct (look_some _ _ _ Hwf Hl) as (a & Hp & Ha & Ht).
  destruct Hms as [-> | ->]; unfold serve; cbn [for_each].
  - rewrite (bind_quiet _ _ _ _ _ (commit_msg_ok _ _ _ _ _ _ Hp Ha)).
    destruct (Z.ltb_spec 0 (lsn t)); [lia|].
    erewrite (bind_quiet (onMessage _ (lsn_msg id l))) by (by eapply lsn_msg_ok; [|apply heap_upd]).
    cbn [alreadyCommit set_alreadyCommit]. eexists _, a, _. split; [done|]. split; [done|].
    split; [apply heap_upd|]. by split_and!.
  - rewrite (bind_quiet _ _ _ _ _ (lsn_msg_ok _ _ _ _ _ _ Hp Ha)). rewrite Hc.
    erewrite (bind_quiet (onMessage _ (commit_msg id g))) by (by eapply commit_msg_ok; [|apply heap_upd]).
    cbn [lsn set_lsn]. destruct (Z.ltb_spec 0 l); [|lia]. eexists _, a, _. split; [done|]. split; [done|].
    split; [apply heap_upd|]. by split_and!.
Qed.

(** The two orders of the commit and a number that is zero. *)
Lemma zero_lsn_waits s id t g c1 c2 :
  wf s → look s id = Some t → lsn t ≤ 0 → alreadyCommit t = false →
  (∃ s1, serve [(c2, lsn_msg id 0); (c1, commit_msg id g)] s = ([], Ok (tt, s1)) ∧ tasks_ s1 = tasks_ s) ∧
  (∃ s2 a, serve [(c1, commit_msg id g); (c2, lsn_msg id 0)] s = ([], Ok (tt, s2)) ∧
     tasks_ s2 = tasks_ s ++ [TJudgeLocal (Some a)]).
Proof.
  intros Hwf Hl Hlsn Hc. destruct (look_some _ _ _ Hwf Hl) as (a & Hp & Ha & Ht). unfold serve. cbn [for_each]. split.
  - rewrite (bind_quiet _ _ _ _ _ (lsn_msg_ok _ _ _ _ _ _ Hp Ha)). rewrite Hc.
    erewrite (bind_quiet (onMessage _ (commit_msg id g))) by (by eapply commit_msg_ok; [|apply heap_upd]).
    by eexists.
  - rewrite (bind_quiet _ _ _ _ _ (commit_msg_ok _ _ _ _ _ _ Hp Ha)).
    destruct (Z.ltb_spec 0 (lsn t)); [lia|].
    erewrite (bind_quiet (onMessage _ (lsn_msg id 0))) by (by eapply lsn_msg_ok; [|apply heap_upd]).
    by eexists _, _.
Qed.

(** With the number zero the two orders differ: when the number arrives
    before the commit, no check is queued and the transaction waits for a
    further number; the other order queues the check. *)
Theorem dbs_zero_lsn_waits s id t g c1 c2 :
  wf s → look s id = Some t → lsn t ≤ 0 → alreadyCommit t = false →
  (∃ s1, serve [(c2, lsn_msg id 0); (c1, commit_msg id g)] s = ([], Ok (tt, s1)) ∧ tasks_ s1 = tasks_ s) ∧
  (∃ s2 a, serve [(c1, commit_msg id g); (c2, lsn_msg id 0)] s = ([], Ok (tt, s2)) ∧
     tasks_ s2 = tasks_ s ++ [TJudgeLocal (Some a)]).
Proof. apply zero_lsn_waits. Qed.

(** ** Running the service *)

Section service.

Context `{Stale}.
Context (std_hash : string → Z) (cfg : Config.ConfigManager).
Context (mysql_query_ok : string → bool) (open_ok remove_ok : string → bool).

Abbreviation judge := (judgeLocalConflict std_hash cfg mysql_query_ok open_ok).
Abbreviation worker := (run_task std_hash cfg mysql_query_ok open_ok remove_ok).

(** What the process does next: handle a message, run a queued task, or learn
    that one of its own connections is up. *)
Inductive action :=
| AMsg (c : conn) (m : RootMsg)
| ATask
| ADbtl (c : conn)
| AGtm (c : conn).

Definition act (x : action) : P unit :=
  match x with
  | AMsg c m => onMessage (Some c) m
  | ATask => worker
  | ADbtl c => onDbtlConnection (Some c)
  | AGtm c => onGtmConnection (Some c)
  end.
Definition run (l : list action) : P unit := for_each l act.

(** A key whose bucket is empty faults; any other key is a conflict. *)
Lemma check_keys_cons d l bound s :
  check_keys std_hash (d :: l) bound s =
    ([], match Mhash.delLessThan std_hash (item_key d) bound (wcheck s) with
         | Ok h => Ok (true, set_wcheck (λ _, h) s)
         | Err f => Err f
         end).
Proof.
  cbn [check_keys]. rewrite (bind_quiet get _ _ s s) by done.
  destruct (Mhash.delLessThan std_hash (item_key d) bound (wcheck s)) as [h|f] eqn:Hd; [|done].
  rewrite (bind_quiet (lift (Ok h)) _ _ h s) by done.
  rewrite (bind_quiet (modify _) _ _ tt (set_wcheck (λ _, h) s)) by done.
  by rewrite (Mhash.delLessThan_exist _ _ _ _ _ Hd).
Qed.

Lemma delLessThan_new k bound : Mhash.delLessThan std_hash k bound Mhash.new = Err NullDeref.
Proof.
  unfold Mhash.delLessThan. destruct (Mhash.wf_bucket std_hash Mhash.new k Mhash.wf_new) as (p & c & Hp & -> & Hc).
  cbn [rbind]. rewrite Hc. cbn [of_option rbind].
  assert (c = []) as ->; [|done].
  change (Mhash.head Mhash.new) with (Mhash.calloc 23) in Hc. unfold Mhash.calloc in Hc. by apply lookup_replicate in Hc as [-> _].
Qed.

(** ** What every run keeps *)

Definition idle (t : transaction) : Prop := readSet t = [] ∧ writeSet t = [].

(** The registered transactions are live, no key was ever cached, and the
    transactions that passed the local check have no data and are no longer
    registered. *)
Definition inv (s : DbService) : Prop :=
  wf s ∧ wcheck s = Mhash.new ∧
  ∀ id p, dbtm_table_ s !! id = Some p →
    ∃ a t, p = Some a ∧ heap_ s !! a = Some t ∧ txid t = id ∧ idle t ∧ ∀ id', txidTrans_ s !! id' ≠ Some (Some a).

(** No log message carries data, and no write reaches a file. *)
Definition harmless (e : event) : Prop :=
  match e with
  | ESend _ (Msg_DbtlMsg m) => DbtlMsg_cmd m = kLog → DbtlMsg_data m = Some []
  | EWrite _ true _ => False
  | _ => True
  end.

Lemma inv_new : inv DbService_new.
Proof. split_and!; [apply wf_new_service|done|]. intros id p. cbn. by rewrite lookup_empty. Qed.

Lemma inv_upd s id a t t' :
  inv s → txidTrans_ s !! id = Some (Some a) → heap_ s !! a = Some t → txid t' = id → inv (upd s a t').
Proof.
  intros (Hwf & Hw & Hd) Hp Ha Ht'. split_and!; [by eapply upd_ok|done|].
  intros id2 p2 Hp2. destruct (Hd _ _ Hp2) as (a2 & t2 & -> & Ha2 & Ht2 & Hi & Hn). exists a2, t2. cbn.
  rewrite lookup_insert_ne; [done|]. intros ->. by apply (Hn id).
Qed.

Lemma inv_alloc s id : inv s → txidTrans_ s !! id = None → inv (alloc s id).
Proof.
  intros (Hwf & Hw & Hd) Hn. split_and!; [by apply alloc_ok|done|].
  assert (heap_ s !! fresh (dom (heap_ s)) = None) as Hf by (apply not_elem_of_dom, is_fresh).
  intros id2 p2 Hp2. destruct (Hd _ _ Hp2) as (a2 & t2 & -> & Ha2 & Ht2 & Hi & Hno). exists a2, t2.
  cbn. rewrite lookup_insert_ne by congruence. split_and!; try done; [apply Hi..|].
  intros id'. destruct (decide (id' = id)) as [->|]; [rewrite lookup_insert_eq; congruence|by rewrite lookup_insert_ne].
Qed.

(** Following [txidTrans_\[id\]]: an unknown id faults. *)
Lemma wp_follow Q {A} id (k : nat * transaction → P A) Φ s :
  inv s →
  (∀ a t, txidTrans_ s !! id = Some (Some a) → heap_ s !! a = Some t → txid t = id → wp Q (k (a, t)) Φ s) →
  wp Q (let* p := txidTrans_at id in let* x := deref p in k x) Φ s.
Proof.
  intros (Hwf & _) Hk. destruct (txidTrans_ s !! id) as [p|] eqn:Hp.
  - destruct (Hwf _ _ Hp) as (a & t & -> & Ha & Ht). unfold wp. rewrite (bind_quiet _ _ _ _ _ (txidTrans_at_some _ _ _ Hp)).
    cbv beta. rewrite (bind_quiet (deref (Some a)) _ s (a, t) s). { by apply Hk. }
    cbn. unfold bind. cbn. by rewrite Ha.
  - unfold wp, txidTrans_at, bind. cbn [get]. rewrite subscript_none by done. cbn. by split.
Qed.

Lemma wp_assign Q id f s :
  inv s → (∀ t, txid (f t) = txid t) → wp Q (assign id f) (λ _, inv) s.
Proof.
  intros Hi Hf. apply (wp_follow Q id (λ '(a, t), store a (f t))); [done|]. intros a t Hp Ha Ht.
  apply wp_modify. eapply inv_upd; [done..|]. by rewrite Hf.
Qed.

(** Reading a field also shows that the id is registered. *)
Lemma wp_field Q {A} id (f : transaction → A) s :
  inv s → wp Q (field id f) (λ _ s', inv s' ∧ ∃ a, txidTrans_ s' !! id = Some (Some a)) s.
Proof.
  intros Hi. apply (wp_follow Q id (λ '(_, t), ret (f t))); [done|]. intros a t Hp Ha Ht.
  apply wp_ret. by eauto.
Qed.

Lemma wp_txidTrans_at Q id a s :
  inv s → txidTrans_ s !! id = Some (Some a) → wp Q (txidTrans_at id) (λ _, inv) s.
Proof. intros Hi Hp. unfold wp. rewrite (txidTrans_at_some _ _ _ Hp). split; [constructor|]. cbn. naive_solver. Qed.

Lemma wp_enqueue Q t s : inv s → wp Q (enqueue t) (λ _, inv) s.
Proof. intros Hi. by apply wp_modify. Qed.

Lemma wp_LOG sev txt (Φ : unit → DbService → Prop) s : Φ tt s → wp harmless (LOG sev txt) Φ s.
Proof. intros HΦ. by apply wp_emit. Qed.

Lemma wp_sqlExec q (Φ : unit → DbService → Prop) s : Φ tt s → wp harmless (sqlExec mysql_query_ok q) Φ s.
Proof.
  intros HΦ. unfold sqlExec, MyDb_exeSQL. repeat wp_step; [done|].
  destruct (mysql_query_ok _); repeat (wp_step || apply wp_LOG); [done|done].
Qed.

(** [retResult] frees only a transaction that nothing else points to. *)
Lemma inv_drop s id a t :
  inv s → dbtm_table_ s !! id = Some (Some a) → heap_ s !! a = Some t →
  inv (set_heap (delete a) (set_dbtm_table (delete id) s)).
Proof.
  intros (Hwf & Hw & Hd) Hp Ha. destruct (Hd _ _ Hp) as (a0 & t0 & [= <-] & Ha0 & Ht0 & _ & Hno). simplify_eq.
  split_and!; [|done|].
  - intros id' p' Hp'. destruct (Hwf _ _ Hp') as (b & u & -> & Hb & Hu). exists b, u. cbn.
    rewrite lookup_delete_ne; [done|]. intros ->. by apply (Hno id').
  - intros id' p'. cbn. rewrite lookup_delete_Some. intros [Hne Hp'].
    destruct (Hd _ _ Hp') as (b & u & -> & Hb & Hu & Hi & Hn). exists b, u.
    rewrite lookup_delete_ne; [done|]. intros ->. simplify_eq.
Qed.

Lemma inv_same s s' :
  wcheck s' = wcheck s → txidTrans_ s' = txidTrans_ s → dbtm_table_ s' = dbtm_table_ s → heap_ s' = heap_ s → inv s → inv s'.
Proof. unfold inv, wf. by intros -> -> -> ->. Qed.

Lemma wp_retResult status id s : inv s → wp harmless (retResult status id) (λ _, inv) s.
Proof.
  intros Hi. unfold retResult. wp_step. wp_step.
  destruct (subscript None id (table_ s)) as [conn tbl]. repeat wp_step. apply wp_send. intros c _. split; [done|].
  set (s1 := set_table _ s). assert (inv s1) as Hi1 by by apply (inv_same s).
  unfold dbtm_table_at. repeat wp_step. destruct (dbtm_table_ s !! id) as [p|] eqn:Hp.
  - rewrite (subscript_some _ p) by done. destruct Hi1 as (Hwf & Hw & Hd).
    destruct (Hd id p Hp) as (a & t & -> & Ha & Ht & _). repeat wp_step. cbn [delete_ptr]. wp_step.
    apply (inv_same (set_heap (delete a) (set_dbtm_table (delete id) s1))); try done. by eapply inv_drop.
  - rewrite subscript_none by done. repeat wp_step. cbn [delete_ptr]. wp_step.
    apply (inv_same s1); try done. cbn. by rewrite delete_insert_eq, delete_id.
Qed.

Lemma wp_getReadWriteSet conn d s : inv s → wp harmless (getReadWriteSet conn d) (λ _, inv) s.
Proof.
  intros Hi. unfold getReadWriteSet. wp_step. wp_step. wp_step.
  apply (wp_mono _ _ (λ _, inv)).
  { destruct (txidTrans_ s !! DbServiceMsg_txid d) eqn:Hp; repeat wp_step; [done|by apply (inv_alloc s)]. }
  clear s Hi. intros [] s Hi.
  apply (wp_follow harmless _ (λ '(a, t), _)); [done|]. intros a t Hp Ha Ht.
  assert (∀ r w, inv (upd (set_table (<[txid t := conn]>) s) a (add_sets r w t))) as Hi2.
  { intros r w. eapply inv_upd; [by apply (inv_same s)|done|done|done]. }
  repeat (wp_step || (intros ??)). unfold store. repeat (wp_step || (intros ??)).
  match goal with |- inv ?x => change (inv (upd (upd (set_table (<[txid t := conn]>) s) a (add_sets a1 [] t)) a (add_sets a1 a3 t))) end.
  by rewrite upd_upd.
Qed.

Lemma wp_onMessage c m s : inv s → wp harmless (onMessage (Some c) m) (λ _, inv) s.
Proof.
  intros Hi. destruct m as [| | |d| | | |d| |]; try (by apply wp_ret); unfold onMessage.
  - destruct (_ =? kData); [|destruct (_ =? kCommit); [|by apply wp_LOG]]; wp_step.
    + eapply wp_mono; [by apply wp_getReadWriteSet|]. intros [] s1 Hi1. wp_step.
      eapply wp_mono; [by apply wp_field|]. intros l s2 [Hi2 _]. destruct (l =? -1); [|by apply wp_ret]. wp_step.
      eapply wp_mono; [by apply wp_assign|]. intros [] s3 Hi3. by apply wp_enqueue.
    + eapply wp_mono; [by apply wp_assign|]. intros [] s1 Hi1. wp_step.
      eapply wp_mono; [by apply wp_field|]. intros l s2 [Hi2 [a Ha]]. destruct (0 <? l); [|by apply wp_assign]. wp_step.
      eapply wp_mono; [by eapply wp_txidTrans_at|]. intros p s3 Hi3. by apply wp_enqueue.
  - destruct (_ =? kJudgeConflit); [by apply wp_enqueue|].
    destruct (_ =? kLsn); [|destruct (_ || _); [by apply wp_retResult|by apply wp_LOG]]. wp_step.
    eapply wp_mono; [by apply wp_assign|]. intros [] s1 Hi1. wp_step.
    eapply wp_mono; [by apply wp_field|]. intros b s2 [Hi2 [a Ha]]. destruct b; [|by apply wp_ret]. wp_step.
    eapply wp_mono; [by eapply wp_txidTrans_at|]. intros p s3 Hi3. by apply wp_enqueue.
Qed.

Lemma wp_deref Q {A} p (k : nat * transaction → P A) Φ s :
  (∀ a t, p = Some a → heap_ s !! a = Some t → wp Q (k (a, t)) Φ s) → wp Q (let* x := deref p in k x) Φ s.
Proof.
  intros Hk. wp_step. unfold deref. destruct p as [a|]; [|by apply wp_throw]. repeat wp_step.
  destruct (heap_ s !! a) as [t|] eqn:Ha; [|by apply wp_throw]. wp_step. by apply Hk.
Qed.

(** Caching a transaction without data only sends its empty log. *)
Lemma wp_cache_idle a t s :
  heap_ s !! a = Some t → idle t → inv s → wp harmless (cacheRWSet std_hash (Some a)) (λ _, inv) s.
Proof.
  intros Ha [Hr Hw] Hi. unfold cacheRWSet. apply (wp_deref _ _ (λ '(_, t), _)). intros a' t' [= <-] Ha'. simplify_eq.
  rewrite Hw. cbn [for_each]. repeat wp_step. unfold sendLog. repeat wp_step. apply wp_send. intros c _.
  split; [|done]. intros _. cbn. by rewrite Hw.
Qed.

Lemma wp_writeToDisk t (Φ : unit → DbService → Prop) s :
  Φ tt s → wp harmless (writeToDiskAndSql cfg mysql_query_ok open_ok t) Φ s.
Proof.
  intros HΦ. unfold writeToDiskAndSql, sqlInsert. repeat wp_step; [done|].
  destruct (open_ok _); repeat (wp_step || apply wp_LOG); try done; by apply wp_sqlExec.
Qed.

(** On the empty table the two loops find no conflict only without keys. *)
Lemma wp_check_new l bound s :
  wcheck s = Mhash.new → wp harmless (check_keys std_hash l bound) (λ c s', c = false ∧ l = [] ∧ s' = s) s.
Proof.
  intros Hw. destruct l as [|d l]; [by apply wp_ret|]. unfold wp.
  rewrite check_keys_cons, Hw, delLessThan_new. by split.
Qed.

(** A transaction that passes moves from one table to the other. *)
Lemma inv_accept s a t :
  inv s → heap_ s !! a = Some t → idle t →
  inv (set_txidTrans (delete (txid t)) (set_dbtm_table (<[txid t := Some a]>) s)).
Proof.
  intros (Hwf & Hw & Hd) Ha Hidle. split_and!; [|done|].
  - intros id p. cbn. rewrite lookup_delete_Some. intros [_ Hp]. by apply Hwf.
  - intros id p. cbn. destruct (decide (id = txid t)) as [->|Hne].
    + rewrite lookup_insert_eq. intros [= <-]. exists a, t. split_and!; try done; [apply Hidle..|].
      intros id'. rewrite lookup_delete_Some. intros [Hne Hp]. destruct (Hwf _ _ Hp) as (? & ? & [= <-] & ? & ?). simplify_eq.
    + rewrite lookup_insert_ne by done. intros Hp. destruct (Hd _ _ Hp) as (b & u & -> & Hb & Hu & Hi & Hno).
      exists b, u. split_and!; try done; [apply Hi..|]. intros id'. rewrite lookup_delete_Some. intros [_ Hp']. by apply (Hno id').
Qed.

Lemma wp_judge p s : inv s → wp harmless (judge p) (λ _, inv) s.
Proof.
  intros Hi. unfold judgeLocalConflict. apply (wp_deref _ _ (λ '(a, t), _)). intros a t -> Ha. wp_step.
  apply wp_writeToDisk. wp_step. pose proof Hi as (_ & Hw & _).
  eapply wp_mono; [by apply wp_check_new|]. intros c1 s1 (-> & Hr & ->). wp_step.
  eapply wp_mono; [by apply wp_check_new|]. intros c2 s1 (-> & Hw' & ->). cbn [negb]. repeat wp_step.
  apply wp_sqlExec. set (s1 := set_txidTrans _ _).
  assert (inv s1) as Hi1 by by apply inv_accept.
  destruct (needGlobalConflct t).
  - unfold judgeGlobalConflict. repeat wp_step. by apply wp_send.
  - by eapply wp_cache_idle.
Qed.

Lemma wp_solve d s : inv s → wp harmless (solve std_hash cfg mysql_query_ok remove_ok d) (λ _, inv) s.
Proof.
  intros Hi. unfold solve. repeat wp_step. intros d' _. destruct (_ =? kJudgeConflit); [|by apply wp_ret].
  destruct (DbtmMsg_isGlobalConflict d'); cbn [negb].
  - wp_step. apply wp_LOG. wp_step. unfold sqlDelete. wp_step. apply wp_sqlExec. repeat wp_step; [done|].
    destruct (remove_ok _); [wp_step|apply wp_LOG]; by apply wp_retResult.
  - unfold dbtm_table_at. repeat wp_step. destruct (dbtm_table_ s !! DbtmMsg_txid d') as [p|] eqn:Hp.
    + rewrite (subscript_some _ p) by done. repeat wp_step. destruct Hi as (Hwf & Hw & Hd) eqn:Hi0.
      destruct (Hd _ _ Hp) as (a & t & -> & Ha & Ht & Hidle & _).
      eapply wp_mono; [eapply wp_cache_idle; [exact Ha|done|]|].
      * by apply (inv_same s).
      * intros [] s1 Hi1. by apply wp_sqlExec.
    + rewrite subscript_none by done. repeat wp_step. by apply (wp_deref _ _ (λ '(_, t), _)).
Qed.

Lemma wp_act x s : inv s → wp harmless (act x) (λ _, inv) s.
Proof.
  intros Hi. destruct x as [c m| |c|c]; cbn [act].
  - by apply wp_onMessage.
  - unfold run_task. repeat wp_step. destruct (tasks_ s) as [|k rest]; [by apply wp_ret|]. repeat wp_step.
    set (s1 := set_tasks _ s). assert (inv s1) as Hi1 by by apply (inv_same s). destruct k.
    + unfold getLsn. repeat wp_step. by apply wp_send.
    + by apply wp_judge.
    + by apply wp_solve.
  - unfold onDbtlConnection. wp_step. apply wp_LOG. wp_step. by apply (inv_same s).
  - unfold onGtmConnection. wp_step. apply wp_LOG. wp_step. by apply (inv_same s).
Qed.

Lemma run_inv l : wp harmless (run l) (λ _, inv) DbService_new.
Proof. apply wp_for_each; [|apply inv_new]. intros x s _. apply wp_act. Qed.

Lemma harmless_sent es c m :
  Forall harmless es → (c, Msg_DbtlMsg m) ∈ sent es → DbtlMsg_cmd m = kLog → DbtlMsg_data m = Some [].
Proof.
  induction 1 as [|e es He HF IH]; [by intros ?%not_elem_of_nil|].
  destruct e; cbn; try done. rewrite elem_of_cons. intros [[= <- <-]|?]; auto.
Qed.

Lemma harmless_written es : Forall harmless es → written es = [].
Proof. induction 1 as [|[] es He HF IH]; try done. by destruct writable. Qed.

(** With handlers and tasks that run one after the other, each as a whole
    (DbsPool.v has the interleavings, where an item can slip in after the
    check): whatever messages arrive, in whatever order the pool runs its
    tasks, and whatever MySQL, the file system and freed buffers do, every log
    the service sends to DBTL is empty.  Checking a transaction that has data
    starts by following the null head of an empty bucket, so no write set is
    ever cached and none is ever logged. *)
Theorem dbs_commits_nothing (l : list action) c m :
  (c, Msg_DbtlMsg m) ∈ sent (emitted (run l DbService_new)) →
  DbtlMsg_cmd m = kLog → DbtlMsg_data m = Some [].
Proof. apply harmless_sent. apply run_inv. Qed.

(** No run of the service puts a byte of a transaction log on disk: the
    file is opened for reading only. *)
Theorem dbs_log_never_on_disk (l : list action) : written (emitted (run l DbService_new)) = [].
Proof. apply harmless_written. apply run_inv. Qed.

(** The SQL and the file of a transaction send nothing and change no state. *)
Lemma sqlExec_spec q s : ∃ es, sqlExec mysql_query_ok q s = (es, Ok (tt, s)) ∧ sent es = [].
Proof. unfold sqlExec, MyDb_exeSQL, bind. cbn. destruct (mysql_query_ok _); cbn; by eexists. Qed.

Lemma writeToDisk_spec t s :
  ∃ es, writeToDiskAndSql cfg mysql_query_ok open_ok t s = (es, Ok (tt, s)) ∧ sent es = [].
Proof.
  unfold writeToDiskAndSql, sqlInsert.
  match goal with |- context [sqlExec _ ?q] => destruct (sqlExec_spec q s) as (es & Hs & Hes) end.
  unfold bind. cbn [emit]. destruct (open_ok _); cbn [ret LOG emit]; rewrite Hs; eexists; (split; [done|]);
    cbn; by rewrite ?Hes.
Qed.

(** Both loops together: only a transaction without items comes through. *)
Lemma checks_spec t s x s2 es :
  ¬ idle t →
  bind (check_keys std_hash (readSet t) (lsn t))
    (λ c1 : bool, if c1 then ret true else check_keys std_hash (writeSet t) (lsn t)) s = (es, Ok (x, s2)) →
  es = [] ∧ x = true ∧ ∃ h, s2 = set_wcheck (λ _, h) s.
Proof.
  intros Hne. unfold bind. destruct (readSet t) as [|d r] eqn:Hr.
  - destruct (writeSet t) as [|d w] eqn:Hw; [by destruct Hne|].
    change (check_keys std_hash [] (lsn t) s) with ([] : list event, Ok (false, s)). cbv iota.
    rewrite (check_keys_cons d w). destruct (Mhash.delLessThan _ _ _ _) as [h|]; [|done].
    intros [= <- <- <-]. by eauto.
  - rewrite check_keys_cons. destruct (Mhash.delLessThan _ _ _ _) as [h|]; [|done]. intros [= <- <- <-]. by eauto.
Qed.

(** Reporting to an ES about a transaction that no table of [Dbtm] holds. *)
Lemma retResult_spec status id s es u s' :
  dbtm_table_ s !! id = None → retResult status id s = (es, Ok (u, s')) →
  ∃ c, table_ s !! id = Some (Some c) ∧ s' = s ∧
    es = [ESend c (Msg_ESMsg (mkESMsg status id false 0 None None None))].
Proof.
  intros Hd. unfold retResult, dbtm_table_at, bind. cbn [get].
  destruct (table_ s !! id) as [[c|]|] eqn:Hc; [rewrite (subscript_some _ (Some c)) by done|
    rewrite (subscript_some _ None) by done; done|rewrite subscript_none by done; done].
  cbn [modify send emit get]. rewrite subscript_none by done. cbn. intros [= <- _ <-]. exists c. split_and!; try done.
  unfold set_dbtm_table, set_table. cbn. rewrite delete_insert_eq, delete_id by done. by destruct s.
Qed.

(** The local check, on any state, of a transaction with at least one
    item: if it returns, the check reported a conflict; the transaction's ES
    gets [kTranFail], the GTM is told when the transaction is global, and
    nothing else is sent. *)
Theorem dbs_check_reports_conflict s a t u s' es :
  heap_ s !! a = Some t → ¬ idle t → dbtm_table_ s !! txid t = None →
  judge (Some a) s = (es, Ok (u, s')) →
  ∃ c, table_ s !! txid t = Some (Some c) ∧
    ∃ tail, sent es = (c, Msg_ESMsg (mkESMsg kTranFail (txid t) false 0 None None None)) :: tail ∧
      if needGlobalConflct t
      then ∃ g, gtmConn_ s = Some g ∧ tail = [(g, Msg_GtmMsg (mkGtmMsg kJudgeConflit (txid t) true None))]
      else tail = [].
Proof.
  intros Ha Hne Hd Hj. unfold judgeLocalConflict in Hj.
  rewrite (bind_quiet (deref (Some a)) _ s (a, t) s) in Hj by (cbn; unfold bind; cbn; by rewrite Ha).
  apply bind_ok in Hj as ([] & s1 & es1 & es2 & Hdisk & Hj & ->).
  destruct (writeToDisk_spec t s) as (esd & Hd' & Hesd). rewrite Hdisk in Hd'. injection Hd' as -> ->.
  rewrite <- bind_assoc in Hj. apply bind_ok in Hj as (x & s2 & es3 & es4 & Hc & Hj & ->).
  apply checks_spec in Hc as (-> & -> & h & ->); [|done]. cbn [negb] in Hj.
  apply bind_ok in Hj as ([] & s3 & es5 & es6 & [= <- <-] & Hj & ->).
  apply bind_ok in Hj as ([] & s4 & es7 & es8 & Hret & Hj & ->).
  apply retResult_spec in Hret as (c & Hc & -> & ->); [|done]. exists c. split; [done|].
  rewrite (bind_quiet (deref (Some a)) _ _ (a, t) (set_wcheck (λ _, h) s)) in Hj by (cbn; unfold bind; cbn; by rewrite Ha).
  rewrite !sent_app, Hesd. cbn. eexists. split; [done|]. destruct (needGlobalConflct t).
  - unfold bind in Hj. cbn [get] in Hj. destruct (gtmConn_ s) as [g|] eqn:Hg; cbn in Hj; rewrite Hg in Hj; [|done].
    injection Hj as <- _ _. by exists g.
  - by injection Hj as <- _ _.
Qed.

(** On the table of a service that has cached nothing, the check of a
    transaction with at least one item never finishes: it faults on the null
    head of the bucket of the first key. *)
Theorem dbs_fresh_check_faults s a t :
  wcheck s = Mhash.new → heap_ s !! a = Some t → ¬ idle t → outcome (judge (Some a) s) = Err NullDeref.
Proof.
  intros Hw Ha Hne. unfold judgeLocalConflict, outcome.
  rewrite (bind_quiet (deref (Some a)) _ s (a, t) s) by (cbn; unfold bind; cbn; by rewrite Ha).
  destruct (writeToDisk_spec t s) as (esd & Hd & _). rewrite (bind_step _ _ _ _ _ _ Hd). cbn [snd].
  destruct (readSet t) as [|d r] eqn:Hr.
  - destruct (writeSet t) as [|d w] eqn:Hwr; [by destruct Hne|].
    rewrite (bind_quiet (check_keys std_hash [] _) _ s false s) by done. cbv iota.
    by rewrite (bind_fault _ _ _ [] NullDeref) by by rewrite check_keys_cons, Hw, delLessThan_new.
  - by rewrite (bind_fault _ _ _ [] NullDeref) by by rewrite check_keys_cons, Hw, delLessThan_new.
Qed.

(** A transaction without items passes: it moves to the table of [Dbtm],
    and the service sends exactly one message: the request for the global
    check when the commit asked for it, else the (empty) log. *)
Theorem dbs_accepts_empty s a t g d :
  heap_ s !! a = Some t → idle t → gtmConn_ s = Some g → dbtlConn_ s = Some d →
  ∃ es s', judge (Some a) s = (es, Ok (tt, s')) ∧
    dbtm_table_ s' = <[txid t := Some a]> (dbtm_table_ s) ∧ txidTrans_ s' = delete (txid t) (txidTrans_ s) ∧
    sent es = [if needGlobalConflct t then (g, Msg_GtmMsg (mkGtmMsg kJudgeConflit (txid t) false None))
               else (d, Msg_DbtlMsg (mkDbtlMsg kLog (txid t) (Some [])))].
Proof.
  intros Ha [Hr Hw] Hg Hd. unfold judgeLocalConflict.
  rewrite (bind_quiet (deref (Some a)) _ s (a, t) s) by (cbn; unfold bind; cbn; by rewrite Ha).
  destruct (writeToDisk_spec t s) as (esd & Hds & Hesd). rewrite (bind_step _ _ _ _ _ _ Hds).
  rewrite Hr, Hw. cbn [check_keys]. do 2 (rewrite bind_ret_l; cbv beta iota). cbn [negb].
  erewrite !(bind_quiet (modify _)) by done. set (s1 := set_txidTrans _ _).
  unfold sqlUpdateNeedLocalConflict. destruct (sqlExec_spec (sqlUpdateNeedLocalConflict_stmt (txid t)) s1) as (esq & Hq & Hesq).
  rewrite (bind_step _ _ _ _ _ _ Hq). destruct (needGlobalConflct t).
  - eexists _, s1. unfold judgeGlobalConflict, bind. cbn [get]. change (gtmConn_ s1) with (gtmConn_ s). rewrite Hg.
    split; [done|]. split; [done|]. split; [done|]. cbn. by rewrite !sent_app, Hesd, Hesq.
  - eexists _, s1. unfold cacheRWSet.
    rewrite (bind_quiet (deref (Some a)) _ s1 (a, t) s1) by (cbn; unfold bind; cbn; by rewrite Ha).
    rewrite Hw. cbn [for_each]. rewrite bind_ret_l. unfold sendLog, bind. cbn [get].
    change (dbtlConn_ s1) with (dbtlConn_ s). rewrite Hd, Hw.
    split; [done|]. split; [done|]. split; [done|]. cbn. by rewrite !sent_app, Hesd, Hesq.
Qed.

End service.

(** ** Messages without one of the sets *)

(** A data message without one of the sets faults on any well-formed service. *)
Lemma needs_both_sets s c d :
  wf s → DbServiceMsg_cmd d = kData → DbServiceMsg_readSet d = None ∨ DbServiceMsg_writeSet d = None →
  onMessage (Some c) (Msg_DbServiceMsg d) s = ([], Err NullDeref).
Proof.
  intros Hwf Hcmd Hset. apply incomplete_faults; [done..|]. unfold batch_of. cbn [fst snd].
  destruct Hset as [-> | ->]; [done|]. by destruct (items_of (DbServiceMsg_readSet d)).
Qed.

(** The data message that ES sends carries one of the two sets; the other
    is absent from the buffer, and asking it for its size dereferences null:
    on any well-formed service the handler faults. *)
Theorem dbs_needs_both_sets s c d :
  wf s → DbServiceMsg_cmd d = kData → DbServiceMsg_readSet d = None ∨ DbServiceMsg_writeSet d = None →
  onMessage (Some c) (Msg_DbServiceMsg d) s = ([], Err NullDeref).
Proof. apply needs_both_sets. Qed.

(** ** The statements *)

Lemma stoi_char c :
  match stoi (String c ";") with
  | Ok z => 0 ≤ z ≤ 9 ∧ Z.of_N (Ascii.N_of_ascii c) = z + 48
  | Err _ => True
  end.
Proof. destruct c as [[] [] [] [] [] [] [] []]; vm_compute; try done; by split. Qed.

(** A number appended as one character never reads as its decimal digits. *)
Lemma char_of_int_digits id : 0 ≤ id → int32_ok id → char_of_int id +:+ ";" ≠ to_string id +:+ ";".
Proof.
  intros Hid Hok Heq. assert (stoi (to_string id +:+ ";") = Ok id) as Hst by by apply stoi_to_string.
  rewrite <- Heq in Hst. unfold char_of_int in Hst. cbn [String.append] in Hst.
  pose proof (stoi_char (ascii_of_N (Z.to_N (id mod 256)))) as Hc. rewrite Hst in Hc. destruct Hc as [Hr Hc].
  rewrite N_ascii_embedding in Hc; [|pose proof (Z.mod_pos_bound id 256); lia].
  rewrite Z2N.id in Hc by (pose proof (Z.mod_pos_bound id 256); lia).
  rewrite Z.mod_small in Hc; lia.
Qed.

Lemma string_app_inj_l a b c : a +:+ b = a +:+ c → b = c.
Proof. induction a as [|x a IH]; cbn; [done|]. intros [= ?]. auto. Qed.

(** The three statements that name a transaction append its [int] id as a
    single character: for no id do they select the row that [sqlInsert] wrote
    with the id's decimal digits. *)
Theorem dbs_sql_selects_no_row id :
  0 ≤ id → int32_ok id →
  sqlDelete_stmt id ≠ "DELETE FROM transInfo         where txid = " +:+ to_string id +:+ ";" ∧
  sqlUpdateNeedLocalConflict_stmt id ≠ "UPDATE transInfo SET needLocalConflict=false WHERE txid=" +:+ to_string id +:+ ";" ∧
  sqlUpdateNeedGlobalConflict_stmt id ≠ "UPDATE transInfo SET needGlobalConflict=false WHERE txid=" +:+ to_string id +:+ ";".
Proof.
  intros Hid Hok. pose proof (char_of_int_digits id Hid Hok) as Hne.
  split_and!; intros Heq%string_app_inj_l; by apply Hne.
Qed.

(** ** Witnesses *)

Definition item0 : Item := mkItem "row" "" "col" "val".
Definition service7 : DbService := alloc DbService_new 7.

Lemma wf_service7 : wf service7.
Proof. apply alloc_ok; [apply wf_new_service|reflexivity]. Qed.

Lemma dbs_judges_once_witness :
  ∃ s' a t', serve [(1%nat, commit_msg 7 true); (2%nat, lsn_msg 7 5)] service7 = ([], Ok (tt, s')) ∧
    tasks_ s' = tasks_ service7 ++ [TJudgeLocal (Some a)] ∧ heap_ s' !! a = Some t' ∧ lsn t' = 5.
Proof.
  destruct (dbs_judges_once service7 7 (fresh_transaction 7) 5 true 1 2
    [(1%nat, commit_msg 7 true); (2%nat, lsn_msg 7 5)]) as (s' & a & t' & H1 & H2 & H3 & _ & _ & _ & H4 & _).
  - exact wf_service7.
  - vm_compute. reflexivity.
  - cbn. lia.
  - reflexivity.
  - lia.
  - left. reflexivity.
  - exists s', a, t'. repeat split; assumption.
Defined.

Lemma dbs_zero_lsn_waits_witness :
  ∃ s1, serve [(2%nat, lsn_msg 7 0); (1%nat, commit_msg 7 true)] service7 = ([], Ok (tt, s1)) ∧ tasks_ s1 = [].
Proof.
  destruct (dbs_zero_lsn_waits service7 7 (fresh_transaction 7) true 1 2) as [(s1 & H1 & H2) _].
  - exact wf_service7.
  - vm_compute. reflexivity.
  - cbn. lia.
  - reflexivity.
  - exists s1. split; [exact H1|exact H2].
Defined.

(** Two transactions in three messages, and the insert of the entity service. *)
Definition demo_data : list (conn * DbServiceMsg) :=
  [(1%nat, mkDbServiceMsg kData 7 false (Some [mkData (Some "a") (Some "x") (Some "1")]) (Some []));
   (2%nat, mkDbServiceMsg kData 8 true (Some []) (Some [mkData (Some "b") (Some "y") (Some "2")]));
   (1%nat, mkDbServiceMsg kData 7 false (Some []) (Some [mkData (Some "c") (Some "z") (Some "3")]))].
Definition demo_insert : conn * DbServiceMsg := (1%nat, mkDbServiceMsg kData 9 false None (Some [mkData (Some "d") (Some "x") (Some "4")])).

Lemma dbs_collects_witness :
  (∃ s, serve (prod_map id Msg_DbServiceMsg <$> demo_data) DbService_new = ([], Ok (tt, s)) ∧
     look s 7 = Some (mktransaction 7 [mkItem "a" "" "x" "1"] [mkItem "c" "" "z" "3"] false 0 false) ∧ tasks_ s = [TGetLsn 7; TGetLsn 8]) ∧
  serve (prod_map id Msg_DbServiceMsg <$> (demo_data ++ [demo_insert])) DbService_new = ([], Err NullDeref).
Proof.
  assert (Forall (λ x, DbServiceMsg_cmd x.2 = kData) (demo_data ++ [demo_insert])) as HF by (repeat constructor).
  split; [|exact (dbs_collects (demo_data ++ [demo_insert]) HF)].
  destruct (dbs_collects demo_data (proj1 (proj1 (Forall_app _ _ _) HF))) as (s & Hs & Hl & Ht). exists s. split_and!; [exact Hs| |exact Ht].
  rewrite (Hl 7). reflexivity.
Defined.

(** A run that sends a log: an empty transaction, its number and its commit. *)
Definition empty_run : list action :=
  [ADbtl 8; AMsg 1 (data_msg 7 [] []); ATask; AMsg 8 (lsn_msg 7 3); AMsg 1 (commit_msg 7 false); ATask].
Definition all_ok (_ : string) : bool := true.
Definition cfg0 : Config.ConfigManager := Config.ConfigManager_new.

Lemma dbs_commits_nothing_witness :
  (8%nat, Msg_DbtlMsg (mkDbtlMsg kLog 7 (Some []))) ∈
    sent (emitted (run (H := stale_caught) Mhash.hash_first cfg0 all_ok all_ok all_ok empty_run DbService_new)) ∧
  DbtlMsg_data (mkDbtlMsg kLog 7 (Some [])) = Some [].
Proof.
  assert ((8%nat, Msg_DbtlMsg (mkDbtlMsg kLog 7 (Some []))) ∈
    sent (emitted (run (H := stale_caught) Mhash.hash_first cfg0 all_ok all_ok all_ok empty_run DbService_new))) as Hin
    by (vm_compute; right; left).
  split; [exact Hin|].
  refine (dbs_commits_nothing (H := stale_caught) Mhash.hash_first cfg0 all_ok all_ok all_ok empty_run 8
    (mkDbtlMsg kLog 7 (Some [])) Hin _). reflexivity.
Defined.

(** A service whose table already holds the key of the transaction. *)
Definition busy : DbService :=
  mkDbService {[ 7 := Some 1%nat ]} ∅ [] ∅ (Mhash.mkMhash (<[16%nat := [Mhash.mkInfo "row" 9]]> (Mhash.calloc 23)) 0 1)
    None (Some 4%nat) {[ 0%nat := mktransaction 7 [] [item0] true 5 false ]}.

Lemma dbs_check_reports_conflict_witness :
  ∃ es u s', judgeLocalConflict (λ _, 16) cfg0 all_ok all_ok (Some 0%nat) busy = (es, Ok (u, s')) ∧
    ∃ c tail, sent es = (c, Msg_ESMsg (mkESMsg kTranFail 7 false 0 None None None)) :: tail.
Proof.
  eexists _, _, _. split; [vm_compute; reflexivity|].
  edestruct (dbs_check_reports_conflict (λ _, 16) cfg0 all_ok all_ok busy 0%nat (mktransaction 7 [] [item0] true 5 false))
    as (c & _ & tail & Hs & _).
  - vm_compute. reflexivity.
  - intros [_ Hw]. discriminate Hw.
  - vm_compute. reflexivity.
  - vm_compute. reflexivity.
  - exists c, tail. exact Hs.
Defined.

Lemma dbs_fresh_check_faults_witness :
  outcome (judgeLocalConflict Mhash.hash_first cfg0 all_ok all_ok (Some 0%nat)
    (upd service7 0 (mktransaction 7 [item0] [] false 5 true))) = Err NullDeref.
Proof.
  apply (dbs_fresh_check_faults Mhash.hash_first cfg0 all_ok all_ok _ 0%nat (mktransaction 7 [item0] [] false 5 true)).
  - reflexivity.
  - vm_compute. reflexivity.
  - intros [Hr _]. discriminate Hr.
Defined.

Lemma dbs_accepts_empty_witness :
  ∃ es s', judgeLocalConflict Mhash.hash_first cfg0 all_ok all_ok (Some 0%nat)
      (set_gtmConn (Some 4%nat) (set_dbtlConn (Some 8%nat) service7)) = (es, Ok (tt, s')) ∧
    sent es = [(8%nat, Msg_DbtlMsg (mkDbtlMsg kLog 7 (Some [])))].
Proof.
  destruct (dbs_accepts_empty Mhash.hash_first cfg0 all_ok all_ok
    (set_gtmConn (Some 4%nat) (set_dbtlConn (Some 8%nat) service7)) 0%nat (fresh_transaction 7) 4%nat 8%nat)
    as (es & s' & Hj & _ & _ & Hs).
  - vm_compute. reflexivity.
  - split; reflexivity.
  - reflexivity.
  - reflexivity.
  - exists es, s'. split; [exact Hj|exact Hs].
Defined.

Lemma dbs_needs_both_sets_witness :
  onMessage (Some 1%nat) (Msg_DbServiceMsg (mkDbServiceMsg kData 7 false (Some []) None)) service7 = ([], Err NullDeref).
Proof. apply dbs_needs_both_sets; [exact wf_service7|reflexivity|right; reflexivity]. Defined.

Lemma dbs_sql_selects_no_row_witness :
  sqlDelete_stmt 5 ≠ "DELETE FROM transInfo         where txid = 5;".
Proof. exact (proj1 (dbs_sql_selects_no_row 5 ltac:(lia) ltac:(unfold int32_ok; lia))). Defined.

End Dbs.
