(* ===== verification/DbsThreads.v ===== *)
(** * The database service with several I/O threads (dbservicemain.cc, [setThreadNum])

    dbservicemain.cc starts its server with several I/O threads; the handlers
    of different connections run at the same time on the maps and the
    [transaction] objects of one [DbService], without a lock.  Here [onMessage]
    is cut at its accesses to shared memory, and the threads interleave at
    these points.  The interleavings are sequentially consistent; an operation
    of a map is one access, and so is looking up a pointer in a map and using
    it: no handler erases an entry of [txidTrans_].  The workers of the pool,
    which do erase entries, are in DbsPool.v; a worker that erases one between
    the lookup and the use is not modelled.

    Shown: a handler that nobody disturbs is the handler of Dbs.v; a commit
    and a sequence number start at most one check of a transaction in every
    interleaving, but in some they start none; and the data of a message can
    get lost when the first two messages of a transaction come together. *)

From stdpp Require Import base gmap strings list.
From S2P Require Import Prelude NetMsg Dbs.

Module DbsThreads.
Import Dbs.

(** ** Handlers, one access at a time *)

(** What a thread does next, with its locals. *)
Inductive pc :=
| Done
| DataFind (conn : TcpConnectionPtr) (data : DbServiceMsg)
| DataNew (conn : TcpConnectionPtr) (data : DbServiceMsg)
| DataTxid (conn : TcpConnectionPtr) (data : DbServiceMsg) (tran : ptr)
| DataEntry (conn : TcpConnectionPtr) (data : DbServiceMsg)
| DataTable (conn : TcpConnectionPtr) (data : DbServiceMsg) (tran : ptr)
| DataRead (data : DbServiceMsg) (tran : ptr) (rset : list Data)
| DataWrite (data : DbServiceMsg) (tran : ptr) (wset : list Data)
| LsnTest (id : Z)
| LsnStore (id : Z)
| LsnQueue (id : Z)
| CommitGlobal (data : DbServiceMsg)
| CommitTest (id : Z)
| CommitQueue (id : Z)
| CommitMark (id : Z)
| NumberStore (data : DbtmMsg)
| NumberTest (id : Z)
| NumberQueue (id : Z)
| Decision (data : DbtmMsg)
| ResultSend (status id : Z)
| ResultFind (id : Z)
| ResultErase (id : Z) (tran : ptr)
| ResultDelete (tran : ptr)
| Unknown.

Section steps.
(** What a fresh object holds in its [txid]. *)
Context (junk : Z).

(** [tran = new transaction(); txidTrans_\[id\] = tran;] *)
Definition new_transaction (id : Z) : P ptr :=
  let* s := get in
  let a := fresh (dom (heap_ s)) in
  modify (set_heap (<[a := fresh_transaction junk]>)) ;;;
  modify (set_txidTrans (<[id := Some a]>)) ;;; ret (Some a).

Definition set_txid id (t : transaction) := mktransaction id (readSet t) (writeSet t) (needGlobalConflct t) (lsn t) (alreadyCommit t).

(** [getReadWriteSet] *)
Definition data_step (p : pc) : P pc :=
  match p with
  | DataFind conn data =>
      let* s := get in
      ret (match txidTrans_ s !! DbServiceMsg_txid data with None => DataNew conn data | Some _ => DataEntry conn data end)
  | DataNew conn data => let* tran := new_transaction (DbServiceMsg_txid data) in ret (DataTxid conn data tran)
  | DataTxid conn data tran =>
      let* (a, t) := deref tran in
      store a (set_txid (DbServiceMsg_txid data) t) ;;; ret (DataTable conn data tran)
  | DataEntry conn data => let* tran := txidTrans_at (DbServiceMsg_txid data) in ret (DataTable conn data tran)
  | DataTable conn data tran =>
      let* (_, t) := deref tran in
      modify (set_table (<[txid t := conn]>)) ;;;
      let* rset := lift (of_option (DbServiceMsg_readSet data) NullDeref) in
      ret (DataRead data tran rset)
  | DataRead data tran (d :: rset) =>
      let* i := lift (read_item d) in
      let* (a, t) := deref tran in
      store a (add_sets [i] [] t) ;;; ret (DataRead data tran rset)
  | DataRead data tran [] =>
      let* wset := lift (of_option (DbServiceMsg_writeSet data) NullDeref) in
      ret (DataWrite data tran wset)
  | DataWrite data tran (d :: wset) =>
      let* i := lift (read_item d) in
      let* (a, t) := deref tran in
      store a (add_sets [] [i] t) ;;; ret (DataWrite data tran wset)
  | DataWrite data tran [] => ret (LsnTest (DbServiceMsg_txid data))
  | p => ret p
  end.

(** [retResult] *)
Definition result_step (p : pc) : P pc :=
  match p with
  | ResultSend status id =>
      let* s := get in
      let '(conn, tbl) := subscript None id (table_ s) in
      modify (set_table (λ _, tbl)) ;;;
      send conn (Msg_ESMsg (mkESMsg status id false 0 None None None)) ;;; ret (ResultFind id)
  | ResultFind id => let* tran := dbtm_table_at id in ret (ResultErase id tran)
  | ResultErase id tran => modify (set_dbtm_table (delete id)) ;;; ret (ResultDelete tran)
  | ResultDelete tran => delete_ptr tran ;;; ret Done
  | p => ret p
  end.

(** [onMessage] *)
Definition tstep (p : pc) : P pc :=
  match p with
  | LsnTest id => let* l := field id lsn in ret (if l =? -1 then LsnStore id else Done)
  | LsnStore id => assign id (set_lsn 0) ;;; ret (LsnQueue id)
  | LsnQueue id => enqueue (TGetLsn id) ;;; ret Done
  | CommitGlobal data =>
      assign (DbServiceMsg_txid data) (set_needGlobal (DbServiceMsg_needGlobalConflict data)) ;;;
      ret (CommitTest (DbServiceMsg_txid data))
  | CommitTest id => let* l := field id lsn in ret (if 0 <? l then CommitQueue id else CommitMark id)
  | CommitQueue id => let* q := txidTrans_at id in enqueue (TJudgeLocal q) ;;; ret Done
  | CommitMark id => assign id (set_alreadyCommit true) ;;; ret Done
  | NumberStore data =>
      assign (DbtmMsg_txid data) (set_lsn (DbtmMsg_lsn data)) ;;; ret (NumberTest (DbtmMsg_txid data))
  | NumberTest id => let* c := field id alreadyCommit in ret (if c : bool then NumberQueue id else Done)
  | NumberQueue id => let* q := txidTrans_at id in enqueue (TJudgeLocal q) ;;; ret Done
  | Decision data => enqueue (TSolve data) ;;; ret Done
  | Unknown => LOG ERROR "reveive error cmd" ;;; ret Done
  | ResultSend _ _ | ResultFind _ | ResultErase _ _ | ResultDelete _ => result_step p
  | p => data_step p
  end.

(** The branch of the dispatcher. *)
Definition start (conn : TcpConnectionPtr) (msg : RootMsg) : pc :=
  match msg with
  | Msg_DbServiceMsg data =>
      if DbServiceMsg_cmd data =? kData then DataFind conn data
      else if DbServiceMsg_cmd data =? kCommit then CommitGlobal data
      else Unknown
  | Msg_DbtmMsg data =>
      if DbtmMsg_cmd data =? kJudgeConflit then Decision data
      else if DbtmMsg_cmd data =? kLsn then NumberStore data
      else if (DbtmMsg_cmd data =? kTranSuccess) || (DbtmMsg_cmd data =? kTranFail)
      then ResultSend (DbtmMsg_cmd data) (DbtmMsg_txid data)
      else Unknown
  | _ => Done
  end.

(** A handler that nobody interrupts. *)
Fixpoint run_alone (fuel : nat) (p : pc) : P unit :=
  match p, fuel with
  | Done, _ => ret tt
  | _, O => throw OutOfFuel
  | _, S fuel => let* p' := tstep p in run_alone fuel p'
  end.

(** Enough accesses for a message: one per item, and nine more. *)
Definition cost (msg : RootMsg) : nat :=
  match msg with
  | Msg_DbServiceMsg data => 9 + length (default [] (DbServiceMsg_readSet data)) + length (default [] (DbServiceMsg_writeSet data))
  | _ => 9
  end.

(** ** The process *)

(** Every thread with the messages that it still has to handle. *)
Record machine := mkmachine { m_service : DbService; m_threads : list (pc * list (conn * RootMsg)) }.

(** One turn of thread [i]. *)
Definition turn (i : nat) (m : machine) : result (list event * machine) :=
  match m_threads m !! i with
  | None | Some (Done, []) => Err OutOfBounds
  | Some (Done, (c, msg) :: q) => Ok ([], mkmachine (m_service m) (<[i := (start (Some c) msg, q)]> (m_threads m)))
  | Some (p, q) =>
      match tstep p (m_service m) with
      | (es, Ok (p', s')) => Ok (es, mkmachine s' (<[i := (p', q)]> (m_threads m)))
      | (_, Err f) => Err f
      end
  end.

Fixpoint schedule (turns : list nat) (m : machine) : result (list event * machine) :=
  match turns with
  | [] => Ok ([], m)
  | i :: turns =>
      let? (es, m) := turn i m in
      let? (es', m) := schedule turns m in
      Ok (es ++ es', m)
  end.

(** ** One handler alone *)

Lemma handler_step n p s : p ≠ Done → run_alone (S n) p s = bind (tstep p) (run_alone n) s.
Proof. by destruct p. Qed.

Lemma handler_done n s : run_alone n Done s = ([], Ok (tt, s)).
Proof. by destruct n. Qed.

(** A step that does [m] and goes on at [k]. *)
Lemma alone_seq {A} n p (m : P A) (k : A → pc) (h : A → P unit) s :
  p ≠ Done → tstep p = bind m (λ a, ret (k a)) → (∀ a s', run_alone n (k a) s' = h a s') →
  run_alone (S n) p s = bind m h s.
Proof.
  intros Hp Ht Hk. rewrite handler_step, Ht, bind_assoc by done. apply bind_ext. intros a s'. by rewrite bind_ret_l.
Qed.

Lemma alone_last {A} n p (m : P A) (h : A → P unit) s :
  p ≠ Done → tstep p = bind m (λ _, ret Done) → (∀ a s', h a s' = ([], Ok (tt, s'))) → run_alone (S n) p s = bind m h s.
Proof. intros Hp Ht Hh. apply (alone_seq _ _ _ (λ _, Done)); [done|done|]. intros a s'. by rewrite handler_done, Hh. Qed.

Lemma alone_end n p (m : P unit) s : p ≠ Done → tstep p = (m ;;; ret Done) → run_alone (S n) p s = m s.
Proof. intros Hp Ht. rewrite <- (bind_ret_r m s). by apply alone_last. Qed.

(** The two loops over the items of a message. *)
Lemma upd_same s a t : heap_ s !! a = Some t → upd s a (add_sets [] [] t) = s.
Proof.
  intros Ha. unfold upd, set_heap, add_sets. rewrite !app_nil_r. destruct s, t. cbn in *. by rewrite insert_id.
Qed.

Lemma reads_alone n data a : ∀ rset s t,
  heap_ s !! a = Some t →
  run_alone (length rset + n) (DataRead data (Some a) rset) s =
    match read_items rset with Ok r => run_alone n (DataRead data (Some a) []) (upd s a (add_sets r [] t)) | Err f => ([], Err f) end.
Proof.
  induction rset as [|d rset IH]; intros s t Ha; cbn [read_items length Nat.add]; [by rewrite upd_same|].
  rewrite handler_step by done. cbn [tstep data_step]. destruct (read_item d) as [i|f]; cbn [rbind]; [|by apply bind_fault].
  erewrite (bind_quiet _ _ _ (DataRead data (Some a) rset) (upd s a (add_sets [i] [] t))); cycle 1.
  { unfold bind. cbn. by rewrite Ha. }
  rewrite (IH _ (add_sets [i] [] t)) by apply heap_upd. destruct (read_items rset) as [r|f]; cbn; [|done].
  rewrite upd_upd. unfold add_sets. cbn. by rewrite <- !app_assoc.
Qed.

Lemma writes_alone n data a : ∀ wset s t,
  heap_ s !! a = Some t →
  run_alone (length wset + n) (DataWrite data (Some a) wset) s =
    match read_items wset with Ok w => run_alone n (DataWrite data (Some a) []) (upd s a (add_sets [] w t)) | Err f => ([], Err f) end.
Proof.
  induction wset as [|d wset IH]; intros s t Ha; cbn [read_items length Nat.add]; [by rewrite upd_same|].
  rewrite handler_step by done. cbn [tstep data_step]. destruct (read_item d) as [i|f]; cbn [rbind]; [|by apply bind_fault].
  erewrite (bind_quiet _ _ _ (DataWrite data (Some a) wset) (upd s a (add_sets [] [i] t))); cycle 1.
  { unfold bind. cbn. by rewrite Ha. }
  rewrite (IH _ (add_sets [] [i] t)) by apply heap_upd. destruct (read_items wset) as [w|f]; cbn; [|done].
  rewrite upd_upd. unfold add_sets. cbn. by rewrite <- !app_assoc.
Qed.

Lemma deref_live s a t : heap_ s !! a = Some t → deref (Some a) s = ([], Ok ((a, t), s)).
Proof. intros Ha. unfold deref, bind. cbn. by rewrite Ha. Qed.

Lemma deref_freed s a : heap_ s !! a = None → deref (Some a) s = ([], Err UseAfterFree).
Proof. intros Ha. unfold deref, bind. cbn. by rewrite Ha. Qed.

(** What [onMessage] does after the sets are stored. *)
Definition request_lsn (id : Z) : P unit :=
  let* l := field id lsn in if l =? -1 then assign id (set_lsn 0) ;;; enqueue (TGetLsn id) else ret tt.

Lemma lsn_alone n id s : (3 ≤ n)%nat → run_alone n (LsnTest id) s = request_lsn id s.
Proof.
  intros Hn. do 3 (destruct n as [|n]; [lia|]). eapply alone_seq; [done|reflexivity|]. intros l s'. cbn beta.
  destruct (l =? -1); [|by rewrite handler_done]. eapply alone_seq; [done|reflexivity|]. intros [] s2. by apply alone_end.
Qed.

Lemma table_alone n conn data p s :
  (6 + length (default [] (DbServiceMsg_readSet data)) + length (default [] (DbServiceMsg_writeSet data)) ≤ n)%nat →
  txidTrans_ s !! DbServiceMsg_txid data = Some p →
  run_alone n (DataTable conn data p) s = (getReadWriteSet conn data ;;; request_lsn (DbServiceMsg_txid data)) s.
Proof.
  intros Hn Hp. destruct n as [|n]; [lia|].
  unfold getReadWriteSet. rewrite bind_assoc. rewrite (bind_quiet get _ s s s) by done. rewrite Hp, bind_assoc, bind_ret_l, bind_assoc.
  rewrite (bind_quiet _ _ _ _ _ (txidTrans_at_some _ _ _ Hp)).
  rewrite handler_step by done. cbn [tstep data_step]. rewrite !bind_assoc. destruct p as [a|]; [|done].
  destruct (heap_ s !! a) as [t|] eqn:Ha; [|rewrite !(bind_fault _ _ _ _ _ (deref_freed s a Ha)); done].
  rewrite !(bind_quiet _ _ _ _ _ (deref_live s a t Ha)). cbn beta iota. rewrite !bind_assoc. rewrite !(bind_quiet (modify _) _ s tt (set_table (<[txid t := conn]>) s)) by done.
  set (s1 := set_table (<[txid t := conn]>) s). assert (heap_ s1 !! a = Some t) as Ha1 by done.
  rewrite !bind_assoc. destruct (DbServiceMsg_readSet data) as [rset|]; [|done]. cbn [from_option of_option id] in *.
  rewrite !(bind_quiet (lift (Ok rset)) _ s1 rset s1), bind_ret_l, bind_assoc by done.
  replace n with (length rset + S (n - length rset - 1))%nat by lia. rewrite (reads_alone _ _ _ _ _ t Ha1).
  destruct (read_items rset) as [r|f]; [|done]. rewrite (bind_quiet (lift (Ok r)) _ s1 r s1) by done.
  rewrite bind_assoc. unfold store at 1. rewrite (bind_quiet (modify _) _ s1 tt (upd s1 a (add_sets r [] t))) by done.
  set (s2 := upd s1 a (add_sets r [] t)). rewrite handler_step by done. cbn [tstep data_step]. rewrite !bind_assoc.
  destruct (DbServiceMsg_writeSet data) as [wset|]; [|done]. cbn [from_option of_option id] in *.
  rewrite !(bind_quiet (lift (Ok wset)) _ s2 wset s2), bind_ret_l, bind_assoc by done.
  replace (n - length rset - 1)%nat with (length wset + S (n - length rset - 2 - length wset))%nat by lia.
  rewrite (writes_alone _ _ _ _ _ (add_sets r [] t)) by apply heap_upd.
  destruct (read_items wset) as [w|f]; [|done]. rewrite (bind_quiet (lift (Ok w)) _ s2 w s2) by done.
  unfold store. rewrite (bind_quiet (modify _) _ s2 tt (upd s2 a (add_sets r w t))) by done.
  replace (add_sets [] w (add_sets r [] t)) with (add_sets r w t) by (unfold add_sets; cbn; by rewrite !app_nil_r).
  rewrite handler_step by done. cbn [tstep data_step]. rewrite bind_ret_l. apply lsn_alone. lia.
Qed.

Lemma bind_quiet_alone n p p' s s' :
  p ≠ Done → tstep p s = ([], Ok (p', s')) → run_alone (S n) p s = run_alone n p' s'.
Proof. intros Hp Ht. rewrite handler_step by done. by apply bind_quiet. Qed.

Lemma alone_bind_end {A} n p (m : P A) (k : A → P unit) s :
  p ≠ Done → tstep p = (let* a := m in k a ;;; ret Done) → run_alone (S n) p s = bind m k s.
Proof.
  intros Hp Ht. rewrite handler_step, Ht, bind_assoc by done. apply bind_ext. intros a s'. rewrite bind_assoc.
  rewrite <- (bind_ret_r (k a) s'). apply bind_ext. intros [] s2. by rewrite bind_ret_l, handler_done.
Qed.

Lemma result_alone n status id s : (4 ≤ n)%nat → run_alone n (ResultSend status id) s = retResult status id s.
Proof.
  intros Hn. do 4 (destruct n as [|n]; [lia|]). rewrite handler_step by done. cbn [tstep result_step]. unfold retResult.
  rewrite bind_assoc. apply bind_ext. intros s1 s2. destruct (subscript None id (table_ s1)) as [conn tbl].
  rewrite bind_assoc. apply bind_ext. intros [] s3. rewrite bind_assoc. apply bind_ext. intros [] s4. rewrite bind_ret_l.
  eapply alone_seq; [done|reflexivity|]. intros tran s5. eapply alone_seq; [done|reflexivity|]. intros [] s6. by apply alone_end.
Qed.

Lemma data_alone n conn data s :
  (9 + length (default [] (DbServiceMsg_readSet data)) + length (default [] (DbServiceMsg_writeSet data)) ≤ n)%nat →
  run_alone n (DataFind conn data) s = (getReadWriteSet conn data ;;; request_lsn (DbServiceMsg_txid data)) s.
Proof.
  intros Hn. destruct n as [|n]; [lia|]. rewrite handler_step by done. cbn [tstep data_step].
  rewrite bind_assoc, (bind_quiet get _ s s s), bind_ret_l by done.
  destruct (txidTrans_ s !! DbServiceMsg_txid data) as [p|] eqn:Hp.
  - destruct n as [|n]; [lia|]. rewrite handler_step by done. cbn [tstep data_step].
    rewrite bind_assoc, (bind_quiet _ _ _ _ _ (txidTrans_at_some _ _ _ Hp)), bind_ret_l. apply table_alone; [lia|done].
  - unfold bind at 1. rewrite (getReadWriteSet_alloc s conn data Hp). set (id := DbServiceMsg_txid data) in *.
    fold (bind (getReadWriteSet conn data) (λ _, request_lsn id) (alloc s id)). do 2 (destruct n as [|n]; [lia|]).
    set (a := fresh (dom (heap_ s))).
    set (s1 := set_txidTrans (<[id := Some a]>) (set_heap (<[a := fresh_transaction junk]>) s)).
    assert (heap_ s1 !! a = Some (fresh_transaction junk)) as Ha by (cbn; by rewrite lookup_insert_eq).
    rewrite (bind_quiet_alone (S n) (DataNew conn data) (DataTxid conn data (Some a)) s s1) by done.
    rewrite (bind_quiet_alone n _ (DataTable conn data (Some a)) _ (alloc s id)).
    + apply table_alone; [lia|]. cbn. by rewrite lookup_insert_eq.
    + done.
    + cbn [tstep data_step]. rewrite (bind_quiet _ _ _ _ _ (deref_live _ a _ Ha)). cbn beta iota.
      unfold s1, store, alloc, bind, modify, ret, set_heap, set_txidTrans, set_txid. cbn. by rewrite insert_insert_eq.
Qed.

(** A handler that nobody disturbs: taken one access at a time it does on
    every state what the handler of Dbs.v does in one step, with the same
    events, the same result and the same faults. *)
Theorem dbs_handler_alone c msg s n :
  (cost msg ≤ n)%nat → run_alone n (start c msg) s = onMessage c msg s.
Proof.
  intros Hn. destruct msg as [|d|d|d|d|d|d|d|d|d]; cbn [start onMessage]; try apply handler_done.
  - destruct (_ =? kData); [by apply data_alone|]. do 3 (destruct n as [|n]; [cbn in Hn; lia|]). clear Hn.
    destruct (_ =? kCommit); [|by apply alone_end]. eapply alone_seq; [done|reflexivity|]. intros [] s1.
    eapply alone_seq; [done|reflexivity|]. intros l s2. cbn beta. destruct (0 <? l); [|by apply alone_end].
    eapply alone_bind_end; [done|reflexivity].
  - cbn in Hn. do 4 (destruct n as [|n]; [lia|]). clear Hn.
    destruct (_ =? kJudgeConflit); [by apply alone_end|]. destruct (_ =? kLsn).
    + eapply alone_seq; [done|reflexivity|]. intros [] s1. eapply alone_seq; [done|reflexivity|]. intros b s2. cbn beta.
      destruct b; [|by rewrite handler_done]. eapply alone_bind_end; [done|reflexivity].
    + destruct (_ || _); [|by apply alone_end]. apply result_alone. lia.
Qed.

(** ** At most one check *)

Section one_check.
Context (id : Z) (a : nat).

(** The transaction [id] is registered, its object is its own, and no check of
    it has given the object to DBTM, from where a result would delete it. *)
Definition registered (s : DbService) : Prop :=
  txidTrans_ s !! id = Some (Some a) ∧ (∀ id', txidTrans_ s !! id' = Some (Some a) → id' = id) ∧ is_Some (heap_ s !! a) ∧
  (∀ id', dbtm_table_ s !! id' ≠ Some (Some a)).

Definition committed (s : DbService) : nat :=
  match heap_ s !! a with Some t => if alreadyCommit t then 1 else 0 | None => 0 end.
Definition is_check (t : task) : bool := match t with TJudgeLocal (Some b) => (b =? a)%nat | _ => false end.
Definition checks (s : DbService) : nat := length (filter (λ t, is_check t = true) (tasks_ s)).

(** What a thread may still do for the commit and for the number of [id]. *)
Definition is_commit (m : RootMsg) : bool :=
  match m with Msg_DbServiceMsg d => (DbServiceMsg_cmd d =? kCommit) && (DbServiceMsg_txid d =? id) | _ => false end.
Definition is_number (m : RootMsg) : bool :=
  match m with Msg_DbtmMsg d => (DbtmMsg_cmd d =? kLsn) && (DbtmMsg_txid d =? id) | _ => false end.
Definition on (id' : Z) : nat := if id' =? id then 1 else 0.
Definition commit_pc (p : pc) : nat :=
  match p with
  | CommitGlobal d => on (DbServiceMsg_txid d)
  | CommitTest i | CommitMark i | CommitQueue i => on i
  | _ => 0
  end.
Definition number_pc (p : pc) : nat :=
  match p with NumberStore d => on (DbtmMsg_txid d) | NumberTest i => on i | _ => 0 end.
Definition queue_pc (p : pc) : nat := match p with NumberQueue i => on i | _ => 0 end.

(** A thread that is about to delete the object of [id]. *)
Definition is_own (p : ptr) : bool := match p with Some b => (b =? a)%nat | None => false end.
Definition result_pc (p : pc) : bool :=
  match p with ResultErase _ tran | ResultDelete tran => is_own tran | _ => false end.

(** A thread that found no entry for its transaction is not one of [id]. *)
Definition late (p : pc) : bool := match p with DataNew _ d => DbServiceMsg_txid d =? id | _ => false end.

Definition like (s0 s : DbService) : Prop := registered s ∧ committed s = committed s0 ∧ checks s = checks s0.

(** What one access does to the counts. *)
Record progress (p : pc) (s : DbService) (p' : pc) (s' : DbService) : Prop := {
  pr_registered : registered s';
  pr_result : result_pc p' = false;
  pr_late : late p' = false;
  pr_mono : (committed s ≤ committed s')%nat;
  pr_counts : ∃ xc xn, checks s' = (checks s + xc + xn)%nat ∧
    (commit_pc p' + committed s' + xc ≤ commit_pc p + committed s)%nat ∧
    (number_pc p' + queue_pc p' + xn ≤ number_pc p + queue_pc p)%nat ∧
    (queue_pc p' + xn ≤ queue_pc p ∨ committed s = 1)%nat }.

Abbreviation spec m Φ s := (wp (λ _ : event, True) m Φ s).

Lemma wp_bind_spec {A B} (m : P A) (k : A → P B) Ψ Φ s :
  spec m Ψ s → (∀ x s', Ψ x s' → spec (k x) Φ s') → spec (bind m k) Φ s.
Proof. intros Hm Hk. apply wp_bind. by eapply wp_mono. Qed.

Lemma spec_assoc {A B C} (m : P A) (k : A → P B) (h : B → P C) Φ s :
  spec (bind (bind m k) h) Φ s → spec (let* x := m in let* y := k x in h y) Φ s.
Proof. unfold wp. by rewrite bind_assoc. Qed.

Lemma like_same s : registered s → like s s.
Proof. done. Qed.

(** A change of the service that touches neither heap, maps nor tasks. *)
Lemma like_frame s0 s s' :
  like s0 s → txidTrans_ s' = txidTrans_ s → heap_ s' = heap_ s → tasks_ s' = tasks_ s → dbtm_table_ s' = dbtm_table_ s → like s0 s'.
Proof. unfold like, registered, committed, checks. intros H -> -> -> ->. exact H. Qed.

Lemma like_upd s0 s b t t' :
  like s0 s → heap_ s !! b = Some t → alreadyCommit t' = alreadyCommit t → like s0 (upd s b t').
Proof.
  intros ((H1 & H2 & H3 & H4) & Hc & Hk) Hb Ht. assert (∃ t1, heap_ (upd s b t') !! a = Some t1 ∧ ∀ t0, heap_ s !! a = Some t0 → alreadyCommit t1 = alreadyCommit t0) as (t1 & Ht1 & Ha).
  { cbn. destruct (decide (b = a)) as [->|].
    - exists t'. rewrite lookup_insert_eq. split; [done|]. intros t0 Ht0. by simplify_eq.
    - destruct H3 as [t1 Ht1]. exists t1. rewrite lookup_insert_ne by done. split; [done|]. intros t0 Ht0. by simplify_eq. }
  split_and!; [split_and!; [done|done|by exists t1|done]| |done]. rewrite <- Hc. unfold committed. rewrite Ht1.
  destruct H3 as [t0 Ht0]. rewrite Ht0. by rewrite (Ha _ Ht0).
Qed.

Lemma spec_at s0 id' s : like s0 s → spec (txidTrans_at id') (λ p s', like s0 s' ∧ (p = Some a ↔ id' = id)) s.
Proof.
  intros Hl. unfold txidTrans_at. repeat wp_step. pose proof Hl as ((H1 & H2 & H3 & H4) & Hc & Hk).
  destruct (txidTrans_ s !! id') as [p|] eqn:Hp.
  - rewrite (subscript_some _ p) by done. repeat wp_step. split; [by apply (like_frame s0 s)|]. split; [intros ->; by apply H2|]. intros ->. congruence.
  - rewrite (subscript_none _ _ _ Hp). repeat wp_step. split.
    + split_and!; [split_and!; [| |done|done]|done|done]; cbn.
      * rewrite lookup_insert_ne; [done|]. intros ->. congruence.
      * intros i [[_ [=]]|[_ Hi]]%lookup_insert_Some. by apply H2.
    + split; [done|]. intros ->. congruence.
Qed.

Lemma spec_deref p s : spec (deref p) (λ '(b, t) s', s' = s ∧ p = Some b ∧ heap_ s !! b = Some t) s.
Proof.
  destruct p as [b|]; [|apply wp_throw]. unfold deref. repeat wp_step. destruct (heap_ s !! b) eqn:Hb; [by wp_step|apply wp_throw].
Qed.

Lemma spec_assign s0 id' f s :
  like s0 s → (∀ t, alreadyCommit (f t) = alreadyCommit t) → spec (assign id' f) (λ _, like s0) s.
Proof.
  intros Hl Hf. unfold assign. eapply wp_bind_spec; [by apply spec_at|]. intros p s1 [Hl1 _].
  eapply wp_bind_spec; [apply spec_deref|]. intros [b t] s2 (-> & -> & Hb). unfold store. wp_step. by apply (like_upd _ _ _ t).
Qed.

Lemma spec_field {A} s0 id' (f : transaction → A) s :
  like s0 s → spec (field id' f) (λ x s', like s0 s' ∧ (id' = id → ∃ t, heap_ s' !! a = Some t ∧ x = f t)) s.
Proof.
  intros Hl. unfold field. eapply wp_bind_spec; [by apply spec_at|]. intros p s1 [Hl1 Hp].
  eapply wp_bind_spec; [apply spec_deref|]. intros [b t] s2 (-> & -> & Hb). wp_step. split; [done|].
  intros Hid. apply Hp in Hid. injection Hid as ->. by exists t.
Qed.

(** An access that changes nothing of interest. *)
Lemma progress_like p s p' s' :
  like s s' → result_pc p' = false → late p' = false → (commit_pc p' ≤ commit_pc p)%nat → (number_pc p' + queue_pc p' ≤ number_pc p + queue_pc p)%nat →
  (queue_pc p' ≤ queue_pc p ∨ committed s = 1)%nat → progress p s p' s'.
Proof.
  intros (Hr & Hc & Hk) Hres Hl H1 H2 H3. split; [done|done|done|lia|]. exists 0%nat, 0%nat. rewrite Hc, Hk. lia.
Qed.

(** A new object is not the one of [id]. *)
Lemma spec_new s id' : registered s → id' ≠ id → spec (new_transaction id') (λ _ s', like s s') s.
Proof.
  intros (H1 & H2 & (t & Ht) & H4) Hne. unfold new_transaction. repeat wp_step.
  assert (fresh (dom (heap_ s)) ≠ a) as Ha. { intros Heq. pose proof (is_fresh (dom (heap_ s))) as Hf. rewrite Heq in Hf. apply Hf, elem_of_dom. by exists t. }
  split_and!; [split_and!| |done]; cbn.
  - by rewrite lookup_insert_ne.
  - intros i [[_ [=]]|[_ Hi]]%lookup_insert_Some; [done|by apply H2].
  - exists t. by rewrite lookup_insert_ne.
  - done.
  - unfold committed. cbn. by rewrite lookup_insert_ne.
Qed.

Definition quiet_pc (p : pc) : Prop := commit_pc p = 0%nat ∧ number_pc p = 0%nat ∧ queue_pc p = 0%nat ∧ result_pc p = false.

Lemma spec_data p s :
  registered s → late p = false → quiet_pc p → spec (data_step p) (λ p' s', like s s' ∧ quiet_pc p' ∧ late p' = false) s.
Proof.
  intros Hr Hl Hq. pose proof (like_same s Hr) as Hs. destruct p as [| | | | | |data tran [|d rset]|data tran [|d wset]| | | | | | | | | | | | | | | |]; cbn [data_step]; try (by wp_step).
  - repeat wp_step. split_and!; [done|by destruct (txidTrans_ s !! _)|]. destruct (txidTrans_ s !! _) eqn:Hp; [done|]. cbn.
    apply Z.eqb_neq. intros Heq. destruct Hr as [Hr _]. congruence.
  - eapply wp_bind_spec; [apply spec_new; [done|by apply Z.eqb_neq]|]. intros tran s1 H1. by wp_step.
  - eapply wp_bind_spec; [apply spec_deref|]. intros [b t] s1 (-> & -> & Hb). unfold store. repeat wp_step. split; [|done].
    by apply (like_upd s s b t).
  - eapply wp_bind_spec; [by apply (spec_at s)|]. intros tran s1 [H1 _]. by wp_step.
  - eapply wp_bind_spec; [apply spec_deref|]. intros [b t] s1 (-> & -> & Hb). repeat wp_step. intros rset _. wp_step. split; [|done].
    by apply (like_frame s s).
  - repeat wp_step. intros wset _. by wp_step.
  - repeat wp_step. intros i _. eapply wp_bind_spec; [apply spec_deref|]. intros [b t] s1 (-> & -> & Hb). unfold store. repeat wp_step.
    split; [|done]. by apply (like_upd s s b t).
  - repeat wp_step. intros i _. eapply wp_bind_spec; [apply spec_deref|]. intros [b t] s1 (-> & -> & Hb). unfold store. repeat wp_step.
    split; [|done]. by apply (like_upd s s b t).
Qed.

Lemma spec_enqueue s t :
  registered s → spec (enqueue t) (λ _ s', registered s' ∧ committed s' = committed s ∧ checks s' = (checks s + (if is_check t then 1 else 0))%nat) s.
Proof.
  intros Hr. unfold enqueue. wp_step. split_and!; [done|done|]. unfold checks. cbn. rewrite filter_app, length_app. f_equal.
  cbn. by destruct (is_check t).
Qed.

(** Queueing a check of [id']. *)
Lemma spec_check s id' :
  registered s →
  spec (let* q := txidTrans_at id' in enqueue (TJudgeLocal q))
    (λ _ s', registered s' ∧ committed s' = committed s ∧ checks s' = (checks s + on id')%nat) s.
Proof.
  intros Hr. eapply wp_bind_spec; [by apply (spec_at s)|]. intros q s1 [(Hr1 & Hc1 & Hk1) Hq].
  eapply wp_mono; [by apply spec_enqueue|]. intros [] s2 (Hr2 & Hc2 & Hk2). split_and!; [done|lia|]. rewrite Hk2, Hk1. f_equal.
  unfold on, is_check. destruct q as [b|].
  - destruct (Nat.eqb_spec b a) as [->|Hne]; destruct (Z.eqb_spec id' id) as [->|Hne']; try done; [by destruct Hne'; apply Hq|].
    exfalso. apply Hne. by assert (Some b = Some a) as [= ->] by (by apply Hq).
  - destruct (Z.eqb_spec id' id) as [->|]; [|done]. exfalso. by assert (None = Some a) as [=] by (by apply Hq).
Qed.

Lemma spec_mark s id' :
  registered s →
  spec (assign id' (set_alreadyCommit true))
    (λ _ s', registered s' ∧ (committed s ≤ committed s' ≤ committed s + on id')%nat ∧ checks s' = checks s) s.
Proof.
  intros Hr. unfold assign. eapply wp_bind_spec; [by apply (spec_at s)|]. intros p s1 [((H1 & H2 & (t0 & H3) & H4) & Hc1 & Hk1) Hp].
  eapply wp_bind_spec; [apply spec_deref|]. intros [b t] s2 (-> & -> & Hb). unfold store. wp_step. fold (upd s1 b (set_alreadyCommit true t)).
  assert (∃ t1, heap_ (upd s1 b (set_alreadyCommit true t)) !! a = Some t1 ∧ (t1 = t0 ∨ id' = id ∧ alreadyCommit t1 = true)) as (t1 & Ht1 & Hcase).
  { cbn. destruct (decide (b = a)) as [->|].
    - exists (set_alreadyCommit true t). rewrite lookup_insert_eq. split; [done|]. right. split; [by apply Hp|done].
    - exists t0. rewrite lookup_insert_ne by done. split; [done|by left]. }
  split; [by split_and!; [| |exists t1|]|]. split; [|done]. rewrite <- Hc1. unfold committed. rewrite Ht1, H3.
  destruct Hcase as [->|[-> ->]]; [by destruct (alreadyCommit t0); lia|]. unfold on. rewrite Z.eqb_refl. destruct (alreadyCommit t0); lia.
Qed.

(** An access that may queue checks or set the mark. *)
Lemma progress_queue p s p' s' xc xn :
  registered s' → quiet_pc p' → late p' = false → (committed s ≤ committed s')%nat → checks s' = (checks s + xc + xn)%nat →
  (committed s' + xc ≤ commit_pc p + committed s)%nat → (xn ≤ queue_pc p)%nat → progress p s p' s'.
Proof.
  intros Hr (H1 & H2 & H3 & H4) Hl Hm Hk Hc Hn. split; [done|done|done|done|]. exists xc, xn. rewrite H1, H2, H3. lia.
Qed.

Lemma committed_true s t : heap_ s !! a = Some t → alreadyCommit t = true → committed s = 1%nat.
Proof. intros Ht Hc. unfold committed. by rewrite Ht, Hc. Qed.

Lemma spec_commit p s :
  registered s → match p with CommitGlobal _ | CommitTest _ | CommitQueue _ | CommitMark _ => True | _ => False end →
  spec (tstep p) (λ p' s', progress p s p' s') s.
Proof.
  intros Hr Hp. pose proof (like_same s Hr) as Hs. destruct p as [| | | | | | | | | | |d|i|i|i| | | | | | | | |]; try done; cbn [tstep].
  - eapply wp_bind_spec; [by apply (spec_assign s)|]. intros [] s1 H1. wp_step. by apply progress_like; [..|left].
  - eapply wp_bind_spec; [by apply (spec_field s)|]. intros l s1 [H1 _]. wp_step. apply progress_like; [done|by destruct (0 <? l)..|destruct (0 <? l); by left].
  - apply spec_assoc. eapply wp_bind_spec; [by apply spec_check|]. intros [] s1 (H1 & H2 & H3). wp_step.
    apply (progress_queue _ _ _ _ (on i) 0); cbn; [done|done|done|lia|lia|lia|lia].
  - eapply wp_bind_spec; [by apply spec_mark|]. intros [] s1 (H1 & H2 & H3). wp_step.
    apply (progress_queue _ _ _ _ 0 0); cbn; [done|done|done|lia|lia|lia|lia].
Qed.

Lemma spec_number p s :
  registered s → match p with NumberStore _ | NumberTest _ | NumberQueue _ => True | _ => False end →
  spec (tstep p) (λ p' s', progress p s p' s') s.
Proof.
  intros Hr Hp. pose proof (like_same s Hr) as Hs. destruct p as [| | | | | | | | | | | | | | |d|i|i| | | | | |]; try done; cbn [tstep].
  - eapply wp_bind_spec; [by apply (spec_assign s)|]. intros [] s1 H1. wp_step. apply progress_like; cbn; [done|done|done|lia|lia|by left].
  - eapply wp_bind_spec; [by apply (spec_field s)|]. intros b s1 [H1 Hb]. wp_step. apply progress_like; [done|by destruct b..|destruct b; cbn; lia|].
    destruct b; [|by left]. cbn. unfold on. destruct (Z.eqb_spec i id) as [->|]; [|by left; lia]. right.
    destruct (Hb eq_refl) as (t & Ht & Hc). destruct H1 as (_ & <- & _). by apply (committed_true s1 t).
  - apply spec_assoc. eapply wp_bind_spec; [by apply spec_check|]. intros [] s1 (H1 & H2 & H3). wp_step.
    apply (progress_queue _ _ _ _ 0 (on i)); cbn; [done|done|done|lia|lia|lia|lia].
Qed.

(** A result of another transaction, or of this one before its check: the
    object that it deletes is not the one of [id]. *)
Lemma spec_result p s :
  registered s → result_pc p = false → match p with ResultSend _ _ | ResultFind _ | ResultErase _ _ | ResultDelete _ => True | _ => False end →
  spec (tstep p) (λ p' s', progress p s p' s') s.
Proof.
  intros Hr Hp Hshape. pose proof (like_same s Hr) as Hs. destruct p as [| | | | | | | | | | | | | | | | | | |st i|i|i q|q|]; try done; cbn [tstep result_step].
  - repeat wp_step. destruct (subscript None i (table_ s)) as [conn tbl]. repeat wp_step.
    apply wp_send. intros c ->. split; [done|]. wp_step.
    apply progress_like; [by apply (like_frame s s)|done..|by left].
  - pose proof Hr as (H1 & H2 & H3 & H4). unfold dbtm_table_at. repeat wp_step.
    destruct (dbtm_table_ s !! i) as [q|] eqn:Hq.
    + rewrite (subscript_some _ q) by done. repeat wp_step. apply progress_like; [by apply (like_frame s s)| |done..|by left].
      cbn. destruct q as [b|]; [|done]. cbn. apply Nat.eqb_neq. intros ->. by apply (H4 i).
    + rewrite (subscript_none _ _ _ Hq). repeat wp_step. apply progress_like; [|done..|by left].
      split_and!; [split_and!; [done..|]|done|done]. cbn. intros i' [[_ [=]]|[_ Hi']]%lookup_insert_Some. by apply (H4 i').
  - repeat wp_step. apply progress_like; [|done..|by left]. destruct Hr as (H1 & H2 & H3 & H4).
    split_and!; [split_and!; [done..|]|done|done]. cbn. intros i' [_ Hi']%lookup_delete_Some. by apply (H4 i').
  - cbn in Hp. destruct q as [b|]; cbn [delete_ptr]; repeat wp_step; [|by apply progress_like; [..|left]].
    cbn in Hp. apply Nat.eqb_neq in Hp. destruct Hr as (H1 & H2 & (t & Ht) & H4).
    assert (heap_ (set_heap (delete b) s) !! a = Some t) as Ht' by (cbn; by rewrite lookup_delete_ne).
    apply progress_like; [|done..|by left]. split_and!; [split_and!; [done|done|by exists t|done]| |done].
    unfold committed. by rewrite Ht', Ht.
Qed.

Lemma spec_step p s : registered s → result_pc p = false → late p = false → spec (tstep p) (λ p' s', progress p s p' s') s.
Proof.
  intros Hr Hp Hl. pose proof (like_same s Hr) as Hs.
  assert (quiet_pc p → tstep p = data_step p → spec (tstep p) (λ p' s', progress p s p' s') s) as Hdata.
  { intros Hq ->. eapply wp_mono; [by apply spec_data|]. intros p' s' (H1 & (Hq1 & Hq2 & Hq3 & Hq4) & Hq5). apply progress_like; [done|done|done|lia|lia|lia]. }
  destruct p; try (by apply Hdata); try (by apply spec_commit); try (by apply spec_number); try (by apply spec_result); cbn [tstep].
  - eapply wp_bind_spec; [by apply (spec_field s)|]. intros l s1 [H1 _]. wp_step. by apply progress_like; [done|destruct (l =? -1)..|left; destruct (l =? -1)].
  - eapply wp_bind_spec; [by apply (spec_assign s)|]. intros [] s1 H1. wp_step. by apply progress_like; [..|left].
  - eapply wp_bind_spec; [by apply spec_enqueue|]. intros [] s1 (H1 & H2 & H3). wp_step.
    cbn in H3. apply (progress_queue _ _ _ _ 0 0); cbn; [done|done|done|lia|lia|lia|lia].
  - eapply wp_bind_spec; [by apply spec_enqueue|]. intros [] s1 (H1 & H2 & H3). wp_step.
    cbn in H3. apply (progress_queue _ _ _ _ 0 0); cbn; [done|done|done|lia|lia|lia|lia].
  - eapply wp_bind_spec; [by apply (wp_emit _ _ (λ _ s', s' = s))|]. intros [] s1 ->. wp_step. by apply progress_like; [..|left].
Qed.

(** *** The whole process *)

Abbreviation thread := (pc * list (conn * RootMsg))%type.

Definition commits (t : thread) : nat := commit_pc t.1 + length (filter (λ x, is_commit x.2 = true) t.2).
Definition numbers (t : thread) : nat := number_pc t.1 + length (filter (λ x, is_number x.2 = true) t.2).
Definition queueing (t : thread) : nat := queue_pc t.1.
Definition thread_ok (t : thread) : Prop := result_pc t.1 = false ∧ late t.1 = false.

Record counted (m : machine) : Prop := {
  co_registered : registered (m_service m);
  co_threads : Forall thread_ok (m_threads m);
  co_counts : ∃ xc xn, checks (m_service m) = (xc + xn)%nat ∧
    (sum_list_with commits (m_threads m) + committed (m_service m) + xc ≤ 1)%nat ∧
    (sum_list_with numbers (m_threads m) + sum_list_with queueing (m_threads m) + xn ≤ 1)%nat ∧
    (0 < sum_list_with queueing (m_threads m) + xn → committed (m_service m) = 1)%nat }.

(** A thread takes its next message. *)
Lemma start_counts c c' x q :
  (commits (start c x, q) ≤ commits (Done, (c', x) :: q))%nat ∧ (numbers (start c x, q) ≤ numbers (Done, (c', x) :: q))%nat ∧
  queueing (start c x, q) = 0%nat ∧ result_pc (start c x) = false ∧ late (start c x) = false.
Proof.
  unfold commits, numbers, queueing. cbn [fst snd commit_pc number_pc]. rewrite !filter_cons. cbn [snd].
  destruct x as [| | |d| | | |d| |]; cbn; try (split_and!; done || lia).
  - destruct (Z.eqb_spec (DbServiceMsg_cmd d) kData) as [->|]; cbn; [split_and!; done || lia|].
    destruct (_ =? kCommit); cbn; unfold on; [|split_and!; done || lia].
    destruct (DbServiceMsg_txid d =? id); cbn; split_and!; done || lia.
  - destruct (Z.eqb_spec (DbtmMsg_cmd d) kJudgeConflit) as [->|]; cbn; [split_and!; done || lia|].
    destruct (_ =? kLsn); cbn; unfold on.
    + destruct (DbtmMsg_txid d =? id); cbn; split_and!; done || lia.
    + destruct (_ || _); cbn; split_and!; done || lia.
Qed.

Lemma counted_turn i m es m' : counted m → turn i m = Ok (es, m') → counted m'.
Proof.
  intros [Hr Hths (xc & xn & Hk & Hc & Hn & Hq)] Ht. destruct m as [s ths]. cbn in *. unfold turn in Ht. cbn in Ht.
  destruct (ths !! i) as [[p q]|] eqn:Hi; [|done]. pose proof (Forall_lookup_1 _ _ _ _ Hths Hi) as (Hp1 & Hp2). cbn in *.
  assert (∀ p' q', (sum_list_with commits (<[i := (p', q')]> ths) + commits (p, q) = sum_list_with commits ths + commits (p', q'))%nat ∧
    (sum_list_with numbers (<[i := (p', q')]> ths) + numbers (p, q) = sum_list_with numbers ths + numbers (p', q'))%nat ∧
    (sum_list_with queueing (<[i := (p', q')]> ths) + queueing (p, q) = sum_list_with queueing ths + queueing (p', q'))%nat) as Hsum.
  { intros p' q'. split_and!; by apply sum_list_with_insert. }
  assert (p = Done ∨ p ≠ Done) as [->|Hdone] by (destruct p; auto).
  - destruct q as [|[c x] q]; [done|]. injection Ht as <- <-.
    destruct (start_counts (Some c) c x q) as (H1 & H2 & H3 & H4 & H5). destruct (Hsum (start (Some c) x) q) as (S1 & S2 & S3).
    change (queueing (Done, (c, x) :: q)) with 0%nat in S3. rewrite H3 in S3.
    split; cbn [m_service m_threads]; [done|apply Forall_insert; [done|by split_and!]|]. exists xc, xn. split_and!; lia.
  - destruct (tstep p s) as [es' [[p' s']|f]] eqn:Hs; [|by destruct p]. assert (mkmachine s' (<[i := (p', q)]> ths) = m') as <- by (destruct p; try done; by injection Ht).
    destruct (spec_step p s Hr Hp1 Hp2) as [_ Hpr]. rewrite Hs in Hpr. destruct (Hpr p' s' eq_refl) as [R1 R2 R3 R4 (yc & yn & K1 & K2 & K3 & K4)].
    destruct (Hsum p' q) as (S1 & S2 & S3).
    assert (commits (p', q) + commit_pc p = commits (p, q) + commit_pc p')%nat as T1 by (unfold commits; cbn; lia).
    assert (numbers (p', q) + number_pc p = numbers (p, q) + number_pc p')%nat as T2 by (unfold numbers; cbn; lia).
    change (queueing (p', q)) with (queue_pc p') in S3. change (queueing (p, q)) with (queue_pc p) in S3.
    split; cbn [m_service m_threads]; [done|apply Forall_insert; [done|by split_and!]|]. exists (xc + yc)%nat, (xn + yn)%nat.
    split_and!; lia.
Qed.

Lemma counted_schedule turns : ∀ m es m', counted m → schedule turns m = Ok (es, m') → counted m'.
Proof.
  induction turns as [|i turns IH]; intros m es m' Hm; cbn; [by intros [= <- <-]|].
  destruct (turn i m) as [[es1 m1]|] eqn:Ht; [|done]. cbn. destruct (schedule turns m1) as [[es2 m2]|] eqn:Hs; [|done].
  intros [= <- <-]. eapply IH; [|exact Hs]. by eapply counted_turn.
Qed.

End one_check.

(** Threads that have not taken a message yet. *)
Definition idle (s : DbService) (qs : list (list (conn * RootMsg))) : machine := mkmachine s (pair Done <$> qs).

Lemma idle_sum (f : pc * list (conn * RootMsg) → nat) (g : RootMsg → bool) qs :
  (∀ q, f (Done, q) = length (filter (λ x, g x.2 = true) q)) →
  sum_list_with f (pair Done <$> qs) = length (filter (λ x, g x.2 = true) (concat qs)).
Proof. intros Hf. induction qs as [|q qs IH]; [done|]. cbn. by rewrite filter_app, length_app, Hf, IH. Qed.

(** (C13) A transaction is checked once: from a state in which it is registered,
    without its mark, and has no check queued or passed, whatever messages of
    any kind come on however many I/O threads (data, decisions and results of
    any transactions included) and however their accesses interleave, as long
    as there is at most one commit and one sequence number for the transaction
    among them, at most one check of it is queued.  The tasks that they queue
    are not run meanwhile. *)
Theorem dbs_threads_one_check id a s qs turns es m :
  registered id a s → checks a s = 0%nat → committed a s = 0%nat →
  (length (filter (λ x, is_commit id x.2 = true) (concat qs)) ≤ 1)%nat →
  (length (filter (λ x, is_number id x.2 = true) (concat qs)) ≤ 1)%nat →
  schedule turns (idle s qs) = Ok (es, m) → (checks a (m_service m) ≤ 1)%nat.
Proof.
  intros Hr Hk Hc H1 H2 Hs. assert (counted id a (idle s qs)) as Hi.
  { split; cbn [m_service m_threads idle]; [done| |].
    - apply Forall_fmap, Forall_true. by intros q.
    - exists 0%nat, 0%nat. rewrite Hk, Hc. rewrite (idle_sum (commits id) (is_commit id)), (idle_sum (numbers id) (is_number id)) by done.
      assert (sum_list_with (queueing id) (pair Done <$> qs) = 0%nat) as -> by (clear; by induction qs). split_and!; lia. }
  destruct (counted_schedule id a turns _ _ _ Hi Hs) as [_ _ (xc & xn & -> & C1 & C2 & C3)]. lia.
Qed.

(** ** Interleavings that lose something *)

(** (C18) A lost check: the commit looks for the number and finds none, the
    number arrives and finds no commit, the commit leaves its mark.  Both
    handlers return, the transaction has its number and its mark, and no check
    is queued by either. *)
Theorem dbs_threads_lost_check id a t s g l c1 c2 :
  txidTrans_ s !! id = Some (Some a) → heap_ s !! a = Some t → lsn t ≤ 0 → alreadyCommit t = false →
  ∃ m, schedule [0; 0; 0; 1; 1; 1; 0]%nat (idle s [[(c1, commit_msg id g)]; [(c2, lsn_msg id l)]]) = Ok ([], m) ∧
    m_threads m = [(Done, []); (Done, [])] ∧ tasks_ (m_service m) = tasks_ s ∧
    heap_ (m_service m) !! a = Some (set_alreadyCommit true (set_lsn l (set_needGlobal g t))).
Proof.
  intros Hp Ha Hl Hc. set (t1 := set_needGlobal g t). set (t2 := set_lsn l t1). set (s1 := upd s a t1). set (s2 := upd s1 a t2).
  assert (tstep (CommitGlobal (mkDbServiceMsg kCommit id g None None)) s = ([], Ok (CommitTest id, s1))) as T1.
  { cbn [tstep]. by rewrite (bind_quiet _ _ _ _ _ (assign_spec s id a t _ Hp Ha)). }
  assert (tstep (CommitTest id) s1 = ([], Ok (CommitMark id, s1))) as T2.
  { cbn [tstep]. rewrite (bind_quiet _ _ _ _ _ (field_spec s1 id a t1 lsn Hp (heap_upd _ _ _))). cbn. by destruct (Z.ltb_spec 0 (lsn t)); [lia|]. }
  assert (tstep (NumberStore (mkDbtmMsg kLsn id false l)) s1 = ([], Ok (NumberTest id, s2))) as T3.
  { cbn [tstep]. by rewrite (bind_quiet _ _ _ _ _ (assign_spec s1 id a t1 _ Hp (heap_upd _ _ _))). }
  assert (tstep (NumberTest id) s2 = ([], Ok (Done, s2))) as T4.
  { cbn [tstep]. rewrite (bind_quiet _ _ _ _ _ (field_spec s2 id a t2 alreadyCommit Hp (heap_upd _ _ _))). cbn. by rewrite Hc. }
  assert (tstep (CommitMark id) s2 = ([], Ok (Done, upd s2 a (set_alreadyCommit true t2)))) as T5.
  { cbn [tstep]. by rewrite (bind_quiet _ _ _ _ _ (assign_spec s2 id a t2 _ Hp (heap_upd _ _ _))). }
  eexists. split; [|split; [|split]].
  - cbn [schedule]. unfold turn. cbn -[tstep]. rewrite T1. cbn -[tstep]. rewrite T2. cbn -[tstep]. rewrite T3. cbn -[tstep]. rewrite T4. cbn -[tstep]. rewrite T5. reflexivity.
  - reflexivity.
  - reflexivity.
  - apply heap_upd.
Qed.

(** Turns of one thread until its handler returns. *)
Lemma alone_turns n : ∀ p s s' ths i q,
  run_alone n p s = ([], Ok (tt, s')) → ths !! i = Some (p, q) →
  ∃ k, schedule (replicate k i) (mkmachine s ths) = Ok ([], mkmachine s' (<[i := (Done, q)]> ths)).
Proof.
  induction n as [|n IH]; intros p s s' ths i q Hrun Hi;
    (assert (p = Done ∨ p ≠ Done) as [->|Hp]; [destruct p; auto| |]); try (by destruct p).
  1,2: rewrite handler_done in Hrun; injection Hrun as <-; exists 0%nat; cbn; by rewrite list_insert_id.
  rewrite handler_step in Hrun by done. destruct (tstep p s) as [es1 [[p1 s1]|f]] eqn:Ht; [|by rewrite (bind_fault _ _ _ _ _ Ht) in Hrun].
  rewrite (bind_step _ _ _ _ _ _ Ht) in Hrun. injection Hrun as Hes Hr. apply app_eq_nil in Hes as [-> Hes].
  assert (run_alone n p1 s1 = ([], Ok (tt, s'))) as Hrun by (rewrite <- Hes, <- Hr; by destruct (run_alone n p1 s1)).
  destruct (IH p1 s1 s' (<[i := (p1, q)]> ths) i q Hrun) as [k Hk]; [apply list_lookup_insert_eq; by eapply lookup_lt_Some|].
  exists (S k). cbn [replicate schedule]. unfold turn. cbn [m_threads m_service]. rewrite Hi. rewrite list_insert_insert_eq in Hk.
  destruct p; try done; rewrite Ht; cbn [rbind]; by rewrite Hk.
Qed.

Lemma schedule_app turns turns' m m1 es m2 :
  schedule turns m = Ok ([], m1) → schedule turns' m1 = Ok (es, m2) → schedule (turns ++ turns') m = Ok (es, m2).
Proof.
  revert m. induction turns as [|i turns IH]; intros m; cbn [schedule app]; [by intros [= <-]|].
  destruct (turn i m) as [[es1 m']|]; [|done]. cbn [rbind]. destruct (schedule turns m') as [[es2 m'']|] eqn:Hs; [|done].
  cbn [rbind]. intros [= Hes <-] H2. apply app_eq_nil in Hes as [-> ->]. by rewrite (IH m' Hs H2).
Qed.

(** The rest of a handler that has a new object of its own. *)
Lemma tran_alone conn id r w a t s :
  heap_ s !! a = Some t →
  run_alone (9 + length r + length w) (DataTxid conn (mkDbServiceMsg kData id false (Some (data_of <$> r)) (Some (data_of <$> w))) (Some a)) s =
    request_lsn id (upd (set_table (<[id := conn]>) s) a (add_sets (unlabelled <$> r) (unlabelled <$> w) (set_txid id t))).
Proof.
  intros Ha. set (data := mkDbServiceMsg _ _ _ _ _). cbn [Nat.add].
  rewrite (bind_quiet_alone _ _ (DataTable conn data (Some a)) _ (upd s a (set_txid id t))); [|done|].
  2: { cbn [tstep data_step]. by rewrite (bind_quiet _ _ _ _ _ (deref_live s a t Ha)). }
  set (s1 := upd s a (set_txid id t)). pose proof (heap_upd s a (set_txid id t) : heap_ s1 !! a = _) as H1.
  rewrite (bind_quiet_alone _ _ (DataRead data (Some a) (data_of <$> r)) _ (set_table (<[id := conn]>) s1)); [|done|].
  2: { cbn [tstep data_step]. by rewrite (bind_quiet _ _ _ _ _ (deref_live s1 a _ H1)). }
  replace (S (S (S (S (S (S (S (length r + length w)))))))) with (length (data_of <$> r) + S (length (data_of <$> w) + 6))%nat
    by (rewrite !length_fmap; lia).
  rewrite (reads_alone _ _ _ _ _ (set_txid id t)), read_items_of by exact H1.
  set (s2 := upd (set_table (<[id := conn]>) s1) a _). pose proof (heap_upd _ _ _ : heap_ s2 !! a = _) as H2.
  rewrite (bind_quiet_alone _ _ (DataWrite data (Some a) (data_of <$> w)) _ s2) by done.
  rewrite (writes_alone _ _ _ _ _ _ H2), read_items_of. rewrite (bind_quiet_alone _ _ (LsnTest id) _ _) by done.
  rewrite lsn_alone by lia. f_equal. unfold s2, s1. unfold upd, set_heap, set_table, add_sets. cbn.
  by rewrite !insert_insert_eq, !app_nil_r.
Qed.

Lemma request_first s id a t :
  txidTrans_ s !! id = Some (Some a) → heap_ s !! a = Some t → lsn t = -1 →
  request_lsn id s = ([], Ok (tt, set_tasks (λ l, l ++ [TGetLsn id]) (upd s a (set_lsn 0 t)))).
Proof.
  intros Hp Ha Hl. unfold request_lsn. rewrite (bind_quiet _ _ _ _ _ (field_spec s id a t lsn Hp Ha)), Hl. cbn [Z.eqb Pos.eqb].
  by rewrite (bind_quiet _ _ _ _ _ (assign_spec s id a t (set_lsn 0) Hp Ha)).
Qed.

Lemma request_again s id a t :
  txidTrans_ s !! id = Some (Some a) → heap_ s !! a = Some t → lsn t ≠ -1 → request_lsn id s = ([], Ok (tt, s)).
Proof.
  intros Hp Ha Hl. unfold request_lsn. rewrite (bind_quiet _ _ _ _ _ (field_spec s id a t lsn Hp Ha)). by destruct (Z.eqb_spec (lsn t) (-1)).
Qed.

(** (C34) Lost data: the first two messages of a transaction (each with both
    sets and all strings present), on different I/O threads, both find no entry and both make an object.  One interleaving
    leaves the items of the first message in an object that nothing points to:
    the registered transaction holds the second message alone. *)
Theorem dbs_threads_lost_data s id r1 w1 r2 w2 c1 c2 :
  txidTrans_ s !! id = None →
  ∃ turns m t, schedule turns (idle s [[(c1, data_msg id r1 w1)]; [(c2, data_msg id r2 w2)]]) = Ok ([], m) ∧
    m_threads m = [(Done, []); (Done, [])] ∧ look (m_service m) id = Some t ∧
    readSet t = unlabelled <$> r2 ∧ writeSet t = unlabelled <$> w2.
Proof.
  intros Hn. set (d1 := mkDbServiceMsg kData id false (Some (data_of <$> r1)) (Some (data_of <$> w1))).
  set (d2 := mkDbServiceMsg kData id false (Some (data_of <$> r2)) (Some (data_of <$> w2))).
  set (new := λ b s, set_txidTrans (<[id := Some b]>) (set_heap (<[b := fresh_transaction junk]>) s)).
  set (a1 := fresh (dom (heap_ s))). set (s1 := new a1 s). set (a2 := fresh (dom (heap_ s1))). set (s2 := new a2 s1).
  assert (a1 ≠ a2) as Hne. { intros Heq. pose proof (is_fresh (dom (heap_ s1))) as Hf. fold a2 in Hf. rewrite <- Heq in Hf. apply Hf. cbn. set_solver. }
  assert (schedule [0; 0; 1; 1; 0; 1]%nat (idle s [[(c1, data_msg id r1 w1)]; [(c2, data_msg id r2 w2)]]) =
    Ok ([], mkmachine s2 [(DataTxid (Some c1) d1 (Some a1), []); (DataTxid (Some c2) d2 (Some a2), [])])) as Hpre.
  { assert (∀ c d, DbServiceMsg_txid d = id → tstep (DataFind c d) s = ([], Ok (DataNew c d, s))) as T1.
    { intros c d Hd. cbn [tstep data_step]. unfold bind, get, ret. by rewrite Hd, Hn. }
    assert (∀ c d s, DbServiceMsg_txid d = id → tstep (DataNew c d) s = ([], Ok (DataTxid c d (Some (fresh (dom (heap_ s)))), new (fresh (dom (heap_ s))) s))) as T2.
    { intros c d s' Hd. cbn [tstep data_step]. unfold new_transaction. by rewrite Hd. }
    cbn [schedule]. unfold turn. cbn -[tstep]. fold d1 d2. do 2 (rewrite T1 by done; cbn -[tstep]). by do 2 (rewrite T2 by done; cbn -[tstep]). }
  assert (heap_ s2 !! a1 = Some (fresh_transaction junk)) as Ha1 by (cbn; by rewrite lookup_insert_ne, lookup_insert_eq).
  assert (heap_ s2 !! a2 = Some (fresh_transaction junk)) as Ha2 by (cbn; by rewrite lookup_insert_eq).
  assert (txidTrans_ s2 !! id = Some (Some a2)) as Hid by (cbn; by rewrite lookup_insert_eq).
  pose proof (tran_alone (Some c1) id r1 w1 a1 _ s2 Ha1) as H1. fold d1 in H1. set (s3 := upd _ a1 _) in H1.
  assert (heap_ s3 !! a2 = Some (fresh_transaction junk)) as Ha3 by (cbn; by rewrite lookup_insert_ne).
  rewrite (request_first s3 id a2 _ Hid Ha3 eq_refl) in H1. set (s4 := set_tasks _ _) in H1.
  destruct (alone_turns _ _ _ _ [(DataTxid (Some c1) d1 (Some a1), []); (DataTxid (Some c2) d2 (Some a2), [])] 0 [] H1 eq_refl) as [k1 Hk1].
  pose proof (heap_upd s3 a2 (set_lsn 0 (fresh_transaction junk)) : heap_ s4 !! a2 = _) as Ha4.
  pose proof (tran_alone (Some c2) id r2 w2 a2 _ s4 Ha4) as H2. fold d2 in H2. set (t5 := add_sets _ _ _) in H2. set (s5 := upd _ a2 t5) in H2.
  pose proof (heap_upd _ _ _ : heap_ s5 !! a2 = Some t5) as Ha5. assert (txidTrans_ s5 !! id = Some (Some a2)) as Hid5 by exact Hid.
  rewrite (request_again s5 id a2 _ Hid5 Ha5) in H2 by done.
  destruct (alone_turns _ _ _ _ [(Done, []); (DataTxid (Some c2) d2 (Some a2), [])] 1 [] H2 eq_refl) as [k2 Hk2].
  exists ([0; 0; 1; 1; 0; 1] ++ replicate k1 0 ++ replicate k2 1)%nat, (mkmachine s5 [(Done, []); (Done, [])]), t5. split_and!; [|done| |done|done].
  - eapply schedule_app; [exact Hpre|]. by eapply schedule_app.
  - unfold look. cbn [m_service]. by rewrite Hid5.
Qed.

End steps.

(** ** Witnesses *)

Definition demo_item (key : string) : Item := mkItem key "" "col" "val".

Lemma dbs_handler_alone_witness :
  run_alone 99 12 (start (Some 3%nat) (data_msg 7 [demo_item "a"] [demo_item "b"; demo_item "c"])) DbService_new =
  onMessage (Some 3%nat) (data_msg 7 [demo_item "a"] [demo_item "b"; demo_item "c"]) DbService_new.
Proof. apply (dbs_handler_alone 99 (Some 3%nat) (data_msg 7 [demo_item "a"] [demo_item "b"; demo_item "c"]) DbService_new 12). cbn. lia. Defined.

(** The service with one transaction whose number has been asked for. *)
Definition waiting : DbService := upd service7 (fresh (∅ : gset nat)) (set_lsn 0 (fresh_transaction 7)).

Lemma waiting_registered : registered 7 (fresh (∅ : gset nat)) waiting.
Proof.
  split_and!; [reflexivity| |by eexists|].
  - intros i. cbn. intros [[-> _]|[_ Hi]]%lookup_insert_Some; [reflexivity|]. by rewrite lookup_empty in Hi.
  - intros i. cbn. by rewrite lookup_empty.
Defined.

(** A commit and a number whose accesses alternate, and data and a result of
    another transaction on a third thread. *)
Definition mixed_queues : list (list (conn * RootMsg)) :=
  [[(1%nat, commit_msg 7 true)]; [(2%nat, lsn_msg 7 5)]; [(3%nat, data_msg 8 [] []); (4%nat, Msg_DbtmMsg (mkDbtmMsg kTranFail 8 false 0))]].
Definition mixed_schedule : list nat := ([0; 1; 0; 1] ++ replicate 14 2 ++ [1; 0; 0; 2])%nat.

Lemma dbs_threads_one_check_witness :
  ∃ m, schedule 99 mixed_schedule (idle waiting mixed_queues) = Ok ([ESend 3%nat (Msg_ESMsg (mkESMsg kTranFail 8 false 0 None None None))], m) ∧
    (checks (fresh (∅ : gset nat)) (m_service m) ≤ 1)%nat.
Proof.
  destruct (schedule 99 mixed_schedule (idle waiting mixed_queues)) as [[es m]|] eqn:Hs; [|vm_compute in Hs; discriminate].
  exists m. assert (es = [ESend 3%nat (Msg_ESMsg (mkESMsg kTranFail 8 false 0 None None None))]) as -> by (vm_compute in Hs; by injection Hs as <- _).
  split; [reflexivity|]. refine (dbs_threads_one_check 99 7 _ waiting _ _ _ m waiting_registered _ _ _ _ Hs).
  - reflexivity.
  - reflexivity.
  - vm_compute. lia.
  - vm_compute. lia.
Defined.

Lemma dbs_threads_lost_check_witness :
  ∃ m, schedule 99 [0; 0; 0; 1; 1; 1; 0]%nat (idle waiting [[(1%nat, commit_msg 7 true)]; [(2%nat, lsn_msg 7 5)]]) = Ok ([], m) ∧
    tasks_ (m_service m) = [] ∧ look (m_service m) 7 = Some (mktransaction 7 [] [] true 5 true).
Proof.
  destruct (dbs_threads_lost_check 99 7 (fresh (∅ : gset nat)) (set_lsn 0 (fresh_transaction 7)) waiting true 5 1%nat 2%nat) as (m & Hs & _ & Ht & Hh);
    [reflexivity|reflexivity|cbn; lia|reflexivity|].
  exists m. split_and!; [exact Hs|exact Ht|]. vm_compute in Hs. injection Hs as <-. vm_compute. reflexivity.
Defined.

Lemma dbs_threads_lost_data_witness :
  ∃ turns m t, schedule 99 turns (idle DbService_new [[(1%nat, data_msg 7 [demo_item "a"] [])]; [(2%nat, data_msg 7 [demo_item "b"] [])]]) = Ok ([], m) ∧
    look (m_service m) 7 = Some t ∧ readSet t = [demo_item "b"].
Proof.
  destruct (dbs_threads_lost_data 99 DbService_new 7 [demo_item "a"] [] [demo_item "b"] [] 1%nat 2%nat) as (turns & m & t & Hs & _ & Hl & Hr & _); [reflexivity|].
  exists turns, m, t. split_and!; [exact Hs|exact Hl|exact Hr].
Defined.

End DbsThreads.
