(* ===== verification/DbsPool.v ===== *)
(** * The database service with the workers of its pool

    [DbService] has a pool of [dbtmThreadNum()] workers that run the work of
    [Dbtm] while the I/O threads handle messages, on the same maps, the same
    [transaction] objects and the same conflict table, without a lock.  Here the
    tasks are cut at their accesses to shared memory, beside the handlers of
    DbsThreads.v.  The sets of a transaction are lists that only grow, so an
    iterator is the number of items that it has passed, and a loop sees the
    items that arrive while it runs.  An operation on the conflict table or on a
    map is one step, and so is the text of a log file, which changes nothing.

    Shown: a task that nobody disturbs is the task of Dbs.v; in every
    interleaving every log that is sent is empty, as long as no data arrives for
    a transaction that has passed its check; and data that arrives between the
    check and the log is logged without having been checked. *)

From stdpp Require Import base gmap strings list.
From S2P Require Import Prelude NetMsg NetGenerated Hash Config Dbs DbsThreads.

Module DbsPool.
Import Dbs.

#[export] Instance handler_done_dec (p : DbsThreads.pc) : Decision (p = DbsThreads.Done).
Proof. destruct p; [by left|right; discriminate..]. Defined.

Section pool.
Context `{Stale} (std_hash : string → Z) (cfg : Config.ConfigManager).
Context (mysql_query_ok : string → bool) (open_ok remove_ok : string → bool).
(** What a fresh object holds in its [txid]. *)
Context (junk : Z).

(** ** Tasks, one access at a time *)

(** What a worker does next.  [CacheLsn], [CacheKey] and [CacheLog] carry the id
    of the transaction when [solve] is the caller, and [Result] the transaction
    when [judgeLocalConflict] is. *)
Inductive wpc :=
| Idle
| Take
| LsnRequest (id : Z)
| JudgeDisk (p : ptr)
| JudgeRead (p : ptr) (it : nat)
| JudgeReadExist (p : ptr) (it : nat) (key : string)
| JudgeWrite (p : ptr) (it : nat)
| JudgeWriteExist (p : ptr) (it : nat) (key : string)
| JudgeMove (p : ptr)
| JudgeErase (p : ptr)
| JudgeSql (p : ptr)
| JudgeKind (p : ptr)
| GlobalSend (id : Z)
| CacheLsn (p : ptr) (k : option Z)
| CacheKey (p : ptr) (l : Z) (it : nat) (k : option Z)
| CacheLog (p : ptr) (k : option Z)
| SolveSql (id : Z)
| Conflict (p : ptr)
| Result (r : DbsThreads.pc) (k : option ptr)
| ConflictGlobal (p : ptr)
| SolveStart (data : DbtmMsg)
| SolveFind (id : Z)
| SolveDelete (id : Z).

#[export] Instance idle_dec (w : wpc) : Decision (w = Idle).
Proof. destruct w; [by left|right; discriminate..]. Defined.

(** The next task of the queue, which has a lock. *)
Definition take_task : P wpc :=
  let* s := get in
  match tasks_ s with
  | [] => ret Idle
  | t :: rest =>
      modify (set_tasks (λ _, rest)) ;;;
      ret (match t with TGetLsn id => LsnRequest id | TJudgeLocal p => JudgeDisk p | TSolve data => SolveStart data end)
  end.

(** [wcheck.delLessThan(key, bound)] and [wcheck.exist(key)] *)
Definition del_less (key : string) (bound : Z) : P unit :=
  let* s := get in
  let* h := lift (Mhash.delLessThan std_hash key bound (wcheck s)) in
  modify (set_wcheck (λ _, h)).
Definition exists_key (key : string) : P bool := let* s := get in lift (Mhash.exist std_hash key (wcheck s)).

(** [judgeLocalConflict] *)
Definition judge_step (w : wpc) : P wpc :=
  match w with
  | JudgeDisk p =>
      let* (_, t) := deref p in
      writeToDiskAndSql cfg mysql_query_ok open_ok t ;;; ret (JudgeRead p 0)
  | JudgeRead p it =>
      let* (_, t) := deref p in
      match readSet t !! it with
      | None => ret (JudgeWrite p 0)
      | Some d => del_less (item_key d) (lsn t) ;;; ret (JudgeReadExist p it (item_key d))
      end
  | JudgeReadExist p it key => let* e := exists_key key in ret (if e : bool then Conflict p else JudgeRead p (S it))
  | JudgeWrite p it =>
      let* (_, t) := deref p in
      match writeSet t !! it with
      | None => ret (JudgeMove p)
      | Some d => del_less (item_key d) (lsn t) ;;; ret (JudgeWriteExist p it (item_key d))
      end
  | JudgeWriteExist p it key => let* e := exists_key key in ret (if e : bool then Conflict p else JudgeWrite p (S it))
  | JudgeMove p => let* (_, t) := deref p in modify (set_dbtm_table (<[txid t := p]>)) ;;; ret (JudgeErase p)
  | JudgeErase p => let* (_, t) := deref p in modify (set_txidTrans (delete (txid t))) ;;; ret (JudgeSql p)
  | JudgeSql p => let* (_, t) := deref p in sqlUpdateNeedLocalConflict mysql_query_ok (txid t) false ;;; ret (JudgeKind p)
  | JudgeKind p => let* (_, t) := deref p in ret (if needGlobalConflct t then GlobalSend (txid t) else CacheLsn p None)
  | GlobalSend id => judgeGlobalConflict id ;;; ret Idle
  | Conflict p =>
      LOG INFO "There are conflicts between transactions (local)" ;;;
      let* (_, t) := deref p in ret (Result (DbsThreads.ResultSend kTranFail (txid t)) (Some p))
  | ConflictGlobal p =>
      let* (_, t) := deref p in
      (if needGlobalConflct t then
         let* s := get in
         send (gtmConn_ s) (Msg_GtmMsg (mkGtmMsg kJudgeConflit (txid t) true None))
       else ret tt) ;;; ret Idle
  | w => ret w
  end.

(** [cacheRWSet] *)
Definition cache_step (w : wpc) : P wpc :=
  match w with
  | CacheLsn p k => let* (_, t) := deref p in ret (CacheKey p (lsn t) 0 k)
  | CacheKey p l it k =>
      let* (_, t) := deref p in
      match writeSet t !! it with
      | None => ret (CacheLog p k)
      | Some d =>
          let* s := get in
          let* h := lift (Mhash.insert std_hash (item_key d) l (wcheck s)) in
          modify (set_wcheck (λ _, h)) ;;; ret (CacheKey p l (S it) k)
      end
  | CacheLog p k => let* (_, t) := deref p in sendLog t ;;; ret (match k with None => Idle | Some id => SolveSql id end)
  | w => ret w
  end.

(** [solve], and the tasks *)
Definition wstep (w : wpc) : P wpc :=
  match w with
  | Idle => ret Idle
  | Take => take_task
  | LsnRequest id => getLsn id ;;; ret Idle
  | CacheLsn _ _ | CacheKey _ _ _ _ | CacheLog _ _ => cache_step w
  | SolveStart data =>
      let* data := lift (stale data) in
      ret (if DbtmMsg_cmd data =? kJudgeConflit then
             if negb (DbtmMsg_isGlobalConflict data) then SolveFind (DbtmMsg_txid data) else SolveDelete (DbtmMsg_txid data)
           else Idle)
  | SolveFind id => let* p := dbtm_table_at id in ret (CacheLsn p (Some id))
  | SolveSql id => sqlUpdateNeedGlobalConflict mysql_query_ok id false ;;; ret Idle
  | SolveDelete id =>
      LOG INFO "There are conflicts between transactions (global)" ;;;
      sqlDelete cfg mysql_query_ok remove_ok id ;;; ret (Result (DbsThreads.ResultSend kTranFail id) None)
  | Result DbsThreads.Done k => ret (match k with None => Idle | Some p => ConflictGlobal p end)
  | Result r k => let* r := DbsThreads.result_step r in ret (Result r k)
  | w => judge_step w
  end.

(** A worker that nobody interrupts. *)
Fixpoint run_alone (fuel : nat) (w : wpc) : P unit :=
  match w, fuel with
  | Idle, _ => ret tt
  | _, O => throw OutOfFuel
  | _, S fuel => let* w' := wstep w in run_alone fuel w'
  end.

(** ** The process *)

(** An I/O thread with the messages that it still has to handle, or a worker. *)
Inductive thread :=
| IO (p : DbsThreads.pc) (q : list (conn * RootMsg))
| Worker (w : wpc).

Record machine := mkmachine { m_service : DbService; m_threads : list thread }.

Definition step_thread (t : thread) : option (P thread) :=
  match t with
  | IO DbsThreads.Done [] => None
  | IO DbsThreads.Done ((c, msg) :: q) => Some (ret (IO (DbsThreads.start (Some c) msg) q))
  | IO p q => Some (let* p := DbsThreads.tstep junk p in ret (IO p q))
  | Worker Idle => Some (ret (Worker Take))
  | Worker w => Some (let* w := wstep w in ret (Worker w))
  end.

Definition turn (i : nat) (m : machine) : result (list event * machine) :=
  match m_threads m !! i ≫= step_thread with
  | None => Err OutOfBounds
  | Some f =>
      match f (m_service m) with
      | (es, Ok (t, s)) => Ok (es, mkmachine s (<[i := t]> (m_threads m)))
      | (_, Err f) => Err f
      end
  end.

Fixpoint schedule (turns : list nat) (m : machine) : result (list event * machine) :=
  match turns with
  | [] => Ok ([], m)
  | i :: turns =>
      let? (es, m) := turn i m in
      let? (es', m) := schedule turns m in
      Ok (es ++ es', m)
  end.

(** ** One task alone *)

(** With enough turns the worker does what [m] does. *)
Definition runs (w : wpc) (s : DbService) (m : P unit) : Prop := ∃ n0, ∀ n, (n0 ≤ n)%nat → run_alone n w s = m s.

Lemma worker_unfold n w s : w ≠ Idle → run_alone (S n) w s = bind (wstep w) (run_alone n) s.
Proof. by destruct w. Qed.

Lemma runs_eq w s m m' : m s = m' s → runs w s m → runs w s m'.
Proof. intros Hm [n0 H0]. exists n0. intros n Hn. rewrite <- Hm. by apply H0. Qed.

Lemma runs_idle s : runs Idle s (ret tt).
Proof. exists 0%nat. intros [|n] _; done. Qed.

Lemma runs_bind {A} w s (m : P A) (k : A → wpc) (h : A → P unit) :
  w ≠ Idle → wstep w s = (let* a := m in ret (k a)) s → (∀ es a s', m s = (es, Ok (a, s')) → runs (k a) s' (h a)) → runs w s (bind m h).
Proof.
  intros Hw Ht Hk. destruct (m s) as [es [[a s']|f]] eqn:Hm.
  - destruct (Hk es a s' eq_refl) as [n0 Hn]. exists (S n0). intros [|n] Hle; [lia|]. rewrite worker_unfold by done.
    rewrite (bind_step m h _ _ _ _ Hm), <- (Hn n) by lia. rewrite (bind_step m _ _ _ _ _ Hm) in Ht. cbn in Ht.
    rewrite (bind_step _ _ _ _ _ _ Ht). by rewrite app_nil_r.
  - exists 1%nat. intros [|n] Hle; [lia|]. rewrite worker_unfold by done. rewrite (bind_fault m h _ _ _ Hm).
    apply bind_fault. by rewrite Ht, (bind_fault _ _ _ _ _ Hm).
Qed.

Lemma runs_quiet_step w s w' s' m : w ≠ Idle → wstep w s = ([], Ok (w', s')) → runs w' s' m → runs w s (λ _, m s').
Proof.
  intros Hw Ht [n0 Hn]. exists (S n0). intros [|n] Hle; [lia|]. rewrite worker_unfold, (bind_quiet _ _ _ _ _ Ht) by done. apply Hn. lia.
Qed.

Lemma runs_end w s (m : P unit) : w ≠ Idle → wstep w s = (m ;;; ret Idle) s → runs w s m.
Proof.
  intros Hw Ht. eapply runs_eq; [apply bind_ret_r|]. eapply (runs_bind _ _ _ (λ _, Idle)); [done|done|]. intros es [] s' _. apply runs_idle.
Qed.

(** A step through a pointer. *)
Lemma follow_live {A} s a t (f : nat * transaction → P A) : heap_ s !! a = Some t → bind (deref (Some a)) f s = f (a, t) s.
Proof. intros Ha. by rewrite (bind_quiet _ _ _ _ _ (DbsThreads.deref_live s a t Ha)). Qed.

Ltac follow Ha := rewrite ?(follow_live _ _ _ _ Ha).

(** Programs that leave the objects alone. *)
Definition heapless {A} (m : P A) : Prop := ∀ H0, keeps (λ _ : event, True) (λ s, heap_ s = H0) m.

Lemma heapless_ok {A} (m : P A) s es a s' : heapless m → m s = (es, Ok (a, s')) → heap_ s' = heap_ s.
Proof. intros Hm Hs. destruct (Hm (heap_ s) s eq_refl) as [_ Hk]. rewrite Hs in Hk. by eapply Hk. Qed.

Lemma heapless_sql q : heapless (sqlExec mysql_query_ok q).
Proof. intros H0. unfold sqlExec, MyDb_exeSQL, LOG. repeat keeps_step; done. Qed.

Lemma heapless_disk t : heapless (writeToDiskAndSql cfg mysql_query_ok open_ok t).
Proof. intros H0. unfold writeToDiskAndSql, LOG. repeat keeps_step; try done. apply heapless_sql. Qed.

Lemma heapless_del k b : heapless (del_less k b).
Proof. intros H0. unfold del_less. repeat keeps_step; done. Qed.

Lemma heapless_exists k : heapless (exists_key k).
Proof. intros H0. unfold exists_key. keeps_step. intros s1 Hs1. by apply wp_lift. Qed.

(** *** The loops of the check *)

(** One round of a loop. *)
Lemma check_keys_split d l b (f : bool → P unit) s :
  (let* c := check_keys std_hash (d :: l) b in f c) s =
  (del_less (item_key d) b ;;; (let* e := exists_key (item_key d) in if e : bool then f true else (let* c := check_keys std_hash l b in f c))) s.
Proof.
  unfold del_less, exists_key. cbn [check_keys]. rewrite !bind_assoc, !(bind_quiet get _ s s s) by done.
  destruct (Mhash.delLessThan std_hash (item_key d) b (wcheck s)) as [h|f1]; [|done].
  rewrite !bind_assoc, !(bind_quiet (lift (Ok h)) _ s h s), bind_assoc, !(bind_quiet (modify _) _ s tt (set_wcheck (λ _, h) s)) by done.
  rewrite !bind_assoc, (bind_quiet get _ _ _ _ eq_refl).
  apply bind_ext. intros [] s1; [by rewrite bind_ret_l|done].
Qed.

Section loop.
Context (a : nat) (t : transaction) (items : list Item) (at_ : nat → wpc) (ex : nat → string → wpc) (next : wpc) (conflict ok : P unit).
Context (at_step : ∀ it s, heap_ s !! a = Some t → wstep (at_ it) s =
  (match items !! it with None => ret next | Some d => del_less (item_key d) (lsn t) ;;; ret (ex it (item_key d)) end) s).
Context (ex_step : ∀ it key, wstep (ex it key) = (let* e := exists_key key in ret (if e : bool then Conflict (Some a) else at_ (S it)))).
Context (at_busy : ∀ it, at_ it ≠ Idle) (ex_busy : ∀ it key, ex it key ≠ Idle).
Context (conflict_runs : ∀ s, heap_ s !! a = Some t → runs (Conflict (Some a)) s conflict).
Context (next_runs : ∀ s, heap_ s !! a = Some t → runs next s ok).

Lemma check_runs l : ∀ it s,
  drop it items = l → heap_ s !! a = Some t →
  runs (at_ it) s (let* c := check_keys std_hash l (lsn t) in if c : bool then conflict else ok).
Proof.
  induction l as [|d l IH]; intros it s Hl Ha.
  - assert (items !! it = None) as Hit. { apply lookup_ge_None. apply (f_equal length) in Hl. rewrite length_drop in Hl. cbn in Hl. lia. }
    eapply (runs_eq _ _ (λ _, ok s)); [cbn [check_keys]; by rewrite bind_ret_l|].
    apply (runs_quiet_step _ _ next); [done| |by apply next_runs]. by rewrite at_step, Hit.
  - assert (items !! it = Some d) as Hit. { by rewrite <- (Nat.add_0_r it), <- lookup_drop, Hl. }
    assert (drop (S it) items = l) as Hl'. { rewrite (drop_S items d it Hit) in Hl. by injection Hl. }
    eapply (runs_eq _ _ (del_less (item_key d) (lsn t) ;;; (let* e := exists_key (item_key d) in
      if e : bool then conflict else (let* c := check_keys std_hash l (lsn t) in if c : bool then conflict else ok)))).
    { symmetry. apply check_keys_split. }
    eapply (runs_bind _ _ _ (λ _, ex it (item_key d))); [done|by rewrite at_step, Hit|]. intros es [] s1 Hs1.
    pose proof (heapless_ok _ _ _ _ _ (heapless_del _ _) Hs1) as Hh1.
    eapply (runs_bind _ _ _ (λ e : bool, if e then Conflict (Some a) else at_ (S it))); [done|by rewrite ex_step|]. intros es2 e s2 Hs2.
    pose proof (heapless_ok _ _ _ _ _ (heapless_exists _) Hs2) as Hh2.
    assert (heap_ s2 !! a = Some t) as Ha2 by (by rewrite Hh2, Hh1). destruct e; [by apply conflict_runs|by apply IH].
Qed.

End loop.

(** *** The rest of the tasks *)

Definition after_cache (k : option Z) : P unit :=
  match k with None => ret tt | Some id => sqlUpdateNeedGlobalConflict mysql_query_ok id false end.

Lemma after_cache_runs k s : runs (match k with None => Idle | Some id => SolveSql id end) s (after_cache k).
Proof. destruct k; [by apply runs_end|apply runs_idle]. Qed.

Definition insert_key (l : Z) (d : Item) : P unit :=
  let* s := get in
  let* h := lift (Mhash.insert std_hash (item_key d) l (wcheck s)) in
  modify (set_wcheck (λ _, h)).

Lemma heapless_insert l d : heapless (insert_key l d).
Proof. intros H0. unfold insert_key. repeat keeps_step; done. Qed.

Lemma insert_loop_runs a t k l : ∀ it s,
  drop it (writeSet t) = l → heap_ s !! a = Some t →
  runs (CacheKey (Some a) (lsn t) it k) s (for_each l (insert_key (lsn t)) ;;; (sendLog t ;;; after_cache k)).
Proof.
  induction l as [|d l IH]; intros it s Hl Ha.
  - assert (writeSet t !! it = None) as Hit. { apply lookup_ge_None. apply (f_equal length) in Hl. rewrite length_drop in Hl. cbn in Hl. lia. }
    eapply (runs_eq _ _ (λ _, (sendLog t ;;; after_cache k) s)); [cbn [for_each]; by rewrite bind_ret_l|].
    apply (runs_quiet_step _ _ (CacheLog (Some a) k)); [done|cbn [wstep cache_step]; follow Ha; by rewrite Hit|].
    eapply (runs_bind _ _ _ (λ _, match k with None => Idle | Some id => SolveSql id end)); [done|cbn [wstep cache_step]; by follow Ha|].
    intros es [] s' _. apply after_cache_runs.
  - assert (writeSet t !! it = Some d) as Hit. { by rewrite <- (Nat.add_0_r it), <- lookup_drop, Hl. }
    assert (drop (S it) (writeSet t) = l) as Hl'. { rewrite (drop_S _ d it Hit) in Hl. by injection Hl. }
    eapply runs_eq; [cbn [for_each]; symmetry; apply bind_assoc|].
    eapply (runs_bind _ _ _ (λ _, CacheKey (Some a) (lsn t) (S it) k)); [done| |].
    + cbn [wstep cache_step]. follow Ha. rewrite Hit. unfold insert_key. rewrite bind_assoc. apply bind_ext. intros s1 s2. by rewrite bind_assoc.
    + intros es [] s' Hs'. apply IH; [done|]. by rewrite (heapless_ok _ _ _ _ _ (heapless_insert _ _) Hs').
Qed.

(** A pointer is live, or following it is a fault. *)
Lemma deref_cases p s : (∃ a t, p = Some a ∧ heap_ s !! a = Some t) ∨ (∃ f, deref p s = ([], Err f)).
Proof.
  destruct p as [a|]; [|right; by eexists]. destruct (heap_ s !! a) as [t|] eqn:Ha; [left; by exists a, t|].
  right. exists UseAfterFree. by apply DbsThreads.deref_freed.
Qed.

Lemma cache_runs p k s : runs (CacheLsn p k) s (cacheRWSet std_hash p ;;; after_cache k).
Proof.
  destruct (deref_cases p s) as [(a & t & -> & Ha)|[f Hf]].
  - eapply (runs_eq _ _ (λ _, (for_each (writeSet t) (insert_key (lsn t)) ;;; (sendLog t ;;; after_cache k)) s)).
    { unfold cacheRWSet. rewrite bind_assoc. follow Ha. by rewrite bind_assoc. }
    apply (runs_quiet_step _ _ (CacheKey (Some a) (lsn t) 0 k)); [done|cbn [wstep cache_step]; by follow Ha|]. by apply insert_loop_runs.
  - exists 1%nat. intros [|n] Hn; [lia|]. rewrite worker_unfold by done. unfold cacheRWSet. cbn [wstep cache_step].
    by rewrite !bind_assoc, !(bind_fault _ _ _ _ _ Hf).
Qed.

(** [retResult] in its steps *)
Definition result_send (status id : Z) : P unit :=
  let* s := get in
  let '(conn, tbl) := subscript None id (table_ s) in
  modify (set_table (λ _, tbl)) ;;;
  send conn (Msg_ESMsg (mkESMsg status id false 0 None None None)).

Lemma retResult_split status id s :
  retResult status id s =
  (result_send status id ;;; (let* tran := dbtm_table_at id in modify (set_dbtm_table (delete id)) ;;; delete_ptr tran)) s.
Proof.
  unfold retResult, result_send. rewrite bind_assoc. apply bind_ext. intros s0 s1. destruct (subscript None id (table_ s0)). by rewrite bind_assoc.
Qed.

Definition after_result (k : option ptr) : P unit :=
  match k with
  | None => ret tt
  | Some p =>
      let* (_, t) := deref p in
      if needGlobalConflct t then
        let* s := get in
        send (gtmConn_ s) (Msg_GtmMsg (mkGtmMsg kJudgeConflit (txid t) true None))
      else ret tt
  end.

Lemma after_result_runs k s : runs (match k with None => Idle | Some p => ConflictGlobal p end) s (after_result k).
Proof.
  destruct k as [p|]; [|apply runs_idle]. apply runs_end; [done|]. cbn [wstep judge_step after_result].
  rewrite bind_assoc. apply bind_ext. by intros [a t] s1.
Qed.

Lemma result_runs status id k s : runs (Result (DbsThreads.ResultSend status id) k) s (retResult status id ;;; after_result k).
Proof.
  eapply (runs_eq _ _ (result_send status id ;;; (let* tran := dbtm_table_at id in modify (set_dbtm_table (delete id)) ;;; (delete_ptr tran ;;; after_result k)))).
  { symmetry. unfold bind at 1. rewrite retResult_split. fold (bind (result_send status id ;;; (let* tran := dbtm_table_at id in modify (set_dbtm_table (delete id)) ;;; delete_ptr tran)) (λ _, after_result k) s).
    rewrite !bind_assoc. apply bind_ext. intros [] s1. rewrite bind_assoc. apply bind_ext. intros tran s2. by rewrite bind_assoc. }
  eapply (runs_bind _ _ _ (λ _, Result (DbsThreads.ResultFind id) k)); [done| |].
  { cbn [wstep DbsThreads.result_step]. unfold result_send. rewrite !bind_assoc. apply bind_ext. intros s0 s1. destruct (subscript None id (table_ s0)).
    rewrite !bind_assoc. apply bind_ext. intros [] s2. rewrite !bind_assoc. apply bind_ext. intros [] s3. by rewrite bind_ret_l. }
  intros es1 [] s1 _. eapply (runs_bind _ _ _ (λ tran, Result (DbsThreads.ResultErase id tran) k)); [done| |].
  { cbn [wstep DbsThreads.result_step]. rewrite bind_assoc. apply bind_ext. intros tran s2. by rewrite bind_ret_l. }
  intros es2 tran s2 _. eapply (runs_bind _ _ _ (λ _, Result (DbsThreads.ResultDelete tran) k)); [done| |].
  { cbn [wstep DbsThreads.result_step]. rewrite bind_assoc. apply bind_ext. intros [] s3. by rewrite bind_ret_l. }
  intros es3 [] s3 _. eapply (runs_bind _ _ _ (λ _, Result DbsThreads.Done k)); [done| |].
  { cbn [wstep DbsThreads.result_step]. rewrite bind_assoc. apply bind_ext. intros [] s4. by rewrite bind_ret_l. }
  intros es4 [] s4 _. eapply runs_eq; [|eapply (runs_quiet_step _ s4 _ s4); [done|reflexivity|apply after_result_runs]]. done.
Qed.

(** What follows the check, with and without a conflict. *)
Definition report_conflict (p : ptr) (t : transaction) : P unit :=
  LOG INFO "There are conflicts between transactions (local)" ;;; (retResult kTranFail (txid t) ;;; after_result (Some p)).
Definition accept (p : ptr) (t : transaction) : P unit :=
  modify (set_dbtm_table (<[txid t := p]>)) ;;;
  (modify (set_txidTrans (delete (txid t))) ;;;
   (sqlUpdateNeedLocalConflict mysql_query_ok (txid t) false ;;;
    (if needGlobalConflct t then judgeGlobalConflict (txid t) else cacheRWSet std_hash p))).

Lemma conflict_runs a t s : heap_ s !! a = Some t → runs (Conflict (Some a)) s (report_conflict (Some a) t).
Proof.
  intros Ha. eapply (runs_bind _ _ _ (λ _, Result (DbsThreads.ResultSend kTranFail (txid t)) (Some (Some a)))); [done| |].
  - cbn [wstep judge_step]. unfold bind at 1 3. cbn [LOG emit]. by follow Ha.
  - intros es [] s' _. apply result_runs.
Qed.

Lemma accept_runs a t s : heap_ s !! a = Some t → runs (JudgeMove (Some a)) s (accept (Some a) t).
Proof.
  intros Ha. eapply (runs_bind _ _ _ (λ _, JudgeErase (Some a))); [done|cbn [wstep judge_step]; by follow Ha|]. intros es [] s1 [= <- <-].
  set (s1 := set_dbtm_table _ s). assert (heap_ s1 !! a = Some t) as Ha1 by done.
  eapply (runs_bind _ _ _ (λ _, JudgeSql (Some a))); [done|cbn [wstep judge_step]; by follow Ha1|]. intros es [] s2 [= <- <-].
  set (s2 := set_txidTrans _ s1). assert (heap_ s2 !! a = Some t) as Ha2 by done.
  eapply (runs_bind _ _ _ (λ _, JudgeKind (Some a))); [done|cbn [wstep judge_step]; by follow Ha2|]. intros es [] s3 Hs3.
  assert (heap_ s3 !! a = Some t) as Ha3. { by rewrite (heapless_ok _ _ _ _ _ (heapless_sql _) Hs3). }
  destruct (needGlobalConflct t) eqn:Hg.
  - eapply (runs_eq _ _ (λ _, judgeGlobalConflict (txid t) s3)); [done|]. apply (runs_quiet_step _ _ (GlobalSend (txid t))); [done| |by apply runs_end].
    cbn [wstep judge_step]. follow Ha3. by rewrite Hg.
  - eapply (runs_eq _ _ (λ _, (cacheRWSet std_hash (Some a) ;;; after_cache None) s3)); [apply bind_ret_r|].
    apply (runs_quiet_step _ _ (CacheLsn (Some a) None)); [done| |apply cache_runs]. cbn [wstep judge_step]. follow Ha3. by rewrite Hg.
Qed.

Lemma judge_pieces p s :
  judgeLocalConflict std_hash cfg mysql_query_ok open_ok p s =
  (let* (_, t) := deref p in
   writeToDiskAndSql cfg mysql_query_ok open_ok t ;;;
   (let* c := check_keys std_hash (readSet t) (lsn t) in
    if c : bool then report_conflict p t
    else (let* c := check_keys std_hash (writeSet t) (lsn t) in if c : bool then report_conflict p t else accept p t))) s.
Proof.
  unfold judgeLocalConflict. apply bind_ext. intros [a t] s1. apply bind_ext. intros [] s2. apply bind_ext. intros [] s3.
  - by rewrite bind_ret_l.
  - apply bind_ext. by intros [] s4.
Qed.

Lemma judge_runs p s : runs (JudgeDisk p) s (judgeLocalConflict std_hash cfg mysql_query_ok open_ok p).
Proof.
  eapply runs_eq; [symmetry; apply judge_pieces|]. destruct (deref_cases p s) as [(a & t & -> & Ha)|[f Hf]].
  - eapply runs_eq; [symmetry; apply (follow_live s a t _ Ha)|]. cbn beta iota.
    eapply (runs_bind _ _ _ (λ _, JudgeRead (Some a) 0)); [done|cbn [wstep judge_step]; by follow Ha|]. intros es [] s1 Hs1.
    assert (heap_ s1 !! a = Some t) as Ha1. { by rewrite (heapless_ok _ _ _ _ _ (heapless_disk _) Hs1). }
    apply (check_runs a t (readSet t) (JudgeRead (Some a)) (JudgeReadExist (Some a)) (JudgeWrite (Some a) 0)); try done.
    + intros it s2 Ha2. cbn [wstep judge_step]. by follow Ha2.
    + intros s2. apply conflict_runs.
    + intros s2 Ha2. apply (check_runs a t (writeSet t) (JudgeWrite (Some a)) (JudgeWriteExist (Some a)) (JudgeMove (Some a))); try done.
      * intros it s3 Ha3. cbn [wstep judge_step]. by follow Ha3.
      * intros s3. apply conflict_runs.
      * intros s3. apply accept_runs.
  - exists 1%nat. intros [|n] Hn; [lia|]. rewrite worker_unfold by done. cbn [wstep judge_step]. by rewrite bind_assoc, !(bind_fault _ _ _ _ _ Hf).
Qed.

Lemma solve_runs data s : runs (SolveStart data) s (solve std_hash cfg mysql_query_ok remove_ok data).
Proof.
  unfold solve. eapply runs_bind; [done|reflexivity|]. intros es d s1 _. cbn beta. destruct (DbtmMsg_cmd d =? kJudgeConflit); [|apply runs_idle].
  destruct (negb (DbtmMsg_isGlobalConflict d)).
  - eapply runs_bind; [done|reflexivity|]. intros es1 p s2 _. apply cache_runs.
  - eapply (runs_eq _ _ ((LOG INFO "There are conflicts between transactions (global)" ;;; sqlDelete cfg mysql_query_ok remove_ok (DbtmMsg_txid d)) ;;;
      retResult kTranFail (DbtmMsg_txid d))); [by rewrite bind_assoc|].
    eapply (runs_bind _ _ _ (λ _, Result (DbsThreads.ResultSend kTranFail (DbtmMsg_txid d)) None)); [done|by rewrite bind_assoc|].
    intros es2 [] s2 _. eapply runs_eq; [apply bind_ret_r|]. apply (result_runs _ _ None).
Qed.

(** A task that nobody disturbs: the work of the pool, taken one access at a
    time, comes to its end on every state and does what Dbs.v does in one step,
    with the same events, the same result and the same faults. *)
Theorem dbs_task_alone s :
  ∃ n0, ∀ n, (n0 ≤ n)%nat → run_alone n Take s = run_task std_hash cfg mysql_query_ok open_ok remove_ok s.
Proof.
  change (runs Take s (run_task std_hash cfg mysql_query_ok open_ok remove_ok)). destruct (tasks_ s) as [|t rest] eqn:Ht.
  - eapply runs_eq; [|eapply (runs_quiet_step _ _ Idle s); [done| |apply runs_idle]].
    + unfold run_task. rewrite (bind_quiet get _ s s s) by done. by rewrite Ht.
    + cbn [wstep take_task]. unfold take_task. rewrite (bind_quiet get _ s s s) by done. by rewrite Ht.
  - eapply (runs_eq _ _ (λ _, (match t with TGetLsn id => getLsn id | TJudgeLocal p => judgeLocalConflict std_hash cfg mysql_query_ok open_ok p
      | TSolve data => solve std_hash cfg mysql_query_ok remove_ok data end) (set_tasks (λ _, rest) s))).
    { unfold run_task. rewrite (bind_quiet get _ s s s) by done. rewrite Ht. by rewrite (bind_quiet (modify _) _ s tt (set_tasks (λ _, rest) s)). }
    eapply runs_quiet_step; [done|cbn [wstep]; unfold take_task; rewrite (bind_quiet get _ s s s) by done; rewrite Ht; reflexivity|].
    destruct t; [by apply runs_end|apply judge_runs|apply solve_runs].
Qed.

(** ** Logs under every interleaving *)

(** The transaction that has passed its check and that a worker is about to
    register or to log. *)
Definition carries (w : wpc) : ptr :=
  match w with
  | JudgeMove p | JudgeErase p | JudgeSql p | JudgeKind p | CacheLsn p _ | CacheKey p _ _ _ | CacheLog p _ => p
  | _ => None
  end.

(** The object that a thread is about to append a written item to. *)
Definition appends (t : thread) : ptr :=
  match t with IO (DbsThreads.DataWrite _ p (_ :: _)) _ => p | _ => None end.

(** The transactions that have passed their check. *)
Definition passed (m : machine) (a : nat) : bool :=
  existsb (λ kp, bool_decide (kp.2 = Some a)) (map_to_list (dbtm_table_ (m_service m))) ||
  existsb (λ t, match t with Worker w => bool_decide (carries w = Some a) | IO _ _ => false end) (m_threads m).

(** No turn appends to one of them. *)
Definition late (i : nat) (m : machine) : bool :=
  match m_threads m !! i ≫= appends with Some a => passed m a | None => false end.
Fixpoint never_late (turns : list nat) (m : machine) : bool :=
  match turns with
  | [] => true
  | i :: turns => negb (late i m) && match turn i m with Ok (_, m) => never_late turns m | Err _ => true end
  end.

Lemma passed_spec m a :
  passed m a = true ↔ (∃ id, dbtm_table_ (m_service m) !! id = Some (Some a)) ∨ (∃ w, Worker w ∈ m_threads m ∧ carries w = Some a).
Proof.
  unfold passed. rewrite orb_true_iff, !existsb_exists. split; (intros [H1|H1]; [left|right]).
  - destruct H1 as ([id p] & Hin & Hp%bool_decide_eq_true). cbn in Hp. subst. exists id. by apply elem_of_map_to_list, list_elem_of_In.
  - destruct H1 as ([p q|w] & Hin & Hp); [done|]. exists w. split; [by apply list_elem_of_In|by apply bool_decide_eq_true in Hp].
  - destruct H1 as [id Hid]. exists (id, Some a). split; [by apply list_elem_of_In, elem_of_map_to_list|by apply bool_decide_eq_true].
  - destruct H1 as (w & Hin & Hw). exists (Worker w). split; [by apply list_elem_of_In|by apply bool_decide_eq_true].
Qed.

(** The transactions in [W] have nothing to write, and [Dbtm] knows no others. *)
Definition clean (W : nat → Prop) (s : DbService) : Prop :=
  wcheck s = Mhash.new ∧ (∀ id a, dbtm_table_ s !! id = Some (Some a) → W a) ∧ (∀ a t, W a → heap_ s !! a = Some t → writeSet t = []).

Lemma clean_same W s s' :
  wcheck s' = wcheck s → dbtm_table_ s' = dbtm_table_ s → heap_ s' = heap_ s → clean W s → clean W s'.
Proof. unfold clean. by intros -> -> ->. Qed.

Lemma keeps_clean_modify W (f : DbService → DbService) :
  (∀ s, wcheck (f s) = wcheck s ∧ dbtm_table_ (f s) = dbtm_table_ s ∧ heap_ (f s) = heap_ s) → keeps harmless (clean W) (modify f).
Proof. intros Hf. apply keeps_modify. intros s. destruct (Hf s) as (H1 & H2 & H3). by apply clean_same. Qed.

Lemma keeps_clean_send W c m : (∀ d, m = Msg_DbtlMsg d → DbtlMsg_cmd d = kLog → DbtlMsg_data d = Some []) → keeps harmless (clean W) (send c m).
Proof. intros Hm. destruct c; [|apply keeps_throw]. apply keeps_emit. destruct m; try done. exact (Hm _ eq_refl). Qed.

Lemma clean_store W s a t t' : clean W s → heap_ s !! a = Some t → (W a → writeSet t' = writeSet t) → clean W (upd s a t').
Proof.
  intros (H1 & H2 & H3) Ha Ht. split_and!; [done|done|]. intros b u HW. cbn. destruct (decide (b = a)) as [->|Hne].
  - rewrite lookup_insert_eq. intros [= <-]. rewrite Ht by done. by eapply H3.
  - rewrite lookup_insert_ne by done. by apply H3.
Qed.

(** A program behind a pointer. *)
Lemma keeps_clean_deref W {A} p (k : nat * transaction → P A) :
  (∀ s a t, p = Some a → clean W s → heap_ s !! a = Some t → wp harmless (k (a, t)) (λ _, clean W) s) → keeps harmless (clean W) (let* x := deref p in k x).
Proof. intros Hk s Hs. apply wp_deref. intros a t Hp Ha. by apply Hk. Qed.

Lemma keeps_clean_at W id : keeps harmless (clean W) (txidTrans_at id).
Proof. unfold txidTrans_at. repeat keeps_step; done. Qed.

Lemma keeps_clean_assign W id f : (∀ t, writeSet (f t) = writeSet t) → keeps harmless (clean W) (assign id f).
Proof.
  intros Hf. unfold assign. apply keeps_seq; [apply keeps_clean_at|]. intros p. apply (keeps_clean_deref W p (λ '(a, t), store a (f t))). intros s a t _ Hs Ha.
  apply wp_modify. eapply clean_store; [done|done|]. intros _. apply Hf.
Qed.

Lemma keeps_clean_field W {A} id (f : transaction → A) : keeps harmless (clean W) (field id f).
Proof.
  unfold field. apply keeps_seq; [apply keeps_clean_at|]. intros p. apply (keeps_clean_deref W p (λ '(_, t), ret (f t))). intros s a t _ Hs Ha.
  by apply wp_ret.
Qed.

Lemma keeps_clean_dbtm W id : keeps harmless (clean W) (dbtm_table_at id).
Proof.
  unfold dbtm_table_at. keeps_step. destruct (subscript None id (dbtm_table_ s)) as [p m] eqn:Hsub. keeps_step; [|keeps_step].
  keeps_step. intros s1 (H1 & _ & H3). split_and!; [done| |done]. cbn. destruct Hs as (_ & H2 & _). intros id' a.
  unfold subscript in Hsub. destruct (dbtm_table_ s !! id) eqn:Hid; injection Hsub as <- <-; [apply H2|].
  destruct (decide (id' = id)) as [->|]; [by rewrite lookup_insert_eq|rewrite lookup_insert_ne by done; apply H2].
Qed.

Lemma keeps_clean_result W r : keeps harmless (clean W) (DbsThreads.result_step r).
Proof.
  destruct r; cbn [DbsThreads.result_step]; try apply keeps_ret.
  - repeat keeps_step; try done. by apply keeps_clean_send.
  - apply keeps_seq; [apply keeps_clean_dbtm|]. intros p. apply keeps_ret.
  - repeat keeps_step. intros s (H1 & H2 & H3). split_and!; [done| |done]. intros id' a. cbn. rewrite lookup_delete_Some. intros [_ Hid]. by eapply H2.
  - keeps_step; [|keeps_step]. destruct tran as [a|]; [|apply keeps_ret]. apply keeps_modify. intros s (H1 & H2 & H3). split_and!; [done|done|].
    intros b t HW. cbn. rewrite lookup_delete_Some. intros [_ Hb]. by eapply H3.
Qed.

Lemma wp_store_clean W {A} (b : A) s a t t' :
  clean W s → heap_ s !! a = Some t → (W a → writeSet t' = writeSet t) → wp harmless (store a t' ;;; ret b) (λ _, clean W) s.
Proof. intros Hs Ha Ht. wp_step. apply wp_modify, wp_ret. by eapply clean_store. Qed.

(** A step of an I/O thread. *)
Lemma keeps_clean_io W p :
  (∀ a, appends (IO p []) = Some a → ¬ W a) → keeps harmless (clean W) (DbsThreads.tstep junk p).
Proof.
  intros Hap. destruct p; cbn [DbsThreads.tstep DbsThreads.data_step]; unfold enqueue, LOG;
    try (repeat first [keeps_step | apply keeps_clean_result | by apply keeps_clean_assign | apply keeps_clean_field | apply keeps_clean_at]; done).
  - intros s Hs. unfold DbsThreads.new_transaction. repeat wp_step. destruct Hs as (H1 & H2 & H3). split_and!; [done|done|].
    intros b t HW. cbn. rewrite lookup_insert_Some. intros [[_ <-]|[_ Hb]]; [done|by eapply H3].
  - apply (keeps_clean_deref W tran (λ '(a, t), _)). intros s a t _ Hs Ha. by apply (wp_store_clean W _ s a t).
  - apply (keeps_clean_deref W tran (λ '(a, t), _)). intros s a t _ Hs Ha. repeat wp_step. intros rset _. repeat wp_step. by apply (clean_same W s).
  - destruct rset as [|d rset].
    + repeat keeps_step.
    + keeps_step. apply (keeps_clean_deref W tran (λ '(a, t), _)). intros s a0 t _ Hs Ha0. eapply wp_store_clean; [done|done|]. intros _. cbn. by rewrite app_nil_r.
  - destruct wset as [|d wset].
    + repeat keeps_step.
    + keeps_step. apply (keeps_clean_deref W tran (λ '(a, t), _)). intros s a0 t Hp Hs Ha0. eapply wp_store_clean; [done|done|].
      intros HW. by destruct (Hap a0 Hp).
Qed.

(** Workers have not got past a key: the conflict table is empty, and a look at
    it is a fault. *)
Definition keyless (w : wpc) : Prop :=
  match w with
  | JudgeWrite _ it => it = 0%nat
  | JudgeReadExist _ _ _ | JudgeWriteExist _ _ _ | Conflict _ | ConflictGlobal _ | Result _ (Some _) => False
  | _ => True
  end.

Definition more (W : nat → Prop) (w : wpc) (a : nat) : Prop := W a ∨ carries w = Some a.

Lemma clean_more W w s :
  clean W s → (∀ a t, carries w = Some a → heap_ s !! a = Some t → writeSet t = []) → clean (more W w) s.
Proof. intros (H1 & H2 & H3) Hw. split_and!; [done|by left; eapply H2|]. intros a t [HW|Ha]; [by apply H3|by apply Hw]. Qed.

(** To a place that carries what was carried before, or nothing. *)
Lemma wp_to {A} W (m : P A) (k : A → wpc) s :
  keeps harmless (clean W) m → clean W s → (∀ a, keyless (k a)) → (∀ a b, carries (k a) = Some b → W b) →
  wp harmless (let* a := m in ret (k a)) (λ w' s', keyless w' ∧ clean (more W w') s') s.
Proof.
  intros Hm Hs Hk Hc. wp_step. eapply wp_mono; [by apply Hm|]. intros a s' Hs'. apply wp_ret. split; [apply Hk|]. apply clean_more; [done|].
  intros b t Hb Hh. destruct Hs' as (_ & _ & H3). eapply H3; [by eapply Hc|done].
Qed.

Lemma keeps_clean_disk W t : keeps harmless (clean W) (writeToDiskAndSql cfg mysql_query_ok open_ok t).
Proof. intros s Hs. by apply wp_writeToDisk. Qed.

Lemma keeps_clean_sql W q : keeps harmless (clean W) (sqlExec mysql_query_ok q).
Proof. intros s Hs. by apply wp_sqlExec. Qed.

Lemma wp_del_less_new k b {A} (h : unit → P A) Φ s : wcheck s = Mhash.new → wp harmless (let* x := del_less k b in h x) Φ s.
Proof. intros Hw. repeat wp_step. unfold del_less. repeat wp_step. rewrite Hw, delLessThan_new. intros a. done. Qed.

Lemma clean_move W s a t :
  clean W s → W a → heap_ s !! a = Some t → clean W (set_dbtm_table (<[txid t := Some a]>) s).
Proof.
  intros (H1 & H2 & H3) HW Ha. split_and!; [done| |done]. intros id b. cbn. rewrite lookup_insert_Some. intros [[_ [= <-]]|[_ Hid]]; [done|by eapply H2].
Qed.

Lemma wp_judge_step W w s :
  clean W s → keyless w → (∀ a, carries w = Some a → W a) →
  match w with JudgeDisk _ | JudgeRead _ _ | JudgeWrite _ _ | JudgeMove _ | JudgeErase _ | JudgeSql _ | JudgeKind _ | GlobalSend _ => True | _ => False end →
  wp harmless (judge_step w) (λ w' s', keyless w' ∧ clean (more W w') s') s.
Proof.
  intros Hs Hk HW Hw. destruct w; try done; cbn [judge_step];
    try (apply (wp_deref _ _ (λ '(a, t), _)); intros a t -> Ha; cbn in HW).
  - by apply (wp_to W _ (λ _, JudgeRead (Some a) 0)); [apply keeps_clean_disk|..].
  - destruct (readSet t !! it) as [d|]; [by apply wp_del_less_new, Hs|]. apply wp_ret. split; [done|]. by apply clean_more.
  - cbn in Hk. subst it. destruct (writeSet t) as [|d l] eqn:Hw'; cbn [lookup]; [|by apply wp_del_less_new, Hs].
    apply wp_ret. split; [done|]. apply clean_more; [done|]. intros a' t' [= <-] Ha'. congruence.
  - repeat wp_step. split; [done|]. apply clean_more; [apply clean_move; [done|by apply HW|done]|]. cbn. intros a' t' [= <-] Ha'. destruct Hs as (_ & _ & H3). by eapply H3, Ha'; apply HW.
  - apply (wp_to W _ (λ _, JudgeSql (Some a))); [by apply keeps_clean_modify|done|done|]. intros _ b. apply HW.
  - apply (wp_to W _ (λ _, JudgeKind (Some a))); [apply keeps_clean_sql|done|done|]. intros _ b. apply HW.
  - apply wp_ret. split; [by destruct (needGlobalConflct t)|]. apply clean_more; [done|]. intros b u Hb Hu.
    destruct (needGlobalConflct t); [done|]. destruct Hs as (_ & _ & H3). eapply H3; [by apply HW|done].
  - apply (wp_to W _ (λ _, Idle)); [|done|done|done]. unfold judgeGlobalConflict. keeps_step. by apply keeps_clean_send.
Qed.

Lemma wp_cache_step W w s :
  clean W s → (∀ a, carries w = Some a → W a) →
  match w with CacheLsn _ _ | CacheKey _ _ _ _ | CacheLog _ _ => True | _ => False end →
  wp harmless (cache_step w) (λ w' s', keyless w' ∧ clean (more W w') s') s.
Proof.
  intros Hs HW Hw. destruct w; try done; cbn [cache_step]; apply (wp_deref _ _ (λ '(a, t), _)); intros a t -> Ha; cbn in HW;
    assert (writeSet t = []) as Hempty by (destruct Hs as (_ & _ & H3); by eapply H3; [apply HW|]).
  - apply wp_ret. split; [done|]. apply clean_more; [done|]. cbn. intros b u [= <-] Hb. congruence.
  - rewrite Hempty. cbn [lookup]. apply wp_ret. split; [done|]. apply clean_more; [done|]. cbn. intros b u [= <-] Hb. congruence.
  - apply (wp_to W _ (λ _, match k with None => Idle | Some id => SolveSql id end)); [|done|by destruct k|by destruct k].
    unfold sendLog. keeps_step. apply keeps_clean_send. intros d [= <-] _. cbn. by rewrite Hempty.
Qed.

Lemma keeps_lift_same W {A} (r : result A) : keeps harmless (clean W) (lift r).
Proof. intros s Hs. by apply wp_lift. Qed.

Lemma wp_take W s : clean W s → wp harmless take_task (λ w' s', keyless w' ∧ clean (more W w') s') s.
Proof.
  intros Hs. unfold take_task. repeat wp_step. destruct (tasks_ s) as [|t rest]; repeat wp_step.
  - split; [done|]. by apply clean_more.
  - split; [by destruct t|]. apply clean_more; [by apply (clean_same W s)|]. by destruct t.
Qed.

(** A step of a worker. *)
Lemma wp_wstep W w s :
  clean W s → keyless w → (∀ a, carries w = Some a → W a) → wp harmless (wstep w) (λ w' s', keyless w' ∧ clean (more W w') s') s.
Proof.
  intros Hs Hk HW. destruct w; cbn [wstep]; try done; try (by apply wp_judge_step); try (by apply wp_cache_step).
  - apply wp_ret. split; [done|]. by apply clean_more.
  - by apply wp_take.
  - apply (wp_to W _ (λ _, Idle)); [|done|done|done]. unfold getLsn. keeps_step. apply keeps_clean_send. by intros d [= <-].
  - by apply (wp_to W _ (λ _, Idle)); [apply keeps_clean_sql|..].
  - cbn in Hk. destruct k; [done|]. assert (r = DbsThreads.Done ∨ r ≠ DbsThreads.Done) as [->|Hr] by (destruct r; auto; by right).
    + apply wp_ret. split; [done|]. by apply clean_more.
    + replace (match r with DbsThreads.Done => ret Idle | _ => let* r := DbsThreads.result_step r in ret (Result r None) end)
        with (let* r := DbsThreads.result_step r in ret (Result r None)) by (by destruct r).
      by apply (wp_to W _ (λ r, Result r None)); [apply keeps_clean_result|..].
  - eapply (wp_to W); [|done| |]; [by apply keeps_lift_same| |]; intros d; by repeat case_match.
  - wp_step. eapply wp_mono; [|intros p s' Hp; apply wp_ret; split; [done|]; exact Hp].
    pose proof (keeps_clean_dbtm W id s Hs) as [He Hp]. split; [done|]. intros p s' Hs'. specialize (Hp p s' Hs'). apply clean_more; [done|].
    cbn. intros a t -> Ha. destruct Hp as (_ & H2 & H3). eapply H3; [|exact Ha]. apply (H2 id).
    unfold dbtm_table_at, bind in Hs'. cbn [get] in Hs'. unfold subscript in Hs'. destruct (dbtm_table_ s !! id) as [q|] eqn:Hq; cbn in Hs'; [|done].
    injection Hs' as -> <-. done.
  - repeat wp_step. apply wp_LOG. repeat wp_step. unfold sqlDelete. wp_step. apply wp_sqlExec. repeat wp_step; [done|].
    destruct (remove_ok _); [wp_step|apply wp_LOG]; wp_step; (split; [done|by apply clean_more]).
Qed.

(** What every turn keeps. *)
Definition tidy (m : machine) : Prop :=
  clean (λ a, passed m a = true) (m_service m) ∧ ∀ w, Worker w ∈ m_threads m → keyless w.

Lemma worker_insert w (i : nat) t (ths : list thread) : Worker w ∈ <[i := t]> ths → Worker w = t ∨ Worker w ∈ ths.
Proof.
  intros (j & Hj)%list_elem_of_lookup. destruct (decide (j = i)) as [->|Hne].
  - destruct (decide (i < length ths)%nat) as [Hlt|Hge].
    + rewrite list_lookup_insert_eq in Hj by done. injection Hj as ->. by left.
    + rewrite list_insert_ge in Hj by lia. right. by eapply list_elem_of_lookup_2.
  - rewrite list_lookup_insert_ne in Hj by done. right. by eapply list_elem_of_lookup_2.
Qed.

(** A thread has moved: nothing else has passed but what it carries. *)
Lemma tidy_moved W m s' i t :
  (∀ a, passed m a = true → W a) → (∀ w a, t = Worker w → carries w = Some a → W a) → (∀ w, t = Worker w → keyless w) →
  tidy m → clean W s' → tidy (mkmachine s' (<[i := t]> (m_threads m))).
Proof.
  intros Hpass Ht Hkt [_ Hk] (H1 & H2 & H3). split; cbn.
  - split_and!; [done| |].
    + intros id a Hid. apply passed_spec. left. by exists id.
    + intros a u [[id Hid]|(w & [Hw|Hw]%worker_insert & Hc)]%passed_spec; apply H3; [by eapply H2|by eapply Ht|].
      apply Hpass, passed_spec. right. by exists w.
  - intros w [Hw|Hw]%worker_insert; [by apply Hkt|by apply Hk].
Qed.

Lemma tidy_turn i m es m' : tidy m → late i m = false → turn i m = Ok (es, m') → tidy m' ∧ Forall harmless es.
Proof.
  intros Hm Hlate Ht. pose proof Hm as [Hc Hk]. unfold turn, late in *. destruct (m_threads m !! i) as [th|] eqn:Hi; [|done]. cbn [mbind option_bind] in *.
  assert (∀ t s', clean (λ a, passed m a = true) s' → (∀ w, t = Worker w → carries w = None ∧ keyless w) → tidy (mkmachine s' (<[i := t]> (m_threads m)))) as Hmove.
  { intros t s' Hs' Hw. apply (tidy_moved (λ a, passed m a = true)); try done.
    - intros w a Htw Hca. destruct (Hw w Htw). congruence.
    - intros w Htw. by apply Hw. }
  destruct th as [p q|w]; cbn [step_thread] in Ht.
  - destruct (decide (p = DbsThreads.Done)) as [->|Hp].
    + destruct q as [|[c msg] q]; [done|]. injection Ht as <- <-. split; [|done]. by apply Hmove.
    + assert (∃ t s', (let* p := DbsThreads.tstep junk p in ret (IO p q)) (m_service m) = (es, Ok (t, s')) ∧ m' = mkmachine s' (<[i := t]> (m_threads m))) as (t & s' & Hs & ->).
      { destruct p; try done; by (destruct ((let* p := _ in ret (IO p q)) (m_service m)) as [es1 [[t s']|f]]; [injection Ht as <- <-; eauto|]). }
      apply bind_ok in Hs as (p' & s1 & es1 & es2 & Hs & [= <- <- <-] & ->). rewrite app_nil_r.
      destruct (keeps_clean_io (λ a, passed m a = true) p) with (s := m_service m) as [HF Hcl]; [|done|].
      { intros a Ha Hpa. replace (appends (IO p q)) with (Some a) in Hlate by (by destruct p). congruence. }
      rewrite Hs in HF, Hcl. split; [|done]. apply Hmove; [by eapply Hcl|done].
  - destruct (decide (w = Idle)) as [->|Hw].
    + injection Ht as <- <-. split; [|done]. apply Hmove; [done|]. by intros w [= <-].
    + assert (∃ t s', (let* w := wstep w in ret (Worker w)) (m_service m) = (es, Ok (t, s')) ∧ m' = mkmachine s' (<[i := t]> (m_threads m))) as (t & s' & Hs & ->).
      { destruct w; try done; by (destruct ((let* w := _ in ret (Worker w)) (m_service m)) as [es1 [[t s']|f]]; [injection Ht as <- <-; eauto|]). }
      apply bind_ok in Hs as (w' & s1 & es1 & es2 & Hs & [= <- <- <-] & ->). rewrite app_nil_r.
      assert (Worker w ∈ m_threads m) as Hin by (by eapply list_elem_of_lookup_2).
      destruct (wp_wstep (λ a, passed m a = true) w (m_service m)) as [HF Hcl]; [done|by apply Hk| |].
      { intros a Ha. apply passed_spec. right. by exists w. }
      rewrite Hs in HF, Hcl. destruct (Hcl _ _ eq_refl) as [Hk' Hs']. split; [|done].
      apply (tidy_moved (more (λ a, passed m a = true) w')); [by left| | |done|done].
      * intros w2 a [= <-] Ha. by right.
      * by intros w2 [= <-].
Qed.

Lemma tidy_schedule turns : ∀ m es m', tidy m → never_late turns m = true → schedule turns m = Ok (es, m') → Forall harmless es.
Proof.
  induction turns as [|i turns IH]; intros m es m' Hm Hl Hs; cbn [schedule never_late] in *; [by injection Hs as <- <-|].
  apply andb_prop in Hl as [Hl1%negb_true_iff Hl2]. destruct (turn i m) as [[es1 m1]|f] eqn:Ht; [|done]. cbn in Hs.
  destruct (schedule turns m1) as [[es2 m2]|f] eqn:Hs1; [|done]. injection Hs as <- <-.
  destruct (tidy_turn i m es1 m1 Hm Hl1 Ht) as [Hm1 HF]. apply Forall_app. split; [done|]. by eapply IH.
Qed.

(** The process before its first turn. *)
Definition waiting (s : DbService) (qs : list (list (conn * RootMsg))) (workers : nat) : machine :=
  mkmachine s ((IO DbsThreads.Done <$> qs) ++ replicate workers (Worker Idle)).

(** (C14) Logs under every interleaving: any number of I/O threads and workers, any
    messages, and any behaviour of MySQL, files and freed buffers.  As long as
    no item is added to the write set of a transaction that has passed its
    check, every log that is sent is empty, wherever the accesses of handlers
    and tasks fall between each other. *)
Theorem dbs_pool_commits_nothing s qs workers turns es m c d :
  wcheck s = Mhash.new → dbtm_table_ s = ∅ → never_late turns (waiting s qs workers) = true →
  schedule turns (waiting s qs workers) = Ok (es, m) → (c, Msg_DbtlMsg d) ∈ sent es → DbtlMsg_cmd d = kLog → DbtlMsg_data d = Some [].
Proof.
  intros Hw Hd Hl Hs. apply harmless_sent. eapply tidy_schedule; [|exact Hl|exact Hs].
  assert (∀ w, Worker w ∈ m_threads (waiting s qs workers) → w = Idle) as Hidle.
  { cbn. intros w [Hin|[Hin _]%elem_of_replicate]%elem_of_app; [|by injection Hin]. by apply list_elem_of_fmap in Hin as (q & ? & _). }
  split; [|intros w Hin; by rewrite (Hidle w Hin)]. split_and!; [done|cbn; rewrite Hd; intros id a; by rewrite lookup_empty|].
  intros a t [[id Hid]|(w & Hin & Hc)]%passed_spec.
  - cbn in Hid. rewrite Hd in Hid. by rewrite lookup_empty in Hid.
  - by rewrite (Hidle w Hin) in Hc.
Qed.

(** ** Data between the check and the log *)

(** A schedule with the messages that it sends. *)
Definition sends (turns : list nat) (m : machine) (msgs : list (conn * RootMsg)) (m' : machine) : Prop :=
  ∃ es, schedule turns m = Ok (es, m') ∧ sent es = msgs.

Lemma sends_nil m : sends [] m [] m.
Proof. by exists []. Qed.

Lemma sends_cons i turns m m1 es1 msgs m' :
  turn i m = Ok (es1, m1) → sent es1 = [] → sends turns m1 msgs m' → sends (i :: turns) m msgs m'.
Proof. intros Ht He (es & Hs & Hm). exists (es1 ++ es). cbn. rewrite Ht. cbn. rewrite Hs. split; [done|]. by rewrite sent_app, He. Qed.

Lemma sends_app turns turns' m m1 m2 msgs msgs' :
  sends turns m msgs m1 → sends turns' m1 msgs' m2 → sends (turns ++ turns') m (msgs ++ msgs') m2.
Proof.
  intros (es & Hs & <-) (es' & Hs' & <-). exists (es ++ es'). split; [|by rewrite sent_app].
  revert m es Hs. induction turns as [|i turns IH]; intros m es Hs; cbn in *; [by injection Hs as <- <-|].
  destruct (turn i m) as [[es1 m3]|]; [|done]. cbn in *. destruct (schedule turns m3) as [[es2 m4]|] eqn:H2; [|done]. injection Hs as <- <-.
  rewrite (IH _ _ H2). cbn. by rewrite app_assoc.
Qed.

(** One I/O thread and one worker. *)
Definition both (s : DbService) (p : DbsThreads.pc) (w : wpc) : machine := mkmachine s [IO p []; Worker w].

Lemma turn_io s p w es p' s' : p ≠ DbsThreads.Done → DbsThreads.tstep junk p s = (es, Ok (p', s')) → turn 0 (both s p w) = Ok (es, both s' p' w).
Proof.
  intros Hp Ht. unfold turn, both. cbn [m_threads lookup list_lookup mbind option_bind m_service].
  replace (step_thread (IO p [])) with (Some (let* p := DbsThreads.tstep junk p in ret (IO p []))) by (by destruct p).
  rewrite (bind_step _ _ _ _ _ _ Ht). cbn. by rewrite app_nil_r.
Qed.

Lemma turn_worker s p w es w' s' : w ≠ Idle → wstep w s = (es, Ok (w', s')) → turn 1 (both s p w) = Ok (es, both s' p w').
Proof.
  intros Hw Ht. unfold turn, both. cbn [m_threads lookup list_lookup mbind option_bind m_service].
  replace (step_thread (Worker w)) with (Some (let* w := wstep w in ret (Worker w))) by (by destruct w).
  rewrite (bind_step _ _ _ _ _ _ Ht). cbn. by rewrite app_nil_r.
Qed.

(** The local check of a transaction without items, up to its end. *)
Lemma check_passes s p a t rest :
  tasks_ s = TJudgeLocal (Some a) :: rest → heap_ s !! a = Some t → readSet t = [] → writeSet t = [] →
  sends [1; 1; 1; 1; 1]%nat (both s p Idle) [] (both (set_tasks (λ _, rest) s) p (JudgeMove (Some a))).
Proof.
  intros Hq Ha Hr Hw. set (s1 := set_tasks (λ _, rest) s). assert (heap_ s1 !! a = Some t) as Ha1 by done.
  destruct (writeToDisk_spec cfg mysql_query_ok open_ok t s1) as (es & Hd & Hes).
  eapply sends_cons; [reflexivity|done|]. eapply sends_cons; [apply (turn_worker _ _ Take []); [done|]|done|].
  { cbn [wstep]. unfold take_task. rewrite (bind_quiet get _ s s s), Hq by done. reflexivity. }
  eapply sends_cons; [apply (turn_worker _ _ (JudgeDisk (Some a)) (es ++ [])); [done|]|by rewrite app_nil_r|].
  { cbn [wstep judge_step]. follow Ha1. rewrite (bind_step _ _ _ _ _ _ Hd). reflexivity. }
  eapply sends_cons; [apply (turn_worker _ _ _ []); [done|]|done|].
  { cbn [wstep judge_step]. follow Ha1. rewrite Hr. reflexivity. }
  eapply sends_cons; [apply (turn_worker _ _ _ []); [done|]|done|apply sends_nil].
  cbn [wstep judge_step]. follow Ha1. rewrite Hw. reflexivity.
Qed.

(** A written item arrives for a registered transaction. *)
Lemma item_arrives s w id a t i c :
  txidTrans_ s !! id = Some (Some a) → heap_ s !! a = Some t → txid t = id → lsn t ≠ -1 → item_label i = "" →
  sends [0; 0; 0; 0; 0; 0; 0]%nat (both s (DbsThreads.start (Some c) (data_msg id [] [i])) w) []
    (both (upd (set_table (<[id := Some c]>) s) a (add_sets [] [i] t)) DbsThreads.Done w).
Proof.
  intros Hp Ha Ht Hl Hlab. set (d := mkDbServiceMsg kData id false (Some []) (Some (data_of <$> [i]))). destruct i as [k lab at_ v]. cbn in Hlab. subst lab.
  change (DbsThreads.start (Some c) (data_msg id [] [mkItem k "" at_ v])) with (DbsThreads.DataFind (Some c) d).
  set (s1 := set_table (<[id := Some c]>) s). assert (heap_ s1 !! a = Some t) as Ha1 by done.
  set (s2 := upd s1 a (add_sets [] [mkItem k "" at_ v] t)).
  eapply sends_cons; [apply (turn_io _ _ _ []); [done|]|done|].
  { cbn [DbsThreads.tstep DbsThreads.data_step]. rewrite (bind_quiet get _ s s s) by done. cbn [DbServiceMsg_txid d]. rewrite Hp. reflexivity. }
  eapply sends_cons; [apply (turn_io _ _ _ []); [done|]|done|].
  { cbn [DbsThreads.tstep DbsThreads.data_step DbServiceMsg_txid d]. rewrite (bind_quiet _ _ _ _ _ (txidTrans_at_some _ _ _ Hp)). reflexivity. }
  eapply sends_cons; [apply (turn_io _ _ _ [] (DbsThreads.DataRead d (Some a) []) s1); [done|]|done|].
  { cbn [DbsThreads.tstep DbsThreads.data_step]. follow Ha. rewrite Ht. reflexivity. }
  eapply sends_cons; [apply (turn_io _ _ _ [] (DbsThreads.DataWrite d (Some a) (data_of <$> [mkItem k "" at_ v])) s1); [done|reflexivity]|done|].
  eapply sends_cons; [apply (turn_io _ _ _ [] (DbsThreads.DataWrite d (Some a) []) s2); [done|]|done|].
  { cbn [DbsThreads.tstep DbsThreads.data_step fmap list_fmap]. rewrite (bind_quiet (lift _) _ s1 (mkItem k "" at_ v) s1) by done. by follow Ha1. }
  eapply sends_cons; [apply (turn_io _ _ _ [] (DbsThreads.LsnTest id) s2); [done|reflexivity]|done|].
  eapply sends_cons; [apply (turn_io _ _ _ []); [done|]|done|apply sends_nil].
  cbn [DbsThreads.tstep]. rewrite (bind_quiet _ _ _ _ _ (field_spec s2 id a (add_sets [] [mkItem k "" at_ v] t) lsn Hp (heap_upd s1 a _))).
  cbn [lsn add_sets]. by destruct (Z.eqb_spec (lsn t) (-1)).
Qed.

(** The rest of the check, for a transaction with one written item. *)
Lemma item_logged s p a t i c h :
  heap_ s !! a = Some t → needGlobalConflct t = false → writeSet t = [i] → dbtlConn_ s = Some c →
  Mhash.insert std_hash (item_key i) (lsn t) (wcheck s) = Ok h →
  ∃ m, sends [1; 1; 1; 1; 1; 1; 1; 1]%nat (both s p (JudgeMove (Some a))) [(c, Msg_DbtlMsg (mkDbtlMsg kLog (txid t) (Some (log_data [i]))))] m.
Proof.
  intros Ha Hg Hw Hc Hh. set (s1 := set_dbtm_table (<[txid t := Some a]>) s). set (s2 := set_txidTrans (delete (txid t)) s1).
  set (s3 := set_wcheck (λ _, h) s2). assert (heap_ s1 !! a = Some t ∧ heap_ s2 !! a = Some t ∧ heap_ s3 !! a = Some t) as (Ha1 & Ha2 & Ha3) by done.
  destruct (sqlExec_spec mysql_query_ok (sqlUpdateNeedLocalConflict_stmt (txid t)) s2) as (es & Hq & Hes). exists (both s3 p Idle).
  eapply sends_cons; [apply (turn_worker _ _ _ []); [done|]|done|]. { cbn [wstep judge_step]. follow Ha. reflexivity. }
  eapply sends_cons; [apply (turn_worker _ _ _ []); [done|]|done|]. { cbn [wstep judge_step]. follow Ha1. reflexivity. }
  eapply sends_cons; [apply (turn_worker _ _ _ (es ++ []) (JudgeKind (Some a)) s2); [done|]|by rewrite app_nil_r|].
  { cbn [wstep judge_step]. follow Ha2. unfold sqlUpdateNeedLocalConflict. rewrite (bind_step _ _ _ _ _ _ Hq). reflexivity. }
  eapply sends_cons; [apply (turn_worker _ _ _ []); [done|]|done|]. { cbn [wstep judge_step]. follow Ha2. rewrite Hg. reflexivity. }
  eapply sends_cons; [apply (turn_worker _ _ _ []); [done|]|done|]. { cbn [wstep cache_step]. follow Ha2. reflexivity. }
  eapply sends_cons; [apply (turn_worker _ _ _ [] (CacheKey (Some a) (lsn t) 1 None) s3); [done|]|done|].
  { cbn [wstep cache_step]. follow Ha2. rewrite Hw. cbn [lookup list_lookup]. rewrite (bind_quiet get _ s2 s2 s2) by done.
    change (wcheck s2) with (wcheck s). rewrite Hh. reflexivity. }
  eapply sends_cons; [apply (turn_worker _ _ _ []); [done|]|done|]. { cbn [wstep cache_step]. follow Ha3. rewrite Hw. reflexivity. }
  exists [ESend c (Msg_DbtlMsg (mkDbtlMsg kLog (txid t) (Some (log_data [i]))))]. split; [|done]. cbn [schedule].
  rewrite (turn_worker s3 p _ [ESend c (Msg_DbtlMsg (mkDbtlMsg kLog (txid t) (Some (log_data [i]))))] Idle s3); [done|done|].
  cbn [wstep cache_step]. follow Ha3. unfold sendLog. rewrite Hw, bind_assoc, (bind_quiet get _ s3 s3 s3) by done.
  change (dbtlConn_ s3) with (dbtlConn_ s). by rewrite Hc.
Qed.

(** (C15) Items that were never checked get logged: the worker has finished the two
    loops of the check of a transaction, and an I/O thread adds an item to its
    write set before the worker sends the log.  The log carries the item,
    although no check has looked at it; one step at a time the service never
    sends a log with data (dbs_commits_nothing). *)
Theorem dbs_pool_logs_unchecked s id a t rest i c d h :
  tasks_ s = TJudgeLocal (Some a) :: rest → txidTrans_ s !! id = Some (Some a) → heap_ s !! a = Some t →
  txid t = id → readSet t = [] → writeSet t = [] → needGlobalConflct t = false → lsn t ≠ -1 → item_label i = "" → dbtlConn_ s = Some d →
  Mhash.insert std_hash (item_key i) (lsn t) (wcheck s) = Ok h →
  ∃ turns es m, schedule turns (waiting s [[(c, data_msg id [] [i])]] 1) = Ok (es, m) ∧
    sent es = [(d, Msg_DbtlMsg (mkDbtlMsg kLog id (Some (log_data [i]))))].
Proof.
  intros Hq Hp Ha Ht Hr Hw Hg Hl Hlab Hd Hh. set (s1 := set_tasks (λ _, rest) s).
  set (s2 := upd (set_table (<[id := Some c]>) s1) a (add_sets [] [i] t)).
  pose proof (check_passes s (DbsThreads.start (Some c) (data_msg id [] [i])) a t rest Hq Ha Hr Hw) as S1.
  pose proof (item_arrives s1 (JudgeMove (Some a)) id a t i c Hp Ha Ht Hl Hlab) as S2. fold s2 in S2.
  destruct (item_logged s2 DbsThreads.Done a (add_sets [] [i] t) i d h) as [m S3];
    [apply heap_upd|done|by cbn; rewrite Hw|done|done|]. cbn [txid add_sets] in S3. rewrite Ht in S3.
  assert (turn 0 (waiting s [[(c, data_msg id [] [i])]] 1) = Ok ([], both s (DbsThreads.start (Some c) (data_msg id [] [i])) Idle)) as S0 by done.
  destruct (sends_cons _ _ _ _ _ _ _ S0 eq_refl (sends_app _ _ _ _ _ _ _ S1 (sends_app _ _ _ _ _ _ _ S2 S3))) as (es & Hs & Hes). eauto.
Qed.

End pool.
(** ** Witnesses *)

(** A service that has been told to check transaction 7, which has no items. *)
Definition checking : DbService :=
  mkDbService ∅ {[ 7 := Some 0%nat ]} [TJudgeLocal (Some 0%nat)] ∅ Mhash.new (Some 9%nat) (Some 8%nat) {[ 0%nat := mktransaction 7 [] [] false 3 true ]}.

(** Data of transaction 8 arrives while two workers are at work. *)
Definition mixed_turns : list nat := [1; 2; 1; 0; 1; 0; 1; 0; 1; 0; 2; 1; 0; 1; 0; 1; 0; 1; 0; 1; 1; 2; 1; 1; 1; 0; 0]%nat.

Lemma dbs_pool_commits_nothing_witness :
  ∃ es m d, schedule (H := stale_kept) Mhash.hash_first cfg0 all_ok all_ok all_ok 99 mixed_turns
      (waiting checking [[(1%nat, data_msg 8 [] [DbsThreads.demo_item "b"])]] 2) = Ok (es, m) ∧
    (9%nat, Msg_DbtlMsg d) ∈ sent es ∧ DbtlMsg_txid d = 7 ∧ DbtlMsg_data d = Some [].
Proof.
  destruct (schedule (H := stale_kept) Mhash.hash_first cfg0 all_ok all_ok all_ok 99 mixed_turns
      (waiting checking [[(1%nat, data_msg 8 [] [DbsThreads.demo_item "b"])]] 2)) as [[es m]|] eqn:Hs; [|vm_compute in Hs; discriminate].
  assert ((9%nat, Msg_DbtlMsg (mkDbtlMsg kLog 7 (Some []))) ∈ sent es) as Hin by (vm_compute in Hs; injection Hs as <- _; vm_compute; left).
  exists es, m, (mkDbtlMsg kLog 7 (Some [])). split_and!; [done|done|done|].
  refine (dbs_pool_commits_nothing (H := stale_kept) Mhash.hash_first cfg0 all_ok all_ok all_ok 99 checking _ 2 mixed_turns es m _ _ _ _ _ Hs Hin _);
    [reflexivity|reflexivity|vm_compute; reflexivity|reflexivity].
Defined.

Lemma dbs_pool_logs_unchecked_witness :
  ∃ turns es m, schedule (H := stale_kept) Mhash.hash_first cfg0 all_ok all_ok all_ok 99 turns
      (waiting checking [[(1%nat, data_msg 7 [] [DbsThreads.demo_item "b"])]] 1) = Ok (es, m) ∧
    sent es = [(9%nat, Msg_DbtlMsg (mkDbtlMsg kLog 7 (Some (log_data [DbsThreads.demo_item "b"]))))].
Proof.
  destruct (Mhash.insert Mhash.hash_first "b" 3 Mhash.new) as [h|] eqn:Hh; [|vm_compute in Hh; discriminate].
  apply (dbs_pool_logs_unchecked (H := stale_kept) Mhash.hash_first cfg0 all_ok all_ok all_ok 99 checking 7 0%nat (mktransaction 7 [] [] false 3 true) [] (DbsThreads.demo_item "b") 1%nat 9%nat h);
    [reflexivity..|discriminate|reflexivity|reflexivity|exact Hh].
Defined.

End DbsPool.
