(* ===== verification/Dbtl.v ===== *)
(** * The transaction log and the log player

    src/transaction/dbtl (dbtl.cc, logplayer.cc, dbtlmain.cc).  [Dbtl] answers
    requests for sequence numbers, stores logs (a text file or RocksDB) on a
    pool of one thread and hands them to [LogPlayer], which sends them to every
    connected database, keeps who has not answered and replays a log after a
    failure with an exponential delay on the time wheel.  The handlers, the
    pool and the thread of the wheel interleave as whole steps. *)

From stdpp Require Import base gmap strings list.
From S2P Require Import Prelude NetMsg NetGenerated TimeWheel Config.

Module Dbtl.

(** [struct LogInfo] *)
Record LogInfo := mkLogInfo { log_key : string; log_attribute : string; log_value : string }.

(** Work for the pool: the vector of the message is kept by pointer. *)
Inductive task :=
| TWriteDisk (txid : Z) (data : option (list Data)) (conn : TcpConnectionPtr)
| TWriteRocks (txid : Z) (data : option (list Data)) (conn : TcpConnectionPtr).

(** [class Dbtl] with its [LogPlayer]; a timer's callback replays the log of
    the transaction it carries. *)
Record Dbtl := mkDbtl {
  applyLsn_ : Z;
  logTable_ : gmap Z (list LogInfo);
  rocksDb_ : bool;
  tasks_ : list task;
  dbConnVec_ : list TcpConnectionPtr;
  answerTable_ : gmap Z (list Z);
  retryTable_ : gmap Z (list Z);
  timeWheel_ : TimeWheel.TimeWheel (F := Z) }.

Definition set_applyLsn v s := mkDbtl v (logTable_ s) (rocksDb_ s) (tasks_ s) (dbConnVec_ s) (answerTable_ s) (retryTable_ s) (timeWheel_ s).
Definition set_logTable v s := mkDbtl (applyLsn_ s) v (rocksDb_ s) (tasks_ s) (dbConnVec_ s) (answerTable_ s) (retryTable_ s) (timeWheel_ s).
Definition set_rocksDb v s := mkDbtl (applyLsn_ s) (logTable_ s) v (tasks_ s) (dbConnVec_ s) (answerTable_ s) (retryTable_ s) (timeWheel_ s).
Definition set_tasks v s := mkDbtl (applyLsn_ s) (logTable_ s) (rocksDb_ s) v (dbConnVec_ s) (answerTable_ s) (retryTable_ s) (timeWheel_ s).
Definition set_dbConnVec v s := mkDbtl (applyLsn_ s) (logTable_ s) (rocksDb_ s) (tasks_ s) v (answerTable_ s) (retryTable_ s) (timeWheel_ s).
Definition set_answerTable v s := mkDbtl (applyLsn_ s) (logTable_ s) (rocksDb_ s) (tasks_ s) (dbConnVec_ s) v (retryTable_ s) (timeWheel_ s).
Definition set_retryTable v s := mkDbtl (applyLsn_ s) (logTable_ s) (rocksDb_ s) (tasks_ s) (dbConnVec_ s) (answerTable_ s) v (timeWheel_ s).
Definition set_timeWheel v s := mkDbtl (applyLsn_ s) (logTable_ s) (rocksDb_ s) (tasks_ s) (dbConnVec_ s) (answerTable_ s) (retryTable_ s) v.

Abbreviation P := (prog Dbtl event).

(** A new object: [applyLsn_] is not initialised and holds [junk]; the wheel
    of 60 * 100 slots is made when the clock reads [now]. *)
Definition Dbtl_new (junk now : Z) : Dbtl := mkDbtl junk ∅ false [] [] ∅ ∅ (TimeWheel.new (60 * 100) now).

Section dbtl.

Context `{Stale}.
Context (cfg : Config.ConfigManager).
(** [DB::Open] and [DB::Write] report success; [open] succeeds. *)
Context (rocks_open_ok rocks_write_ok : bool) (open_ok : string → bool).

(** ** LogPlayer *)

(** [LogPlayer::init] *)
Definition LogPlayer_init : P unit :=
  let* ip := lift (stale (Config.dbtlAddress_ cfg)) in
  emit (EConnect ip (uint16 (Config.dbtlPort_ cfg))).

(** [LogPlayer::onDbConnection] *)
Definition onDbConnection (conn : TcpConnectionPtr) : P unit :=
  modify (λ s, set_dbConnVec (dbConnVec_ s ++ [conn]) s).

(** [answerTable_\[txid\]], [retryTable_\[txid\]] and [logTable_\[txid\]] *)
Definition answer_at (id : Z) : P (list Z) :=
  let* s := get in
  let '(l, m) := subscript [] id (answerTable_ s) in
  modify (set_answerTable m) ;;; ret l.
Definition retry_at (id : Z) : P (list Z) :=
  let* s := get in
  let '(l, m) := subscript [] id (retryTable_ s) in
  modify (set_retryTable m) ;;; ret l.
Definition log_at (id : Z) : P (list LogInfo) :=
  let* s := get in
  let '(l, m) := subscript [] id (logTable_ s) in
  modify (set_logTable m) ;;; ret l.

(** [v\[i\] = x] on a vector of [int]: outside its size is undefined. *)
Definition store_at (i x : Z) (v : list Z) : result (list Z) :=
  if (0 <=? i) && (i <? Z.of_nat (length v)) then Ok (<[Z.to_nat i := x]> v) else Err OutOfBounds.
Definition load_at (i : Z) (v : list Z) : result Z :=
  if (0 <=? i) && (i <? Z.of_nat (length v)) then of_option (v !! Z.to_nat i) OutOfBounds else Err OutOfBounds.

(** [vector::resize] *)
Definition vector_resize (n : nat) (v : list Z) : list Z := take n v ++ replicate (n - length v) 0.

(** The table [DbMsg] of a log *)
Definition log_msg (id : Z) (l : list LogInfo) : RootMsg :=
  Msg_DbMsg (mkDbMsg id (Some ((λ i, mkData (Some (log_key i)) (Some (log_attribute i)) (Some (log_value i))) <$> l))).

(** [LogPlayer::playLog] *)
Definition playLog (id : Z) : P unit :=
  let* s := get in
  (match answerTable_ s !! id with
   | None =>
       let* v := retry_at id in
       modify (λ s, set_retryTable (<[id := vector_resize (length (dbConnVec_ s)) v]> (retryTable_ s)) s) ;;;
       for_each (Z.of_nat <$> seq 0 (length (dbConnVec_ s))) (λ i,
         let* l := answer_at id in
         modify (λ s, set_answerTable (<[id := l ++ [i]]> (answerTable_ s)) s) ;;;
         let* v := retry_at id in
         let* v := lift (store_at i 0 v) in
         modify (λ s, set_retryTable (<[id := v]> (retryTable_ s)) s))
   | Some _ => ret tt
   end) ;;;
  let* log := log_at id in
  let* l := answer_at id in
  for_each l (λ pos,
    let* s := get in
    let* c := lift (of_option (if 0 <=? pos then dbConnVec_ s !! Z.to_nat pos else None) OutOfBounds) in
    send c (log_msg id log)).

(** [(unsigned long long) (pow(2, time) * 1000)]: exact in a double, undefined
    from 2^64 on. *)
Definition backoff (time : Z) : result Z :=
  let t := 2 ^ time * 1000 in if t <? 2 ^ 64 then Ok t else Err Overflow.

(** [LogPlayer::solve] *)
Definition LogPlayer_solve (data : LogPlayerMsg) : P unit :=
  let id := LogPlayerMsg_txid data in
  let pos := LogPlayerMsg_id data in
  if LogPlayerMsg_cmd data =? kExecTranSucc then
    let* l := answer_at id in
    modify (λ s, set_answerTable (<[id := filter (λ p, p ≠ pos) l]> (answerTable_ s)) s)
  else if LogPlayerMsg_cmd data =? kExecTranFail then
    let* v := retry_at id in
    let* old := lift (load_at pos v) in
    let time := int32 (old + 1) in
    let* v := lift (store_at pos time v) in
    modify (λ s, set_retryTable (<[id := v]> (retryTable_ s)) s) ;;;
    if Config.lpMaxRetryTime_ cfg <? time then LOG WARNING "Maximum retry limit reached"
    else
      let* t := lift (backoff time) in
      let* s := get in
      let* (_, w) := lift (TimeWheel.addTimer t id (timeWheel_ s)) in
      modify (set_timeWheel w)
  else LOG ERROR "receive error cmd".

(** The thread of the wheel, at the clock reading [ms]: the timers that are
    due replay their logs. *)
Definition wheel_step (ms : Z) : P unit :=
  let* s := get in
  let* (fired, w) := lift (TimeWheel.takeAllTimeout ms (timeWheel_ s)) in
  modify (set_timeWheel w) ;;;
  for_each fired (λ '(_, id), playLog id).

(** ** Dbtl *)

(** [Dbtl::Dbtl] *)
Definition Dbtl_ctor : P unit :=
  (if Config.dbtlUseRocksDb_ cfg then
     if rocks_open_ok then modify (set_rocksDb true) else LOG ERROR "open rocksDB error"
   else ret tt) ;;;
  LogPlayer_init.

(** [Dbtl::retResult]: the sequence number is passed where the generated
    function takes [isGlobalConflict]. *)
Definition retResult (cmd id lsn : Z) (conn : TcpConnectionPtr) : P unit :=
  send conn (Msg_DbtmMsg (if lsn =? -1 then mkDbtmMsg cmd id false 0
                          else mkDbtmMsg cmd id (negb (lsn =? 0)) 0)).

(** The strings of one record of a log *)
Definition read_log (d : Data) : result LogInfo :=
  let? k := str (Data_key d) in
  let? a := str (Data_attribute d) in
  let? v := str (Data_value d) in
  Ok (mkLogInfo k a v).

(** [Dbtl::writeToDisk]: the file is opened for reading only. *)
Definition writeToDisk (id : Z) (data : option (list Data)) (conn : TcpConnectionPtr) : P unit :=
  let path := to_string id in
  emit (EOpen path false) ;;;
  (if open_ok path then ret tt else LOG ERROR "open log file error") ;;;
  let* data := lift (of_option data NullDeref) in
  let* data := lift (stale data) in
  for_each data (λ d,
    let* i := lift (read_log d) in
    emit (ETextWrite path false (log_key i +:+ "#" +:+ log_attribute i +:+ ":" +:+ log_value i +:+ "@")) ;;;
    let* l := log_at id in
    modify (λ s, set_logTable (<[id := l ++ [i]]> (logTable_ s)) s)) ;;;
  playLog id ;;;
  retResult kTranSuccess id (-1) conn.

(** The batch of [writeToDiskByRocksDb] *)
Fixpoint read_batch (l : list Data) : result (list (string * string)) :=
  match l with
  | [] => Ok []
  | d :: l' =>
      let? i := read_log d in
      let? rest := read_batch l' in
      Ok ((log_key i, log_attribute i +:+ ":" +:+ log_value i +:+ "@") :: rest)
  end.

(** [Dbtl::writeToDiskByRocksDb] *)
Definition writeToDiskByRocksDb (id : Z) (data : option (list Data)) (conn : TcpConnectionPtr) : P unit :=
  let* data := lift (of_option data NullDeref) in
  let* data := lift (stale data) in
  let* batch := lift (read_batch data) in
  let* s := get in
  (if rocksDb_ s then emit (ERocksWrite batch) else throw NullDeref) ;;;
  (if rocks_write_ok then ret tt else LOG ERROR "insert into rocksDB error") ;;;
  retResult kTranSuccess id (-1) conn.

(** [Dbtl::solve] *)
Definition solve (conn : TcpConnectionPtr) (dbtl : DbtlMsg) : P unit :=
  if DbtlMsg_cmd dbtl =? kLog then
    modify (λ s, set_tasks (tasks_ s ++
      [if Config.dbtlUseRocksDb_ cfg then TWriteRocks (DbtlMsg_txid dbtl) (DbtlMsg_data dbtl) conn
       else TWriteDisk (DbtlMsg_txid dbtl) (DbtlMsg_data dbtl) conn]) s)
  else if DbtlMsg_cmd dbtl =? kLsn then
    let* s := get in
    modify (set_applyLsn (int32 (applyLsn_ s + 1))) ;;;
    retResult kLsn (DbtlMsg_txid dbtl) (applyLsn_ s) conn
  else LOG ERROR "receive error cmd".

(** The worker of the pool runs the oldest task. *)
Definition run_task : P unit :=
  let* s := get in
  match tasks_ s with
  | [] => ret tt
  | t :: rest =>
      modify (set_tasks rest) ;;;
      match t with
      | TWriteDisk id data conn => writeToDisk id data conn
      | TWriteRocks id data conn => writeToDiskByRocksDb id data conn
      end
  end.

(** [onMessage] of dbtlmain.cc *)
Definition onMessage (conn : TcpConnectionPtr) (msg : RootMsg) : P unit :=
  match msg with
  | Msg_DbtlMsg data =>
      if (DbtlMsg_cmd data =? kLog) || (DbtlMsg_cmd data =? kLsn) then solve conn data
      else LOG ERROR "receive error cmd"
  | Msg_LogPlayerMsg lp =>
      if (LogPlayerMsg_cmd lp =? kExecTranSucc) || (LogPlayerMsg_cmd lp =? kExecTranFail) then LogPlayer_solve lp
      else LOG ERROR "receive error cmd"
  | _ => ret tt
  end.

End dbtl.

(** ** Sequence numbers *)

Definition lsn_request (id : Z) : RootMsg := Msg_DbtlMsg (mkDbtlMsg kLsn id None).
Definition serve cfg (l : list (conn * RootMsg)) : P unit :=
  for_each l (λ '(c, m), onMessage cfg (Some c) m).

(** The reply of a request that finds the counter at [v]. *)
Definition lsn_reply (id v : Z) : RootMsg :=
  Msg_DbtmMsg (mkDbtmMsg kLsn id (negb (v =? -1) && negb (v =? 0)) 0).

Lemma lsn_request_ok cfg s c id :
  onMessage cfg (Some c) (lsn_request id) s =
    ([ESend c (lsn_reply id (applyLsn_ s))], Ok (tt, set_applyLsn (int32 (applyLsn_ s + 1)) s)).
Proof.
  unfold onMessage, lsn_request, solve. cbn [DbtlMsg_cmd DbtlMsg_txid].
  change (kLsn =? kLog) with false. change (kLsn =? kLsn) with true. cbn [orb].
  unfold bind, retResult, lsn_reply. cbn. by destruct (applyLsn_ s =? -1).
Qed.

(** Requests for sequence numbers are answered one by one, each to the
    connection that asked, and the counter moves on by their number; but every
    reply has the field [lsn] at zero: the number is passed as the conflict
    flag, so a requester never sees it. *)
Theorem dbtl_lsn_replies cfg s (reqs : list (conn * Z)) :
  int32_ok (applyLsn_ s) →
  ∃ es, serve cfg (prod_map id lsn_request <$> reqs) s =
      (es, Ok (tt, set_applyLsn (int32 (applyLsn_ s + Z.of_nat (length reqs))) s)) ∧
    sent es = imap (λ k '(c, id), (c, lsn_reply id (int32 (applyLsn_ s + Z.of_nat k)))) reqs ∧
    Forall (λ '(_, m), ∃ id g, m = Msg_DbtmMsg (mkDbtmMsg kLsn id g 0)) (sent es).
Proof.
  intros Hs.
  assert (∃ es, serve cfg (prod_map id lsn_request <$> reqs) s =
      (es, Ok (tt, set_applyLsn (int32 (applyLsn_ s + Z.of_nat (length reqs))) s)) ∧
    sent es = imap (λ k '(c, id), (c, lsn_reply id (int32 (applyLsn_ s + Z.of_nat k)))) reqs) as (es & Hserve & Hes).
  { revert s Hs. induction reqs as [|[c id0] reqs IH]; intros s Hs.
    - exists []. split; [|done]. cbn. rewrite Z.add_0_r, int32_id by done. by destruct s.
    - destruct (IH (set_applyLsn (int32 (applyLsn_ s + 1)) s)) as (es & Hes & Hsent); [apply int32_range|].
      unfold serve in *. cbn [fmap list_fmap prod_map fst snd for_each]. unfold bind.
      cbn [Datatypes.id]. rewrite lsn_request_ok. rewrite Hes. eexists. split.
      + do 3 f_equal. cbn [applyLsn_ set_applyLsn length]. rewrite int32_add_l. unfold set_applyLsn. cbn. f_equal. f_equal. lia.
      + rewrite sent_app, Hsent. cbn [sent imap app]. change (Z.of_nat 0) with 0. rewrite Z.add_0_r, (int32_id (applyLsn_ s)) by done. f_equal.
        apply imap_ext. intros k [c' id'] _. cbn. rewrite int32_add_l. do 3 f_equal. lia. }
  exists es. split; [done|]. split; [done|]. rewrite Hes. apply Forall_lookup. intros k [c m].
  rewrite list_lookup_imap. destruct (reqs !! k) as [[c' id']|]; [|done]. cbn. intros [= <- <-]. by eexists _, _.
Qed.

(** ** Playing a log *)

Lemma answer_at_spec s id : answer_at id s = ([], Ok ((subscript [] id (answerTable_ s)).1, set_answerTable (subscript [] id (answerTable_ s)).2 s)).
Proof. unfold answer_at, bind. cbn [get]. by destruct (subscript [] id (answerTable_ s)). Qed.
Lemma retry_at_spec s id : retry_at id s = ([], Ok ((subscript [] id (retryTable_ s)).1, set_retryTable (subscript [] id (retryTable_ s)).2 s)).
Proof. unfold retry_at, bind. cbn [get]. by destruct (subscript [] id (retryTable_ s)). Qed.
Lemma log_at_spec s id : log_at id s = ([], Ok ((subscript [] id (logTable_ s)).1, set_logTable (subscript [] id (logTable_ s)).2 s)).
Proof. unfold log_at, bind. cbn [get]. by destruct (subscript [] id (logTable_ s)). Qed.

Lemma store_zero i n : (i < n)%nat → store_at (Z.of_nat i) 0 (replicate n 0) = Ok (replicate n 0).
Proof.
  intros Hi. unfold store_at. rewrite length_replicate.
  destruct (Z.leb_spec 0 (Z.of_nat i)); [|lia]. destruct (Z.ltb_spec (Z.of_nat i) (Z.of_nat n)); [|lia]. cbn [andb].
  rewrite Nat2Z.id. rewrite list_insert_id; [done|]. by apply lookup_replicate_2.
Qed.

(** The loop that registers the connections [j .. j + k - 1]. *)
Definition register_one (id i : Z) : P unit :=
  let* l := answer_at id in
  modify (λ s, set_answerTable (<[id := l ++ [i]]> (answerTable_ s)) s) ;;;
  let* v := retry_at id in
  let* v := lift (store_at i 0 v) in
  modify (λ s, set_retryTable (<[id := v]> (retryTable_ s)) s).

Lemma register_one_spec s id j n l0 :
  default [] (answerTable_ s !! id) = l0 → retryTable_ s !! id = Some (replicate n 0) → (j < n)%nat →
  register_one id (Z.of_nat j) s =
    ([], Ok (tt, set_answerTable (<[id := l0 ++ [Z.of_nat j]]> (answerTable_ s)) s)).
Proof.
  intros Hl Hv Hj. unfold register_one. rewrite (bind_quiet _ _ _ _ _ (answer_at_spec _ _)).
  rewrite subscript_fst, Hl. erewrite (bind_quiet (modify _)) by done.
  rewrite (bind_quiet _ _ _ _ _ (retry_at_spec _ _)).
  cbn [retryTable_ set_answerTable answerTable_ set_retryTable]. rewrite (subscript_some _ (replicate n 0)) by done. cbn [fst snd].
  rewrite store_zero by done. cbn. do 3 f_equal. unfold set_retryTable, set_answerTable. cbn.
  rewrite (insert_id (retryTable_ s)) by done. f_equal.
  unfold subscript. destruct (answerTable_ s !! id); cbn; [done|]. by rewrite insert_insert_eq.
Qed.

Lemma register_spec k s id j n l0 :
  default [] (answerTable_ s !! id) = l0 → retryTable_ s !! id = Some (replicate n 0) → (j + k ≤ n)%nat →
  for_each (Z.of_nat <$> seq j k) (register_one id) s =
    ([], Ok (tt, match k with O => s | _ => set_answerTable (<[id := l0 ++ (Z.of_nat <$> seq j k)]> (answerTable_ s)) s end)).
Proof.
  revert s j l0. induction k as [|k IH]; intros s j l0 Hl Hv Hn; [done|].
  cbn [seq fmap list_fmap for_each]. rewrite (bind_quiet _ _ _ _ _ (register_one_spec s id j n l0 Hl Hv ltac:(lia))).
  rewrite (IH _ (S j) (l0 ++ [Z.of_nat j])); [|cbn; by rewrite lookup_insert_eq|done|lia].
  do 3 f_equal. destruct k; [done|]. unfold set_answerTable. cbn [answerTable_]. by rewrite insert_insert_eq, <- app_assoc.
Qed.

(** The positions of [l] whose connections are sent to. *)
Definition conns_at (conns : list conn) (l : list Z) : list conn := omap (λ p, conns !! Z.to_nat p) l.
Definition valid_positions (conns : list conn) (l : list Z) : Prop := Forall (λ p, 0 ≤ p < Z.of_nat (length conns)) l.

Lemma send_all_spec (conns : list conn) l m s :
  valid_positions conns l → dbConnVec_ s = Some <$> conns →
  for_each l (λ pos,
    let* s := get in
    let* c := lift (of_option (if 0 <=? pos then dbConnVec_ s !! Z.to_nat pos else None) OutOfBounds) in
    send c m) s = ((λ c, ESend c m) <$> conns_at conns l, Ok (tt, s)).
Proof.
  intros Hl Hd. induction Hl as [|p l Hp Hl IH]; [done|]. cbn [for_each].
  assert (∃ c, conns !! Z.to_nat p = Some c) as [c Hc] by (apply lookup_lt_is_Some_2; lia).
  erewrite bind_step; cycle 1.
  { rewrite (bind_quiet get _ _ s s) by done. destruct (Z.leb_spec 0 p); [|lia].
    rewrite Hd, list_lookup_fmap, Hc. reflexivity. }
  rewrite IH. unfold conns_at. cbn. by rewrite Hc.
Qed.

Lemma conns_at_all pre conns :
  conns_at (pre ++ conns) (Z.of_nat <$> seq (length pre) (length conns)) = conns.
Proof.
  unfold conns_at. revert pre. induction conns as [|c conns IH]; intros pre; [done|]. cbn.
  rewrite Nat2Z.id, lookup_app_r, Nat.sub_diag by lia. cbn. f_equal.
  specialize (IH (pre ++ [c])). rewrite <- app_assoc, length_app in IH. cbn in IH. by rewrite Nat.add_1_r in IH.
Qed.

(** A log that was played before goes to those that have not answered. *)
Lemma playLog_again s id l conns :
  answerTable_ s !! id = Some l → valid_positions conns l → dbConnVec_ s = Some <$> conns →
  playLog id s = ((λ c, ESend c (log_msg id (default [] (logTable_ s !! id)))) <$> conns_at conns l,
    Ok (tt, set_logTable (subscript [] id (logTable_ s)).2 s)).
Proof.
  intros Ha Hl Hd. unfold playLog. rewrite (bind_quiet get _ _ s s) by done. rewrite Ha. rewrite bind_ret_l.
  rewrite (bind_quiet _ _ _ _ _ (log_at_spec _ _)). rewrite (bind_quiet _ _ _ _ _ (answer_at_spec _ _)).
  cbn [answerTable_ set_logTable]. rewrite (subscript_some _ l) by done. rewrite subscript_fst. cbn [fst snd].
  rewrite (send_all_spec conns) by done. by destruct s.
Qed.

(** The first time, every connection is registered as not having answered. *)
Definition registered (id : Z) (s : Dbtl) : Dbtl :=
  set_answerTable (<[id := Z.of_nat <$> seq 0 (length (dbConnVec_ s))]> (answerTable_ s))
    (set_retryTable (<[id := replicate (length (dbConnVec_ s)) 0]> (retryTable_ s)) s).

Lemma playLog_first s id conns :
  answerTable_ s !! id = None → retryTable_ s !! id = None → dbConnVec_ s = Some <$> conns →
  playLog id s = ((λ c, ESend c (log_msg id (default [] (logTable_ s !! id)))) <$> conns,
    Ok (tt, set_logTable (subscript [] id (logTable_ s)).2 (registered id s))).
Proof.
  intros Ha Hr Hd. set (n := length (dbConnVec_ s)).
  assert (valid_positions conns (Z.of_nat <$> seq 0 n)) as Hval.
  { apply Forall_fmap, Forall_forall. intros i Hi%elem_of_seq. cbn. unfold n in Hi. rewrite Hd, length_fmap in Hi. lia. }
  transitivity (playLog id (registered id s)); cycle 1.
  { rewrite (playLog_again (registered id s) id (Z.of_nat <$> seq 0 n) conns);
      [|cbn; by rewrite lookup_insert_eq|done|done].
    f_equal. cbn [logTable_ registered set_answerTable set_retryTable]. f_equal.
    unfold n. rewrite Hd, length_fmap. by apply (conns_at_all []). }
  unfold playLog at 1. rewrite (bind_quiet get _ _ s s) by done. rewrite Ha. rewrite bind_assoc.
  rewrite (bind_quiet _ _ _ _ _ (retry_at_spec _ _)). rewrite subscript_none by done. cbn [fst snd]. rewrite bind_assoc.
  erewrite (bind_quiet (modify _)) by done. cbn [dbConnVec_ set_retryTable retryTable_].
  rewrite insert_insert_eq. change (vector_resize (length (dbConnVec_ s)) []) with (take n [] ++ replicate (n - 0) 0).
  rewrite take_nil, Nat.sub_0_r. cbn [app].
  set (s1 := set_retryTable _ _).
  change (λ i : Z, bind (answer_at id) _) with (register_one id).
  erewrite (bind_quiet (for_each _ _)); [|apply (register_spec n s1 id 0 n []); [by cbn; rewrite Ha|cbn; by rewrite lookup_insert_eq|lia]].
  unfold playLog. rewrite (bind_quiet get _ _ (registered id s) (registered id s)) by done.
  replace (answerTable_ (registered id s) !! id) with (Some (Z.of_nat <$> seq 0 n)) by (cbn; by rewrite lookup_insert_eq).
  rewrite bind_ret_l. rewrite !(bind_quiet _ _ _ _ _ (log_at_spec _ _)), !(bind_quiet _ _ _ _ _ (answer_at_spec _ _)).
  unfold registered, s1. fold n. destruct n as [|n']; [|done].
  cbn [answerTable_ logTable_ set_logTable set_answerTable set_retryTable seq fmap list_fmap replicate].
  rewrite (subscript_none [] id (answerTable_ s)) by done.
  rewrite (subscript_some [] [] id (<[id:=[]]> (answerTable_ s))) by apply lookup_insert_eq. done.
Qed.

(** An answer takes the connection's position off the list. *)
Definition succ_msg (id pos : Z) : LogPlayerMsg := mkLogPlayerMsg kExecTranSucc id pos.

Lemma ack_spec cfg s id pos l :
  answerTable_ s !! id = Some l →
  LogPlayer_solve cfg (succ_msg id pos) s =
    ([], Ok (tt, set_answerTable (<[id := filter (λ p, p ≠ pos) l]> (answerTable_ s)) s)).
Proof.
  intros Ha. unfold LogPlayer_solve. cbn [LogPlayerMsg_cmd LogPlayerMsg_txid LogPlayerMsg_id succ_msg].
  change (kExecTranSucc =? kExecTranSucc) with true. cbv iota. rewrite (bind_quiet _ _ _ _ _ (answer_at_spec _ _)).
  rewrite (subscript_some _ l) by done. done.
Qed.

Lemma acks_spec cfg s id acks l :
  answerTable_ s !! id = Some l →
  for_each acks (λ pos, LogPlayer_solve cfg (succ_msg id pos)) s =
    ([], Ok (tt, set_answerTable (<[id := filter (λ p, p ∉ acks) l]> (answerTable_ s)) s)).
Proof.
  revert s l. induction acks as [|pos acks IH]; intros s l Ha; cbn [for_each].
  - cbn. do 3 f_equal. assert (filter (λ p, p ∉ []) l = l) as ->.
    { clear. induction l as [|x l IH]; [done|]. rewrite filter_cons_True by apply not_elem_of_nil. by f_equal. }
    unfold set_answerTable. rewrite insert_id by done. by destruct s.
  - rewrite (bind_quiet _ _ _ _ _ (ack_spec _ _ _ _ _ Ha)). rewrite (IH _ (filter (λ p, p ≠ pos) l)).
    + unfold set_answerTable. cbn [answerTable_]. rewrite insert_insert_eq. do 6 f_equal.
      rewrite list_filter_filter. apply list_filter_iff. intros x. rewrite elem_of_cons. naive_solver.
    + cbn. by rewrite lookup_insert_eq.
Qed.

(** The connections whose position is not among [acks]. *)
Definition unanswered (conns : list conn) (acks : list Z) : list conn :=
  conns_at conns (filter (λ p, p ∉ acks) (Z.of_nat <$> seq 0 (length conns))).

(** (C7) A log goes first to every connected database, in order of connection;
    after any answers, in any order and with repetitions, playing it again
    sends the same log to exactly the databases that have not answered, and
    touches neither the log nor other transactions. *)
Theorem dbtl_replays_to_unanswered cfg s id conns acks :
  answerTable_ s !! id = None → retryTable_ s !! id = None → dbConnVec_ s = Some <$> conns →
  let log := default [] (logTable_ s !! id) in
  ∃ s', (playLog id ;;; for_each acks (λ pos, LogPlayer_solve cfg (succ_msg id pos)) ;;; playLog id) s =
      ((λ c, ESend c (log_msg id log)) <$> conns ++ unanswered conns acks, Ok (tt, s')) ∧
    logTable_ s' = <[id := log]> (logTable_ s) ∧
    (∀ id', id' ≠ id → answerTable_ s' !! id' = answerTable_ s !! id' ∧ retryTable_ s' !! id' = retryTable_ s !! id').
Proof.
  intros Ha Hr Hd log. rewrite (bind_step _ _ _ _ _ _ (playLog_first s id conns Ha Hr Hd)).
  set (s1 := set_logTable _ (registered id s)).
  assert (logTable_ s1 !! id = Some log) as Hlog by apply subscript_lookup.
  assert (answerTable_ s1 !! id = Some (Z.of_nat <$> seq 0 (length conns))) as Ha1.
  { cbn. by rewrite lookup_insert_eq, Hd, length_fmap. }
  rewrite (bind_quiet _ _ _ _ _ (acks_spec cfg s1 id acks _ Ha1)).
  set (s2 := set_answerTable _ s1).
  assert (answerTable_ s2 !! id = Some (filter (λ p, p ∉ acks) (Z.of_nat <$> seq 0 (length conns)))) as Ha2
    by (cbn; by rewrite lookup_insert_eq).
  rewrite (playLog_again s2 id _ conns Ha2); [|apply Forall_forall; intros p [_ Hp]%list_elem_of_filter; set_solver by lia|done].
  change (logTable_ s2) with (logTable_ s1). rewrite Hlog. rewrite (subscript_some _ log) by done. cbn [fst snd].
  eexists. split; [unfold unanswered; by rewrite fmap_app|]. split.
  - cbn. unfold subscript, log. destruct (logTable_ s !! id) eqn:Hl; [by rewrite insert_id|done].
  - intros id' Hne. cbn. by rewrite !lookup_insert_ne by done.
Qed.

(** ** Retries *)

Definition fail_msg (id pos : Z) : LogPlayerMsg := mkLogPlayerMsg kExecTranFail id pos.

Lemma load_at_spec i v x : 0 ≤ i → v !! Z.to_nat i = Some x → load_at i v = Ok x ∧ ∀ y, store_at i y v = Ok (<[Z.to_nat i := y]> v).
Proof.
  intros Hi Hv. pose proof (lookup_lt_Some _ _ _ Hv). unfold load_at, store_at.
  destruct (Z.leb_spec 0 i); [|lia]. destruct (Z.ltb_spec i (Z.of_nat (length v))); [|lia]. cbn [andb]. by rewrite Hv.
Qed.

Lemma addTimer_next t f (w : TimeWheel.TimeWheel (F := Z)) tm w' :
  TimeWheel.addTimer t f w = Ok (tm, w') → TimeWheel.next_tid w' = S (TimeWheel.next_tid w).
Proof.
  unfold TimeWheel.addTimer. destruct (_ =? 0); [done|]. destruct (_ <? 0); [done|].
  destruct (of_option _ _); cbn; [|done]. by intros [= <- <-].
Qed.

(** The wheel after the failures number [k + 1] to [k + n] of one database:
    timer [next_tid + j] for failure [k + 1 + j], while within the limit. *)
Definition retries_due (max k : Z) (n : nat) (id : Z) (w w' : TimeWheel.TimeWheel (F := Z)) : Prop :=
  ∀ i f r, TimeWheel.pending w' i f r ↔
    TimeWheel.pending w i f r ∨
    ∃ j : nat, (j < n)%nat ∧ k + 1 + Z.of_nat j ≤ max ∧ i = (TimeWheel.next_tid w + j)%nat ∧ f = id ∧
      r = 2 ^ (k + 1 + Z.of_nat j) * 1000.

Section retries.
Context (cfg : Config.ConfigManager) (id pos : Z).
Hypothesis Hmax : Config.lpMaxRetryTime_ cfg ≤ 33.
Hypothesis Hpos : 0 ≤ pos.

(** The state after a failure: the count and the wheel. *)
Definition after_fail (v : list Z) (k : Z) (w : TimeWheel.TimeWheel) (s : Dbtl) : Dbtl :=
  set_timeWheel w (set_retryTable (<[id := <[Z.to_nat pos := k]> v]> (retryTable_ s)) s).

Lemma fail_step s v k :
  TimeWheel.wf (timeWheel_ s) → TimeWheel.nslosts_ (timeWheel_ s) = 6000 →
  retryTable_ s !! id = Some v → v !! Z.to_nat pos = Some k → 0 ≤ k < 2 ^ 31 - 1 →
  ∃ es w', LogPlayer_solve cfg (fail_msg id pos) s = (es, Ok (tt, after_fail v (k + 1) w' s)) ∧
    sent es = [] ∧ TimeWheel.wf w' ∧ TimeWheel.nslosts_ w' = 6000 ∧
    (Config.lpMaxRetryTime_ cfg < k + 1 → w' = timeWheel_ s) ∧
    (k + 1 ≤ Config.lpMaxRetryTime_ cfg → TimeWheel.next_tid w' = S (TimeWheel.next_tid (timeWheel_ s)) ∧
       ∀ i f r, TimeWheel.pending w' i f r ↔
         (i = TimeWheel.next_tid (timeWheel_ s) ∧ f = id ∧ r = 2 ^ (k + 1) * 1000) ∨ TimeWheel.pending (timeWheel_ s) i f r).
Proof.
  intros Hwf Hn Hr Hv Hk. destruct (load_at_spec pos v k Hpos Hv) as [Hload Hstore].
  unfold LogPlayer_solve. cbn [LogPlayerMsg_cmd LogPlayerMsg_txid LogPlayerMsg_id fail_msg].
  change (kExecTranFail =? kExecTranSucc) with false. change (kExecTranFail =? kExecTranFail) with true. cbv iota.
  rewrite (bind_quiet _ _ _ _ _ (retry_at_spec _ _)). rewrite (subscript_some _ v) by done. cbn [fst snd].
  rewrite Hload. erewrite (bind_quiet (lift (Ok k))) by done. cbv beta zeta.
  rewrite (int32_id (k + 1)) by (unfold int32_ok; lia). rewrite Hstore.
  erewrite (bind_quiet (lift (Ok _))) by done. erewrite (bind_quiet (modify _)) by done.
  assert (set_retryTable (retryTable_ s) s = s) as -> by by destruct s.
  destruct (Z.ltb_spec (Config.lpMaxRetryTime_ cfg) (k + 1)).
  - eexists _, (timeWheel_ s). unfold LOG, emit, after_fail. split; [by destruct s|]. split_and!; try done. lia.
  - assert (2 ^ (k + 1) ≤ 2 ^ 33) by (apply Z.pow_le_mono_r; lia).
    assert (0 < 2 ^ (k + 1)) by (apply Z.pow_pos_nonneg; lia).
    unfold backoff. destruct (Z.ltb_spec (2 ^ (k + 1) * 1000) (2 ^ 64)); [|lia].
    erewrite (bind_quiet (lift (Ok _))) by done. erewrite (bind_quiet get) by done. cbn [timeWheel_ set_retryTable].
    destruct (TimeWheel.addTimer_ok (timeWheel_ s) (2 ^ (k + 1) * 1000) id) as (tm & w' & Hadd & Hwf' & _ & _ & Hn' & Hp); [done|lia| |].
    { rewrite Hn. apply Z.div_lt_upper_bound; lia. }
    rewrite Hadd. eexists [], w'. split; [done|]. split_and!; try done; [by rewrite Hn'|lia|].
    intros _. split; [by eapply addTimer_next|done].
Qed.

(** A run of failures. *)
Lemma fails_spec n s v k :
  TimeWheel.wf (timeWheel_ s) → TimeWheel.nslosts_ (timeWheel_ s) = 6000 →
  retryTable_ s !! id = Some v → v !! Z.to_nat pos = Some k → 0 ≤ k → k + Z.of_nat n < 2 ^ 31 →
  ∃ es w', for_each (replicate n tt) (λ _, LogPlayer_solve cfg (fail_msg id pos)) s =
      (es, Ok (tt, after_fail v (k + Z.of_nat n) w' s)) ∧ sent es = [] ∧
    TimeWheel.wf w' ∧ retries_due (Config.lpMaxRetryTime_ cfg) k n id (timeWheel_ s) w'.
Proof.
  revert s v k. induction n as [|n IH]; intros s v k Hwf Hn Hr Hv Hk Hb; cbn [replicate for_each].
  - exists [], (timeWheel_ s). split_and!; try done.
    + cbn. unfold after_fail. rewrite Z.add_0_r, (list_insert_id v), insert_id by done. by destruct s.
    + intros i f r. split; [by left|]. intros [?|(j & ? & _)]; [done|lia].
  - destruct (fail_step s v k Hwf Hn Hr Hv) as (es & w1 & Hs & Hes & Hwf1 & Hn1 & Hover & Hin); [lia|].
    set (s1 := after_fail v (k + 1) w1 s) in *.
    destruct (IH s1 (<[Z.to_nat pos := k + 1]> v) (k + 1)) as (es2 & w2 & Hs2 & Hes2 & Hwf2 & Hdue); try done; try lia.
    { cbn. by rewrite lookup_insert_eq. }
    { apply list_lookup_insert_eq. by eapply lookup_lt_Some. }
    rewrite (bind_step _ _ _ _ _ _ Hs), Hs2. exists (es ++ es2), w2. split_and!; [|by rewrite sent_app, Hes, Hes2|done|].
    + cbn. do 3 f_equal. unfold after_fail, s1. cbn. rewrite insert_insert_eq, list_insert_insert_eq.
      unfold after_fail, set_timeWheel, set_retryTable. cbn. replace (k + 1 + Z.of_nat n) with (k + Z.of_nat (S n)) by lia. done.
    + intros i f r. rewrite (Hdue i f r). cbn [timeWheel_ s1 after_fail set_timeWheel].
      destruct (decide (k + 1 ≤ Config.lpMaxRetryTime_ cfg)) as [Hle|Hgt].
      * destruct (Hin Hle) as [Hnext Hp]. rewrite Hp, Hnext. split.
        -- intros [[(-> & -> & ->)|?]|(j & Hj & Hjm & -> & -> & ->)]; [right|by left|right].
           ++ exists 0%nat. rewrite Z.add_0_r, Nat.add_0_r. split_and!; done || lia.
           ++ exists (S j). split_and!; try done; try lia. do 2 f_equal; lia.
        -- intros [?|(j & Hj & Hjm & -> & -> & ->)]; [by left; right|]. destruct j as [|j].
           ++ left. left. rewrite Z.add_0_r, Nat.add_0_r. done.
           ++ right. exists j. split_and!; try done; try lia. do 2 f_equal; lia.
      * rewrite Hover by lia. split; (intros [?|(j & Hj & Hjm & _)]; [by left|lia]).
Qed.

End retries.

(** (C6) Failures of one database for one transaction are counted, and the
    k-th one schedules one replay of that transaction's log after 2^k seconds
    as long as k is within the configured limit; beyond it nothing is
    scheduled.  Nothing is sent at once, and no other timer changes. *)
Theorem dbtl_retry_backoff cfg id pos n s v :
  Config.lpMaxRetryTime_ cfg ≤ 33 → Z.of_nat n < 2 ^ 31 →
  TimeWheel.wf (timeWheel_ s) → TimeWheel.nslosts_ (timeWheel_ s) = 6000 →
  retryTable_ s !! id = Some v → 0 ≤ pos → v !! Z.to_nat pos = Some 0 →
  ∃ es s', for_each (replicate n tt) (λ _, LogPlayer_solve cfg (fail_msg id pos)) s = (es, Ok (tt, s')) ∧ sent es = [] ∧
    retryTable_ s' = <[id := <[Z.to_nat pos := Z.of_nat n]> v]> (retryTable_ s) ∧
    ∀ i f r, TimeWheel.pending (timeWheel_ s') i f r ↔
      TimeWheel.pending (timeWheel_ s) i f r ∨
      ∃ k : nat, (1 ≤ k ≤ n)%nat ∧ Z.of_nat k ≤ Config.lpMaxRetryTime_ cfg ∧
        i = (TimeWheel.next_tid (timeWheel_ s) + (k - 1))%nat ∧ f = id ∧ r = 2 ^ Z.of_nat k * 1000.
Proof.
  intros Hmax Hb Hwf Hn Hr Hpos Hv.
  destruct (fails_spec cfg id pos Hmax Hpos n s v 0) as (es & w' & Hs & Hes & _ & Hdue); try done.
  exists es, (after_fail id pos v (Z.of_nat n) w' s). split_and!; try done.
  intros i f r. cbn [timeWheel_ after_fail set_timeWheel]. rewrite (Hdue i f r). f_equiv. split.
  - intros (j & Hj & Hm & -> & -> & ->). exists (S j). split_and!; try lia; try done. do 2 f_equal; lia.
  - intros (k & Hk & Hm & -> & -> & ->). exists (k - 1)%nat. split_and!; try lia; try done. do 2 f_equal; lia.
Qed.

(** ** Storing a log *)

Definition data_of (i : LogInfo) : Data := mkData (Some (log_key i)) (Some (log_attribute i)) (Some (log_value i)).
Definition log_of (id : Z) (l : list LogInfo) : RootMsg := Msg_DbtlMsg (mkDbtlMsg kLog id (Some (data_of <$> l))).
Definition success (id : Z) : RootMsg := Msg_DbtmMsg (mkDbtmMsg kTranSuccess id false 0).

(** The record as it is written to the text file *)
Definition log_text (i : LogInfo) : string := log_key i +:+ "#" +:+ log_attribute i +:+ ":" +:+ log_value i +:+ "@".

Definition append_log (id : Z) (l : list LogInfo) (s : Dbtl) : Dbtl :=
  match l with
  | [] => s
  | _ => set_logTable (<[id := default [] (logTable_ s !! id) ++ l]> (logTable_ s)) s
  end.

Definition store_one (id : Z) (d : Data) : P unit :=
  let* i := lift (read_log d) in
  emit (ETextWrite (to_string id) false (log_key i +:+ "#" +:+ log_attribute i +:+ ":" +:+ log_value i +:+ "@")) ;;;
  let* l := log_at id in
  modify (λ s, set_logTable (<[id := l ++ [i]]> (logTable_ s)) s).

Lemma store_all_spec id l s :
  for_each (data_of <$> l) (store_one id) s =
    ((λ i, ETextWrite (to_string id) false (log_text i)) <$> l, Ok (tt, append_log id l s)).
Proof.
  revert s. induction l as [|i l IH]; intros s; [done|]. rewrite fmap_cons. cbn [for_each].
  assert (store_one id (data_of i) s = ([ETextWrite (to_string id) false (log_text i)], Ok (tt, append_log id [i] s))) as Hone.
  { unfold store_one, data_of, read_log. cbn [Data_key Data_attribute Data_value str of_option rbind].
    erewrite (bind_quiet (lift (Ok _))) by done. unfold bind. cbn [emit]. rewrite log_at_spec. cbn.
    unfold log_text. destruct i; cbn. do 3 f_equal. unfold set_logTable. cbn. f_equal.
    unfold subscript. destruct (logTable_ s !! id); cbn; [done|]. by rewrite insert_insert_eq. }
  rewrite (bind_step _ _ _ _ _ _ Hone), IH. cbn. do 3 f_equal. destruct l as [|i' l]; [done|].
  unfold append_log, set_logTable. cbn. rewrite lookup_insert_eq, insert_insert_eq. cbn. by rewrite <- app_assoc.
Qed.

(** What the events of storing and playing a log amount to. *)
Lemma text_written_app es1 es2 : text_written (es1 ++ es2) = text_written es1 ++ text_written es2.
Proof. induction es1 as [|[] es1 IH]; cbn; try done. destruct writable; cbn; by rewrite IH. Qed.

Lemma stored_events path l :
  sent ((λ i, ETextWrite path false (log_text i)) <$> l) = [] ∧
  text_written ((λ i, ETextWrite path false (log_text i)) <$> l) = [].
Proof. split; by induction l. Qed.

Lemma played_events m (cs : list conn) :
  sent ((λ c, ESend c m) <$> cs) = (λ c, (c, m)) <$> cs ∧ text_written ((λ c, ESend c m) <$> cs) = [].
Proof. split; [|by induction cs]. induction cs as [|c cs IH]; [done|]. cbn. by rewrite IH. Qed.

(** A log for a transaction not seen before, stored in a text file by the
    pool: when the message's buffer is still there, its records are kept in
    order, every database is sent the log, and the service is told
    [kTranSuccess], although no byte reaches the file; when the freed buffer
    is caught, the task faults before anything is kept or sent. *)
Theorem dbtl_log_task cfg rocks open_ok s id l c conns :
  Config.dbtlUseRocksDb_ cfg = false → tasks_ s = [] →
  logTable_ s !! id = None → answerTable_ s !! id = None → retryTable_ s !! id = None →
  dbConnVec_ s = Some <$> conns →
  (∃ es s', (onMessage cfg (Some c) (log_of id l) ;;; run_task (H := stale_kept) rocks open_ok) s = (es, Ok (tt, s')) ∧
     sent es = ((λ d, (d, log_msg id l)) <$> conns) ++ [(c, success id)] ∧
     default [] (logTable_ s' !! id) = l ∧ text_written es = []) ∧
  (∃ es, (onMessage cfg (Some c) (log_of id l) ;;; run_task (H := stale_caught) rocks open_ok) s = (es, Err UseAfterFree) ∧
     sent es = []).
Proof.
  intros Hcfg Hq Hlog Ha Hr Hd.
  assert (onMessage cfg (Some c) (log_of id l) s = ([], Ok (tt, set_tasks [TWriteDisk id (Some (data_of <$> l)) (Some c)] s))) as Hmsg.
  { unfold onMessage, log_of, solve. cbn [DbtlMsg_cmd DbtlMsg_txid DbtlMsg_data]. change (kLog =? kLog) with true.
    cbn [orb]. rewrite Hcfg. unfold modify. rewrite Hq. done. }
  rewrite !(bind_quiet _ _ _ _ _ Hmsg). unfold run_task. erewrite !(bind_quiet get) by done. cbn [tasks_ set_tasks].
  erewrite !(bind_quiet (modify _)) by done. set (s1 := set_tasks [] _).
  unfold writeToDisk. cbn [of_option]. split.
  - rewrite (bind_step (emit _) _ _ [EOpen (to_string id) false] tt s1) by done.
    erewrite (bind_step (if open_ok (to_string id) then _ else _) _ _ (if open_ok (to_string id) then [] else [ELog ERROR "open log file error"]) tt s1)
      by by destruct (open_ok _).
    erewrite (bind_quiet (lift (Ok _))) by done.
    change (lift (stale (data_of <$> l))) with (lift (S := Dbtl) (E := event) (Ok (data_of <$> l))).
    erewrite (bind_quiet (lift (Ok _))) by done.
    change (λ d : Data, bind (lift (read_log d)) _) with (store_one id).
    rewrite (bind_step _ _ _ _ _ _ (store_all_spec id l s1)).
    assert (default [] (logTable_ (append_log id l s1) !! id) = l) as Hl.
    { destruct l; cbn; [by rewrite Hlog|]. by rewrite lookup_insert_eq, Hlog. }
    erewrite (bind_step (playLog id)); [|apply (playLog_first (append_log id l s1) id conns); by destruct l].
    rewrite Hl. eexists _, _. split; [done|]. cbn [fst snd]. split_and!.
    + rewrite !sent_app, (proj1 (stored_events _ l)), (proj1 (played_events _ conns)). by destruct (open_ok _).
    + cbn. rewrite subscript_lookup. cbn. done.
    + rewrite !text_written_app, (proj2 (stored_events _ l)), (proj2 (played_events _ conns)). by destruct (open_ok _).
  - unfold bind. cbn. destruct (open_ok _); cbn; by eexists.
Qed.

(** ** RocksDB *)

(** A batch of puts, applied to the store. *)
Definition rocks_apply (batch : list (string * string)) (m : gmap string string) : gmap string string :=
  foldl (λ m '(k, v), <[k := v]> m) m batch.
Definition rocks_text (i : LogInfo) : string := log_attribute i +:+ ":" +:+ log_value i +:+ "@".
Definition batch_of (l : list LogInfo) : list (string * string) := (λ i, (log_key i, rocks_text i)) <$> l.

Lemma read_batch_of l : read_batch (data_of <$> l) = Ok (batch_of l).
Proof. induction l as [|[k a v] l IH]; [done|]. rewrite fmap_cons. cbn. by rewrite IH. Qed.

(** The log as RocksDB keeps it: one batch, keyed by the row alone, so of
    all attributes a transaction writes to a row only the last one survives;
    rows it does not write keep their value.  The sender is told
    [kTranSuccess], and unlike the text path no database is sent the log. *)
Theorem dbtl_rocks_keeps_last s id l c :
  rocksDb_ s = true →
  writeToDiskByRocksDb (H := stale_kept) true id (Some (data_of <$> l)) (Some c) s =
    ([ERocksWrite (batch_of l); ESend c (success id)], Ok (tt, s)) ∧
  ∀ m k, rocks_apply (batch_of l) m !! k =
    match last (filter (λ i, log_key i = k) l) with Some i => Some (rocks_text i) | None => m !! k end.
Proof.
  intros Hdb. split.
  - unfold writeToDiskByRocksDb, bind. cbn. rewrite read_batch_of. cbn. by rewrite Hdb.
  - intros m k. unfold rocks_apply, batch_of. induction l as [|i l IH] using rev_ind; [done|].
    rewrite fmap_app, foldl_app, filter_app. cbn [fmap list_fmap foldl]. destruct (decide (log_key i = k)) as [<-|Hne].
    + rewrite filter_cons_True, filter_nil by done. by rewrite last_snoc, lookup_insert_eq.
    + rewrite filter_cons_False by done. rewrite filter_nil, app_nil_r, lookup_insert_ne by done. apply IH.
Qed.

(** ** Whole runs *)

Section runs.
Context `{Stale}.
Context (cfg : Config.ConfigManager) (rocks_write_ok : bool) (open_ok : string → bool).

Inductive action :=
| AMsg (c : conn) (m : RootMsg)
| ATask
| AWheel (ms : Z)
| ADb (c : conn).

Definition act (x : action) : P unit :=
  match x with
  | AMsg c m => onMessage cfg (Some c) m
  | ATask => run_task rocks_write_ok open_ok
  | AWheel ms => wheel_step ms
  | ADb c => onDbConnection (Some c)
  end.
Definition run (l : list action) : P unit := for_each l act.

Definition no_write (e : event) : Prop :=
  match e with ETextWrite _ true _ | EWrite _ true _ => False | _ => True end.

Abbreviation quiet m := (∀ s : Dbtl, wp no_write m (λ _ _, True) s).

Lemma quiet_bind {A B} (m : P A) (k : A → P B) : quiet m → (∀ a, quiet (k a)) → quiet (bind m k).
Proof. intros Hm Hk s. apply wp_bind. eapply wp_mono; [apply Hm|]. intros a s' _. apply Hk. Qed.
Lemma quiet_for_each {A} (l : list A) (body : A → P unit) : (∀ x, quiet (body x)) → quiet (for_each l body).
Proof. intros Hb s. by apply (wp_for_each _ _ _ (λ _, True)). Qed.
Lemma quiet_send c m : quiet (send c m).
Proof. intros s. by apply wp_send. Qed.
Lemma quiet_log sev t : quiet (LOG sev t).
Proof. intros s. by apply wp_emit. Qed.

Ltac quiet_step :=
  first [ apply quiet_bind; [|intros ?] | apply quiet_for_each; intros ? | apply quiet_send | apply quiet_log
        | match goal with
          | |- ∀ s, wp _ (match ?x with _ => _ end) _ s => destruct x
          | |- ∀ s, wp _ (let '(_, _) := ?x in _) _ s => destruct x
          end
        | intros ?; wp_step; done | intros ?; wp_step; intros; exact I ].

Lemma quiet_playLog id : quiet (playLog id).
Proof. unfold playLog, retry_at, answer_at, log_at. repeat quiet_step. Qed.

Lemma quiet_LogPlayer_solve d : quiet (LogPlayer_solve cfg d).
Proof. unfold LogPlayer_solve, retry_at, answer_at. repeat quiet_step. Qed.

Lemma quiet_act x : quiet (act x).
Proof.
  destruct x as [c m| |ms|c]; cbn [act].
  - unfold onMessage, solve, retResult. destruct m; repeat first [apply quiet_LogPlayer_solve | quiet_step].
  - unfold run_task, writeToDisk, writeToDiskByRocksDb, retResult, log_at. repeat first [apply quiet_playLog | quiet_step].
  - unfold wheel_step. repeat first [apply quiet_playLog | quiet_step].
  - unfold onDbConnection. repeat quiet_step.
Qed.

(** Whatever the service does, from any state, no byte of a log ever
    reaches a text file: the descriptor it writes to was opened for reading. *)
Theorem dbtl_log_never_on_disk l s : text_written (emitted (run l s)) = [].
Proof.
  assert (wp no_write (run l) (λ _ _, True) s) as [HQ _] by (apply quiet_for_each; intros x; apply quiet_act).
  unfold emitted. induction HQ as [|e es He HQ IH]; [done|]. destruct e; try done. by destruct writable.
Qed.

End runs.

(** ** Witnesses *)

Definition cfg3 : Config.ConfigManager :=
  Config.mkConfigManager "" "" "" 0 0 "" "" "" 0 0 "" 0 "" "" 0 "" "" "" "" 0 "" "" "" 0 false "" 0 3.
Definition log0 : LogInfo := mkLogInfo "row" "col" "val".
Definition player : Dbtl := set_dbConnVec [Some 4%nat; Some 5%nat; Some 6%nat] (Dbtl_new 0 0).

Lemma dbtl_lsn_replies_witness :
  ∃ es s', serve cfg3 [(1%nat, lsn_request 7); (2%nat, lsn_request 8)] (Dbtl_new 5 0) = (es, Ok (tt, s')) ∧
    sent es = [(1%nat, lsn_reply 7 5); (2%nat, lsn_reply 8 6)].
Proof.
  destruct (dbtl_lsn_replies cfg3 (Dbtl_new 5 0) [(1%nat, 7); (2%nat, 8)]) as (es & Hs & Hes & _); [unfold int32_ok; cbn; lia|].
  exists es, (set_applyLsn (int32 (5 + 2)) (Dbtl_new 5 0)). split; [exact Hs|exact Hes].
Defined.

Lemma dbtl_replays_to_unanswered_witness :
  ∃ s', (playLog 7 ;;; for_each [1; 1] (λ pos, LogPlayer_solve cfg3 (succ_msg 7 pos)) ;;; playLog 7) player =
    ((λ c, ESend c (log_msg 7 [])) <$> [4%nat; 5%nat; 6%nat; 4%nat; 6%nat], Ok (tt, s')).
Proof.
  destruct (dbtl_replays_to_unanswered cfg3 player 7 [4%nat; 5%nat; 6%nat] [1; 1]) as (s' & Hs & _);
    [reflexivity|reflexivity|reflexivity|]. exists s'. exact Hs.
Defined.

Lemma dbtl_retry_backoff_witness :
  ∃ es s', for_each (replicate 5 tt) (λ _, LogPlayer_solve cfg3 (fail_msg 7 1))
      (set_retryTable {[ 7 := [0; 0; 0] ]} player) = (es, Ok (tt, s')) ∧
    TimeWheel.pending (timeWheel_ s') 2 7 8000.
Proof.
  destruct (dbtl_retry_backoff cfg3 7 1 5 (set_retryTable {[ 7 := [0; 0; 0] ]} player) [0; 0; 0])
    as (es & s' & Hs & _ & _ & Hp).
  - cbn. lia.
  - cbn. lia.
  - apply TimeWheel.wheel_wf_new. lia.
  - reflexivity.
  - reflexivity.
  - lia.
  - reflexivity.
  - exists es, s'. split; [exact Hs|]. apply Hp. right. exists 3%nat. cbn. repeat split; lia.
Defined.

Lemma dbtl_log_task_witness :
  ∃ es s', (onMessage cfg3 (Some 1%nat) (log_of 7 [log0]) ;;; run_task (H := stale_kept) true (λ _, true)) player = (es, Ok (tt, s')) ∧
    sent es = [(4%nat, log_msg 7 [log0]); (5%nat, log_msg 7 [log0]); (6%nat, log_msg 7 [log0]); (1%nat, success 7)].
Proof.
  destruct (dbtl_log_task cfg3 true (λ _, true) player 7 [log0] 1 [4%nat; 5%nat; 6%nat]) as [(es & s' & Hs & Hes & _) _];
    [reflexivity..|]. exists es, s'. split; [exact Hs|exact Hes].
Defined.

Lemma dbtl_rocks_keeps_last_witness :
  rocks_apply (batch_of [log0; mkLogInfo "row" "age" "3"]) ∅ !! "row" = Some "age:3@".
Proof.
  destruct (dbtl_rocks_keeps_last (set_rocksDb true player) 7 [log0; mkLogInfo "row" "age" "3"] 1) as [_ Hm]; [reflexivity|].
  rewrite Hm. reflexivity.
Defined.

End Dbtl.
