(* ===== verification/DbtlThreads.v ===== *)
(** * The log service with its threads

    dbtlmain.cc gives its server several I/O threads, [Dbtl] has a pool with one
    worker for the logs, and the thread of the time wheel replays logs: all of
    them use the tables of [LogPlayer] without a lock; only [applyLsn_] is
    atomic.  Here the handlers, the tasks and the replays are cut between the
    operations that they do on shared memory.  A [std::list] of positions is a
    list of nodes: an iterator is a node, and [remove] frees the nodes that it
    removes.

    One operation of a container ([operator\[\]] of a map with its possible
    insertion, [emplace_back], the whole of [list::remove]) is one step: what
    happens when two threads are inside operations of the same container at
    the same time is undefined in C++ and not modelled, so that the theorems
    show faults that need no such overlap, and no absence of faults.  The queue
    of the pool has a lock, the wheel is the subject of TimeWheelThreads.v, and
    the records of a log are read in one step: they are written by the one
    worker only.

    Shown: a thread that nobody disturbs does what Dbtl.v says; an answer that
    comes while its position is in use frees the node under the replay; two
    failures can count as one; and, between operations, a replay reaches every
    database that does not answer meanwhile, as long as the position that it is
    at is not removed. *)

From stdpp Require Import base gmap strings list.
From S2P Require Import Prelude NetMsg TimeWheel Config Dbtl.

Module DbtlThreads.
Import Dbtl.

(** ** Shared memory *)

(** The service, with the addresses of the nodes of every list of
    [answerTable_], and the next fresh address. *)
Record shared := mkshared { s_dbtl : Dbtl; s_nodes : gmap Z (list nat); s_next : nat }.

Abbreviation PS := (prog shared event).

Definition nodes_of (id : Z) (s : shared) : list nat := default [] (s_nodes s !! id).
Definition values_of (id : Z) (s : shared) : list Z := default [] (answerTable_ (s_dbtl s) !! id).

(** An access that no list of positions takes part in. *)
Definition access {A} (m : P A) : PS A := λ s,
  match m (s_dbtl s) with
  | (es, Ok (a, d)) => (es, Ok (a, mkshared d (s_nodes s) (s_next s)))
  | (es, Err f) => (es, Err f)
  end.

Definition set_nodes (f : gmap Z (list nat) → gmap Z (list nat)) (s : shared) : shared := mkshared (s_dbtl s) (f (s_nodes s)) (s_next s).

(** [answerTable_\[id\].emplace_back(i)] *)
Definition add_answer (id i : Z) : P unit :=
  let* l := answer_at id in
  modify (λ d, set_answerTable (<[id := l ++ [i]]> (answerTable_ d)) d).
Definition emplace_back (id i : Z) : PS unit :=
  access (add_answer id i) ;;;
  modify (λ s, mkshared (s_dbtl s) (<[id := nodes_of id s ++ [s_next s]]> (s_nodes s)) (S (s_next s))).

(** [answerTable_\[id\].remove(pos)] frees the nodes that hold [pos]. *)
Definition keep_nodes (pos : Z) (ns : list nat) (vs : list Z) : list nat :=
  (filter (λ nv, nv.2 ≠ pos) (zip ns vs)).*1.
Definition remove_answer (id pos : Z) : P unit :=
  let* l := answer_at id in
  modify (λ d, set_answerTable (<[id := filter (λ p, p ≠ pos) l]> (answerTable_ d)) d).
Definition remove (id pos : Z) : PS unit :=
  let* s := get in
  access (remove_answer id pos) ;;;
  modify (set_nodes (<[id := keep_nodes pos (nodes_of id s) (values_of id s)]>)).

(** [*it] and [++it]: nothing when the node is gone. *)
Fixpoint value_at (it : nat) (l : list (nat * Z)) : option Z :=
  match l with [] => None | (n, v) :: l => if decide (n = it) then Some v else value_at it l end.
Fixpoint next_of (it : nat) (l : list (nat * Z)) : option (option nat) :=
  match l with [] => None | (n, _) :: l => if decide (n = it) then Some (fst <$> head l) else next_of it l end.

Definition cells (id : Z) (s : shared) : list (nat * Z) := zip (nodes_of id s) (values_of id s).

(** ** Threads *)

Section threads.
Context `{Stale} (cfg : Config.ConfigManager) (rocks_write_ok : bool) (open_ok : string → bool).

(** A message, the next task of the pool, or a timer that is due. *)
Inductive job :=
| JMsg (c : conn) (m : RootMsg)
| JTask
| JTimer (id : Z).

(** What a thread does next; a replay ends with a reply when it is part of a
    task. *)
Inductive pc :=
| Done
| Begin (j : job)
| LsnSend (id lsn : Z) (conn : TcpConnectionPtr)
| FailStore (id pos time : Z)
| FailTimer (id time : Z)
| WriteOpen (id : Z) (data : option (list Data)) (conn : TcpConnectionPtr)
| WriteItem (id : Z) (data : list Data) (conn : TcpConnectionPtr)
| RocksWrite (id : Z) (data : option (list Data)) (conn : TcpConnectionPtr)
| PlayFind (id : Z) (reply : option TcpConnectionPtr)
| PlayResize (id : Z) (reply : option TcpConnectionPtr)
| PlayAdd (id : Z) (i : nat) (reply : option TcpConnectionPtr)
| PlayZero (id : Z) (i : nat) (reply : option TcpConnectionPtr)
| PlayLogs (id : Z) (reply : option TcpConnectionPtr)
| PlayBegin (id : Z) (log : list LogInfo) (reply : option TcpConnectionPtr)
| PlaySend (id : Z) (log : list LogInfo) (it : option nat) (reply : option TcpConnectionPtr)
| PlayNext (id : Z) (log : list LogInfo) (it : nat) (reply : option TcpConnectionPtr)
| PlayReply (id : Z) (reply : option TcpConnectionPtr).

(** [retryTable_\[id\].resize(dbConnVec_.size())] and the two accesses to a
    counter. *)
Definition resize_retry (id : Z) : P unit :=
  let* v := retry_at id in
  modify (λ d, set_retryTable (<[id := vector_resize (length (dbConnVec_ d)) v]> (retryTable_ d)) d).
Definition store_retry (id i x : Z) : P unit :=
  let* v := retry_at id in
  let* v := lift (store_at i x v) in
  modify (λ d, set_retryTable (<[id := v]> (retryTable_ d)) d).
Definition load_retry (id i : Z) : P Z :=
  let* v := retry_at id in lift (load_at i v).

Definition find_answers (id : Z) : P bool := let* d := get in ret (bool_decide (is_Some (answerTable_ d !! id))).

(** The first access of a handler. *)
Definition msg_step (c : conn) (msg : RootMsg) : PS pc :=
  match msg with
  | Msg_DbtlMsg d =>
      if DbtlMsg_cmd d =? kLsn then
        let* lsn := access (let* d := get in modify (set_applyLsn (int32 (applyLsn_ d + 1))) ;;; ret (applyLsn_ d)) in
        ret (LsnSend (DbtlMsg_txid d) lsn (Some c))
      else access (onMessage cfg (Some c) msg) ;;; ret Done
  | Msg_LogPlayerMsg lp =>
      if LogPlayerMsg_cmd lp =? kExecTranSucc then remove (LogPlayerMsg_txid lp) (LogPlayerMsg_id lp) ;;; ret Done
      else if LogPlayerMsg_cmd lp =? kExecTranFail then
        let* old := access (load_retry (LogPlayerMsg_txid lp) (LogPlayerMsg_id lp)) in
        ret (FailStore (LogPlayerMsg_txid lp) (LogPlayerMsg_id lp) (int32 (old + 1)))
      else access (onMessage cfg (Some c) msg) ;;; ret Done
  | _ => ret Done
  end.

(** The next task of the pool. *)
Definition take_task : P (option task) :=
  let* d := get in
  match tasks_ d with
  | [] => ret None
  | t :: rest => modify (Dbtl.set_tasks rest) ;;; ret (Some t)
  end.

Definition find_step (id : Z) (reply : option TcpConnectionPtr) : PS pc :=
  let* found := access (find_answers id) in
  ret (if found : bool then PlayLogs id reply else PlayResize id reply).

Definition begin_step (j : job) : PS pc :=
  match j with
  | JMsg c msg => msg_step c msg
  | JTask =>
      let* t := access take_task in
      ret (match t with
           | None => Done
           | Some (TWriteDisk id data conn) => WriteOpen id data conn
           | Some (TWriteRocks id data conn) => RocksWrite id data conn
           end)
  | JTimer id => find_step id None
  end.

(** [LogPlayer::playLog] *)
Definition play_step (p : pc) : PS pc :=
  match p with
  | PlayFind id k => find_step id k
  | PlayResize id k => access (resize_retry id) ;;; ret (PlayAdd id 0 k)
  | PlayAdd id i k =>
      let* s := get in
      if (i <? length (dbConnVec_ (s_dbtl s)))%nat then emplace_back id (Z.of_nat i) ;;; ret (PlayZero id i k)
      else ret (PlayLogs id k)
  | PlayZero id i k => access (store_retry id (Z.of_nat i) 0) ;;; ret (PlayAdd id (S i) k)
  | PlayLogs id k => let* log := access (log_at id) in ret (PlayBegin id log k)
  | PlayBegin id log k =>
      access (answer_at id) ;;;
      let* s := get in ret (PlaySend id log (fst <$> head (cells id s)) k)
  | PlaySend id log None k => ret (PlayReply id k)
  | PlaySend id log (Some it) k =>
      let* s := get in
      let* pos := lift (of_option (value_at it (cells id s)) UseAfterFree) in
      let* c := lift (of_option (if 0 <=? pos then dbConnVec_ (s_dbtl s) !! Z.to_nat pos else None) OutOfBounds) in
      send c (log_msg id log) ;;; ret (PlayNext id log it k)
  | PlayNext id log it k =>
      let* s := get in
      let* nx := lift (of_option (next_of it (cells id s)) UseAfterFree) in
      ret (PlaySend id log nx k)
  | PlayReply id None => ret Done
  | PlayReply id (Some conn) => access (retResult kTranSuccess id (-1) conn) ;;; ret Done
  | p => ret p
  end.

(** One record of [writeToDisk]. *)
Definition write_record (id : Z) (d : Data) : P unit :=
  let* i := lift (read_log d) in
  emit (ETextWrite (to_string id) false (log_key i +:+ "#" +:+ log_attribute i +:+ ":" +:+ log_value i +:+ "@")) ;;;
  let* l := log_at id in
  modify (λ d, set_logTable (<[id := l ++ [i]]> (logTable_ d)) d).

Definition open_log (id : Z) (data : option (list Data)) : P (list Data) :=
  emit (EOpen (to_string id) false) ;;;
  (if open_ok (to_string id) then ret tt else LOG ERROR "open log file error") ;;;
  let* data := lift (of_option data NullDeref) in
  lift (stale data).

(** The failure branch of [LogPlayer::solve], after it has read the counter. *)
Definition fail_step (p : pc) : PS pc :=
  match p with
  | FailStore id pos time =>
      access (store_retry id pos time) ;;;
      (if Config.lpMaxRetryTime_ cfg <? time then access (LOG WARNING "Maximum retry limit reached") ;;; ret Done
       else ret (FailTimer id time))
  | FailTimer id time =>
      access (let* t := lift (backoff time) in
              let* d := get in
              let* (_, w) := lift (TimeWheel.addTimer t id (timeWheel_ d)) in
              modify (set_timeWheel w)) ;;; ret Done
  | p => ret p
  end.

(** The tasks of [Dbtl], and the next step of anything else. *)
Definition tstep (p : pc) : PS pc :=
  match p with
  | Done => ret Done
  | Begin j => begin_step j
  | LsnSend id lsn conn => access (retResult kLsn id lsn conn) ;;; ret Done
  | FailStore _ _ _ | FailTimer _ _ => fail_step p
  | WriteOpen id data conn => let* data := access (open_log id data) in ret (WriteItem id data conn)
  | WriteItem id [] conn => ret (PlayFind id (Some conn))
  | WriteItem id (d :: data) conn => access (write_record id d) ;;; ret (WriteItem id data conn)
  | RocksWrite id data conn => access (writeToDiskByRocksDb rocks_write_ok id data conn) ;;; ret Done
  | p => play_step p
  end.

#[export] Instance finished_dec (p : pc) : Decision (p = Done).
Proof. destruct p; [by left|right; discriminate..]. Defined.

(** A thread that nobody interrupts. *)
Fixpoint run_alone (fuel : nat) (p : pc) : PS unit :=
  match p, fuel with
  | Done, _ => ret tt
  | _, O => throw OutOfFuel
  | _, S fuel => let* p' := tstep p in run_alone fuel p'
  end.

(** What Dbtl.v does in one step. *)
Definition handle (j : job) : P unit :=
  match j with
  | JMsg c msg => onMessage cfg (Some c) msg
  | JTask => run_task rocks_write_ok open_ok
  | JTimer id => playLog id
  end.

(** ** The process *)

Record machine := mkmachine { m_shared : shared; m_threads : list (pc * list job) }.

Definition turn (i : nat) (m : machine) : result (list event * machine) :=
  match m_threads m !! i with
  | None | Some (Done, []) => Err OutOfBounds
  | Some (Done, j :: q) => Ok ([], mkmachine (m_shared m) (<[i := (Begin j, q)]> (m_threads m)))
  | Some (p, q) =>
      match tstep p (m_shared m) with
      | (es, Ok (p', s')) => Ok (es, mkmachine s' (<[i := (p', q)]> (m_threads m)))
      | (_, Err f) => Err f
      end
  end.

Fixpoint schedule (turns : list nat) (m : machine) : result (list event * machine) :=
  match turns with
  | [] => Ok ([], m)
  | i :: turns =>
      let? (es, m) := turn i m in
      let? (es', m) := schedule turns m in
      Ok (es ++ es', m)
  end.

(** ** One thread alone *)

(** Every list has its nodes, and no two nodes share an address. *)
Definition wf (s : shared) : Prop :=
  ∀ id, length (nodes_of id s) = length (values_of id s) ∧ NoDup (nodes_of id s) ∧ Forall (λ n, (n < s_next s)%nat) (nodes_of id s).

(** Nothing about the lists and the connections has changed. *)
Definition framed (s s' : shared) : Prop :=
  s_nodes s' = s_nodes s ∧ s_next s' = s_next s ∧ (∀ id, values_of id s' = values_of id s) ∧ dbConnVec_ (s_dbtl s') = dbConnVec_ (s_dbtl s).

Lemma framed_wf s s' : framed s s' → wf s → wf s'.
Proof. intros (Hn & Hx & Hv & _) Hwf id. unfold nodes_of. rewrite Hn, Hx, Hv. apply Hwf. Qed.

Lemma framed_cells s s' id : framed s s' → cells id s' = cells id s.
Proof. intros (Hn & _ & Hv & _). unfold cells, nodes_of. by rewrite Hn, Hv. Qed.

(** A program that keeps them. *)
Definition still (V : Z → list Z) (C : list TcpConnectionPtr) (d : Dbtl) : Prop :=
  (∀ id, default [] (answerTable_ d !! id) = V id) ∧ dbConnVec_ d = C.
Definition frames {A} (m : P A) : Prop := ∀ V C, keeps (λ _ : event, True) (still V C) m.

Lemma access_framed {A} (m : P A) s es a s' : frames m → access m s = (es, Ok (a, s')) → framed s s'.
Proof.
  intros Hm Ha. unfold access in Ha. destruct (m (s_dbtl s)) as [es1 [[a1 d]|f]] eqn:Hd; [|done]. injection Ha as <- <- <-.
  destruct (Hm (λ id, values_of id s) (dbConnVec_ (s_dbtl s)) (s_dbtl s)) as [_ Hk]; [done|]. rewrite Hd in Hk.
  destruct (Hk a1 d eq_refl) as [H1 H2]. by split_and!.
Qed.

Lemma frames_emit e : frames (emit e).
Proof. intros V C. by apply keeps_emit. Qed.

Lemma frames_send c m : frames (send c m).
Proof. intros V C. destruct c; [by apply keeps_emit|apply keeps_throw]. Qed.

Lemma frames_answer_at id : frames (answer_at id).
Proof.
  intros V C. unfold answer_at. keeps_step. destruct (subscript [] id (answerTable_ s)) as [l m] eqn:Hsub. keeps_step; [|keeps_step].
  keeps_step. intros d [_ Hd]. split; [|done]. cbn. intros id'. destruct Hs as [Hv _]. unfold subscript in Hsub.
  destruct (answerTable_ s !! id) as [x|] eqn:Hx; injection Hsub as <- <-; [apply Hv|].
  destruct (decide (id' = id)) as [->|]; [|by rewrite lookup_insert_ne]. rewrite lookup_insert_eq, <- Hv, Hx. done.
Qed.

Ltac frames_step :=
  first [keeps_step | match goal with |- keeps _ (still _ _) _ => first [apply frames_emit | apply frames_send | apply frames_answer_at] end].

Lemma frames_retry_at id : frames (retry_at id).
Proof. intros V C. unfold retry_at. repeat frames_step; done. Qed.

Lemma frames_log_at id : frames (log_at id).
Proof. intros V C. unfold log_at. repeat frames_step; done. Qed.

Lemma frames_resize id : frames (resize_retry id).
Proof. intros V C. unfold resize_retry. repeat (frames_step || apply frames_retry_at); done. Qed.

Lemma frames_store id i x : frames (store_retry id i x).
Proof. intros V C. unfold store_retry. repeat (frames_step || apply frames_retry_at); done. Qed.

Lemma keeps_lift_end Q (I : Dbtl → Prop) {A} (r : result A) : keeps Q I (lift (E := event) r).
Proof. intros d Hd. by apply wp_lift. Qed.

Lemma frames_load id i : frames (load_retry id i).
Proof. intros V C. unfold load_retry. repeat (frames_step || apply frames_retry_at || apply keeps_lift_end). Qed.

Lemma keeps_get_end Q (I : Dbtl → Prop) {A} (f : Dbtl → A) : keeps Q I (let* d := get in ret (E := event) (f d)).
Proof. repeat keeps_step. Qed.

Lemma frames_write id d : frames (write_record id d).
Proof. intros V C. unfold write_record. repeat (frames_step || apply frames_log_at); done. Qed.

Lemma frames_open id data : frames (open_log id data).
Proof. intros V C. unfold open_log, LOG. repeat (frames_step || apply keeps_lift_end); done. Qed.

Lemma frames_rocks id data c : frames (writeToDiskByRocksDb rocks_write_ok id data c).
Proof. intros V C. unfold writeToDiskByRocksDb, retResult, LOG. repeat frames_step; done. Qed.

Lemma frames_ret id lsn cmd c : frames (retResult cmd id lsn c).
Proof. intros V C. apply frames_send. Qed.

Lemma frames_task : frames take_task.
Proof. intros V C. unfold take_task. repeat frames_step; done. Qed.

(** *** Runs of a thread *)

Definition same (x : list event * result (unit * shared)) (y : list event * result (unit * Dbtl)) : Prop :=
  x.1 = y.1 ∧ match x.2, y.2 with
              | Ok (_, s), Ok (_, d) => s_dbtl s = d ∧ wf s
              | Err f, Err f' => f = f'
              | _, _ => False
              end.

(** With enough turns the thread does what [m] does. *)
Definition runs (p : pc) (s : shared) (m : P unit) : Prop :=
  ∃ n0, ∀ n, (n0 ≤ n)%nat → same (run_alone n p s) (m (s_dbtl s)).

Lemma alone_unfold n p s : p ≠ Done → run_alone (S n) p s = bind (tstep p) (run_alone n) s.
Proof. by destruct p. Qed.

Lemma runs_ext p s m m' : (∀ d, m d = m' d) → runs p s m → runs p s m'.
Proof. intros Hm [n0 H0]. exists n0. intros n Hn. rewrite <- Hm. by apply H0. Qed.

Lemma runs_done s : wf s → runs Done s (ret tt).
Proof. intros Hwf. exists 0%nat. intros n _. by destruct n. Qed.

Lemma runs_fault p s m es f : p ≠ Done → tstep p s = (es, Err f) → m (s_dbtl s) = (es, Err f) → runs p s m.
Proof.
  intros Hp Ht Hm. exists 1%nat. intros [|n] Hn; [lia|]. rewrite alone_unfold, (bind_fault _ _ _ _ _ Ht), Hm by done. done.
Qed.

Lemma runs_step {A} p s es p' s' (m : P A) (h : A → P unit) a d :
  p ≠ Done → tstep p s = (es, Ok (p', s')) → m (s_dbtl s) = (es, Ok (a, d)) → s_dbtl s' = d → runs p' s' (h a) → runs p s (bind m h).
Proof.
  intros Hp Ht Hm <- [n0 Hr]. exists (S n0). intros [|n] Hn; [lia|]. rewrite alone_unfold by done.
  rewrite (bind_step _ _ _ _ _ _ Ht), (bind_step _ _ _ _ _ _ Hm). destruct (Hr n ltac:(lia)) as [He Hs]. split; cbn; [by rewrite He|done].
Qed.

(** A step without an access to the service. *)
Lemma runs_silent p s p' s' m :
  p ≠ Done → tstep p s = ([], Ok (p', s')) → s_dbtl s' = s_dbtl s → runs p' s' m → runs p s m.
Proof.
  intros Hp Ht Hs Hr. apply (runs_ext _ _ (bind (ret tt) (λ _, m))); [intros d; by rewrite bind_ret_l|].
  by eapply (runs_step _ _ [] p' s' (ret tt)).
Qed.

Lemma runs_access {A} p s (m : P A) (k : A → pc) (h : A → P unit) :
  p ≠ Done → tstep p = (let* a := access m in ret (k a)) → frames m →
  (∀ a s', framed s s' → runs (k a) s' (h a)) → runs p s (bind m h).
Proof.
  intros Hp Ht Hm Hk. destruct (m (s_dbtl s)) as [es [[a d]|f]] eqn:Hd.
  - assert (access m s = (es, Ok (a, mkshared d (s_nodes s) (s_next s)))) as Ha by (unfold access; by rewrite Hd).
    eapply (runs_step _ _ es (k a)); [done| |exact Hd| |].
    + rewrite Ht, (bind_step _ _ _ _ _ _ Ha). cbn. by rewrite app_nil_r.
    + done.
    + apply Hk. by eapply access_framed.
  - eapply runs_fault; [done| |by apply bind_fault]. rewrite Ht. apply bind_fault. unfold access. by rewrite Hd.
Qed.

Lemma runs_last p s (m : P unit) :
  p ≠ Done → tstep p = (access m ;;; ret Done) → frames m → wf s → runs p s m.
Proof.
  intros Hp Ht Hm Hwf. apply (runs_ext _ _ (m ;;; ret tt)); [intros d; by rewrite bind_ret_r|].
  eapply (runs_access _ _ _ (λ _, Done)); [done|done|done|]. intros [] s' Hf. apply runs_done. by eapply framed_wf.
Qed.

(** *** The lists *)

Lemma answer_at_ok id d : answer_at id d = ([], Ok (default [] (answerTable_ d !! id), set_answerTable (subscript [] id (answerTable_ d)).2 d)).
Proof. by rewrite answer_at_spec, subscript_fst. Qed.

(** What a change of the list of [id] leaves. *)
Lemma list_changed id l ns d s n :
  wf s → (∀ id', id' ≠ id → default [] (answerTable_ d !! id') = values_of id' s) → default [] (answerTable_ d !! id) = l →
  length ns = length l → NoDup ns → (s_next s ≤ n)%nat → Forall (λ x, (x < n)%nat) ns →
  wf (mkshared d (<[id := ns]> (s_nodes s)) n).
Proof.
  intros Hwf Hne He Hlen Hnd Hn HF id'. unfold nodes_of, values_of. cbn. destruct (decide (id' = id)) as [->|Hid].
  - rewrite lookup_insert_eq, He. done.
  - rewrite lookup_insert_ne, Hne by done. destruct (Hwf id') as (H1 & H2 & H3). split_and!; [done|done|].
    eapply Forall_impl; [exact H3|]. cbn. lia.
Qed.

Lemma add_answer_ok id i d :
  ∃ d', add_answer id i d = ([], Ok (tt, d')) ∧ dbConnVec_ d' = dbConnVec_ d ∧
    default [] (answerTable_ d' !! id) = default [] (answerTable_ d !! id) ++ [i] ∧
    ∀ id', id' ≠ id → default [] (answerTable_ d' !! id') = default [] (answerTable_ d !! id').
Proof.
  unfold add_answer. eexists. rewrite (bind_quiet _ _ _ _ _ (answer_at_ok id d)). split; [reflexivity|]. cbn.
  split; [done|]. split; [by rewrite lookup_insert_eq|]. intros id' Hne. rewrite lookup_insert_ne by done.
  by rewrite subscript_lookup_ne.
Qed.

Lemma remove_answer_ok id pos d :
  ∃ d', remove_answer id pos d = ([], Ok (tt, d')) ∧ dbConnVec_ d' = dbConnVec_ d ∧
    default [] (answerTable_ d' !! id) = filter (λ p, p ≠ pos) (default [] (answerTable_ d !! id)) ∧
    ∀ id', id' ≠ id → default [] (answerTable_ d' !! id') = default [] (answerTable_ d !! id').
Proof.
  unfold remove_answer. eexists. rewrite (bind_quiet _ _ _ _ _ (answer_at_ok id d)). split; [reflexivity|]. cbn.
  split; [done|]. split; [by rewrite lookup_insert_eq|]. intros id' Hne. rewrite lookup_insert_ne by done.
  by rewrite subscript_lookup_ne.
Qed.

Lemma emplace_back_ok id i s :
  wf s → ∃ s', emplace_back id i s = ([], Ok (tt, s')) ∧ add_answer id i (s_dbtl s) = ([], Ok (tt, s_dbtl s')) ∧ wf s' ∧
    dbConnVec_ (s_dbtl s') = dbConnVec_ (s_dbtl s).
Proof.
  intros Hwf. destruct (add_answer_ok id i (s_dbtl s)) as (d & Hd & Hc & Hi & Hne). destruct (Hwf id) as (H1 & H2 & H3).
  exists (mkshared d (<[id := nodes_of id s ++ [s_next s]]> (s_nodes s)) (S (s_next s))). split_and!; [|done| |done].
  - unfold emplace_back. rewrite (bind_quiet (access _) _ _ tt (mkshared d (s_nodes s) (s_next s))); [done|]. unfold access. by rewrite Hd.
  - eapply list_changed; [done|done|exact Hi|by rewrite !length_app, H1| |lia|].
    + apply NoDup_app. split_and!; [done| |apply NoDup_singleton]. intros x Hx ->%list_elem_of_singleton. rewrite Forall_forall in H3. specialize (H3 _ Hx). lia.
    + apply Forall_app. split; [eapply Forall_impl; [exact H3|cbn; lia]|]. constructor; [lia|done].
Qed.

Lemma keep_nodes_sublist pos ns vs : keep_nodes pos ns vs `sublist_of` ns.
Proof.
  unfold keep_nodes. revert vs. induction ns as [|n ns IH]; intros [|v vs]; try apply sublist_nil_l.
  cbn [zip_with]. rewrite filter_cons. destruct (decide _); rewrite ?fmap_cons; [by apply sublist_skip|by apply sublist_cons].
Qed.

Lemma keep_nodes_length pos ns vs : length ns = length vs → length (keep_nodes pos ns vs) = length (filter (λ p, p ≠ pos) vs).
Proof.
  unfold keep_nodes. revert vs. induction ns as [|n ns IH]; intros [|v vs] Hl; try done. injection Hl as Hl. cbn [zip_with].
  rewrite !filter_cons. cbn [snd]. destruct (decide (v ≠ pos)); cbn; by rewrite IH.
Qed.

Lemma remove_ok id pos s :
  wf s → ∃ s', remove id pos s = ([], Ok (tt, s')) ∧ remove_answer id pos (s_dbtl s) = ([], Ok (tt, s_dbtl s')) ∧ wf s' ∧
    dbConnVec_ (s_dbtl s') = dbConnVec_ (s_dbtl s) ∧ nodes_of id s' = keep_nodes pos (nodes_of id s) (values_of id s) ∧
    values_of id s' = filter (λ p, p ≠ pos) (values_of id s) ∧ (∀ id', id' ≠ id → cells id' s' = cells id' s).
Proof.
  intros Hwf. destruct (remove_answer_ok id pos (s_dbtl s)) as (d & Hd & Hc & Hi & Hne). destruct (Hwf id) as (H1 & H2 & H3).
  exists (mkshared d (<[id := keep_nodes pos (nodes_of id s) (values_of id s)]> (s_nodes s)) (s_next s)). split_and!; [|done| |done| |done|].
  - unfold remove. rewrite (bind_quiet get _ _ s s) by done. rewrite (bind_quiet (access _) _ _ tt (mkshared d (s_nodes s) (s_next s))); [done|].
    unfold access. by rewrite Hd.
  - eapply list_changed; [done|done|exact Hi|by apply keep_nodes_length| |lia|].
    + by eapply sublist_NoDup; [|apply keep_nodes_sublist].
    + rewrite Forall_forall in H3 |- *. intros x Hx. apply H3. by eapply elem_of_sublist, keep_nodes_sublist.
  - unfold nodes_of. cbn. by rewrite lookup_insert_eq.
  - intros id' Hid. unfold cells, nodes_of, values_of. cbn. by rewrite lookup_insert_ne, Hne.
Qed.

(** *** The replay *)

Definition reply_prog (id : Z) (k : option TcpConnectionPtr) : P unit :=
  match k with None => ret tt | Some conn => retResult kTranSuccess id (-1) conn end.

Lemma reply_runs id k s : wf s → runs (PlayReply id k) s (reply_prog id k).
Proof.
  intros Hwf. destruct k as [conn|].
  - apply runs_last; [done|done|apply frames_ret|done].
  - eapply runs_silent; [done|reflexivity|done|by apply runs_done].
Qed.

(** One position of the loop of [playLog]. *)
Definition send_one (id : Z) (log : list LogInfo) (pos : Z) : P unit :=
  let* s := get in
  let* c := lift (of_option (if 0 <=? pos then dbConnVec_ s !! Z.to_nat pos else None) OutOfBounds) in
  send c (log_msg id log).

Lemma value_at_middle it v pre post : it ∉ pre.*1 → value_at it (pre ++ (it, v) :: post) = Some v.
Proof. induction pre as [|[n w] pre IH]; cbn; [by rewrite decide_True|]. rewrite not_elem_of_cons. intros [Hne Hin]. by rewrite decide_False, IH by done. Qed.

Lemma next_of_middle it v pre post : it ∉ pre.*1 → next_of it (pre ++ (it, v) :: post) = Some (fst <$> head post).
Proof. induction pre as [|[n w] pre IH]; cbn; [by rewrite decide_True|]. rewrite not_elem_of_cons. intros [Hne Hin]. by rewrite decide_False, IH by done. Qed.

Lemma cells_fst id s : wf s → (cells id s).*1 = nodes_of id s.
Proof. intros Hwf. destruct (Hwf id) as (Hl & _). unfold cells. rewrite fst_zip by lia. done. Qed.

Lemma cells_snd id s : wf s → (cells id s).*2 = values_of id s.
Proof. intros Hwf. destruct (Hwf id) as (Hl & _). unfold cells. rewrite snd_zip by lia. done. Qed.

Lemma cells_fresh id s pre it v post : wf s → cells id s = pre ++ (it, v) :: post → (it ∉ pre.*1) ∧ (it ∉ post.*1).
Proof.
  intros Hwf Hc. pose proof (cells_fst id s Hwf) as Hf. rewrite Hc, fmap_app in Hf. cbn in Hf. destruct (Hwf id) as (_ & Hnd & _).
  rewrite <- Hf in Hnd. apply NoDup_app in Hnd as (_ & H1 & [H2 _]%NoDup_cons). split; [|done]. intros Hin. apply (H1 it Hin). by left.
Qed.

Lemma send_loop_runs id log k post : ∀ pre s,
  wf s → cells id s = pre ++ post →
  runs (PlaySend id log (fst <$> head post) k) s (for_each post.*2 (send_one id log) ;;; reply_prog id k).
Proof.
  induction post as [|[it v] post IH]; intros pre s Hwf Hc; cbn [head fmap option_fmap option_map fst list_fmap snd for_each].
  { apply (runs_ext _ _ (reply_prog id k)); [intros d; by rewrite bind_ret_l|].
    eapply runs_silent; [done|reflexivity|done|by apply reply_runs]. }
  destruct (cells_fresh _ _ _ _ _ _ Hwf Hc) as [Hpre Hpost].
  apply (runs_ext _ _ (send_one id log v ;;; (for_each post.*2 (send_one id log) ;;; reply_prog id k))); [intros d; by rewrite bind_assoc|].
  assert (tstep (PlaySend id log (Some it) k) s =
    (let* s := get in let* c := lift (of_option (if 0 <=? v then dbConnVec_ (s_dbtl s) !! Z.to_nat v else None) OutOfBounds) in
     send c (log_msg id log) ;;; ret (PlayNext id log it k)) s) as Ht.
  { cbn [tstep play_step]. rewrite !(bind_quiet get _ s s s) by done. rewrite Hc, value_at_middle by done. by rewrite (bind_quiet (lift _) _ s v s). }
  rewrite (bind_quiet get _ s s s) in Ht by done.
  assert (send_one id log v (s_dbtl s) = (let* c := lift (of_option (if 0 <=? v then dbConnVec_ (s_dbtl s) !! Z.to_nat v else None) OutOfBounds) in send c (log_msg id log)) (s_dbtl s)) as Hm.
  { unfold send_one. by rewrite (bind_quiet get _ (s_dbtl s) (s_dbtl s) (s_dbtl s)). }
  destruct (of_option _ OutOfBounds) as [[c|]|f].
  - eapply (runs_step _ _ [ESend c (log_msg id log)] (PlayNext id log it k) s); [done|exact Ht|exact Hm|done|].
    eapply runs_silent; [done| |done|apply (IH (pre ++ [(it, v)])); [done|by rewrite <- app_assoc]].
    cbn [tstep play_step]. rewrite (bind_quiet get _ s s s), Hc, next_of_middle by done. reflexivity.
  - eapply runs_fault; [done|exact Ht|]. apply bind_fault. exact Hm.
  - eapply runs_fault; [done|exact Ht|]. apply bind_fault. exact Hm.
Qed.

Lemma bind_cong {A B} (m m' : P A) (k k' : A → P B) d : m d = m' d → (∀ a d', k a d' = k' a d') → bind m k d = bind m' k' d.
Proof. intros Hm Hk. rewrite (bind_ext m k k' d Hk). unfold bind. by rewrite Hm. Qed.

Lemma for_each_ext {A} (l : list A) (b b' : A → P unit) d : (∀ x d, b x d = b' x d) → for_each l b d = for_each l b' d.
Proof.
  intros Hb. revert d. induction l as [|x l IH]; intros d; cbn [for_each]; [done|]. rewrite (bind_ext _ _ (λ _, for_each l b')) by (intros []; apply IH).
  unfold bind. by rewrite Hb.
Qed.

(** The second half of [playLog]. *)
Definition play_rest (id : Z) (k : option TcpConnectionPtr) : P unit :=
  let* log := log_at id in
  let* l := answer_at id in
  for_each l (send_one id log) ;;; reply_prog id k.

Lemma rest_runs id k s : wf s → runs (PlayLogs id k) s (play_rest id k).
Proof.
  intros Hwf. eapply runs_access; [done|reflexivity|apply frames_log_at|]. intros log s1 Hf1.
  pose proof (framed_wf _ _ Hf1 Hwf) as Hwf1.
  set (s2 := mkshared (set_answerTable (subscript [] id (answerTable_ (s_dbtl s1))).2 (s_dbtl s1)) (s_nodes s1) (s_next s1)).
  assert (access (answer_at id) s1 = ([], Ok (values_of id s1, s2))) as Ha by (unfold access; by rewrite answer_at_ok).
  pose proof (access_framed _ _ _ _ _ (frames_answer_at id) Ha) as Hf2. pose proof (framed_wf _ _ Hf2 Hwf1) as Hwf2.
  eapply (runs_step _ _ [] (PlaySend id log (fst <$> head (cells id s2)) k) s2); [done| |apply answer_at_ok|done|].
  - cbn [tstep play_step]. rewrite (bind_quiet _ _ _ _ _ Ha). reflexivity.
  - replace (default [] (answerTable_ (s_dbtl s1) !! id)) with ((cells id s2).*2).
    + by apply (send_loop_runs id log k (cells id s2) []).
    + rewrite cells_snd by done. destruct Hf2 as (_ & _ & Hv & _). apply Hv.
Qed.

Definition register (id x : Z) : P unit := add_answer id x ;;; store_retry id x 0.

Lemma register_runs id k j : ∀ i s,
  wf s → length (dbConnVec_ (s_dbtl s)) = (i + j)%nat →
  runs (PlayAdd id i k) s (for_each (Z.of_nat <$> seq i j) (register id) ;;; play_rest id k).
Proof.
  induction j as [|j IH]; intros i s Hwf Hlen; cbn [seq fmap list_fmap for_each].
  - apply (runs_ext _ _ (play_rest id k)); [intros d; by rewrite bind_ret_l|]. eapply runs_silent; [done| |done|by apply rest_runs].
    cbn [tstep play_step]. rewrite (bind_quiet get _ s s s) by done. destruct (Nat.ltb_spec i (length (dbConnVec_ (s_dbtl s)))); [lia|done].
  - apply (runs_ext _ _ (add_answer id (Z.of_nat i) ;;; (store_retry id (Z.of_nat i) 0 ;;; (for_each (Z.of_nat <$> seq (S i) j) (register id) ;;; play_rest id k)))).
    { intros d. unfold register at 2. rewrite !bind_assoc. apply bind_ext. intros [] d'. by rewrite ?bind_assoc. }
    destruct (emplace_back_ok id (Z.of_nat i) s Hwf) as (s1 & He & Ha & Hwf1 & Hc1).
    eapply (runs_step _ _ [] (PlayZero id i k) s1); [done| |exact Ha|done|].
    + cbn [tstep play_step]. rewrite (bind_quiet get _ s s s) by done. destruct (Nat.ltb_spec i (length (dbConnVec_ (s_dbtl s)))); [|lia].
      by rewrite (bind_quiet _ _ _ _ _ He).
    + eapply runs_access; [done|reflexivity|apply frames_store|]. intros [] s2 Hf2. apply IH; [by eapply framed_wf|].
      destruct Hf2 as (_ & _ & _ & ->). rewrite Hc1. lia.
Qed.

(** [playLog] in these pieces. *)
Lemma second_half id k d :
  ((let* log := log_at id in let* l := answer_at id in for_each l (send_one id log)) ;;; reply_prog id k) d = play_rest id k d.
Proof. unfold play_rest. rewrite bind_assoc. apply bind_ext. intros log d1. by rewrite bind_assoc. Qed.

Lemma playLog_pieces id k d :
  (playLog id ;;; reply_prog id k) d =
  (let* found := find_answers id in
   if found : bool then play_rest id k
   else resize_retry id ;;; (let* d := get in for_each (Z.of_nat <$> seq 0 (length (dbConnVec_ d))) (register id) ;;; play_rest id k)) d.
Proof.
  unfold playLog, find_answers. rewrite !bind_assoc, !(bind_quiet get _ d d d), bind_ret_l by done.
  destruct (answerTable_ d !! id) as [l|].
  - rewrite bool_decide_true by (by eexists). rewrite bind_assoc, bind_ret_l. apply second_half.
  - rewrite bool_decide_false by (by intros []). unfold resize_retry. rewrite !bind_assoc, !(bind_quiet _ _ _ _ _ (retry_at_spec d id)).
    rewrite !bind_assoc, !(bind_quiet (modify _) _ _ _ _ eq_refl), (bind_quiet get _ _ _ _ eq_refl). cbn [dbConnVec_ set_retryTable].
    apply bind_cong; [|intros [] d1; apply second_half]. apply for_each_ext.
    intros x d1. unfold register, add_answer, store_retry. by rewrite bind_assoc.
Qed.

Lemma play_runs id k p s :
  p ≠ Done → tstep p = find_step id k → wf s → runs p s (playLog id ;;; reply_prog id k).
Proof.
  intros Hp Ht Hwf. eapply runs_ext; [intros d; symmetry; apply playLog_pieces|].
  eapply (runs_access _ _ _ (λ found : bool, if found then PlayLogs id k else PlayResize id k)); [done|exact Ht|intros V C; apply keeps_get_end|].
  intros found s1 Hf1. pose proof (framed_wf _ _ Hf1 Hwf) as Hwf1. destruct found; [by apply rest_runs|].
  eapply runs_access; [done|reflexivity|apply frames_resize|]. intros [] s2 Hf2. pose proof (framed_wf _ _ Hf2 Hwf1) as Hwf2.
  destruct (register_runs id k (length (dbConnVec_ (s_dbtl s2))) 0 s2 Hwf2 eq_refl) as [n0 Hn]. exists n0. intros n Hle.
  rewrite (bind_quiet get _ (s_dbtl s2) (s_dbtl s2) (s_dbtl s2)) by done. by apply Hn.
Qed.

(** *** The handlers and the tasks *)

Lemma frames_other c msg :
  match msg with
  | Msg_DbtlMsg d => DbtlMsg_cmd d ≠ kLsn
  | Msg_LogPlayerMsg lp => LogPlayerMsg_cmd lp ≠ kExecTranSucc ∧ LogPlayerMsg_cmd lp ≠ kExecTranFail
  | _ => True
  end → frames (onMessage cfg (Some c) msg).
Proof.
  intros Hm V C. unfold onMessage. destruct msg as [| | | |d| | | | |lp]; try apply keeps_ret.
  - unfold solve. destruct (Z.eqb_spec (DbtlMsg_cmd d) kLsn); [done|]. destruct (_ =? kLog); cbn [orb]; [|apply frames_emit]. frames_step. done.
  - destruct Hm as [H1 H2]. destruct (Z.eqb_spec (LogPlayerMsg_cmd lp) kExecTranSucc); [done|].
    destruct (Z.eqb_spec (LogPlayerMsg_cmd lp) kExecTranFail); [done|]. cbn. apply frames_emit.
Qed.

(** A second look at the same counter finds the same vector. *)
Lemma retry_again id d : retry_at id (set_retryTable (subscript [] id (retryTable_ d)).2 d) = retry_at id d.
Proof.
  rewrite !retry_at_spec. cbn [retryTable_ set_retryTable]. rewrite (subscript_some [] (default [] (retryTable_ d !! id))) by apply subscript_lookup.
  by rewrite subscript_fst.
Qed.

Lemma fail_pieces lp d :
  LogPlayerMsg_cmd lp = kExecTranFail →
  onMessage cfg None (Msg_LogPlayerMsg lp) d =
  (let* old := load_retry (LogPlayerMsg_txid lp) (LogPlayerMsg_id lp) in
   store_retry (LogPlayerMsg_txid lp) (LogPlayerMsg_id lp) (int32 (old + 1)) ;;;
   (if Config.lpMaxRetryTime_ cfg <? int32 (old + 1) then LOG WARNING "Maximum retry limit reached"
    else let* t := lift (backoff (int32 (old + 1))) in
         let* d := get in
         let* (_, w) := lift (TimeWheel.addTimer t (LogPlayerMsg_txid lp) (timeWheel_ d)) in
         modify (set_timeWheel w))) d.
Proof.
  intros Hc. unfold onMessage, LogPlayer_solve, load_retry, store_retry. rewrite Hc. change (kExecTranFail =? kExecTranSucc) with false.
  change (kExecTranFail =? kExecTranFail) with true. cbn [orb]. cbv zeta. rewrite !bind_assoc, !(bind_quiet _ _ _ _ _ (retry_at_spec d _)).
  set (v := (subscript [] _ _).1). set (d1 := set_retryTable _ d). destruct (load_at (LogPlayerMsg_id lp) v) as [old|f]; [|done].
  assert (retry_at (LogPlayerMsg_txid lp) d1 = ([], Ok (v, d1))) as Hagain by (unfold d1; rewrite retry_again; apply retry_at_spec).
  rewrite !(bind_quiet (lift (Ok old)) _ d1 old d1), bind_assoc, (bind_quiet _ _ _ _ _ Hagain), bind_assoc by done.
  by apply bind_ext.
Qed.

Lemma frames_timer id time :
  frames (let* t := lift (backoff time) in
          let* d := get in
          let* (_, w) := lift (TimeWheel.addTimer t id (timeWheel_ d)) in
          modify (set_timeWheel w)).
Proof. intros V C. repeat frames_step. done. Qed.

Lemma fail_runs c lp s :
  wf s → LogPlayerMsg_cmd lp = kExecTranFail → runs (Begin (JMsg c (Msg_LogPlayerMsg lp))) s (onMessage cfg (Some c) (Msg_LogPlayerMsg lp)).
Proof.
  intros Hwf Hc. eapply runs_ext; [intros d; symmetry; exact (fail_pieces lp d Hc)|].
  eapply (runs_access _ _ _ (λ old, FailStore (LogPlayerMsg_txid lp) (LogPlayerMsg_id lp) (int32 (old + 1)))); [done| |apply frames_load|].
  { cbn [tstep begin_step msg_step]. rewrite Hc. reflexivity. }
  intros old s1 Hf1. pose proof (framed_wf _ _ Hf1 Hwf) as Hwf1. set (time := int32 (old + 1)).
  destruct (Config.lpMaxRetryTime_ cfg <? time) eqn:Hmax.
  - destruct (store_retry (LogPlayerMsg_txid lp) (LogPlayerMsg_id lp) time (s_dbtl s1)) as [es [[[] d]|f]] eqn:Hst.
    + assert (access (store_retry (LogPlayerMsg_txid lp) (LogPlayerMsg_id lp) time) s1 = (es, Ok (tt, mkshared d (s_nodes s1) (s_next s1)))) as Ha by (unfold access; by rewrite Hst).
      pose proof (access_framed _ _ _ _ _ (frames_store _ _ _) Ha) as Hf2.
      apply (runs_ext _ _ ((store_retry (LogPlayerMsg_txid lp) (LogPlayerMsg_id lp) time ;;; LOG WARNING "Maximum retry limit reached") ;;; ret tt)); [intros d'; by rewrite bind_ret_r|].
      eapply (runs_step _ _ (es ++ [ELog WARNING "Maximum retry limit reached"]) Done (mkshared d (s_nodes s1) (s_next s1))); [done| | | |].
      * cbn [tstep fail_step]. rewrite Hmax. by rewrite (bind_step _ _ _ _ _ _ Ha).
      * by rewrite (bind_step _ _ _ _ _ _ Hst).
      * done.
      * apply runs_done. by eapply framed_wf.
    + eapply runs_fault; [done| |by apply bind_fault]. cbn [tstep fail_step]. apply bind_fault. unfold access. by rewrite Hst.
  - eapply (runs_access _ _ _ (λ _, FailTimer (LogPlayerMsg_txid lp) time)); [done| |apply frames_store|].
    { cbn [tstep fail_step]. rewrite Hmax. reflexivity. }
    intros [] s2 Hf2. eapply runs_last; [done|reflexivity|apply frames_timer|by eapply framed_wf].
Qed.

Lemma msg_runs c msg s : wf s → runs (Begin (JMsg c msg)) s (onMessage cfg (Some c) msg).
Proof.
  intros Hwf. destruct msg as [| | | |d| | | | |lp]; try (eapply runs_silent; [done|reflexivity|done|by apply runs_done]).
  - destruct (Z.eqb_spec (DbtlMsg_cmd d) kLsn) as [Hc|Hc].
    + apply (runs_ext _ _ (let* lsn := (let* d := get in modify (set_applyLsn (int32 (applyLsn_ d + 1))) ;;; ret (applyLsn_ d)) in retResult kLsn (DbtlMsg_txid d) lsn (Some c))).
      { intros d'. cbn [onMessage]. unfold solve. rewrite Hc. reflexivity. }
      eapply (runs_access _ _ _ (λ lsn, LsnSend (DbtlMsg_txid d) lsn (Some c))); [done| | |].
      * cbn [tstep begin_step msg_step]. rewrite Hc. reflexivity.
      * intros V C. repeat frames_step. done.
      * intros lsn s1 Hf1. eapply runs_last; [done|reflexivity|apply frames_ret|by eapply framed_wf].
    + apply runs_last; [done| |by apply frames_other|done]. cbn [tstep begin_step msg_step]. by destruct (Z.eqb_spec (DbtlMsg_cmd d) kLsn).
  - destruct (Z.eqb_spec (LogPlayerMsg_cmd lp) kExecTranSucc) as [Hc|Hc]; [|destruct (Z.eqb_spec (LogPlayerMsg_cmd lp) kExecTranFail) as [Hc2|Hc2]; [by apply fail_runs|]].
    + destruct (remove_ok (LogPlayerMsg_txid lp) (LogPlayerMsg_id lp) s Hwf) as (s1 & Hr & Hd & Hwf1 & _).
      apply (runs_ext _ _ (remove_answer (LogPlayerMsg_txid lp) (LogPlayerMsg_id lp) ;;; ret tt)).
      { intros d. rewrite bind_ret_r. unfold onMessage, LogPlayer_solve. by rewrite Hc. }
      eapply (runs_step _ _ [] Done s1); [done| |exact Hd|done|by apply runs_done].
      cbn [tstep begin_step msg_step]. rewrite Hc. change (kExecTranSucc =? kExecTranSucc) with true. cbv iota. by rewrite (bind_quiet _ _ _ _ _ Hr).
    + apply runs_last; [done| |by apply frames_other|done]. cbn [tstep begin_step msg_step].
      by destruct (Z.eqb_spec (LogPlayerMsg_cmd lp) kExecTranSucc), (Z.eqb_spec (LogPlayerMsg_cmd lp) kExecTranFail).
Qed.

Lemma items_runs id conn data : ∀ s,
  wf s → runs (WriteItem id data conn) s (for_each data (write_record id) ;;; (playLog id ;;; retResult kTranSuccess id (-1) conn)).
Proof.
  induction data as [|d data IH]; intros s Hwf; cbn [for_each].
  - apply (runs_ext _ _ (playLog id ;;; reply_prog id (Some conn))); [intros d; by rewrite bind_ret_l|].
    eapply runs_silent; [done|reflexivity|done|by apply play_runs].
  - apply (runs_ext _ _ (write_record id d ;;; (for_each data (write_record id) ;;; (playLog id ;;; retResult kTranSuccess id (-1) conn))));
      [intros d'; by rewrite bind_assoc|].
    eapply runs_access; [done|reflexivity|apply frames_write|]. intros [] s1 Hf1. apply IH. by eapply framed_wf.
Qed.

Lemma disk_runs id data conn s : wf s → runs (WriteOpen id data conn) s (writeToDisk open_ok id data conn).
Proof.
  intros Hwf. apply (runs_ext _ _ (let* l := open_log id data in for_each l (write_record id) ;;; (playLog id ;;; retResult kTranSuccess id (-1) conn))).
  { intros d. unfold open_log, writeToDisk. rewrite !bind_assoc. apply bind_ext. intros [] d1. rewrite !bind_assoc. apply bind_ext. intros [] d2.
    by rewrite bind_assoc. }
  eapply (runs_access _ _ _ (λ l, WriteItem id l conn)); [done|reflexivity|apply frames_open|]. intros l s1 Hf1. apply items_runs. by eapply framed_wf.
Qed.

Lemma task_runs s : wf s → runs (Begin JTask) s (run_task rocks_write_ok open_ok).
Proof.
  intros Hwf. apply (runs_ext _ _ (let* t := take_task in
    match t with
    | None => ret tt
    | Some (TWriteDisk id data conn) => writeToDisk open_ok id data conn
    | Some (TWriteRocks id data conn) => writeToDiskByRocksDb rocks_write_ok id data conn
    end)).
  { intros d. unfold take_task, run_task. rewrite bind_assoc, !(bind_quiet get _ d d d) by done. destruct (tasks_ d) as [|t rest].
    - by rewrite bind_ret_l.
    - rewrite bind_assoc. apply bind_ext. intros [] d1. rewrite bind_ret_l. by destruct t. }
  eapply (runs_access _ _ _ (λ t, match t with
    | None => Done
    | Some (TWriteDisk id data conn) => WriteOpen id data conn
    | Some (TWriteRocks id data conn) => RocksWrite id data conn
    end)); [done|reflexivity|apply frames_task|].
  intros t s1 Hf1. pose proof (framed_wf _ _ Hf1 Hwf) as Hwf1. destruct t as [[id data conn|id data conn]|].
  - by apply disk_runs.
  - apply runs_last; [done|reflexivity|apply frames_rocks|done].
  - by apply runs_done.
Qed.

(** (C16) A thread that nobody disturbs: every message, every task of the pool
    and every timer, taken one operation on shared memory at a time with the
    lists as nodes, comes to its end and does what Dbtl.v does in one step: the
    same events, the same state, the same faults. *)
Theorem dbtl_thread_alone j s :
  wf s → ∃ n0, ∀ n, (n0 ≤ n)%nat → same (run_alone n (Begin j) s) (handle j (s_dbtl s)).
Proof.
  intros Hwf. change (runs (Begin j) s (handle j)). destruct j as [c msg| |id]; cbn [handle].
  - by apply msg_runs.
  - by apply task_runs.
  - apply (runs_ext _ _ (playLog id ;;; reply_prog id None)); [intros d; apply bind_ret_r|]. by apply play_runs.
Qed.

(** ** A replay and the answers *)

Lemma filter_zip pos ns vs :
  length ns = length vs → zip (keep_nodes pos ns vs) (filter (λ p, p ≠ pos) vs) = filter (λ nv, nv.2 ≠ pos) (zip ns vs).
Proof.
  unfold keep_nodes. revert vs. induction ns as [|n ns IH]; intros [|v vs] Hl; try done. injection Hl as Hl. cbn [zip_with].
  rewrite !filter_cons. cbn [snd]. destruct (decide (v ≠ pos)); [|by apply IH]. cbn. f_equal. by apply IH.
Qed.

Lemma cells_remove id pos s s' :
  wf s → nodes_of id s' = keep_nodes pos (nodes_of id s) (values_of id s) → values_of id s' = filter (λ p, p ≠ pos) (values_of id s) →
  cells id s' = filter (λ nv, nv.2 ≠ pos) (cells id s).
Proof. intros Hwf Hn Hv. unfold cells. rewrite Hn, Hv. apply filter_zip. apply Hwf. Qed.

Lemma next_of_gone it l : it ∉ l.*1 → next_of it l = None.
Proof. induction l as [|[n v] l IH]; [done|]. cbn. rewrite not_elem_of_cons. intros [Hne Hin]. by rewrite decide_False, IH by done. Qed.

Lemma value_at_split it v l : value_at it l = Some v → ∃ pre post, l = pre ++ (it, v) :: post ∧ it ∉ pre.*1.
Proof.
  induction l as [|[n w] l IH]; [done|]. cbn. destruct (decide (n = it)) as [->|Hne].
  - intros [= ->]. exists [], l. split; [done|]. apply not_elem_of_nil.
  - intros (pre & post & -> & Hin)%IH. exists ((n, w) :: pre), post. split; [done|]. cbn. by rewrite not_elem_of_cons.
Qed.

Lemma removed_gone id it pos s : wf s → value_at it (cells id s) = Some pos → it ∉ (filter (λ nv, nv.2 ≠ pos) (cells id s)).*1.
Proof.
  intros Hwf Hv. destruct (value_at_split _ _ _ Hv) as (pre & post & Hc & _). destruct (cells_fresh _ _ _ _ _ _ Hwf Hc) as [H1 H2].
  rewrite Hc, list_elem_of_fmap. intros ([n v] & -> & [Hne Hin]%list_elem_of_filter). cbn in *. apply elem_of_app in Hin as [Hin|[Heq|Hin]%elem_of_cons].
  - apply H1. apply list_elem_of_fmap. by exists (n, v).
  - by injection Heq as ->.
  - apply H2. apply list_elem_of_fmap. by exists (n, v).
Qed.

(** (C17) An answer frees the node under a replay: a database that has just been
    sent a log answers before the thread that replays the log has moved on.
    The handler removes the position, and the replay goes on from a node that
    no longer exists. *)
Theorem dbtl_answer_frees_node m i j id log it k pos c q q' :
  wf (m_shared m) → i ≠ j → m_threads m !! i = Some (PlayNext id log it k, q) → value_at it (cells id (m_shared m)) = Some pos →
  m_threads m !! j = Some (Begin (JMsg c (Msg_LogPlayerMsg (mkLogPlayerMsg kExecTranSucc id pos))), q') →
  schedule [j; i] m = Err UseAfterFree.
Proof.
  intros Hwf Hij Hi Hv Hj. destruct m as [s ths]. cbn in *. destruct (remove_ok id pos s Hwf) as (s1 & Hr & _ & Hwf1 & _ & Hn & Hva & _).
  assert (tstep (Begin (JMsg c (Msg_LogPlayerMsg (mkLogPlayerMsg kExecTranSucc id pos)))) s = ([], Ok (Done, s1))) as Ht.
  { cbn [tstep begin_step msg_step LogPlayerMsg_cmd LogPlayerMsg_txid LogPlayerMsg_id]. change (kExecTranSucc =? kExecTranSucc) with true. cbv iota. by rewrite (bind_quiet _ _ _ _ _ Hr). }
  unfold turn. cbn [m_threads m_shared]. rewrite Hj, Ht. cbn [rbind schedule m_threads m_shared]. rewrite list_lookup_insert_ne, Hi by done.
  cbn [tstep play_step]. rewrite (bind_quiet get _ s1 s1 s1), (cells_remove id pos s s1 Hwf Hn Hva), next_of_gone by (done || by apply removed_gone).
  reflexivity.
Qed.

(** (C35) Failures are counted once: two reports of a failure for the same database
    on different I/O threads can both read the old counter.  The counter goes up
    by one, and both timers get the delay of the first retry. *)
Theorem dbtl_threads_lost_retry s id pos v x w1 w2 t1 t2 c1 c2 :
  retryTable_ (s_dbtl s) !! id = Some v → 0 ≤ pos → v !! Z.to_nat pos = Some x → x + 1 ≤ Config.lpMaxRetryTime_ cfg → 0 ≤ x < 2 ^ 31 - 1 →
  TimeWheel.addTimer (2 ^ (x + 1) * 1000) id (timeWheel_ (s_dbtl s)) = Ok (t1, w1) → TimeWheel.addTimer (2 ^ (x + 1) * 1000) id w1 = Ok (t2, w2) →
  2 ^ (x + 1) * 1000 < 2 ^ 64 →
  let fail c := JMsg c (Msg_LogPlayerMsg (mkLogPlayerMsg kExecTranFail id pos)) in
  ∃ m, schedule [0; 1; 0; 1; 0; 1; 0; 1]%nat (mkmachine s (pair Done <$> [[fail c1]; [fail c2]])) = Ok ([], m) ∧
    m_threads m = [(Done, []); (Done, [])] ∧ timeWheel_ (s_dbtl (m_shared m)) = w2 ∧
    retryTable_ (s_dbtl (m_shared m)) !! id = Some (<[Z.to_nat pos := x + 1]> v).
Proof.
  intros Hv Hpos Hx Hmax Hxb Ha1 Ha2 Hb fail. destruct (load_at_spec pos v x Hpos Hx) as [Hl Hst]. set (v' := <[Z.to_nat pos := x + 1]> v).
  destruct s as [d ns nx]. cbn in Hv, Ha1. set (d1 := set_retryTable (<[id := v']> (retryTable_ d)) d).
  assert (v' !! Z.to_nat pos = Some (x + 1)) as Hx'. { apply list_lookup_insert_eq. by eapply lookup_lt_Some. }
  assert (int32 (x + 1) = x + 1) as Hi by (apply int32_id; unfold int32_ok; lia).
  assert (∀ c, tstep (Begin (fail c)) (mkshared d ns nx) = ([], Ok (FailStore id pos (x + 1), mkshared d ns nx))) as T1.
  { intros c. cbn [tstep begin_step fail msg_step LogPlayerMsg_cmd]. change (kExecTranFail =? kExecTranSucc) with false. change (kExecTranFail =? kExecTranFail) with true. cbv iota.
    erewrite (bind_quiet (access _) _ _ x (mkshared d ns nx)); [by rewrite Hi|]. unfold access, load_retry. cbn [LogPlayerMsg_txid LogPlayerMsg_id s_dbtl].
    rewrite (bind_quiet _ _ _ v d); [cbn; by rewrite Hl|]. rewrite retry_at_spec, (subscript_some [] v) by done. by destruct d. }
  assert (∀ d0 v0, retryTable_ d0 !! id = Some v0 → (Z.to_nat pos < length v0)%nat → tstep (FailStore id pos (x + 1)) (mkshared d0 ns nx) =
    ([], Ok (FailTimer id (x + 1), mkshared (set_retryTable (<[id := <[Z.to_nat pos := x + 1]> v0]> (retryTable_ d0)) d0) ns nx))) as T2.
  { intros d0 v0 H0 Hlen. cbn [tstep fail_step]. destruct (Z.ltb_spec (Config.lpMaxRetryTime_ cfg) (x + 1)); [lia|].
    erewrite (bind_quiet (access _) _ _ tt); [reflexivity|]. unfold access, store_retry. cbn [s_dbtl].
    rewrite (bind_quiet _ _ _ v0 d0); [|rewrite retry_at_spec, (subscript_some [] v0) by done; by destruct d0].
    destruct (lookup_lt_is_Some_2 v0 (Z.to_nat pos) Hlen) as [y Hy]. destruct (load_at_spec pos v0 y Hpos Hy) as [_ Hs0]. by rewrite Hs0. }
  assert (∀ d0 t w, TimeWheel.addTimer (2 ^ (x + 1) * 1000) id (timeWheel_ d0) = Ok (t, w) →
    tstep (FailTimer id (x + 1)) (mkshared d0 ns nx) = ([], Ok (Done, mkshared (set_timeWheel w d0) ns nx))) as T3.
  { intros d0 t w Hw. cbn [tstep fail_step]. erewrite (bind_quiet (access _) _ _ tt); [reflexivity|]. unfold access, backoff. cbn [s_dbtl].
    destruct (Z.ltb_spec (2 ^ (x + 1) * 1000) (2 ^ 64)); [|lia]. unfold bind. cbn -[Z.pow]. by rewrite Hw. }
  pose proof (lookup_lt_Some _ _ _ Hx) as Hlt. eexists. split; [|split; [|split]].
  - cbn [schedule fmap list_fmap]. unfold turn. cbn -[tstep fail Z.pow]. rewrite T1. cbn -[tstep fail Z.pow]. rewrite T1. cbn -[tstep fail Z.pow].
    rewrite (T2 d v Hv Hlt). cbn -[tstep Z.pow]. rewrite (T2 _ v'); [|cbn; by rewrite lookup_insert_eq|unfold v'; by rewrite length_insert].
    cbn -[tstep Z.pow]. rewrite (T3 _ t1 w1) by done. cbn -[tstep Z.pow]. rewrite (T3 _ t2 w2) by done. reflexivity.
  - reflexivity.
  - reflexivity.
  - cbn. rewrite lookup_insert_eq. unfold v'. by rewrite list_insert_insert_eq.
Qed.

(** *** A replay that is spared *)

(** Logs sent to databases. *)
Definition played (es : list event) : list conn := omap (λ e, match e with ESend c (Msg_DbMsg _) => Some c | _ => None end) es.
Definition no_play (e : event) : Prop := match e with ESend _ (Msg_DbMsg _) => False | _ => True end.
Definition silent {A} (m : P A) : Prop := keeps no_play (λ _, True) m.

Lemma played_app es es' : played (es ++ es') = played es ++ played es'.
Proof. apply omap_app. Qed.

Lemma no_play_played es : Forall no_play es → played es = [].
Proof. induction 1 as [|e es He _ IH]; [done|]. unfold played in *. cbn. destruct e; try done. by destruct m. Qed.

Lemma silent_access {A} (m : P A) s es r : silent m → access m s = (es, r) → played es = [].
Proof.
  intros Hm Ha. apply no_play_played. destruct (Hm (s_dbtl s) I) as [HF _]. unfold access in Ha. destruct (m (s_dbtl s)) as [es1 [[a d]|f]]; by injection Ha as <- <-.
Qed.

(** A thread of the server. *)
Definition server_pc (p : pc) : Prop :=
  match p with Done | Begin (JMsg _ _) | LsnSend _ _ _ | FailStore _ _ _ | FailTimer _ _ => True | _ => False end.
Definition server_thread (t : pc * list job) : Prop := server_pc t.1 ∧ Forall (λ j, match j with JMsg _ _ => True | _ => False end) t.2.

(** The answer that a thread is about to handle. *)
Definition answering (id : Z) (p : pc) : option Z :=
  match p with
  | Begin (JMsg _ (Msg_LogPlayerMsg lp)) =>
      if (LogPlayerMsg_cmd lp =? kExecTranSucc) && (LogPlayerMsg_txid lp =? id) then Some (LogPlayerMsg_id lp) else None
  | _ => None
  end.

Lemma access_bind {A B C} (m : P A) (h : A → P B) (g : B → PS C) s :
  (let* b := access (bind m h) in g b) s = (let* a := access m in let* b := access (h a) in g b) s.
Proof.
  unfold access, bind. destruct (m (s_dbtl s)) as [es [[a d]|f]]; [|done]. cbn. destruct (h a d) as [es' [[b d']|f]]; [|done]. cbn.
  destruct (g b _) as [es2 r]. by rewrite app_assoc.
Qed.

Lemma access_step {A} (m : P A) (k : A → pc) s es p' s' :
  frames m → silent m → (let* a := access m in ret (k a)) s = (es, Ok (p', s')) → framed s s' ∧ played es = [] ∧ ∃ a, p' = k a.
Proof.
  intros Hf Hs (a & s1 & es1 & es2 & Ha & [= <- <- <-] & ->)%bind_ok. rewrite app_nil_r. split_and!; [by eapply access_framed|by eapply silent_access|by exists a].
Qed.

Lemma silent_ret cmd id lsn c : silent (retResult cmd id lsn c).
Proof. destruct c; [by apply keeps_emit|apply keeps_throw]. Qed.

Lemma silent_retry id i x : silent (store_retry id i x) ∧ silent (load_retry id i).
Proof. unfold silent, store_retry, load_retry, retry_at. split; repeat (keeps_step || apply keeps_lift_end); done. Qed.

Lemma silent_other c msg :
  match msg with Msg_LogPlayerMsg lp => LogPlayerMsg_cmd lp ≠ kExecTranSucc ∧ LogPlayerMsg_cmd lp ≠ kExecTranFail | _ => True end →
  silent (onMessage cfg (Some c) msg).
Proof.
  intros Hm. unfold silent, onMessage, solve, LOG. destruct msg; try apply keeps_ret.
  - repeat (keeps_step || apply silent_ret); done.
  - destruct Hm as [H1 H2]. destruct (Z.eqb_spec (LogPlayerMsg_cmd m) kExecTranSucc); [done|].
    destruct (Z.eqb_spec (LogPlayerMsg_cmd m) kExecTranFail); [done|]. by apply keeps_emit.
Qed.

(** What the other threads do to the lists. *)
Definition shrunk (id : Z) (p : pc) (s s' : shared) : Prop :=
  dbConnVec_ (s_dbtl s') = dbConnVec_ (s_dbtl s) ∧
  (cells id s' = cells id s ∨ ∃ pos, answering id p = Some pos ∧ cells id s' = filter (λ nv, nv.2 ≠ pos) (cells id s)).

Lemma framed_shrunk id p s s' : framed s s' → shrunk id p s s'.
Proof. intros Hf. split; [by apply Hf|]. left. by apply framed_cells. Qed.

Lemma server_step id p s es p' s' :
  wf s → server_pc p → tstep p s = (es, Ok (p', s')) → wf s' ∧ server_pc p' ∧ played es = [] ∧ shrunk id p s s'.
Proof.
  intros Hwf Hp Ht.
  assert (∀ A (m : P A) k, frames m → silent m → tstep p s = (let* a := access m in ret (k a)) s → (∀ a, server_pc (k a)) →
    wf s' ∧ server_pc p' ∧ played es = [] ∧ shrunk id p s s') as Hacc.
  { intros A m k Hf Hs He Hk. rewrite He in Ht. destruct (access_step _ _ _ _ _ _ Hf Hs Ht) as (H1 & H2 & a & ->).
    split_and!; [by eapply framed_wf|done|done|by apply framed_shrunk]. }
  assert (tstep p = ret Done → wf s' ∧ server_pc p' ∧ played es = [] ∧ shrunk id p s s') as Hret.
  { intros He. rewrite He in Ht. injection Ht as <- <- <-. split_and!; [done|done|done|by apply framed_shrunk]. }
  destruct p as [|[c msg| |]|i lsn c|i pos t|i t| | | | | | | | | | | |]; try done.
  - by apply Hret.
  - destruct msg as [| | | |d| | | | |lp]; try (by apply Hret).
    + destruct (DbtlMsg_cmd d =? kLsn) eqn:Hc.
      * eapply (Hacc _ (let* d := get in modify (set_applyLsn (int32 (applyLsn_ d + 1))) ;;; ret (applyLsn_ d)) (λ lsn, LsnSend (DbtlMsg_txid d) lsn (Some c))).
        -- intros V C. repeat keeps_step. done.
        -- unfold silent. repeat keeps_step. done.
        -- cbn [tstep begin_step msg_step]. by rewrite Hc.
        -- done.
      * eapply (Hacc _ (onMessage cfg (Some c) (Msg_DbtlMsg d)) (λ _, Done)); [apply frames_other; by apply Z.eqb_neq|by apply silent_other| |done].
        cbn [tstep begin_step msg_step]. by rewrite Hc.
    + destruct (LogPlayerMsg_cmd lp =? kExecTranSucc) eqn:Hc; [|destruct (LogPlayerMsg_cmd lp =? kExecTranFail) eqn:Hc2].
      * cbn [tstep begin_step msg_step] in Ht. rewrite Hc in Ht.
        destruct (remove_ok (LogPlayerMsg_txid lp) (LogPlayerMsg_id lp) s Hwf) as (s1 & Hr & _ & Hwf1 & Hconn & Hn & Hv & Hne).
        rewrite (bind_quiet _ _ _ _ _ Hr) in Ht. injection Ht as <- <- <-. split_and!; [done|done|done|]. split; [done|].
        cbn. rewrite Hc. destruct (Z.eqb_spec (LogPlayerMsg_txid lp) id) as [<-|Hid]; [right|left; by apply Hne].
        exists (LogPlayerMsg_id lp). split; [done|]. by apply cells_remove.
      * eapply (Hacc _ (load_retry (LogPlayerMsg_txid lp) (LogPlayerMsg_id lp)) (λ old, FailStore (LogPlayerMsg_txid lp) (LogPlayerMsg_id lp) (int32 (old + 1))));
          [apply frames_load|apply silent_retry; exact 0| |done]. cbn [tstep begin_step msg_step]. by rewrite Hc, Hc2.
      * apply Z.eqb_neq in Hc as Hn1. apply Z.eqb_neq in Hc2 as Hn2.
        eapply (Hacc _ (onMessage cfg (Some c) (Msg_LogPlayerMsg lp)) (λ _, Done)); [by apply frames_other|by apply silent_other| |done].
        cbn [tstep begin_step msg_step]. by rewrite Hc, Hc2.
  - by eapply (Hacc _ (retResult kLsn i lsn c) (λ _, Done)); [apply frames_ret|apply silent_ret|..].
  - destruct (Config.lpMaxRetryTime_ cfg <? t) eqn:Hmax.
    + eapply (Hacc _ (store_retry i pos t ;;; LOG WARNING "Maximum retry limit reached") (λ _, Done)).
      * intros V C. apply keeps_seq; [apply frames_store|]. intros []. apply frames_emit.
      * apply keeps_seq; [apply silent_retry|]. intros []. by apply keeps_emit.
      * rewrite access_bind. cbn [tstep fail_step]. by rewrite Hmax.
      * done.
    + eapply (Hacc _ (store_retry i pos t) (λ _, FailTimer i t)); [apply frames_store|apply silent_retry| |done]. cbn [tstep fail_step]. by rewrite Hmax.
  - eapply (Hacc _ _ (λ _, Done)); [apply frames_timer| |reflexivity|done]. unfold silent. repeat keeps_step. done.
Qed.

(** The node that a replay is at, and a turn of thread [j] that does not
    remove it. *)
Definition at_node (p : pc) : option nat :=
  match p with PlaySend _ _ it _ => it | PlayNext _ _ it _ => Some it | _ => None end.
Definition spares (id : Z) (p pj : pc) (s : shared) : bool :=
  match at_node p, answering id pj with
  | Some it, Some pos => bool_decide (value_at it (cells id s) ≠ Some pos)
  | _, _ => true
  end.
Fixpoint all_spared (i : nat) (id : Z) (turns : list nat) (m : machine) : bool :=
  match turns with
  | [] => true
  | j :: turns =>
      match m_threads m !! i, m_threads m !! j with Some (p, _), Some (pj, _) => spares id p pj (m_shared m) | _, _ => true end &&
      match turn j m with Ok (_, m) => all_spared i id turns m | Err _ => true end
  end.

(** How far a replay of the positions [l0] has come when it has sent to [sp]. *)
Definition progress (id : Z) (l0 sp : list Z) (p : pc) (s : shared) : Prop :=
  match p with
  | PlayLogs id' k | PlayBegin id' _ k => id' = id ∧ k ≠ Some None ∧ sp = [] ∧ (cells id s).*2 `sublist_of` l0
  | PlaySend id' _ it k =>
      id' = id ∧ k ≠ Some None ∧ ∃ pre post, cells id s = pre ++ post ∧ it = fst <$> head post ∧ pre.*2 `sublist_of` sp ∧ sp ++ post.*2 `sublist_of` l0
  | PlayNext id' _ it k =>
      id' = id ∧ k ≠ Some None ∧
      ∃ pre v post, cells id s = pre ++ (it, v) :: post ∧ pre.*2 ++ [v] `sublist_of` sp ∧ sp ++ post.*2 `sublist_of` l0
  | PlayReply id' k => id' = id ∧ k ≠ Some None ∧ (cells id s).*2 `sublist_of` sp ∧ sp `sublist_of` l0
  | Done => (cells id s).*2 `sublist_of` sp ∧ sp `sublist_of` l0
  | _ => False
  end.

Lemma progress_sublist id l0 sp p s : progress id l0 sp p s → sp `sublist_of` l0.
Proof.
  destruct p; cbn; try done; [by intros [_ ?]|intros (_ & _ & -> & _); apply sublist_nil_l..| | |by intros (_ & _ & _ & ?)].
  - intros (_ & _ & pre & post & _ & _ & _ & Hs). etrans; [|exact Hs]. by apply sublist_inserts_r.
  - intros (_ & _ & pre & v & post & _ & _ & Hs). etrans; [|exact Hs]. by apply sublist_inserts_r.
Qed.

Lemma filter_snd pos (l : list (nat * Z)) : (filter (λ nv, nv.2 ≠ pos) l).*2 `sublist_of` l.*2.
Proof. apply (fmap_sublist snd), sublist_filter. Qed.

(** The other threads leave it as it is. *)
Lemma progress_shrunk id l0 sp p pj s s' :
  wf s → shrunk id pj s s' → spares id p pj s = true → progress id l0 sp p s → progress id l0 sp p s'.
Proof.
  intros Hwf [_ [Hc|(pos & Ha & Hc)]] Hsp Hp.
  { destruct p; cbn [progress] in *; try done; by rewrite Hc. }
  assert (∀ pre it v post, at_node p = Some it → cells id s = pre ++ (it, v) :: post →
    cells id s' = filter (λ nv, nv.2 ≠ pos) pre ++ (it, v) :: filter (λ nv, nv.2 ≠ pos) post) as Hat.
  { intros pre it v post Hit Hcs. unfold spares in Hsp. rewrite Hit, Ha in Hsp. apply bool_decide_eq_true in Hsp.
    destruct (cells_fresh _ _ _ _ _ _ Hwf Hcs) as [Hpre _]. rewrite Hcs, value_at_middle in Hsp by done.
    rewrite Hc, Hcs, filter_app, filter_cons. cbn. rewrite decide_True by congruence. done. }
  destruct p; cbn [progress] in *; try done; rewrite ?Hc; try (destruct Hp as (? & ? & ? & ?); split_and!; try done; by etrans; [apply filter_snd|]).
  - destruct Hp. split; [|done]. by etrans; [apply filter_snd|].
  - destruct Hp as (-> & Hk & pre & post & Hcs & -> & H1 & H2). split_and!; [done|done|]. destruct post as [|[it v] post].
    + exists (filter (λ nv, nv.2 ≠ pos) pre), []. rewrite app_nil_r in Hcs. split_and!; [by rewrite Hcs, app_nil_r|done| |done].
      by etrans; [apply filter_snd|].
    + exists (filter (λ nv, nv.2 ≠ pos) pre), ((it, v) :: filter (λ nv, nv.2 ≠ pos) post). rewrite <- Hc. split_and!; [by apply Hat|done|by etrans; [apply filter_snd|]|].
      etrans; [|exact H2]. apply sublist_app; [done|]. cbn. apply sublist_skip, filter_snd.
  - destruct Hp as (-> & Hk & pre & v & post & Hcs & H1 & H2). split_and!; [done|done|].
    exists (filter (λ nv, nv.2 ≠ pos) pre), v, (filter (λ nv, nv.2 ≠ pos) post). rewrite <- Hc. split_and!; [by apply Hat| |].
    + etrans; [|exact H1]. apply sublist_app; [apply filter_snd|done].
    + etrans; [|exact H2]. apply sublist_app; [done|apply filter_snd].
Qed.

Lemma position_ok conns l0 l v :
  valid_positions conns l0 → l `sublist_of` l0 → v ∈ l →
  ∃ c, conns !! Z.to_nat v = Some c ∧ of_option (if 0 <=? v then (Some <$> conns) !! Z.to_nat v else None) OutOfBounds = Ok (Some c).
Proof.
  intros Hval Hsub Hin. unfold valid_positions in Hval. rewrite Forall_forall in Hval.
  destruct (Hval v) as [H1 H2]; [by eapply elem_of_sublist|]. destruct (lookup_lt_is_Some_2 conns (Z.to_nat v)) as [c Hc]; [lia|].
  exists c. split; [done|]. destruct (Z.leb_spec 0 v); [|lia]. by rewrite list_lookup_fmap, Hc.
Qed.

(** A step of the replay: it does not fail, and sends at most one log. *)
Lemma replay_step conns id l0 sp p s :
  wf s → dbConnVec_ (s_dbtl s) = Some <$> conns → valid_positions conns l0 → progress id l0 sp p s → p ≠ Done →
  ∃ es p' s' sp', tstep p s = (es, Ok (p', s')) ∧ framed s s' ∧ progress id l0 (sp ++ sp') p' s' ∧ played es = conns_at conns sp'.
Proof.
  intros Hwf Hconn Hval Hp Hne.
  assert (∀ A (m : P A) a d, m (s_dbtl s) = ([], Ok (a, d)) → frames m → access m s = ([], Ok (a, mkshared d (s_nodes s) (s_next s))) ∧ framed s (mkshared d (s_nodes s) (s_next s))) as Hacc.
  { intros A m a d Hm Hf. assert (access m s = ([], Ok (a, mkshared d (s_nodes s) (s_next s)))) as Ha by (unfold access; by rewrite Hm).
    split; [done|]. by eapply access_framed. }
  destruct p as [| | | | | | | | | | | |i k|i log k|i log it k|i log it k|i k]; try done; cbn [progress] in Hp.
  - destruct Hp as (-> & Hk & -> & Hs). destruct (Hacc _ _ _ _ (log_at_spec (s_dbtl s) id) (frames_log_at id)) as [Ha Hf].
    eexists _, _, _, []. split; [cbn [tstep play_step]; by rewrite (bind_quiet _ _ _ _ _ Ha)|]. split; [done|]. cbn [progress].
    by rewrite (framed_cells _ _ _ Hf).
  - destruct Hp as (-> & Hk & -> & Hs). destruct (Hacc _ _ _ _ (answer_at_ok id (s_dbtl s)) (frames_answer_at id)) as [Ha Hf].
    eexists _, _, _, []. split; [cbn [tstep play_step]; by rewrite (bind_quiet _ _ _ _ _ Ha)|]. split; [done|]. cbn [progress].
    split; [|done]. split_and!; [done|done|]. exists [], (cells id s). rewrite (framed_cells _ _ _ Hf). split_and!; [done|done|done|done].
  - destruct Hp as (-> & Hk & pre & post & Hc & -> & H1 & H2). destruct post as [|[it v] post].
    + eexists _, _, _, []. split; [reflexivity|]. split; [done|]. rewrite !app_nil_r in *. split; [|done]. cbn. by rewrite Hc.
    + destruct (cells_fresh _ _ _ _ _ _ Hwf Hc) as [Hpre _].
      destruct (position_ok conns l0 _ v Hval H2) as (c & Hcv & Hok). { apply elem_of_app. right. by left. }
      exists [ESend c (log_msg id log)], (PlayNext id log it k), s, [v]. split_and!; [|done| |].
      * cbn [tstep play_step head fmap option_fmap option_map fst]. rewrite (bind_quiet get _ s s s), Hc, value_at_middle, Hconn by done.
        rewrite (bind_quiet (lift _) _ s v s) by done. by rewrite Hok.
      * cbn. split_and!; [done|done|]. exists pre, v, post. split_and!; [done|by apply sublist_app|]. by rewrite <- app_assoc.
      * unfold conns_at. cbn. by rewrite Hcv.
  - destruct Hp as (-> & Hk & pre & v & post & Hc & H1 & H2). destruct (cells_fresh _ _ _ _ _ _ Hwf Hc) as [Hpre _].
    eexists _, _, _, []. split; [cbn [tstep play_step]; rewrite (bind_quiet get _ s s s), Hc, next_of_middle by done; reflexivity|].
    split; [done|]. rewrite app_nil_r. split; [|done]. cbn. split_and!; [done|done|]. exists (pre ++ [(it, v)]), post. rewrite <- app_assoc. split_and!; [done|done| |done].
    by rewrite fmap_app.
  - destruct Hp as (-> & Hk & H1 & H2). destruct k as [[c|]|]; [|done|].
    + destruct s as [d ns nx]. eexists _, _, _, []. split; [reflexivity|]. rewrite app_nil_r. done.
    + eexists _, _, _, []. split; [reflexivity|]. rewrite app_nil_r. done.
Qed.

(** The replay is thread [i]; the others serve connections. *)
Record replaying (i : nat) (id : Z) (conns : list conn) (l0 sp : list Z) (m : machine) : Prop := {
  replaying_wf : wf (m_shared m);
  replaying_conns : dbConnVec_ (s_dbtl (m_shared m)) = Some <$> conns;
  replaying_here : ∃ p, m_threads m !! i = Some (p, []) ∧ progress id l0 sp p (m_shared m);
  replaying_others j t : j ≠ i → m_threads m !! j = Some t → server_thread t
}.

Lemma replaying_replay i id conns l0 sp m p :
  replaying i id conns l0 sp m → valid_positions conns l0 → m_threads m !! i = Some (p, []) → p ≠ Done →
  ∃ es m' sp', turn i m = Ok (es, m') ∧ replaying i id conns l0 (sp ++ sp') m' ∧ played es = conns_at conns sp'.
Proof.
  intros [Hwf Hconn (p' & Hi' & Hp) Ho] Hval Hi Hne. assert (p' = p) as -> by congruence. clear Hi'.
  destruct (replay_step conns id l0 sp p (m_shared m) Hwf Hconn Hval Hp Hne) as (es & p' & s' & sp' & Ht & Hf & Hp' & Hes).
  exists es, (mkmachine s' (<[i := (p', [])]> (m_threads m))), sp'. split_and!; [|split; cbn|done].
  - unfold turn. rewrite Hi. destruct p; try done; by rewrite Ht.
  - by eapply framed_wf.
  - destruct Hf as (_ & _ & _ & ->). done.
  - exists p'. split; [|done]. apply list_lookup_insert_eq. by eapply lookup_lt_Some.
  - intros j t Hj. rewrite list_lookup_insert_ne by done. by apply Ho.
Qed.

Lemma replaying_other i j id conns l0 sp m p pj q es m' :
  replaying i id conns l0 sp m → j ≠ i → m_threads m !! i = Some (p, []) → m_threads m !! j = Some (pj, q) → spares id p pj (m_shared m) = true →
  turn j m = Ok (es, m') → replaying i id conns l0 sp m' ∧ played es = [].
Proof.
  intros [Hwf Hconn (p' & Hi' & Hp) Ho] Hne Hi Hj Hsp Ht. assert (p' = p) as -> by congruence. clear Hi'.
  destruct (Ho j _ Hne Hj) as [Hpj Hq]. cbn in Hpj, Hq.
  assert (∀ s' p1 q1, wf s' → shrunk id pj (m_shared m) s' → server_thread (p1, q1) →
    replaying i id conns l0 sp (mkmachine s' (<[j := (p1, q1)]> (m_threads m)))) as Hgo.
  { intros s' p1 q1 Hwf' Hsh Hth. split; cbn; [done|by rewrite (proj1 Hsh)| |].
    - exists p. rewrite list_lookup_insert_ne by done. split; [done|]. by apply (progress_shrunk _ _ _ _ pj (m_shared m)).
    - intros j' t Hj'. destruct (decide (j' = j)) as [->|]; [|rewrite list_lookup_insert_ne by done; by apply Ho].
      rewrite list_lookup_insert_eq by (by eapply lookup_lt_Some). by intros [= <-]. }
  unfold turn in Ht. rewrite Hj in Ht. destruct (decide (pj = Done)) as [->|Hd].
  - destruct q as [|[c msg| |] q]; try done; try (apply Forall_cons_1 in Hq; destruct Hq; done). injection Ht as <- <-. apply Forall_cons_1 in Hq as [_ Hq].
    split; [|done]. apply Hgo; [done|by apply framed_shrunk|done].
  - destruct (tstep pj (m_shared m)) as [es1 [[p1 s1]|f]] eqn:Hs; [|by destruct pj].
    destruct (server_step id _ _ _ _ _ Hwf Hpj Hs) as (H1 & H2 & H3 & H4).
    assert (es1 = es ∧ mkmachine s1 (<[j := (p1, q)]> (m_threads m)) = m') as [-> <-] by (destruct pj; try done; by injection Ht).
    split; [|done]. by apply Hgo.
Qed.

Lemma replaying_schedule i id conns l0 turns : ∀ sp m es m',
  replaying i id conns l0 sp m → valid_positions conns l0 → all_spared i id turns m = true → schedule turns m = Ok (es, m') →
  ∃ sp', replaying i id conns l0 (sp ++ sp') m' ∧ played es = conns_at conns sp'.
Proof.
  induction turns as [|j turns IH]; intros sp m es m' HI Hval Hsp Hs; cbn [schedule all_spared] in *.
  { injection Hs as <- <-. exists []. by rewrite app_nil_r. }
  destruct (replaying_here _ _ _ _ _ _ HI) as (p & Hi & _). apply andb_prop in Hsp as [Hsp1 Hsp2].
  destruct (turn j m) as [[es1 m1]|f] eqn:Ht; [|done]. cbn in Hs. destruct (schedule turns m1) as [[es2 m2]|f] eqn:Hs1; [|done].
  cbn in Hs. injection Hs as <- <-.
  assert (∃ sp1, replaying i id conns l0 (sp ++ sp1) m1 ∧ played es1 = conns_at conns sp1) as (sp1 & HI1 & He1).
  { destruct (decide (j = i)) as [->|Hj].
    - destruct (decide (p = Done)) as [->|Hd]. { unfold turn in Ht. by rewrite Hi in Ht. }
      destruct (replaying_replay _ _ _ _ _ _ _ HI Hval Hi Hd) as (es' & m1' & sp' & Ht' & H1 & H2). rewrite Ht in Ht'. injection Ht' as -> ->. by exists sp'.
    - destruct (m_threads m !! j) as [[pj q]|] eqn:Hth; [|unfold turn in Ht; by rewrite Hth in Ht]. rewrite Hi in Hsp1.
      destruct (replaying_other _ _ _ _ _ _ _ _ _ _ _ _ HI Hj Hi Hth Hsp1 Ht) as [H1 H2]. exists []. by rewrite app_nil_r. }
  destruct (IH _ _ _ _ HI1 Hval Hsp2 Hs1) as (sp2 & HI2 & He2). exists (sp1 ++ sp2). rewrite app_assoc. split; [done|].
  rewrite played_app, He1, He2. unfold conns_at. by rewrite omap_app.
Qed.

(** Replays of a log while databases answer, with the operations on the lists
    and maps taken one at a time: the I/O threads handle any messages
    meanwhile, also answers for this log, as long as no answer removes the
    position that the replay is at.  The log goes to the databases of some
    of the positions of the list, in their order and at most once each; the
    replay can always take its next step; and when it is done, every database that has not
    answered has been sent the log. *)
Theorem dbtl_replay_reaches_unanswered i id conns k m turns es m' :
  wf (m_shared m) → dbConnVec_ (s_dbtl (m_shared m)) = Some <$> conns → valid_positions conns (values_of id (m_shared m)) →
  m_threads m !! i = Some (PlayLogs id k, []) → k ≠ Some None → (∀ j t, j ≠ i → m_threads m !! j = Some t → server_thread t) →
  all_spared i id turns m = true → schedule turns m = Ok (es, m') →
  ∃ sp, sp `sublist_of` values_of id (m_shared m) ∧ played es = conns_at conns sp ∧
    (m_threads m' !! i = Some (Done, []) → values_of id (m_shared m') `sublist_of` sp) ∧
    (m_threads m' !! i ≠ Some (Done, []) → ∃ r, turn i m' = Ok r).
Proof.
  intros Hwf Hconn Hval Hi Hk Ho Hsp Hs.
  assert (replaying i id conns (values_of id (m_shared m)) [] m) as HI.
  { split; [done|done| |done]. exists (PlayLogs id k). split; [done|]. cbn. by rewrite cells_snd. }
  destruct (replaying_schedule _ _ _ _ _ _ _ _ _ HI Hval Hsp Hs) as (sp & HI' & He). cbn [app] in HI'.
  destruct (replaying_here _ _ _ _ _ _ HI') as (p & Hi' & Hp). exists sp. split_and!; [by eapply progress_sublist|done| |].
  - rewrite Hi'. intros [= ->]. destruct Hp as [Hp _]. by rewrite cells_snd in Hp by apply HI'.
  - intros Hne. assert (p ≠ Done) as Hd by (intros ->; done).
    destruct (replaying_replay _ _ _ _ _ _ _ HI' Hval Hi' Hd) as (es1 & m1 & _ & Ht & _). eauto.
Qed.

End threads.
(** ** Witnesses *)

(** The service with three databases: nothing replayed yet, and after the first
    replay of log 7. *)
Definition idle_player : shared := mkshared player ∅ 0.
Definition listed : shared :=
  mkshared (set_retryTable {[ 7 := [0; 0; 0] ]} (set_answerTable {[ 7 := [0; 1; 2] ]} player)) {[ 7 := [0; 1; 2]%nat ]} 3.

Lemma idle_player_wf : wf idle_player.
Proof. intros id. unfold nodes_of, values_of. cbn. rewrite !lookup_empty. split_and!; [done|apply NoDup_nil_2|done]. Defined.

Lemma listed_wf : wf listed.
Proof.
  intros id. unfold nodes_of, values_of. cbn. destruct (decide (id = 7)) as [->|Hne].
  - rewrite !lookup_singleton_eq. cbn. split_and!; [done| |repeat constructor]. apply (bool_decide_unpack _). by vm_compute.
  - rewrite !lookup_singleton_ne by done. split_and!; [done|apply NoDup_nil_2|done].
Defined.

Lemma dbtl_thread_alone_witness :
  ∃ n, same (run_alone (H := stale_kept) cfg3 true (λ _, true) n (Begin (JTimer 7)) idle_player) (playLog 7 player).
Proof. destruct (dbtl_thread_alone (H := stale_kept) cfg3 true (λ _, true) (JTimer 7) idle_player idle_player_wf) as [n Hn]. exists n. by apply Hn. Defined.

Lemma dbtl_answer_frees_node_witness :
  schedule (H := stale_kept) cfg3 true (λ _, true) [1; 0]%nat
    (mkmachine listed [(PlayNext 7 [] 1%nat None, []); (Begin (JMsg 5%nat (Msg_LogPlayerMsg (mkLogPlayerMsg kExecTranSucc 7 1))), [])]) = Err UseAfterFree.
Proof.
  eapply (dbtl_answer_frees_node (H := stale_kept) cfg3 true (λ _, true) _ 0%nat 1%nat 7 [] 1%nat None 1 5%nat);
    [exact listed_wf|discriminate|reflexivity|reflexivity|reflexivity].
Defined.

Lemma dbtl_threads_lost_retry_witness :
  let fail c := JMsg c (Msg_LogPlayerMsg (mkLogPlayerMsg kExecTranFail 7 1)) in
  ∃ m, schedule (H := stale_kept) cfg3 true (λ _, true) [0; 1; 0; 1; 0; 1; 0; 1]%nat (mkmachine listed (pair Done <$> [[fail 5%nat]; [fail 5%nat]])) = Ok ([], m) ∧
    retryTable_ (s_dbtl (m_shared m)) !! 7 = Some [0; 1; 0].
Proof.
  destruct (TimeWheel.addTimer (2 ^ (0 + 1) * 1000) 7 (timeWheel_ (s_dbtl listed))) as [[t1 w1]|] eqn:H1; [|vm_compute in H1; discriminate].
  destruct (TimeWheel.addTimer (2 ^ (0 + 1) * 1000) 7 w1) as [[t2 w2]|] eqn:H2;
    [|vm_compute in H1; injection H1 as <- <-; vm_compute in H2; discriminate].
  destruct (dbtl_threads_lost_retry (H := stale_kept) cfg3 true (λ _, true) listed 7 1 [0; 0; 0] 0 w1 w2 t1 t2 5%nat 5%nat) as (m & Hs & _ & _ & Hr);
    [reflexivity|lia|reflexivity|cbn; lia|lia|exact H1|exact H2|reflexivity|].
  exists m. split; [exact Hs|exact Hr].
Defined.

(** The databases at positions 0 and 2 answer while the replay is at 1. *)
Definition demo_replay : machine :=
  mkmachine listed [(PlayLogs 7 None, []); (Done, [JMsg 4%nat (Msg_LogPlayerMsg (mkLogPlayerMsg kExecTranSucc 7 0)); JMsg 6%nat (Msg_LogPlayerMsg (mkLogPlayerMsg kExecTranSucc 7 2))])].
Definition demo_replay_turns : list nat := [0; 0; 0; 0; 1; 1; 0; 1; 1; 0; 0; 0]%nat.

Lemma dbtl_replay_reaches_unanswered_witness :
  ∃ es m, schedule (H := stale_kept) cfg3 true (λ _, true) demo_replay_turns demo_replay = Ok (es, m) ∧
    played es = [4; 5]%nat ∧ ∃ sp, played es = conns_at [4; 5; 6]%nat sp ∧ values_of 7 (m_shared m) `sublist_of` sp.
Proof.
  destruct (schedule (H := stale_kept) cfg3 true (λ _, true) demo_replay_turns demo_replay) as [[es m]|] eqn:Hs; [|vm_compute in Hs; discriminate].
  exists es, m. split; [done|].
  destruct (dbtl_replay_reaches_unanswered (H := stale_kept) cfg3 true (λ _, true) 0%nat 7 [4; 5; 6]%nat None demo_replay demo_replay_turns es m) as (sp & _ & Hp & Hv & _).
  - exact listed_wf.
  - reflexivity.
  - repeat constructor; cbn; lia.
  - reflexivity.
  - discriminate.
  - intros [|[|j]] t Hj Ht; [done| |by destruct j]. cbn in Ht. injection Ht as <-. repeat constructor.
  - vm_compute. reflexivity.
  - exact Hs.
  - vm_compute in Hs. injection Hs as <- <-. split; [reflexivity|]. exists sp. split; [exact Hp|]. apply Hv. reflexivity.
Defined.

End DbtlThreads.
