(* ===== verification/System.v ===== *)
(** * The processes together

    The transport between two processes as an interface, with the byte-level
    one (FlatBuffers over the socket buffer) as its implementation; the [main]
    functions that connect and listen; and what happens to a statement or a
    sequence number on its way through several processes. *)

From stdpp Require Import base gmap strings list.
From S2P Require Import Prelude NetMsg FlatBuilder NetGenerated NetBuffer Hash TimeWheel Config Gtm App Es Dbs Dbtl.

(** ** Transport

    What a process relies on: a message that fits arrives as it was sent. *)
Class Transport := {
  deliver : RootMsg → result RootMsg;
  fits : RootMsg → Prop;
  deliver_ok : ∀ m, fits m → deliver m = Ok m }.

Module Wire.

(** The sender serializes, the receiver's buffer of initial size [n] takes the
    bytes, and the handler reads them as one message. *)
Definition deliver_bytes (n : nat) (m : RootMsg) : result RootMsg :=
  let? bytes := serialize m in
  let? b := Buffer.append bytes (Buffer.Buffer_new n) in
  let? (r, _) := Buffer.receive b in
  Ok r.

Definition fits_bytes (m : RootMsg) : Prop :=
  RootMsg_valid m ∧ RootMsg_size m + 200 < FLATBUFFERS_MAX_BUFFER_SIZE.

Lemma deliver_bytes_ok n m : Z.of_nat n < Buffer.memory → fits_bytes m → deliver_bytes n m = Ok m.
Proof.
  intros Hn [Hv Hs]. destruct (serialize_sized m Hv Hs) as (bytes & Hser & Hde & Hlen). unfold FLATBUFFERS_MAX_BUFFER_SIZE in Hlen.
  unfold deliver_bytes. rewrite Hser. cbn [rbind].
  destruct (Buffer.Buffer_new_ok n) as [Hw Hc].
  destruct (Buffer.append_sized bytes _ Hw (Buffer.Buffer_new_sized n Hn)) as (b & Hb & Hw' & [Hl _] & Hc').
  { rewrite Hc. unfold Buffer.memory. cbn [length Nat.add app]. lia. }
  rewrite Hb. cbn [rbind].
  destruct (Buffer.receive_ok b bytes [] m) as (b' & -> & _); [done|lia|by rewrite Hc', Hc, app_nil_r|done|]. done.
Qed.

#[export] Instance wire : Transport := {
  deliver := deliver_bytes 1024; fits := fits_bytes; deliver_ok := λ m, deliver_bytes_ok 1024 m eq_refl }.

End Wire.

(** ** The [main] functions

    With an argument, load the configuration, construct, take the address to
    listen on from the [c_str()] of a temporary, log and listen. *)
Module Mains.

Section mains.
Context `{Stale}.
(** The number of arguments, and what loading the file they name gives. *)
Context (argc : Z) (config : result Config.ConfigManager).

Definition with_config {S} (body : Config.ConfigManager → prog S event unit) : prog S event unit :=
  if argc <? 2 then ret tt else let* cfg := lift config in body cfg.

Definition serve_on {S} (address : string) (port : Z) (done : string) : prog S event unit :=
  let* ip := lift (stale address) in
  LOG INFO done ;;; emit (EListen ip (uint16 port)).

(** gtmmain.cc, [file] being the transactions file *)
Definition gtm_main (file : string) : prog GTM.GTM event unit :=
  with_config (λ cfg, GTM.init file ;;;
    serve_on (Config.gtmListenAddress_ cfg) (Config.gtmPort_ cfg) "init gtm done").

(** esmain.cc *)
Definition es_main : prog ES.ES event unit :=
  with_config (λ cfg, ES.ES_ctor cfg ;;;
    serve_on (Config.esListenAddress_ cfg) (Config.esPort_ cfg) "init es done").

(** dbservicemain.cc *)
Definition dbs_main (mysql_query_ok : string → bool) (mysql_init_ok mysql_connect_ok : bool) : prog Dbs.DbService event unit :=
  with_config (λ cfg, Dbs.DbService_ctor cfg mysql_query_ok mysql_init_ok mysql_connect_ok ;;;
    serve_on (Config.dbsListenAddress_ cfg) (Config.dbsPort_ cfg) "init dbserwvice done").

(** dbtlmain.cc *)
Definition dbtl_main (rocks_open_ok : bool) : prog Dbtl.Dbtl event unit :=
  with_config (λ cfg, Dbtl.Dbtl_ctor cfg rocks_open_ok ;;;
    serve_on (Config.dbsListenAddress_ cfg) (Config.dbsPort_ cfg) "init dbserwvice done").

(** appmain.cc *)
Definition app_main : prog App.App event unit := with_config App.main_body.

End mains.

Fixpoint listens (es : list event) : list (string * Z) :=
  match es with [] => [] | EListen ip p :: es' => (ip, p) :: listens es' | _ :: es' => listens es' end.
Fixpoint connects (es : list event) : list (string * Z) :=
  match es with [] => [] | EConnect ip p :: es' => (ip, p) :: connects es' | _ :: es' => connects es' end.

(** Listening happens on the configured port only. *)
Lemma gtm_listens `{Stale} cfg file s :
  ∀ ip p, (ip, p) ∈ listens (emitted (gtm_main 2 (Ok cfg) file s)) → p = uint16 (Config.gtmPort_ cfg).
Proof.
  intros ip p. unfold gtm_main, with_config, GTM.init, serve_on, LOG, bind, emitted. cbn.
  destruct (GTM.init_loop _ _ _); cbn; [|by intros ?%not_elem_of_nil].
  destruct (stale (Config.gtmListenAddress_ cfg)); cbn; [|by intros ?%not_elem_of_nil].
  by intros [= _ ->]%list_elem_of_singleton.
Qed.

(** Where the processes meet when the dangling address strings still hold
    their text: ES finds the port of the database service, which finds the
    GTM's; but the log service listens on the database service's own endpoint,
    and if the port configured for it differs from the other three, the
    endpoint that both the transaction manager and the log player connect to
    is listened on by nobody. *)
Theorem mains_endpoints cfg file query_ok rocks_ok s_gtm s_es s_dbs s_dbtl :
  uint16 (Config.dbtlPort_ cfg) ∉ [uint16 (Config.gtmPort_ cfg); uint16 (Config.esPort_ cfg); uint16 (Config.dbsPort_ cfg)] →
  let gtm := emitted (gtm_main (H := stale_kept) 2 (Ok cfg) file s_gtm) in
  let es := emitted (es_main (H := stale_kept) 2 (Ok cfg) s_es) in
  let dbs := emitted (dbs_main (H := stale_kept) 2 (Ok cfg) query_ok true true s_dbs) in
  let dbtl := emitted (dbtl_main (H := stale_kept) 2 (Ok cfg) rocks_ok s_dbtl) in
  connects es = [(Config.dbsAddress_ cfg, uint16 (Config.dbsPort_ cfg))] ∧
  connects dbs = [(Config.dbtlAddress_ cfg, uint16 (Config.dbtlPort_ cfg)); (Config.gtmAddress_ cfg, uint16 (Config.gtmPort_ cfg))] ∧
  connects dbtl = [(Config.dbtlAddress_ cfg, uint16 (Config.dbtlPort_ cfg))] ∧
  listens dbs = [(Config.dbsListenAddress_ cfg, uint16 (Config.dbsPort_ cfg))] ∧
  listens dbtl = listens dbs ∧
  ∀ ip, (ip, uint16 (Config.dbtlPort_ cfg)) ∉ listens gtm ++ listens es ++ listens dbs ++ listens dbtl.
Proof.
  cbn zeta. intros Hport.
  assert (listens (emitted (es_main (H := stale_kept) 2 (Ok cfg) s_es)) = [(Config.esListenAddress_ cfg, uint16 (Config.esPort_ cfg))] ∧
    connects (emitted (es_main (H := stale_kept) 2 (Ok cfg) s_es)) = [(Config.dbsAddress_ cfg, uint16 (Config.dbsPort_ cfg))]) as [-> ->] by done.
  assert (∀ q, listens (emitted (dbs_main (H := stale_kept) 2 (Ok cfg) q true true s_dbs)) = [(Config.dbsListenAddress_ cfg, uint16 (Config.dbsPort_ cfg))] ∧
    connects (emitted (dbs_main (H := stale_kept) 2 (Ok cfg) q true true s_dbs)) =
      [(Config.dbtlAddress_ cfg, uint16 (Config.dbtlPort_ cfg)); (Config.gtmAddress_ cfg, uint16 (Config.gtmPort_ cfg))]) as Hdbs.
  { intros q. unfold dbs_main, with_config, Dbs.DbService_ctor, Dbs.MyDb_ctor, Dbs.Dbtm_init, Dbs.initMySql, Dbs.MyDb_initDB,
      Dbs.sqlExec, Dbs.MyDb_exeSQL, serve_on, LOG, bind. cbn. by destruct (q _). }
  destruct (Hdbs query_ok) as [-> ->].
  assert (listens (emitted (dbtl_main (H := stale_kept) 2 (Ok cfg) rocks_ok s_dbtl)) = [(Config.dbsListenAddress_ cfg, uint16 (Config.dbsPort_ cfg))] ∧
    connects (emitted (dbtl_main (H := stale_kept) 2 (Ok cfg) rocks_ok s_dbtl)) = [(Config.dbtlAddress_ cfg, uint16 (Config.dbtlPort_ cfg))]) as [-> ->].
  { unfold dbtl_main, with_config, Dbtl.Dbtl_ctor, Dbtl.LogPlayer_init, serve_on, LOG, bind. cbn.
    by destruct (Config.dbtlUseRocksDb_ cfg), rocks_ok. }
  split_and!; try done. intros ip. rewrite !elem_of_app, !list_elem_of_singleton. rewrite !not_elem_of_cons in Hport.
  pose proof (gtm_listens (H := stale_kept) cfg file s_gtm ip (uint16 (Config.dbtlPort_ cfg))). naive_solver.
Qed.

(** When the read of the destroyed string is caught instead, no process gets
    as far as listening. *)
Theorem mains_dangling_address argc config file query_ok mi mc rocks_ok s_gtm s_es s_dbs s_dbtl :
  listens (emitted (gtm_main (H := stale_caught) argc config file s_gtm)) = [] ∧
  listens (emitted (es_main (H := stale_caught) argc config s_es)) = [] ∧
  listens (emitted (dbs_main (H := stale_caught) argc config query_ok mi mc s_dbs)) = [] ∧
  listens (emitted (dbtl_main (H := stale_caught) argc config rocks_ok s_dbtl)) = [].
Proof.
  unfold gtm_main, es_main, dbs_main, dbtl_main, with_config.
  destruct (argc <? 2); [done|]. destruct config as [cfg|f]; [|done]. unfold bind at 1 3 5 7. cbn [lift].
  split_and!.
  - unfold GTM.init, serve_on, bind, emitted. cbn. by destruct (GTM.init_loop _ _ _).
  - done.
  - unfold Dbs.DbService_ctor, Dbs.MyDb_ctor, bind, emitted. by destruct mi.
  - unfold Dbtl.Dbtl_ctor, bind, emitted. by destruct (Config.dbtlUseRocksDb_ cfg), rocks_ok.
Qed.

(** With the shipped configuration file every process throws before it does
    anything else. *)
Theorem mains_shipped_config `{Stale} argc get_string get_int get_bool file query_ok mi mc rocks_ok s_gtm s_es s_dbs s_dbtl s_app :
  let config := Config.init get_string get_int get_bool Config.ConfigManager_new in
  2 ≤ argc → (∀ k, k ∉ Config.shipped_keys → get_string k = Err (Throw PtreeBadPath)) →
  ∃ f, gtm_main argc config file s_gtm = ([], Err f) ∧ es_main argc config s_es = ([], Err f) ∧
    dbs_main argc config query_ok mi mc s_dbs = ([], Err f) ∧ dbtl_main argc config rocks_ok s_dbtl = ([], Err f) ∧
    app_main argc config s_app = ([], Err f).
Proof.
  intros config Hargc Hk. pose proof (Config.shipped_rejected get_string get_int get_bool Config.ConfigManager_new Hk) as Hbad.
  fold config in Hbad. destruct config as [cfg|f]; [done|]. exists f.
  unfold gtm_main, es_main, dbs_main, dbtl_main, app_main, with_config. destruct (Z.ltb_spec argc 2); [lia|]. done.
Qed.

(** A configuration with four different ports. *)
Definition demo_config : Config.ConfigManager :=
  Config.mkConfigManager "log" "0.0.0.0" "10.0.0.1" 7001 1 "t" "0.0.0.0" "10.0.0.2" 7002 1 "" 0 "" "" 1 "" "" "" "" 3306 "" "0.0.0.0" "10.0.0.3" 7003 false "0.0.0.0" 7004 3.

Lemma mains_endpoints_witness :
  listens (emitted (dbtl_main (H := stale_kept) 2 (Ok demo_config) true (Dbtl.Dbtl_new 0 0))) = [("0.0.0.0", 7002)] ∧
  connects (emitted (dbtl_main (H := stale_kept) 2 (Ok demo_config) true (Dbtl.Dbtl_new 0 0))) = [("10.0.0.3", 7003)].
Proof.
  destruct (mains_endpoints demo_config "" Dbs.all_ok true GTM.GTM_new ES.ES_new Dbs.DbService_new (Dbtl.Dbtl_new 0 0))
    as (_ & _ & Hc & Hl & Hl' & _).
  - apply (bool_decide_unpack _). vm_compute. exact I.
  - split; [rewrite Hl'; exact Hl|exact Hc].
Defined.

End Mains.

(** ** Statements and numbers on their way *)
Module System.

Section system.
Context `{Transport}.

(** A message taken from the events of one process and handled by another. *)
Definition hand_over {S} (handler : TcpConnectionPtr → RootMsg → prog S event unit) (c : conn) (m : RootMsg) : prog S event unit :=
  let* m := lift (deliver m) in handler (Some c) m.

Lemma hand_over_ok {S} (handler : TcpConnectionPtr → RootMsg → prog S event unit) c m s :
  fits m → hand_over handler c m s = handler (Some c) m s.
Proof. intros Hm. unfold hand_over. by rewrite deliver_ok, (bind_quiet (lift (Ok m)) _ s m s) by done. Qed.

(** (C32) An insertion from the application to the database service: an add
    statement whose type word is a number from 0 to 2^31 - 1 (as the code parses
    it; with the words that the comment in app.cc gives for the type, [stoi]
    throws and nothing leaves the application) becomes one message to the
    entity service, which turns it into one message for the database service,
    which dereferences the null read set: no insertion is ever collected.  The
    messages go over any transport that delivers a message that fits as it was
    sent, for instance the bytes of FlatBuffers in muduo's buffer. *)
Theorem system_insert_stops_dbs typ key attr val (a : App.App) txid c cs es_table d ce cd dbs :
  0 ≤ typ < 2 ^ 31 → App.no_space key = true → App.no_space attr = true → App.no_space val = true →
  App.txid_ a = Some txid → App.connList_ a = Some c :: cs → Dbs.wf dbs →
  let request := ES.RAdd txid typ key attr val in
  let m1 := ES.request_msg request in
  let m2 := Msg_DbServiceMsg (ES.forwarded request) in
  fits m1 → fits m2 →
  App.add (App.join ["add"; to_string typ; key; attr; val]) a = ([ESend c m1], Ok (tt, a)) ∧
  (∃ e, hand_over ES.onMessage ce m1 (ES.mkES es_table (Some d)) = ([ESend d m2], Ok (tt, e))) ∧
  hand_over Dbs.onMessage cd m2 dbs = ([], Err NullDeref).
Proof.
  intros Hty Hk Ha Hv Htx Hcs Hwf request m1 m2 H1 H2. split_and!.
  - by eapply App.add_statement.
  - eexists. rewrite hand_over_ok by done. apply ES.onMessage_request.
  - rewrite hand_over_ok by done. apply Dbs.needs_both_sets; [done|done|by left].
Qed.

(** The number that the log service hands out never starts a check by
    itself: whatever its counter, the reply reaches the database service as
    the number zero, and a commit that arrives after it leaves the queue of
    checks as it was. *)
Theorem system_lsn_stalls_commit cfg (log : Dbtl.Dbtl) dbs id t g c1 c2 c3 :
  Dbs.wf dbs → Dbs.look dbs id = Some t → Dbs.lsn t ≤ 0 → Dbs.alreadyCommit t = false →
  let reply := Dbtl.lsn_reply id (Dbtl.applyLsn_ log) in
  fits (Dbtl.lsn_request id) → fits reply → fits (Dbs.commit_msg id g) →
  (∃ log', hand_over (Dbtl.onMessage cfg) c1 (Dbtl.lsn_request id) log = ([ESend c1 reply], Ok (tt, log'))) ∧
  ∃ dbs', (hand_over Dbs.onMessage c2 reply ;;; hand_over Dbs.onMessage c3 (Dbs.commit_msg id g)) dbs = ([], Ok (tt, dbs')) ∧
    Dbs.tasks_ dbs' = Dbs.tasks_ dbs.
Proof.
  intros Hwf Hl Hlsn Hc reply H1 H2 H3. split; [eexists; rewrite hand_over_ok by done; apply Dbtl.lsn_request_ok|].
  destruct (Dbs.look_some _ _ _ Hwf Hl) as (a & Hp & Ha & Ht).
  assert (hand_over Dbs.onMessage c2 reply dbs = ([], Ok (tt, Dbs.upd dbs a (Dbs.set_lsn 0 t)))) as Hreply.
  { rewrite hand_over_ok by done. change (Dbs.onMessage (Some c2) reply dbs) with (Dbs.onMessage (Some c2) (Dbs.lsn_msg id 0) dbs).
    rewrite (Dbs.lsn_msg_ok dbs c2 id a t 0 Hp Ha). by rewrite Hc. }
  eexists. rewrite (bind_quiet _ _ _ _ _ Hreply). rewrite hand_over_ok by done.
  rewrite (Dbs.commit_msg_ok (Dbs.upd dbs a (Dbs.set_lsn 0 t)) c3 id a (Dbs.set_lsn 0 t) g Hp (Dbs.heap_upd _ _ _)). split; done.
Qed.

End system.

(** ** Witnesses, over the byte-level transport *)

Lemma system_insert_stops_dbs_witness :
  hand_over (H := Wire.wire) Dbs.onMessage 3 (Msg_DbServiceMsg (ES.forwarded (ES.RAdd 5 1 "k" "a" "v"))) Dbs.service7 = ([], Err NullDeref).
Proof.
  refine (proj2 (proj2 (system_insert_stops_dbs (H := Wire.wire) 1 "k" "a" "v" App.demo_app 5 2 [Some 3%nat] ∅ 9 4 3 Dbs.service7
    _ _ _ _ _ _ _ _ _))).
  - lia.
  - reflexivity.
  - reflexivity.
  - reflexivity.
  - reflexivity.
  - reflexivity.
  - exact Dbs.wf_service7.
  - split; [cbn; unfold int32_ok; repeat split; vm_compute; congruence|vm_compute; reflexivity].
  - split; [cbn; unfold int32_ok; repeat constructor; vm_compute; congruence|vm_compute; reflexivity].
Defined.

Lemma system_lsn_stalls_commit_witness :
  ∃ dbs', (hand_over (H := Wire.wire) Dbs.onMessage 2 (Dbtl.lsn_reply 7 5) ;;;
           hand_over (H := Wire.wire) Dbs.onMessage 3 (Dbs.commit_msg 7 false)) Dbs.service7 = ([], Ok (tt, dbs')) ∧
    Dbs.tasks_ dbs' = [].
Proof.
  refine (proj2 (system_lsn_stalls_commit (H := Wire.wire) Dbtl.cfg3 (Dbtl.Dbtl_new 5 0) Dbs.service7 7 (Dbs.fresh_transaction 7) false 1 2 3
    _ _ _ _ _ _ _)).
  - exact Dbs.wf_service7.
  - vm_compute. reflexivity.
  - cbn. lia.
  - reflexivity.
  - split; [cbn; unfold int32_ok; repeat split; vm_compute; congruence|vm_compute; reflexivity].
  - split; [cbn; unfold int32_ok; repeat split; vm_compute; congruence|vm_compute; reflexivity].
  - split; [cbn; unfold int32_ok; repeat split; vm_compute; congruence|vm_compute; reflexivity].
Defined.

End System.
