(* ===== verification/Cluster.v ===== *)
(** * The processes as one system

    Any number of entity services, database services, transaction managers and
    log services as nodes of a network: a node takes a message from one of its
    connections, runs a queued task, lets its time wheel turn or learns that a
    connection is up; what it sends is in flight until its peer takes it, in
    order per connection, or it is lost (two messages read as one, a client
    without a message callback).  A handler that faults ends its process.

    A step is a whole handler, task or turn of the wheel of one process; what
    the threads inside a process do to each other is in GtmThreads.v,
    DbsThreads.v, DbsPool.v and DbtlThreads.v.

    Clients and databases are not part of the cluster: they may send what a
    client or a database sends ([env_msg]: a client asks a transaction manager
    for ids and sends it nothing else, although the manager would take a vote
    from it), and the application of src/transaction/app is shown to be such a
    client.  Since the entity
    service of this repository stops the database service with every message
    (System.v), the environment may also play an entity service that fills in
    both sets. *)

From stdpp Require Import base gmap strings list countable.
From S2P Require Import Prelude NetMsg NetGenerated Hash TimeWheel Config Gtm App Es Dbs Dbtl.

Module Cluster.

Inductive kind := KClient | KEs | KDbs | KGtm | KDbtl | KDb.
#[export] Instance kind_eq_dec : EqDecision kind.
Proof. solve_decision. Defined.
#[export] Instance kind_countable : Countable kind.
Proof.
  refine (inj_countable'
    (λ k, match k with KClient => 0 | KEs => 1 | KDbs => 2 | KGtm => 3 | KDbtl => 4 | KDb => 5 end)
    (λ n, match n with 0 => KClient | 1 => KEs | 2 => KDbs | 3 => KGtm | 4 => KDbtl | _ => KDb end) _).
  by intros [].
Defined.

Abbreviation node := (kind * nat)%type.

(** The state of a process of this repository that serves others. *)
Inductive nstate :=
| SGtm (g : GTM.GTM)
| SEs (e : ES.ES)
| SDbs (d : Dbs.DbService)
| SDbtl (l : Dbtl.Dbtl).

(** What makes a process move. *)
Inductive input :=
| IMsg (c : conn) (m : RootMsg)
| IUp (k : kind) (c : conn)
| ITask
| ITick (ms : Z).

(** A message in flight: the node and the connection it arrives on. *)
Record packet := mkpacket { p_node : node; p_conn : conn; p_msg : RootMsg }.

Record cluster := mkcluster {
  c_nodes : gmap node nstate;
  c_net : list packet;
  c_log : list (node * event) }.

Section cluster.
Context `{Stale} (std_hash : string → Z) (cfg : Config.ConfigManager).
Context (mysql_query_ok : string → bool) (open_ok remove_ok : string → bool) (rocks_write_ok : bool).
(** The other end of every connection. *)
Context (peer : node → conn → option (node * conn)).

Definition at_node {S} (inj : S → nstate) (x : list event * result (unit * S)) : list event * result nstate :=
  (x.1, match x.2 with Ok (_, s) => Ok (inj s) | Err f => Err f end).

(** The handler that an input calls; no handler, no effect. *)
Definition node_step (s : nstate) (i : input) : list event * result nstate :=
  match s, i with
  | SGtm g, IMsg c m => at_node SGtm (GTM.onMessage (Some c) m g)
  | SEs e, IMsg c m => at_node SEs (ES.onMessage (Some c) m e)
  | SEs e, IUp KDbs c => at_node SEs (ES.onDbsConnection (Some c) e)
  | SDbs d, IMsg c m => at_node SDbs (Dbs.onMessage (Some c) m d)
  | SDbs d, IUp KDbtl c => at_node SDbs (Dbs.onDbtlConnection (Some c) d)
  | SDbs d, IUp KGtm c => at_node SDbs (Dbs.onGtmConnection (Some c) d)
  | SDbs d, ITask => at_node SDbs (Dbs.run_task std_hash cfg mysql_query_ok open_ok remove_ok d)
  | SDbtl l, IMsg c m => at_node SDbtl (Dbtl.onMessage cfg (Some c) m l)
  | SDbtl l, IUp KDb c => at_node SDbtl (Dbtl.onDbConnection (Some c) l)
  | SDbtl l, ITask => at_node SDbtl (Dbtl.run_task rocks_write_ok open_ok l)
  | SDbtl l, ITick ms => at_node SDbtl (Dbtl.wheel_step ms l)
  | s, _ => ([], Ok s)
  end.

(** What the events of [n] put on the wire. *)
Definition route (n : node) (es : list event) : list packet :=
  omap (λ e, match e with
             | ESend c m => (λ p, mkpacket p.1 p.2 m) <$> peer n c
             | _ => None
             end) es.

(** The kind of process at the other end. *)
Definition role (n : node) (c : conn) : option kind := (fst ∘ fst) <$> peer n c.

(** An input can happen: a message is the first in flight on its connection. *)
Inductive ready (n : node) : input → list packet → list packet → Prop :=
| ready_msg c m pre post :
    Forall (λ p, (p_node p, p_conn p) ≠ (n, c)) pre →
    ready n (IMsg c m) (pre ++ mkpacket n c m :: post) (pre ++ post)
| ready_up k c net : role n c = Some k → ready n (IUp k c) net net
| ready_task net : ready n ITask net net
| ready_tick ms net : ready n (ITick ms) net net.

(** What clients, databases and other entity services send. *)
Definition env_msg (from to : kind) (m : RootMsg) : bool :=
  match from, to, m with
  | KClient, KGtm, Msg_GtmMsg d => GtmMsg_cmd d =? kGetTxid
  | KClient, KEs, Msg_ESMsg _ => true
  | KEs, KDbs, Msg_DbServiceMsg _ => true
  | KDb, KDbtl, Msg_LogPlayerMsg _ => true
  | _, _, _ => false
  end.

Inductive cstep : cluster → cluster → Prop :=
| cs_run nodes net log n s i net' es r :
    nodes !! n = Some s → ready n i net net' → node_step s i = (es, r) →
    cstep (mkcluster nodes net log)
      (mkcluster (match r with Ok s' => <[n := s']> nodes | Err _ => delete n nodes end)
        (net' ++ route n es) (log ++ (pair n <$> es)))
| cs_lose nodes pre p post log :
    cstep (mkcluster nodes (pre ++ p :: post) log) (mkcluster nodes (pre ++ post) log)
| cs_env nodes net log n c n' c' m :
    peer n c = Some (n', c') → env_msg n.1 n'.1 m = true →
    cstep (mkcluster nodes net log) (mkcluster nodes (net ++ [mkpacket n' c' m]) log).

(** A process that has just started, the transactions file read. *)
Definition fresh_node (n : node) (s : nstate) : Prop :=
  match n.1, s with
  | KGtm, SGtm g => GTM.table_ g = ∅
  | KEs, SEs e => e = ES.ES_new
  | KDbs, SDbs d => d = Dbs.DbService_new
  | KDbtl, SDbtl l => ∃ junk now, l = Dbtl.Dbtl_new junk now
  | _, _ => False
  end.

Definition initial (C : cluster) : Prop :=
  map_Forall fresh_node (c_nodes C) ∧ c_net C = [] ∧ c_log C = [].

Definition reachable (C : cluster) : Prop := ∃ C0, initial C0 ∧ rtc cstep C0 C.

(** ** What is on the wire *)

(** The table a message holds, by the two ends of its connection. *)
Definition typed (from to : kind) (m : RootMsg) : Prop :=
  match from, to, m with
  | KClient, KGtm, Msg_GtmMsg d => GtmMsg_cmd d = kGetTxid
  | KDbs, KGtm, Msg_GtmMsg d => GtmMsg_cmd d = kJudgeConflit
  | KClient, KEs, Msg_ESMsg _ | KDbs, KEs, Msg_ESMsg _ => True
  | KEs, KDbs, Msg_DbServiceMsg _ => True
  | KGtm, KDbs, Msg_DbtmMsg d => DbtmMsg_cmd d = kJudgeConflit
  | KDbtl, KDbs, Msg_DbtmMsg d => DbtmMsg_cmd d ≠ kJudgeConflit
  | KGtm, KClient, Msg_AppMsg d => AppMsg_cmd d = kTxid
  | KDbs, KDbtl, Msg_DbtlMsg d => DbtlMsg_cmd d = kLog ∨ DbtlMsg_cmd d = kLsn
  | KDb, KDbtl, Msg_LogPlayerMsg _ => True
  | KDbtl, KDb, Msg_DbMsg _ => True
  | _, _, _ => False
  end.

(** What a node may emit: it sends only what the connection is for. *)
Definition good (n : node) (e : event) : Prop :=
  match e with ESend c m => ∀ k, role n c = Some k → typed n.1 k m | _ => True end.

(** ** What every node keeps *)

Definition links (n : node) (k : kind) (p : TcpConnectionPtr) : Prop := ∀ c, p = Some c → role n c = Some k.

Definition node_inv (n : node) (s : nstate) : Prop :=
  match n.1, s with
  | KGtm, SGtm g =>
      ∀ tx info, GTM.table_ g !! tx = Some (Some info) → Forall (links n KDbs) (GTM.connList_ info)
  | KEs, SEs e => links n KDbs (ES.dbsConn_ e)
  | KDbs, SDbs d =>
      links n KDbtl (Dbs.dbtlConn_ d) ∧ links n KGtm (Dbs.gtmConn_ d) ∧ map_Forall (λ _, links n KEs) (Dbs.table_ d)
  | KDbtl, SDbtl l =>
      Forall (links n KDb) (Dbtl.dbConnVec_ l) ∧
      Forall (λ t, match t with Dbtl.TWriteDisk _ _ c | Dbtl.TWriteRocks _ _ c => links n KDbs c end) (Dbtl.tasks_ l)
  | _, _ => False
  end.

(** The inputs a node can get. *)
Definition input_ok (n : node) (i : input) : Prop :=
  match i with
  | IMsg c m => ∃ k, role n c = Some k ∧ typed k n.1 m
  | IUp k c => role n c = Some k
  | _ => True
  end.

Lemma good_send n k c m : role n c = Some k → typed n.1 k m → good n (ESend c m).
Proof. intros Hr Ht k' Hk'. by simplify_eq. Qed.

Lemma wp_send_link {S} n k p m (Φ : unit → S → Prop) s :
  links n k p → typed n.1 k m → Φ tt s → wp (good n) (send p m) Φ s.
Proof. intros Hp Ht HΦ. apply wp_send. intros c ->. split; [|done]. by eapply good_send; [apply Hp|..]. Qed.

Lemma wp_log {S} n sev txt (Φ : unit → S → Prop) s : Φ tt s → wp (good n) (LOG sev txt) Φ s.
Proof. intros. by apply wp_emit. Qed.

(** *** GTM *)

Lemma gtm_getTxid_wp i c ty g :
  role (KGtm, i) c = Some KClient → node_inv (KGtm, i) (SGtm g) →
  wp (good (KGtm, i)) (GTM.getTxid (Some c) ty) (λ _ g', node_inv (KGtm, i) (SGtm g')) g.
Proof.
  intros Hc Hinv. unfold wp. rewrite GTM.getTxid_spec. cbn [fst snd]. split.
  - constructor; [|done]. by eapply good_send; [exact Hc|..].
  - intros [] g' [= <-] tx info. cbn. destruct (1 <? _); [|apply Hinv].
    intros [[_ [= <-]]|[_ Htx]]%lookup_insert_Some; [constructor|by eapply Hinv].
Qed.

Lemma gtm_judge_wp i c d g :
  role (KGtm, i) c = Some KDbs → node_inv (KGtm, i) (SGtm g) →
  wp (good (KGtm, i)) (GTM.judgeConflict (Some c) d) (λ _ g', node_inv (KGtm, i) (SGtm g')) g.
Proof.
  intros Hc Hinv. unfold GTM.judgeConflict. repeat wp_step.
  destruct (subscript None (GtmMsg_txid d) (GTM.table_ g)) as [p tbl] eqn:Hsub. repeat wp_step.
  destruct p as [info|]; [|apply wp_throw].
  assert (GTM.table_ g !! GtmMsg_txid d = Some (Some info) ∧ tbl = GTM.table_ g) as [Htx ->].
  { unfold subscript in Hsub. by destruct (GTM.table_ g !! GtmMsg_txid d) as [[]|]; simplify_eq. }
  assert (Forall (links (KGtm, i) KDbs) (GTM.connList_ info ++ [Some c])) as HF.
  { apply Forall_app. split; [by eapply Hinv|]. constructor; [by intros ? [= <-]|done]. }
  repeat wp_step. destruct (_ =? 0).
  - wp_step. eapply wp_mono.
    { eapply (wp_for_each _ _ _ (λ g', g' = _)); [|reflexivity]. intros p g1 [j Hj]%list_elem_of_lookup_1 ->.
      by eapply wp_send_link; [exact (Forall_lookup_1 _ _ _ _ HF Hj)|..]. }
    intros [] g' ->. wp_step. intros tx info'. cbn. rewrite lookup_delete_Some. intros [_ [[_ [= <-]]|[_ Hl]]%lookup_insert_Some]; [done|by eapply Hinv].
  - wp_step. intros tx info'. cbn. intros [[_ [= <-]]|[_ Hl]]%lookup_insert_Some; [done|by eapply Hinv].
Qed.

Lemma gtm_wp i c m g :
  input_ok (KGtm, i) (IMsg c m) → node_inv (KGtm, i) (SGtm g) →
  wp (good (KGtm, i)) (GTM.onMessage (Some c) m) (λ _ g', node_inv (KGtm, i) (SGtm g')) g.
Proof.
  intros (k & Hk & Ht) Hinv. unfold GTM.onMessage. repeat wp_step. intros d Hd. destruct m; try done. injection Hd as ->.
  destruct k; try done; cbn in Ht; rewrite Ht.
  - change (kGetTxid =? kGetTxid) with true. cbv iota. repeat wp_step. intros ty _. by apply gtm_getTxid_wp.
  - change (kJudgeConflit =? kGetTxid) with false. change (kJudgeConflit =? kJudgeConflit) with true. cbv iota. by apply gtm_judge_wp.
Qed.

(** *** Entity service *)

Lemma es_wp i c m e :
  input_ok (KEs, i) (IMsg c m) → node_inv (KEs, i) (SEs e) →
  wp (good (KEs, i)) (ES.onMessage (Some c) m) (λ _ e', node_inv (KEs, i) (SEs e')) e.
Proof.
  intros _ Hinv. unfold ES.onMessage. repeat wp_step. intros d _. repeat wp_step.
  destruct (_ || _).
  - unfold ES.solve. repeat wp_step. intros key _. repeat wp_step. destruct (_ || _); repeat wp_step.
    + intros attr _. repeat wp_step. intros val _. repeat wp_step. by eapply wp_send_link; [apply Hinv|..].
    + by eapply wp_send_link; [apply Hinv|..].
  - destruct (_ =? kCommit); [|destruct (_ || _); [by wp_step|by apply wp_log]].
    unfold ES.forward. repeat wp_step. by eapply wp_send_link; [apply Hinv|..].
Qed.

(** *** Database service *)

Section dbs.
Context (i : nat).
Abbreviation n := (KDbs, i).
Abbreviation safe := (keeps (good n) (λ d, node_inv n (SDbs d))).

Lemma safe_send k p m : links n k p → typed KDbs k m → safe (send p m).
Proof. intros Hp Ht s HI. by eapply wp_send_link. Qed.

Lemma safe_table_at id : safe (Dbs.txidTrans_at id) ∧ safe (Dbs.dbtm_table_at id).
Proof. unfold Dbs.txidTrans_at, Dbs.dbtm_table_at. split; repeat keeps_step; done. Qed.

Lemma safe_deref p : safe (Dbs.deref p).
Proof. unfold Dbs.deref. repeat keeps_step. Qed.

Lemma safe_assign id f : safe (Dbs.assign id f).
Proof. unfold Dbs.assign, Dbs.store. repeat (keeps_step || apply safe_table_at || apply safe_deref). done. Qed.

Lemma safe_field {A} id (f : Dbs.transaction → A) : safe (Dbs.field id f).
Proof. unfold Dbs.field. repeat (keeps_step || apply safe_table_at || apply safe_deref). Qed.

Lemma safe_enqueue t : safe (Dbs.enqueue t).
Proof. unfold Dbs.enqueue. keeps_step. done. Qed.

Lemma safe_log sev txt : safe (LOG sev txt).
Proof. by apply keeps_emit. Qed.

Lemma safe_sql q : safe (Dbs.sqlExec mysql_query_ok q).
Proof. unfold Dbs.sqlExec, Dbs.MyDb_exeSQL. repeat (keeps_step || apply safe_log). done. Qed.

(** The connection of a result is one that data came from. *)
Lemma safe_retResult status id : safe (Dbs.retResult status id).
Proof.
  unfold Dbs.retResult, Dbs.delete_ptr. keeps_step. destruct (subscript None id (Dbs.table_ s)) as [p tbl] eqn:Hsub.
  assert (links n KEs p ∧ map_Forall (λ _, links n KEs) tbl) as [Hp Htbl].
  { destruct Hs as (_ & _ & Ht). unfold subscript in Hsub. destruct (Dbs.table_ s !! id) as [q|] eqn:Hq; simplify_eq.
    - split; [by apply (Ht id)|done].
    - split; [done|]. by apply map_Forall_insert_2. }
  repeat (keeps_step || apply safe_table_at); try done.
  - intros s1 (H1 & H2 & _). by split_and!.
  - by apply (safe_send KEs).
Qed.

Lemma safe_getReadWriteSet c d : role n c = Some KEs → safe (Dbs.getReadWriteSet (Some c) d).
Proof.
  intros Hc. unfold Dbs.getReadWriteSet, Dbs.store.
  repeat (keeps_step || apply safe_table_at || apply safe_deref); try done.
  intros s1 (H1 & H2 & H3). split_and!; [done..|]. cbn. apply map_Forall_insert_2; [by intros ? [= <-]|done].
Qed.

Lemma safe_onMessage c m : input_ok n (IMsg c m) → safe (Dbs.onMessage (Some c) m).
Proof.
  intros (k & Hk & Ht). unfold Dbs.onMessage. destruct m; try apply keeps_ret.
  - destruct k; try done.
    repeat (keeps_step || apply safe_field || apply safe_assign || apply safe_enqueue || apply safe_log || apply safe_table_at); by apply safe_getReadWriteSet.
  - repeat (keeps_step || apply safe_field || apply safe_assign || apply safe_enqueue || apply safe_log || apply safe_table_at); apply safe_retResult.
Qed.

Lemma safe_check l bound : safe (Dbs.check_keys std_hash l bound).
Proof. induction l as [|d l IH]; cbn [Dbs.check_keys]; repeat keeps_step; done. Qed.

Lemma safe_write t : safe (Dbs.writeToDiskAndSql cfg mysql_query_ok open_ok t).
Proof. unfold Dbs.writeToDiskAndSql, Dbs.sqlInsert. repeat (keeps_step || apply safe_log || apply safe_sql); done. Qed.

Lemma safe_cache p : safe (Dbs.cacheRWSet std_hash p).
Proof.
  unfold Dbs.cacheRWSet, Dbs.sendLog. repeat (keeps_step || apply safe_deref).
  - apply keeps_for_each. intros x _. repeat keeps_step. done.
  - apply (safe_send KDbtl); [apply Hs|by left].
Qed.

Lemma safe_judge p : safe (Dbs.judgeLocalConflict std_hash cfg mysql_query_ok open_ok p).
Proof.
  unfold Dbs.judgeLocalConflict, Dbs.judgeGlobalConflict, Dbs.sqlUpdateNeedLocalConflict.
  repeat (keeps_step || apply safe_deref || apply safe_write || apply safe_check || apply safe_sql ||
          apply safe_log || apply safe_retResult || apply safe_cache); try done.
  all: apply (safe_send KGtm); [apply Hs|done].
Qed.

Lemma safe_solve data : safe (Dbs.solve std_hash cfg mysql_query_ok remove_ok data).
Proof.
  unfold Dbs.solve, Dbs.sqlUpdateNeedGlobalConflict, Dbs.sqlDelete.
  repeat (keeps_step || apply safe_table_at || apply safe_cache || apply safe_sql || apply safe_log || apply safe_retResult); done.
Qed.

Lemma safe_run_task : safe (Dbs.run_task std_hash cfg mysql_query_ok open_ok remove_ok).
Proof.
  unfold Dbs.run_task, Dbs.getLsn. repeat (keeps_step || apply safe_judge || apply safe_solve); try done.
  match goal with Hs : node_inv _ (SDbs ?s) |- safe (send (Dbs.dbtlConn_ ?s) _) => apply (safe_send KDbtl); [apply Hs|by right] end.
Qed.
End dbs.

(** *** Log service *)

Section dbtl.
Context (i : nat).
Abbreviation n := (KDbtl, i).
Abbreviation I := (λ l, node_inv n (SDbtl l)).
Abbreviation safe := (keeps (good n) I).

Lemma safe_answers id : safe (Dbtl.answer_at id) ∧ safe (Dbtl.retry_at id).
Proof. unfold Dbtl.answer_at, Dbtl.retry_at. split; repeat keeps_step; done. Qed.

Lemma safe_log_at id : safe (Dbtl.log_at id).
Proof. unfold Dbtl.log_at. repeat keeps_step; done. Qed.

Lemma safe_playLog id : safe (Dbtl.playLog id).
Proof.
  unfold Dbtl.playLog. keeps_step. apply keeps_seq.
  { repeat (keeps_step || apply safe_answers); [done|]. apply keeps_for_each. intros x _.
    repeat (keeps_step || apply safe_answers); done. }
  intros []. repeat (keeps_step || apply safe_log_at || apply safe_answers). apply keeps_for_each. intros pos _. repeat keeps_step.
  intros l2 HI2. eapply (wp_send_link n KDb); [|done..]. destruct Hs0 as [HF _].
  destruct (0 <=? pos); [|done]. destruct (Dbtl.dbConnVec_ s0 !! Z.to_nat pos) as [p|] eqn:Hp; [|done]. injection Ha as <-.
  exact (Forall_lookup_1 _ _ _ _ HF Hp).
Qed.

Lemma safe_ret cmd id lsn c : cmd ≠ kJudgeConflit → links n KDbs c → safe (Dbtl.retResult cmd id lsn c).
Proof. intros Hcmd Hc l HI. unfold Dbtl.retResult. by destruct (lsn =? -1); eapply (wp_send_link n KDbs). Qed.

Lemma safe_dbtl_log sev txt : safe (LOG sev txt).
Proof. by apply keeps_emit. Qed.

Lemma safe_LogPlayer_solve d : safe (Dbtl.LogPlayer_solve cfg d).
Proof. unfold Dbtl.LogPlayer_solve. repeat (keeps_step || apply safe_answers || apply safe_dbtl_log); done. Qed.

Lemma safe_wheel ms : safe (Dbtl.wheel_step ms).
Proof.
  unfold Dbtl.wheel_step. repeat keeps_step; [done|]. apply keeps_for_each. intros [? id] _. apply safe_playLog.
Qed.

Lemma safe_dbtl_onMessage c m : input_ok n (IMsg c m) → safe (Dbtl.onMessage cfg (Some c) m).
Proof.
  intros (k & Hk & Ht). unfold Dbtl.onMessage, Dbtl.solve. destruct m; try apply keeps_ret.
  - destruct k; try done. assert (links n KDbs (Some c)) as Hc by (by intros ? [= <-]).
    repeat (keeps_step || apply safe_dbtl_log); try done.
    + intros l (H1 & H2). split; [done|]. apply Forall_app. split; [done|]. constructor; [|done].
      by destruct (Config.dbtlUseRocksDb_ cfg).
    + by apply safe_ret.
  - repeat (keeps_step || apply safe_dbtl_log || apply safe_LogPlayer_solve).
Qed.

Lemma safe_dbtl_task : safe (Dbtl.run_task rocks_write_ok open_ok).
Proof.
  unfold Dbtl.run_task. keeps_step. destruct (Dbtl.tasks_ s) as [|t rest] eqn:Htasks; [keeps_step|].
  destruct Hs as (_ & HF). rewrite Htasks in HF. apply Forall_cons_1 in HF as [Ht Hrest]. keeps_step.
  { keeps_step. by intros l (H1 & _). }
  destruct t; unfold Dbtl.writeToDisk, Dbtl.writeToDiskByRocksDb.
  all: repeat (keeps_step || apply safe_dbtl_log || apply safe_playLog || by apply safe_ret); try done.
  apply keeps_for_each. intros d _. repeat (keeps_step || apply safe_log_at); done.
Qed.
End dbtl.

(** ** Every step of a node *)

Lemma at_node_ok {S} (inj : S → nstate) (m : prog S event unit) n s es r :
  wp (good n) m (λ _ s', node_inv n (inj s')) s → at_node inj (m s) = (es, r) →
  Forall (good n) es ∧ ∀ s', r = Ok s' → node_inv n s'.
Proof.
  intros [HQ HΦ]. unfold at_node. intros [= <- <-]. split; [done|].
  destruct (m s) as [es' [[a s1]|f]]; [|done]. intros s' [= <-]. by eapply HΦ.
Qed.

Lemma node_step_ok n s i es r :
  node_inv n s → input_ok n i → node_step s i = (es, r) →
  Forall (good n) es ∧ ∀ s', r = Ok s' → node_inv n s'.
Proof.
  intros Hinv Hi. destruct n as [k j], s as [g|e|d|l], k; try done; destruct i as [c m|k c| |ms]; cbn [node_step].
  all: try (intros [= <- <-]; split; [constructor|by intros s' [= <-]]).
  - apply at_node_ok. by apply gtm_wp.
  - apply at_node_ok. by apply es_wp.
  - destruct k; try (intros [= <- <-]; split; [constructor|by intros s' [= <-]]). apply at_node_ok.
    unfold ES.onDbsConnection. wp_step. by intros ? [= <-].
  - apply at_node_ok. by apply safe_onMessage.
  - destruct k; try (intros [= <- <-]; split; [constructor|by intros s' [= <-]]); apply at_node_ok;
      destruct Hinv as (H2 & H3 & H4); unfold Dbs.onGtmConnection, Dbs.onDbtlConnection; wp_step; apply wp_log; wp_step;
      (split_and!; try done; by intros ? [= <-]).
  - apply at_node_ok. by apply safe_run_task.
  - apply at_node_ok. by apply safe_dbtl_onMessage.
  - destruct k; try (intros [= <- <-]; split; [constructor|by intros s' [= <-]]). apply at_node_ok.
    unfold Dbtl.onDbConnection. wp_step. destruct Hinv as (H1 & H2). split; [|done]. apply Forall_app. split; [done|].
    constructor; [by intros ? [= <-]|done].
  - apply at_node_ok. by apply safe_dbtl_task.
  - apply at_node_ok. by apply safe_wheel.
Qed.

(** ** Every run of the cluster *)

Context (peer_sym : ∀ n c n' c', peer n c = Some (n', c') → peer n' c' = Some (n, c)).

Definition packet_ok (p : packet) : Prop := input_ok (p_node p) (IMsg (p_conn p) (p_msg p)).

Record cluster_inv (C : cluster) : Prop := {
  inv_nodes : map_Forall node_inv (c_nodes C);
  inv_net : Forall packet_ok (c_net C);
  inv_log : Forall (λ ne, good ne.1 ne.2) (c_log C) }.

Lemma peer_role n c n' c' : peer n c = Some (n', c') → role n c = Some n'.1 ∧ role n' c' = Some n.1.
Proof. intros Hp. unfold role. by rewrite Hp, (peer_sym _ _ _ _ Hp). Qed.

Lemma route_ok n es : Forall (good n) es → Forall packet_ok (route n es).
Proof.
  induction 1 as [|e es He _ IH]; [done|]. destruct e; try done. cbn. destruct (peer n c) as [[n' c']|] eqn:Hp; [|done].
  destruct (peer_role _ _ _ _ Hp) as [Hr Hr']. cbn. constructor; [|done]. exists n.1. by split; [|apply He].
Qed.

Lemma env_typed k k' m : env_msg k k' m = true → typed k k' m.
Proof. destruct k, k', m; try done. by intros ?%Z.eqb_eq. Qed.

Lemma ready_ok n i net net' : ready n i net net' → Forall packet_ok net → input_ok n i ∧ Forall packet_ok net'.
Proof.
  intros [c m pre post _|k c net0 Hr|net0|ms net0]; [|done..].
  intros [Hpre [Hp Hpost]%Forall_cons_1]%Forall_app. split; [exact Hp|by apply Forall_app].
Qed.

Lemma cluster_inv_step C C' : cluster_inv C → cstep C C' → cluster_inv C'.
Proof.
  intros [Hn Hnet Hlog] Hstep. destruct Hstep as [nodes net log n s i net' es r Hs Hready Hrun|nodes pre p post log|nodes net log n c n' c' m Hp Henv];
    cbn in *.
  - destruct (ready_ok _ _ _ _ Hready Hnet) as [Hi Hnet'].
    destruct (node_step_ok n s i es r (Hn n s Hs) Hi Hrun) as [Hes Hr]. split; cbn.
    + destruct r as [s'|]; [apply map_Forall_insert_2; auto|by apply map_Forall_delete].
    + apply Forall_app. split; [done|by apply route_ok].
    + apply Forall_app. split; [done|]. by apply Forall_fmap.
  - apply Forall_app in Hnet as [Hpre [_ Hpost]%Forall_cons_1]. split; cbn; [done|by apply Forall_app|done].
  - destruct (peer_role _ _ _ _ Hp) as [Hr Hr']. pose proof (env_typed _ _ _ Henv) as Ht. split; cbn; [done| |done].
    apply Forall_app. split; [done|]. constructor; [|done]. by exists n.1.
Qed.

Lemma fresh_node_inv n s : fresh_node n s → node_inv n s.
Proof.
  destruct n as [[] j], s; cbn; try done.
  - by intros ->.
  - by intros ->.
  - intros Ht tx info. by rewrite Ht, lookup_empty.
  - by intros (junk & now & ->).
Qed.

Lemma reachable_inv C : reachable C → cluster_inv C.
Proof.
  intros (C0 & (Hn & Hnet & Hlog) & Hsteps). assert (cluster_inv C0) as H0.
  { split; [|by rewrite Hnet|by rewrite Hlog]. intros n s Hs. apply fresh_node_inv. by apply Hn. }
  clear Hn Hnet Hlog. induction Hsteps as [|C0 C1 C2 Hstep _ IH]; [done|]. apply IH. by eapply cluster_inv_step.
Qed.

(** What the handler of a node looks for in a message, and what a client or a
    database gets. *)
Definition expected (k : kind) (m : RootMsg) : Prop :=
  match k, m with
  | KGtm, Msg_GtmMsg d => GtmMsg_cmd d = kGetTxid ∨ GtmMsg_cmd d = kJudgeConflit
  | KEs, Msg_ESMsg _ => True
  | KDbs, Msg_DbServiceMsg _ | KDbs, Msg_DbtmMsg _ => True
  | KDbtl, Msg_DbtlMsg _ | KDbtl, Msg_LogPlayerMsg _ => True
  | KClient, Msg_AppMsg d => AppMsg_cmd d = kTxid
  | KDb, Msg_DbMsg _ => True
  | _, _ => False
  end.

(** (C20) Types of the wire: in every run of the cluster, with any number of
    processes that handle their messages, tasks and timers one at a time, any
    order of deliveries, tasks and timers, messages lost and processes dead,
    clients that ask a transaction manager for ids only and send anything to
    entity services, databases that send the log services any of their
    messages, and further entity services that send the database services any
    of theirs: what arrives on a connection is a table that the receiver's
    handler casts to.  In particular all that a client ever gets are the
    replies with ids: no result of a transaction is sent.  Nothing is assumed
    of what a read of freed memory gives. *)
Theorem cluster_typed C p :
  reachable C → p ∈ c_net C → expected (p_node p).1 (p_msg p).
Proof.
  intros [_ Hnet _]%reachable_inv [j Hj]%list_elem_of_lookup_1.
  destruct (Forall_lookup_1 _ _ _ _ Hnet Hj) as (k & _ & Ht). destruct p as [[k' j'] c m]. cbn in *.
  destruct k, k', m; cbn in *; first [done|by left|by right].
Qed.

End cluster.

(** ** The application as a client *)

Section client.
Context (peer : node → conn → option (node * conn)) (i : nat).
Abbreviation n := (KClient, i).

Definition client_event (e : event) : Prop :=
  match e with ESend c m => ∀ k, role peer n c = Some k → env_msg KClient k m = true | _ => True end.

Definition client_roles (a : App.App) : Prop :=
  links peer n KGtm (App.gtmConn_ a) ∧ Forall (links peer n KEs) (App.connList_ a).

Abbreviation safe := (keeps client_event client_roles).

Lemma client_send p m : links peer n KEs p → env_msg KClient KEs m = true → safe (send p m).
Proof. intros Hp Hm s HI. apply wp_send. intros c ->. split; [|done]. intros k Hk. rewrite (Hp c) in Hk by done. by injection Hk as <-. Qed.

Lemma client_front m : env_msg KClient KEs m = true → safe (App.send_front m).
Proof.
  intros Hm. unfold App.send_front. repeat keeps_step. apply client_send; [|done]. destruct Hs as [_ HF].
  rewrite Heql in HF. by apply Forall_cons_1 in HF as [? _].
Qed.

Lemma client_txid : safe App.get_txid.
Proof. intros a HI. unfold App.get_txid. repeat wp_step. done. Qed.

(** The application is a client as the cluster expects one: whatever
    statement is added, whatever is committed, started, received or connected,
    it sends only entity-service tables to entity services (and, if a request
    for an id could be built, that to the transaction manager). *)
Theorem app_is_client `{Stale} s type m c :
  safe (App.add s) ∧ safe App.commit ∧ safe (App.startTran type) ∧ safe (App.onMessage m) ∧ safe (App.main_onMessage m) ∧
  (role peer n c = Some KGtm → safe (App.onGtmConnection (Some c))) ∧
  (role peer n c = Some KEs → safe (App.onESConnection (Some c))).
Proof.
  split_and!.
  - unfold App.add. repeat (keeps_step || apply client_txid || by apply client_front). all: by apply keeps_emit.
  - unfold App.commit. repeat (keeps_step || apply client_txid). apply keeps_for_each. intros p [j Hj]%list_elem_of_lookup_1.
    apply client_send; [|done]. destruct Hs as [_ HF]. exact (Forall_lookup_1 _ _ _ _ HF Hj).
  - intros a HI. unfold wp. rewrite App.startTran_asserts. done.
  - unfold App.onMessage, App.connect2ES. repeat keeps_step; [done| |by apply keeps_emit].
    apply keeps_for_each. intros x _. by repeat keeps_step.
  - unfold App.main_onMessage, App.showResult. repeat keeps_step; by apply keeps_emit.
  - intros Hc. unfold App.onGtmConnection. keeps_step. intros a [_ HF]. split; [by intros ? [= <-]|done].
  - intros Hc. unfold App.onESConnection. keeps_step. intros a [Hg HF]. split; [done|]. apply Forall_app. split; [done|].
    constructor; [by intros ? [= <-]|done].
Qed.
End client.

(** ** Runs by computation *)

Section exec.
Context `{Stale} (std_hash : string → Z) (cfg : Config.ConfigManager).
Context (mysql_query_ok : string → bool) (open_ok remove_ok : string → bool) (rocks_write_ok : bool).
Context (peer : node → conn → option (node * conn)).
Abbreviation step := (cstep std_hash cfg mysql_query_ok open_ok remove_ok rocks_write_ok peer).

Inductive move :=
| MDeliver (n : node) (c : conn)
| MUp (n : node) (k : kind) (c : conn)
| MTask (n : node)
| MTick (n : node) (ms : Z)
| MEnv (n : node) (c : conn) (m : RootMsg).

(** The first message in flight on a connection. *)
Fixpoint take_msg (n : node) (c : conn) (net : list packet) : option (RootMsg * list packet) :=
  match net with
  | [] => None
  | p :: net =>
      if decide ((p_node p, p_conn p) = (n, c)) then Some (p_msg p, net)
      else prod_map id (cons p) <$> take_msg n c net
  end.

Definition exec_input (n : node) (i : input) (net : list packet) (C : cluster) : option cluster :=
  s ← c_nodes C !! n;
  let '(es, r) := node_step std_hash cfg mysql_query_ok open_ok remove_ok rocks_write_ok s i in
  Some (mkcluster (match r with Ok s' => <[n := s']> (c_nodes C) | Err _ => delete n (c_nodes C) end)
    (net ++ route peer n es) (c_log C ++ (pair n <$> es))).

Definition exec (x : move) (C : cluster) : option cluster :=
  match x with
  | MDeliver n c => '(m, net) ← take_msg n c (c_net C); exec_input n (IMsg c m) net C
  | MUp n k c => if decide (role peer n c = Some k) then exec_input n (IUp k c) (c_net C) C else None
  | MTask n => exec_input n ITask (c_net C) C
  | MTick n ms => exec_input n (ITick ms) (c_net C) C
  | MEnv n c m =>
      '(n', c') ← peer n c;
      if env_msg n.1 n'.1 m then Some (mkcluster (c_nodes C) (c_net C ++ [mkpacket n' c' m]) (c_log C)) else None
  end.

Fixpoint exec_all (xs : list move) (C : cluster) : option cluster :=
  match xs with [] => Some C | x :: xs => C' ← exec x C; exec_all xs C' end.

Lemma take_msg_ready n c net m net' : take_msg n c net = Some (m, net') → ready peer n (IMsg c m) net net'.
Proof.
  intros Ht. assert (∃ pre post, Forall (λ p, (p_node p, p_conn p) ≠ (n, c)) pre ∧ net = pre ++ mkpacket n c m :: post ∧ net' = pre ++ post)
    as (pre & post & HF & -> & ->); [|by constructor].
  revert net' Ht. induction net as [|p net IH]; intros net' Ht; [done|]. cbn in Ht. destruct (decide _) as [Heq|Hne].
  - injection Ht as <- <-. exists [], net. destruct p. cbn in *. by simplify_eq.
  - destruct (take_msg n c net) as [[m1 net1]|]; [|done]. injection Ht as <- <-.
    destruct (IH net1 eq_refl) as (pre & post & HF & -> & ->). exists (p :: pre), post. split; [by constructor|done].
Qed.

Lemma exec_input_step n i net C C' : ready peer n i (c_net C) net → exec_input n i net C = Some C' → step C C'.
Proof.
  intros Hr He. unfold exec_input in He. destruct C as [nodes net0 log]. cbn in *.
  destruct (nodes !! n) as [s|] eqn:Hs; [|done]. cbn in He. destruct (node_step _ _ _ _ _ _ s i) as [es r] eqn:Hrun.
  injection He as <-. by eapply cs_run.
Qed.

Lemma exec_step x C C' : exec x C = Some C' → step C C'.
Proof.
  destruct x as [n c|n k c|n|n ms|n c m]; cbn; intros He.
  - destruct (take_msg n c (c_net C)) as [[m net]|] eqn:Ht; [|done]. eapply exec_input_step; [by apply take_msg_ready|exact He].
  - destruct (decide _); [|done]. eapply exec_input_step; [by constructor|exact He].
  - eapply exec_input_step; [by constructor|exact He].
  - eapply exec_input_step; [by constructor|exact He].
  - destruct (peer n c) as [[n' c']|] eqn:Hp; [|done]. cbn in He. destruct (env_msg n.1 n'.1 m) eqn:Hm; [|done].
    injection He as <-. destruct C. by eapply cs_env.
Qed.

Lemma exec_all_steps xs C C' : exec_all xs C = Some C' → rtc step C C'.
Proof.
  revert C. induction xs as [|x xs IH]; intros C; cbn; [by intros [= <-]|].
  destruct (exec x C) as [C1|] eqn:Hx; [|done]. intros Hr. eapply rtc_l; [by eapply exec_step|by apply IH].
Qed.
End exec.

(** ** Witnesses: an empty transaction that passes through every process *)

Definition demo_peer (n : node) (c : conn) : option (node * conn) :=
  match n, c with
  | (KClient, 0%nat), 0%nat => Some ((KGtm, 0%nat), 0%nat)
  | (KGtm, 0%nat), 0%nat => Some ((KClient, 0%nat), 0%nat)
  | (KEs, 0%nat), 1%nat => Some ((KDbs, 0%nat), 0%nat)
  | (KDbs, 0%nat), 0%nat => Some ((KEs, 0%nat), 1%nat)
  | (KDbs, 0%nat), 1%nat => Some ((KDbtl, 0%nat), 0%nat)
  | (KDbtl, 0%nat), 0%nat => Some ((KDbs, 0%nat), 1%nat)
  | (KDbtl, 0%nat), 1%nat => Some ((KDb, 0%nat), 0%nat)
  | (KDb, 0%nat), 0%nat => Some ((KDbtl, 0%nat), 1%nat)
  | _, _ => None
  end.

Lemma demo_peer_sym n c n' c' : demo_peer n c = Some (n', c') → demo_peer n' c' = Some (n, c).
Proof. destruct n as [[] [|j]], c as [|[|c]]; cbn; intros [= <- <-]; done. Defined.

Definition demo_cluster : cluster :=
  mkcluster (<[(KGtm, 0%nat) := SGtm GTM.GTM_new]> (<[(KDbs, 0%nat) := SDbs Dbs.DbService_new]>
    {[(KDbtl, 0%nat) := SDbtl (Dbtl.Dbtl_new 5 0)]})) [] [].

Definition demo_moves : list move :=
  let dbs := (KDbs, 0%nat) in let dbtl := (KDbtl, 0%nat) in let es := (KEs, 0%nat) in
  [MUp dbs KDbtl 1%nat; MUp dbtl KDb 1%nat;
   MEnv (KClient, 0%nat) 0%nat (Msg_GtmMsg (mkGtmMsg kGetTxid 0 false (Some "buy"))); MDeliver (KGtm, 0%nat) 0%nat;
   MEnv es 1%nat (Msg_DbServiceMsg (mkDbServiceMsg kData 0 false (Some []) (Some []))); MDeliver dbs 0%nat; MTask dbs;
   MEnv es 1%nat (Msg_DbServiceMsg (mkDbServiceMsg kCommit 0 false None None)); MDeliver dbs 0%nat;
   MDeliver dbtl 0%nat; MDeliver dbs 1%nat; MTask dbs; MDeliver dbtl 0%nat; MTask dbtl].

Definition demo_final : option cluster :=
  exec_all (H := stale_kept) Mhash.hash_first Dbs.cfg0 Dbs.all_ok Dbs.all_ok Dbs.all_ok true demo_peer demo_moves demo_cluster.

Abbreviation demo_reachable := (reachable (H := stale_kept) Mhash.hash_first Dbs.cfg0 Dbs.all_ok Dbs.all_ok Dbs.all_ok true demo_peer).

Lemma demo_reached C : demo_final = Some C → demo_reachable C.
Proof.
  intros HC. exists demo_cluster. split; [|by apply (exec_all_steps (H := stale_kept)) in HC].
  split; [|split; reflexivity]. unfold demo_cluster. cbn [c_nodes]. do 2 (apply map_Forall_insert_2; [reflexivity|]).
  apply map_Forall_singleton. exists 5, 0. reflexivity.
Defined.

Lemma cluster_typed_witness :
  ∃ C p, demo_final = Some C ∧ p ∈ c_net C ∧ p_msg p = Msg_DbMsg (mkDbMsg 0 (Some [])) ∧ expected (p_node p).1 (p_msg p).
Proof.
  destruct demo_final as [C|] eqn:HC; [|vm_compute in HC; discriminate].
  assert (∃ p, p ∈ c_net C ∧ p_msg p = Msg_DbMsg (mkDbMsg 0 (Some []))) as (p & Hp & Hm).
  { vm_compute in HC. injection HC as <-. eexists. split; [apply list_elem_of_further, list_elem_of_here|reflexivity]. }
  exists C, p. split_and!; [reflexivity|exact Hp|exact Hm|].
  refine (cluster_typed (H := stale_kept) Mhash.hash_first Dbs.cfg0 Dbs.all_ok Dbs.all_ok Dbs.all_ok true demo_peer demo_peer_sym C p _ Hp).
  by apply demo_reached.
Defined.

End Cluster.
