(* ===== verification/ClusterAgree.v ===== *)
(** * Agreement in the whole system

    A run of the cluster, seen from one node, is a run of that node's handlers
    on a sequence of inputs, and every message among them was put on the wire
    by its sender before.  With this projection the specification of the GTM
    (GtmSpec.v) speaks about the cluster: the database services that vote on a
    transaction are told the same outcome, and the outcome is the disjunction
    of votes that database services did send.

    The runs are those of Cluster.v: each process handles one message, task or
    timer at a time, and the clients ask a GTM for ids only. *)

From stdpp Require Import base gmap strings list.
From S2P Require Import Prelude NetMsg Hash TimeWheel Config Gtm GtmSpec App Es Dbs Dbtl Cluster.

Module Agree.
Import Cluster.

Section agree.
Context `{Stale} (std_hash : string → Z) (cfg : Config.ConfigManager).
Context (mysql_query_ok : string → bool) (open_ok remove_ok : string → bool) (rocks_write_ok : bool).
Context (peer : node → conn → option (node * conn)).
Abbreviation step := (cstep std_hash cfg mysql_query_ok open_ok remove_ok rocks_write_ok peer).
Abbreviation node_step := (node_step std_hash cfg mysql_query_ok open_ok remove_ok rocks_write_ok).

(** ** The run of one node *)

Fixpoint node_run (s : nstate) (ins : list input) : list event * result nstate :=
  match ins with
  | [] => ([], Ok s)
  | i :: ins =>
      match node_step s i with
      | (es, Ok s') => let '(es', r) := node_run s' ins in (es ++ es', r)
      | (es, Err f) => (es, Err f)
      end
  end.

(** What [n] has emitted. *)
Definition log_of (n : node) (log : list (node * event)) : list event :=
  omap (λ ne, if decide (ne.1 = n) then Some ne.2 else None) log.

(** A message that arrives at [n] on [c] was sent from the other end. *)
Definition backed (log : list (node * event)) (n : node) (c : conn) (m : RootMsg) : Prop :=
  ∃ n' c', peer n' c' = Some (n, c) ∧ (env_msg n'.1 n.1 m = true ∨ (n', ESend c' m) ∈ log).

Definition caused (log : list (node * event)) (n : node) (i : input) : Prop :=
  match i with IMsg c m => backed log n c m | _ => True end.

Definition alive (r : result nstate) : option nstate := match r with Ok s => Some s | Err _ => None end.

Lemma node_run_snoc s ins i es r :
  node_run s ins = (es, r) →
  node_run s (ins ++ [i]) =
    match r with
    | Ok s' => (es ++ (node_step s' i).1, (node_step s' i).2)
    | Err f => (es, Err f)
    end.
Proof.
  revert s es. induction ins as [|j ins IH]; intros s es; cbn [node_run app].
  - intros [= <- <-]. destruct (node_step s i) as [es' [s'|f]]; cbn; by rewrite ?app_nil_r.
  - destruct (node_step s j) as [es1 [s1|f]]; [|by intros [= <- <-]].
    destruct (node_run s1 ins) as [es2 r2] eqn:Hr. intros [= <- <-]. rewrite (IH s1 es2 Hr).
    destruct r2 as [s2|f]; [|done]. by rewrite app_assoc.
Qed.

Lemma log_of_app n log log' : log_of n (log ++ log') = log_of n log ++ log_of n log'.
Proof. apply omap_app. Qed.

Lemma log_of_pair n n' es : log_of n (pair n' <$> es) = if decide (n' = n) then es else [].
Proof.
  unfold log_of. induction es as [|e es IH]; cbn; [by destruct (decide _)|]. destruct (decide (n' = n)); [by f_equal|done].
Qed.

Lemma elem_of_log_of n e log : e ∈ log_of n log ↔ (n, e) ∈ log.
Proof.
  unfold log_of. rewrite list_elem_of_omap. split.
  - intros ([n' e'] & Hin & Hd). cbn in Hd. destruct (decide (n' = n)) as [->|]; [|done]. by injection Hd as ->.
  - intros Hin. exists (n, e). split; [done|]. cbn. by rewrite decide_True.
Qed.

Lemma backed_mono log log' n c m : backed log n c m → backed (log ++ log') n c m.
Proof. intros (n' & c' & Hp & Hm). exists n', c'. split; [done|]. rewrite elem_of_app. naive_solver. Qed.

Lemma caused_mono log log' n ins : Forall (caused log n) ins → Forall (caused (log ++ log') n) ins.
Proof. intros HF. eapply Forall_impl; [exact HF|]. intros [] Hi; [by apply backed_mono|done..]. Qed.

(** Every packet in flight was sent, and every node is the result of its inputs. *)
Record projects (C0 C : cluster) : Prop := {
  p_net : Forall (λ p, backed (c_log C) (p_node p) (p_conn p) (p_msg p)) (c_net C);
  p_nodes : ∀ n s0, c_nodes C0 !! n = Some s0 →
    ∃ ins r, Forall (caused (c_log C) n) ins ∧ node_run s0 ins = (log_of n (c_log C), r) ∧ c_nodes C !! n = alive r;
  p_none : ∀ n, c_nodes C0 !! n = None → c_nodes C !! n = None }.

Lemma route_backed log n es : Forall (λ p, backed (log ++ (pair n <$> es)) (p_node p) (p_conn p) (p_msg p)) (route peer n es).
Proof.
  apply Forall_forall. intros p (e & Hin & He)%list_elem_of_omap. destruct e; try done.
  destruct (peer n c) as [[n' c']|] eqn:Hp; [|done]. injection He as <-. exists n, c. split; [done|]. right.
  apply elem_of_app. right. by apply list_elem_of_fmap_2.
Qed.

Lemma projects_step C0 C C' : projects C0 C → step C C' → projects C0 C'.
Proof.
  intros [Hnet Hnodes Hnone] Hstep. destruct Hstep as [nodes net log n s i net' es r Hs Hready Hrun|nodes pre p post log|nodes net log n c n' c' m Hp Henv]; cbn [c_nodes c_net c_log] in *.
  - assert (caused log n i ∧ Forall (λ p, backed log (p_node p) (p_conn p) (p_msg p)) net') as [Hi Hnet'].
    { destruct Hready as [c m pre post _|k c net0 Hr|net0|ms net0]; [|done..].
      apply Forall_app in Hnet as [Hpre [Hp Hpost]%Forall_cons_1]. split; [exact Hp|by apply Forall_app]. }
    split; cbn [c_nodes c_net c_log].
    + apply Forall_app. split; [|apply route_backed]. eapply Forall_impl; [exact Hnet'|]. intros p Hp. by apply backed_mono.
    + intros n1 s0 H0. destruct (Hnodes n1 s0 H0) as (ins & r1 & Hins & Hr1 & Hal).
      pose proof (log_of_app n1 log (pair n <$> es)) as Hl. rewrite log_of_pair in Hl. destruct (decide (n = n1)) as [<-|Hne].
      * rewrite Hs in Hal. destruct r1 as [s1|]; [|done]. injection Hal as <-. exists (ins ++ [i]), r. split_and!.
        -- apply Forall_app. split; [by apply caused_mono|]. constructor; [|done]. by destruct i; [apply backed_mono|..].
        -- rewrite (node_run_snoc _ _ _ _ _ Hr1). by rewrite Hrun, Hl.
        -- destruct r; [by rewrite lookup_insert_eq|by rewrite lookup_delete_eq].
      * exists ins, r1. rewrite Hl, app_nil_r. split_and!; [by apply caused_mono|done|]. rewrite <- Hal.
        destruct r; [by rewrite lookup_insert_ne|by rewrite lookup_delete_ne].
    + intros n1 H1. assert (n ≠ n1) as Hne by (intros ->; by rewrite Hnone in Hs).
      destruct r; [rewrite lookup_insert_ne by done|rewrite lookup_delete_ne by done]; by apply Hnone.
  - apply Forall_app in Hnet as [Hpre [_ Hpost]%Forall_cons_1]. split; cbn [c_nodes c_net c_log]; [by apply Forall_app|done|done].
  - split; cbn [c_nodes c_net c_log]; [|done|done]. apply Forall_app. split; [done|]. constructor; [|done]. exists n, c. by split; [|left].
Qed.

Lemma projects_run C0 C : c_net C0 = [] → c_log C0 = [] → rtc step C0 C → projects C0 C.
Proof.
  intros Hnet Hlog. apply (rtc_ind_r (projects C0)); [|intros C1 C2 _ Hs HC1; by eapply projects_step].
  split; [by rewrite Hnet| |done]. intros n s0 Hs. exists [], (Ok s0). rewrite Hlog. split_and!; [constructor|done|done].
Qed.

(** Projection: what a node has emitted, and whether it is still alive and
    in which state, is the result of its handlers on a sequence of inputs that
    starts from its first state, and every message among these inputs is one
    that its peer sent earlier in the run, or that the environment may send. *)
Theorem cluster_projects C0 C n s0 :
  initial C0 → rtc step C0 C → c_nodes C0 !! n = Some s0 →
  ∃ ins r, Forall (caused (c_log C) n) ins ∧ node_run s0 ins = (log_of n (c_log C), r) ∧ c_nodes C !! n = alive r.
Proof. intros (_ & Hnet & Hlog) Hrun. by apply p_nodes, projects_run. Qed.

(** ** The GTM in the cluster *)

(** A GTM node runs its handler on the messages that it gets; anything but a
    [GtmMsg] stops it silently. *)
Lemma gtm_node_run g ins es r :
  node_run (SGtm g) ins = (es, r) →
  ∃ h r', GtmSpec.handle_all h g = (es, r') ∧ Forall (λ x, IMsg x.1 (Msg_GtmMsg x.2) ∈ ins) h.
Proof.
  revert g es. induction ins as [|i ins IH]; intros g es; cbn [node_run].
  { intros [= <- <-]. by exists [], (Ok (tt, g)). }
  assert (∀ es, node_run (SGtm g) ins = (es, r) → ∃ h r', GtmSpec.handle_all h g = (es, r') ∧ Forall (λ x, IMsg x.1 (Msg_GtmMsg x.2) ∈ i :: ins) h) as Hskip.
  { intros es' (h & r' & Hh & HF)%IH. exists h, r'. split; [done|]. eapply Forall_impl; [exact HF|]. intros x Hx. by right. }
  destruct i as [c m|k c| |ms]; cbn [Cluster.node_step].
  2-4: destruct (node_run (SGtm g) ins) as [es' r'] eqn:Hr; cbn; intros [= <- <-]; by apply Hskip.
  destruct m as [|d| | | | | | | |]; try (intros [= <- <-]; by exists [], (Ok (tt, g))).
  unfold at_node. destruct (GTM.onMessage (Some c) (Msg_GtmMsg d) g) as [es1 [[[] g1]|f]] eqn:Hh; cbn [fst snd].
  - destruct (node_run (SGtm g1) ins) as [es2 r2] eqn:Hr. intros [= <- <-]. destruct (IH _ _ Hr) as (h & r' & Hh2 & HF).
    exists ((c, d) :: h), r'. split.
    + unfold GtmSpec.handle_all. cbn [for_each]. rewrite (bind_step (GtmSpec.handle (c, d)) _ _ _ _ _ Hh). fold (GtmSpec.handle_all h). by rewrite Hh2.
    + constructor; [by left|]. eapply Forall_impl; [exact HF|]. intros x Hx. by right.
  - intros [= <- <-]. exists [(c, d)], (Err f). split; [|by repeat constructor].
    unfold GtmSpec.handle_all. cbn [for_each]. by apply bind_fault.
Qed.

Lemma requests_said first ep past : GtmSpec.fine first ep past → (GtmSpec.requests past ≤ length (GtmSpec.said first ep past))%nat.
Proof.
  induction past as [|x past IH]; cbn [GtmSpec.fine GtmSpec.requests GtmSpec.said]; [done|]. intros [Hf Hx]. specialize (IH Hf).
  rewrite length_app. unfold GtmSpec.answer in *. destruct (GtmSpec.is_request x); [|lia]. destruct (GtmMsg_transType x.2); [|done]. cbn. lia.
Qed.

Lemma votes_on_elem tx past v :
  v ∈ GtmSpec.votes_on tx past → ∃ x, x ∈ past ∧ GtmSpec.is_vote x = true ∧ GtmMsg_txid x.2 = tx ∧ v = GtmSpec.vote_of x.
Proof.
  induction past as [|x past IH]; cbn; [by intros ?%not_elem_of_nil|]. rewrite elem_of_app. intros [(y & Hy & Hv)%IH|Hv].
  - exists y. split; [by right|done].
  - destruct (GtmSpec.is_vote x && (GtmMsg_txid x.2 =? tx)) eqn:Hx; [|by apply not_elem_of_nil in Hv]. apply list_elem_of_singleton in Hv as ->.
    apply andb_true_iff in Hx as [Hx Htx%Z.eqb_eq]. exists x. split; [by left|done].
Qed.

Context (peer_sym : ∀ n c n' c', peer n c = Some (n', c') → peer n' c' = Some (n, c)).

(** The vote of a database service, as it went on the wire towards [n]. *)
Definition voted_for (log : list (node * event)) (n : node) (tx : Z) (v : GTM.vote) : Prop :=
  ∃ i c' ty, peer (KDbs, i) c' = Some (n, GTM.v_conn v) ∧
    ((KDbs, i), ESend c' (Msg_GtmMsg (mkGtmMsg kJudgeConflit tx (GTM.v_conflict v) ty))) ∈ log.

Lemma backed_vote C n c d :
  reachable std_hash cfg mysql_query_ok open_ok remove_ok rocks_write_ok peer C → n.1 = KGtm → GtmMsg_cmd d = kJudgeConflit →
  backed (c_log C) n c (Msg_GtmMsg d) → voted_for (c_log C) n (GtmMsg_txid d) (GtmSpec.vote_of (c, d)).
Proof using peer_sym.
  intros HC Hn Hd ([k i] & c' & Hp & [Henv|Hlog]).
  { rewrite Hn in Henv. destruct k; try done. cbn in Henv. by rewrite Hd in Henv. }
  pose proof (inv_log _ _ (reachable_inv _ _ _ _ _ _ _ peer_sym _ HC)) as HF.
  apply list_elem_of_lookup_1 in Hlog as Hlog'. destruct Hlog' as [j Hj].
  pose proof (Forall_lookup_1 _ _ _ _ HF Hj) as Hgood. cbn in Hgood. specialize (Hgood KGtm). unfold role in Hgood. rewrite Hp in Hgood. cbn in Hgood.
  rewrite Hn in Hgood. specialize (Hgood eq_refl). destruct k; cbn in Hgood; try done; [by rewrite Hd in Hgood|].
  exists i, c', (GtmMsg_transType d). split; [done|]. destruct d as [cmd tx b ty]. cbn in *. by subst cmd.
Qed.

(** (C1) Atomic decision, in every run of the cluster in which each process
    handles its messages, tasks and timers one at a time (each as a whole),
    every connection has two ends, and clients ask the GTM for ids only (it
    does not check who votes: [env_msg]).  All decisions that a GTM sends on
    one transaction carry the same verdict, as long as it has not emitted more
    than 2^32 messages (ids come again then).  The verdict is the disjunction
    of as many votes as the transaction type has endpoints, each vote was sent
    by a database service, and every decision goes to the connection of one of
    them.  Nothing is assumed of what a read of freed memory gives.  With
    several I/O threads in one GTM a vote can be lost:
    [gtm_threads_lost_vote]. *)
Theorem cluster_agreement C0 C n g0 tx b c :
  initial C0 → rtc step C0 C → c_nodes C0 !! n = Some (SGtm g0) → GtmSpec.started g0 →
  Z.of_nat (length (log_of n (c_log C))) ≤ 2 ^ 32 →
  (n, ESend c (Msg_DbtmMsg (mkDbtmMsg kJudgeConflit tx b 0))) ∈ c_log C →
  (∀ b' c', (n, ESend c' (Msg_DbtmMsg (mkDbtmMsg kJudgeConflit tx b' 0))) ∈ c_log C → b' = b) ∧
  ∃ vs type, b = GTM.any_conflict vs ∧ c ∈ GTM.v_conn <$> vs ∧ length vs = length (GTM.endpoints g0 type) ∧
    Forall (voted_for (c_log C) n tx) vs.
Proof using peer_sym.
  intros Hinit Hrun H0 Hst Hlen Hin. destruct (Hinit) as (Hfresh & Hnet & Hlog).
  assert (n.1 = KGtm) as Hn. { specialize (Hfresh n _ H0). unfold fresh_node in Hfresh. by destruct n.1. }
  destruct (p_nodes _ _ (projects_run C0 C Hnet Hlog Hrun) n _ H0) as (ins & r & Hins & Hr & _).
  destruct (gtm_node_run _ _ _ _ Hr) as (h & r' & Hh & Harr).
  destruct (GtmSpec.handled_said g0 h _ _ Hst Hh) as (h1 & [h2 ->] & Hf & Hsaid).
  pose proof (requests_said _ _ _ Hf) as Hreq. rewrite <- Hsaid in Hreq.
  assert (∀ b' c', (n, ESend c' (Msg_DbtmMsg (mkDbtmMsg kJudgeConflit tx b' 0))) ∈ c_log C →
    GtmSpec.opened_by (GTM.txid_ g0) (GTM.endpoints g0) (rev h1) tx (length (GtmSpec.votes_on tx (rev h1))) ∧
    b' = GTM.any_conflict (GtmSpec.votes_on tx (rev h1)) ∧ c' ∈ GTM.v_conn <$> GtmSpec.votes_on tx (rev h1)) as Hdec.
  { intros b' c' Hin'. apply (GtmSpec.said_decides _ _ _ _ _ _ _ Hf ltac:(lia) eq_refl). rewrite <- Hsaid. by apply elem_of_log_of. }
  destruct (Hdec b c Hin) as ((newer & x & older & _ & _ & _ & Hvot) & Hb & Hc). split.
  - intros b' c' Hin'. destruct (Hdec b' c' Hin') as (_ & -> & _). done.
  - exists (GtmSpec.votes_on tx (rev h1)), (default "" (GtmMsg_transType x.2)). split_and!; [done|done|done|].
    apply Forall_forall. intros v (y & Hy & Hv & <- & ->)%votes_on_elem. destruct y as [cy d]. cbn [fst snd].
    apply backed_vote; [by exists C0|done|by apply Z.eqb_eq|].
    assert ((cy, d) ∈ h1 ++ h2) as Hyh. { apply elem_of_app. left. apply list_elem_of_In, in_rev. by apply list_elem_of_In. }
    rewrite Forall_forall in Harr. rewrite Forall_forall in Hins. by apply (Hins (IMsg cy (Msg_GtmMsg d))), (Harr (cy, d)).
Qed.

End agree.

(** ** Witnesses: a transaction over two database services *)

Definition pair_peer (n : node) (c : conn) : option (node * conn) :=
  match n, c with
  | (KClient, 0%nat), 0%nat => Some ((KGtm, 0%nat), 0%nat)
  | (KGtm, 0%nat), 0%nat => Some ((KClient, 0%nat), 0%nat)
  | (KGtm, 0%nat), 1%nat => Some ((KDbs, 0%nat), 2%nat)
  | (KGtm, 0%nat), 2%nat => Some ((KDbs, 1%nat), 2%nat)
  | (KDbs, 0%nat), 2%nat => Some ((KGtm, 0%nat), 1%nat)
  | (KDbs, 1%nat), 2%nat => Some ((KGtm, 0%nat), 2%nat)
  | (KEs, 0%nat), 1%nat => Some ((KDbs, 0%nat), 0%nat)
  | (KDbs, 0%nat), 0%nat => Some ((KEs, 0%nat), 1%nat)
  | (KEs, 1%nat), 1%nat => Some ((KDbs, 1%nat), 0%nat)
  | (KDbs, 1%nat), 0%nat => Some ((KEs, 1%nat), 1%nat)
  | (KDbs, 0%nat), 1%nat => Some ((KDbtl, 0%nat), 0%nat)
  | (KDbtl, 0%nat), 0%nat => Some ((KDbs, 0%nat), 1%nat)
  | (KDbs, 1%nat), 1%nat => Some ((KDbtl, 0%nat), 1%nat)
  | (KDbtl, 0%nat), 1%nat => Some ((KDbs, 1%nat), 1%nat)
  | _, _ => None
  end.

Lemma pair_peer_sym n c n' c' : pair_peer n c = Some (n', c') → pair_peer n' c' = Some (n, c).
Proof. destruct n as [[] [|[|j]]], c as [|[|[|c]]]; cbn; intros [= <- <-]; done. Defined.

Definition pair_cluster : cluster :=
  mkcluster (<[(KGtm, 0%nat) := SGtm GtmSpec.two_gtm]> (<[(KDbs, 0%nat) := SDbs Dbs.DbService_new]> (<[(KDbs, 1%nat) := SDbs Dbs.DbService_new]>
    {[(KDbtl, 0%nat) := SDbtl (Dbtl.Dbtl_new 5 0)]}))) [] [].

(** What one of the two services goes through, up to its vote. *)
Definition pair_vote (i : nat) : list move :=
  let dbs := (KDbs, i) in let es := (KEs, i) in
  [MUp dbs KDbtl 1%nat; MUp dbs KGtm 2%nat;
   MEnv es 1%nat (Msg_DbServiceMsg (mkDbServiceMsg kData 7 false (Some []) (Some []))); MDeliver dbs 0%nat; MTask dbs;
   MEnv es 1%nat (Msg_DbServiceMsg (mkDbServiceMsg kCommit 7 true None None)); MDeliver dbs 0%nat;
   MDeliver (KDbtl, 0%nat) i; MDeliver dbs 1%nat; MTask dbs].

Definition pair_moves : list move :=
  [MEnv (KClient, 0%nat) 0%nat (Msg_GtmMsg (mkGtmMsg kGetTxid 0 false (Some "buy"))); MDeliver (KGtm, 0%nat) 0%nat] ++
  pair_vote 0 ++ pair_vote 1 ++ [MDeliver (KGtm, 0%nat) 1%nat; MDeliver (KGtm, 0%nat) 2%nat].

Definition pair_final : option cluster :=
  exec_all (H := stale_kept) Mhash.hash_first Dbs.cfg0 Dbs.all_ok Dbs.all_ok Dbs.all_ok true pair_peer pair_moves pair_cluster.

Abbreviation pair_step := (cstep (H := stale_kept) Mhash.hash_first Dbs.cfg0 Dbs.all_ok Dbs.all_ok Dbs.all_ok true pair_peer).

Lemma pair_initial : initial pair_cluster.
Proof.
  split; [|split; reflexivity]. unfold pair_cluster. cbn [c_nodes]. do 3 (apply map_Forall_insert_2; [reflexivity|]).
  apply map_Forall_singleton. exists 5, 0. reflexivity.
Defined.

Lemma pair_run C : pair_final = Some C → rtc pair_step pair_cluster C.
Proof. apply (exec_all_steps (H := stale_kept)). Defined.

(** The decision that both services are told. *)
Definition pair_decision (c : conn) : node * event :=
  ((KGtm, 0%nat), ESend c (Msg_DbtmMsg (mkDbtmMsg kJudgeConflit 7 false 0))).

Lemma cluster_projects_witness :
  ∃ C, pair_final = Some C ∧ length (log_of (KGtm, 0%nat) (c_log C)) = 3%nat ∧
    ∃ ins r, Forall (caused pair_peer (c_log C) (KGtm, 0%nat)) ins ∧
      node_run (H := stale_kept) Mhash.hash_first Dbs.cfg0 Dbs.all_ok Dbs.all_ok Dbs.all_ok true (SGtm GtmSpec.two_gtm) ins
        = (log_of (KGtm, 0%nat) (c_log C), r) ∧
      c_nodes C !! (KGtm, 0%nat) = alive r.
Proof.
  destruct pair_final as [C|] eqn:HC; [|vm_compute in HC; discriminate]. exists C.
  assert (length (log_of (KGtm, 0%nat) (c_log C)) = 3%nat) as Hl. { vm_compute in HC. injection HC as <-. reflexivity. }
  split_and!; [reflexivity|exact Hl|].
  refine (cluster_projects (H := stale_kept) Mhash.hash_first Dbs.cfg0 Dbs.all_ok Dbs.all_ok Dbs.all_ok true pair_peer
    pair_cluster C (KGtm, 0%nat) (SGtm GtmSpec.two_gtm) pair_initial (pair_run C HC) _).
  reflexivity.
Defined.

Lemma cluster_agreement_witness :
  ∃ C, pair_final = Some C ∧ pair_decision 1 ∈ c_log C ∧ pair_decision 2 ∈ c_log C ∧
    ∃ vs type, false = GTM.any_conflict vs ∧ (1%nat : conn) ∈ GTM.v_conn <$> vs ∧ length vs = length (GTM.endpoints GtmSpec.two_gtm type) ∧
      Forall (voted_for pair_peer (c_log C) (KGtm, 0%nat) 7) vs.
Proof.
  destruct pair_final as [C|] eqn:HC; [|vm_compute in HC; discriminate]. exists C.
  assert (pair_decision 1 ∈ c_log C ∧ pair_decision 2 ∈ c_log C ∧ Z.of_nat (length (log_of (KGtm, 0%nat) (c_log C))) ≤ 2 ^ 32) as (H1 & H2 & H3).
  { vm_compute in HC. injection HC as <-. cbn [c_log]. split_and!; [repeat first [apply list_elem_of_here|apply list_elem_of_further]..|vm_compute; discriminate]. }
  split_and!; [reflexivity|exact H1|exact H2|].
  refine (proj2 (cluster_agreement (H := stale_kept) Mhash.hash_first Dbs.cfg0 Dbs.all_ok Dbs.all_ok Dbs.all_ok true pair_peer
    pair_peer_sym pair_cluster C (KGtm, 0%nat) GtmSpec.two_gtm 7 false 1 pair_initial (pair_run C HC) _ GtmSpec.two_started H3 H1)).
  reflexivity.
Defined.

End Agree.
