(* ===== verification/WireCluster.v ===== *)
(** * The system on bytes

    The network of Cluster.v carries messages as values.  Here it carries what
    the program sends: the sender serializes with FlatBuffers, the bytes of
    one or several messages on a connection are appended to muduo's receive
    buffer of the receiver, and the handler takes everything readable as one
    message.  Every run of this network is a run of Cluster.v in which the
    messages behind the first one of a delivery are lost, so what is proved of
    the cluster holds of the bytes.

    The round trip of a message asks for integers of 32 bits; that no handler
    ever sends another one is an invariant of the processes, proved first.
    It asks that an integer field read from a freed message is one of 32 bits
    ([stale_int32]), as every [int32_t] is.  The limit of 2 GB per message
    stays an assumption on the run.  Bytes of a message that arrive in two
    pieces are not part of this network; NetBuffer.v says what becomes of
    them. *)

From stdpp Require Import base gmap strings list.
From S2P Require Import Prelude NetMsg NetGenerated FlatBuilder NetBuffer Hash TimeWheel Config Gtm App Es Dbs Dbtl Cluster.

Module Wire32.
Import Cluster.

(** ** Integers of 32 bits *)

Definition sends_valid (e : event) : Prop := match e with ESend _ m => RootMsg_valid m | _ => True end.

Definition dbs_task_valid (t : Dbs.task) : Prop :=
  match t with
  | Dbs.TGetLsn id => int32_ok id
  | Dbs.TJudgeLocal _ => True
  | Dbs.TSolve data => DbtmMsg_valid data
  end.
Definition dbtl_task_id (t : Dbtl.task) : Z := match t with Dbtl.TWriteDisk id _ _ | Dbtl.TWriteRocks id _ _ => id end.

Definition gtm_valid (g : GTM.GTM) : Prop :=
  int32_ok (GTM.txid_ g) ∧ map_Forall (λ _, Forall (λ e, int32_ok (GTM.port_ e))) (GTM.transInfo_ g).
Definition dbs_valid (d : Dbs.DbService) : Prop :=
  map_Forall (λ _ t, int32_ok (Dbs.txid t)) (Dbs.heap_ d) ∧ Forall dbs_task_valid (Dbs.tasks_ d).
Definition wheel_valid (w : TimeWheel.TimeWheel (F := Z)) : Prop :=
  Forall (Forall (λ tm, int32_ok (TimeWheel.fn tm))) (TimeWheel.slots_ w).
Definition dbtl_valid (l : Dbtl.Dbtl) : Prop :=
  Forall (λ t, int32_ok (dbtl_task_id t)) (Dbtl.tasks_ l) ∧ wheel_valid (Dbtl.timeWheel_ l).

Definition node_valid (s : nstate) : Prop :=
  match s with SGtm g => gtm_valid g | SEs _ => True | SDbs d => dbs_valid d | SDbtl l => dbtl_valid l end.

Definition input_valid (i : input) : Prop := match i with IMsg _ m => RootMsg_valid m | _ => True end.

(** Solves [int32_ok] of a constant. *)
Ltac small := unfold int32_ok; vm_compute; split; congruence.

Lemma valid_send {S} (I : S → Prop) p m : RootMsg_valid m → keeps sends_valid I (send p m).
Proof. intros Hm s HI. apply wp_send. by intros c ->. Qed.

Lemma valid_log {S} (I : S → Prop) sev txt : keeps sends_valid I (LOG sev txt).
Proof. by apply keeps_emit. Qed.

(** *** GTM *)

Lemma valid_getTxid c ty : keeps sends_valid gtm_valid (GTM.getTxid c ty).
Proof.
  unfold GTM.getTxid. keeps_step. destruct Hs as [Hid Hti].
  assert (Forall (λ e, int32_ok (GTM.port_ e)) (default [] (GTM.transInfo_ s !! ty))) as Hl.
  { destruct (GTM.transInfo_ s !! ty) as [l|] eqn:Hl; [|constructor]. by apply (Hti ty). }
  repeat keeps_step; try done.
  - intros g [H1 H2]. split; [done|]. cbn. by apply map_Forall_insert_2.
  - intros g [H1 H2]. split; [apply int32_range|done].
  - apply valid_send. cbn. split_and!; [small|done|]. cbn. by apply Forall_fmap.
Qed.

Lemma valid_judgeConflict c d : GtmMsg_valid d → keeps sends_valid gtm_valid (GTM.judgeConflict c d).
Proof.
  intros [_ Hid]. unfold GTM.judgeConflict. repeat keeps_step; try done.
  apply keeps_for_each. intros x _. apply valid_send. cbn. split_and!; [small|done|small].
Qed.

Lemma valid_gtm c m : RootMsg_valid m → keeps sends_valid gtm_valid (GTM.onMessage c m).
Proof.
  intros Hm. unfold GTM.onMessage. keeps_step. destruct m; try done. injection Ha as <-.
  repeat keeps_step; [apply valid_getTxid|by apply valid_judgeConflict].
Qed.

(** *** Entity service *)

Lemma valid_es c m : RootMsg_valid m → keeps sends_valid (λ _, True) (ES.onMessage c m).
Proof.
  intros Hm e _. unfold ES.onMessage. repeat wp_step. intros d Hd. destruct m; try done. injection Hd as ->.
  destruct Hm as (_ & Hid & _). repeat wp_step. destruct (_ || _).
  - unfold ES.solve. repeat wp_step. intros key _. repeat wp_step. destruct (_ || _); repeat wp_step.
    + intros attr _. repeat wp_step. intros val _. repeat wp_step. apply (valid_send (λ _, True)); [|done]. cbn. split_and!; [small|done|done|by repeat constructor].
    + apply (valid_send (λ _, True)); [|done]. cbn. split_and!; [small|done|by repeat constructor|done].
  - destruct (_ =? kCommit); [|destruct (_ || _); [by wp_step|by apply (valid_log (λ _, True))]].
    unfold ES.forward. repeat wp_step. apply (valid_send (λ _, True)); [|done]. cbn. split_and!; [small|done|done|done].
Qed.

(** *** Database service *)

(** Whatever a read of a freed message gives, the integers that the accessors
    return are of 32 bits: [GetField<int32_t>] has no others. *)
Definition stale_int32 `{Stale} : Prop := ∀ d d' : DbtmMsg, DbtmMsg_valid d → stale d = Ok d' → DbtmMsg_valid d'.

Section dbs.
Context `{Stale} (Hstale : stale_int32).
Context (std_hash : string → Z) (cfg : Config.ConfigManager) (mysql_query_ok : string → bool) (open_ok remove_ok : string → bool).
Abbreviation safe := (keeps sends_valid dbs_valid).

Lemma valid_at id : safe (Dbs.txidTrans_at id) ∧ safe (Dbs.dbtm_table_at id).
Proof. unfold Dbs.txidTrans_at, Dbs.dbtm_table_at. split; repeat keeps_step; done. Qed.

(** A transaction read through a pointer has a valid id. *)
Lemma valid_deref {B} p (k : nat * Dbs.transaction → Dbs.P B) :
  (∀ a t, int32_ok (Dbs.txid t) → safe (k (a, t))) → safe (bind (Dbs.deref p) k).
Proof.
  intros Hk s Hs. apply wp_bind. unfold Dbs.deref. destruct p as [a|]; [|apply wp_throw]. repeat wp_step.
  destruct (Dbs.heap_ s !! a) as [t|] eqn:Ht; wp_step. apply Hk; [|done]. by apply (proj1 Hs a).
Qed.

Lemma valid_store a t : int32_ok (Dbs.txid t) → safe (Dbs.store a t).
Proof. intros Ht. unfold Dbs.store. keeps_step. intros s [H1 H2]. split; [|done]. cbn. by apply map_Forall_insert_2. Qed.

Lemma valid_assign id f : (∀ t, Dbs.txid (f t) = Dbs.txid t) → safe (Dbs.assign id f).
Proof.
  intros Hf. unfold Dbs.assign. keeps_step; [apply valid_at|]. apply valid_deref. intros x t Ht. apply valid_store. by rewrite Hf.
Qed.

Lemma valid_field {A} id (f : Dbs.transaction → A) : safe (Dbs.field id f).
Proof. unfold Dbs.field. keeps_step; [apply valid_at|]. apply valid_deref. intros x t Ht. apply keeps_ret. Qed.

Lemma valid_enqueue t : dbs_task_valid t → safe (Dbs.enqueue t).
Proof. intros Ht. unfold Dbs.enqueue. keeps_step. intros s [H1 H2]. split; [done|]. apply Forall_app. by split; [|constructor]. Qed.

Lemma valid_sql q : safe (Dbs.sqlExec mysql_query_ok q).
Proof. unfold Dbs.sqlExec, Dbs.MyDb_exeSQL. repeat (keeps_step || apply valid_log). done. Qed.

Lemma valid_retResult status id : int32_ok status → int32_ok id → safe (Dbs.retResult status id).
Proof.
  intros Hst Hid. unfold Dbs.retResult, Dbs.delete_ptr. repeat (keeps_step || apply valid_at); try done.
  - apply valid_send. cbn. split_and!; [done|done|small].
  - intros s1 [H1 H2]. split; [|done]. cbn. by apply map_Forall_delete.
Qed.

Lemma valid_getReadWriteSet c d : int32_ok (DbServiceMsg_txid d) → safe (Dbs.getReadWriteSet c d).
Proof.
  intros Hid. unfold Dbs.getReadWriteSet. keeps_step. keeps_step.
  { repeat keeps_step; [|done]. intros s1 [H1 H2]. split; [|done]. cbn. by apply map_Forall_insert_2. }
  keeps_step; [apply valid_at|]. apply valid_deref. intros x t Ht. repeat (keeps_step || by apply valid_store). done.
Qed.

Lemma valid_dbs_onMessage c m : RootMsg_valid m → safe (Dbs.onMessage c m).
Proof.
  intros Hm. unfold Dbs.onMessage. destruct m as [| | |d| | | |d| |]; try apply keeps_ret; destruct Hm as (Hcmd & Hid & Hrest).
  - repeat (keeps_step || apply valid_field || (apply valid_assign; done) || (apply valid_enqueue; done) || apply valid_log || apply valid_at || by apply valid_getReadWriteSet).
  - repeat (keeps_step || apply valid_field || (apply valid_assign; done) || (apply valid_enqueue; done) || apply valid_log || apply valid_at || by apply valid_retResult).
Qed.

Lemma valid_cache p : safe (Dbs.cacheRWSet std_hash p).
Proof.
  unfold Dbs.cacheRWSet, Dbs.sendLog. apply valid_deref. intros x t Ht. keeps_step.
  { apply keeps_for_each. intros y _. repeat keeps_step. done. }
  keeps_step. apply valid_send. cbn. split_and!; [small|done|]. cbn. by apply Forall_true.
Qed.

Lemma valid_check l bound : safe (Dbs.check_keys std_hash l bound).
Proof. induction l as [|d l IH]; cbn [Dbs.check_keys]; repeat keeps_step; done. Qed.

Lemma valid_write t : safe (Dbs.writeToDiskAndSql cfg mysql_query_ok open_ok t).
Proof. unfold Dbs.writeToDiskAndSql, Dbs.sqlInsert. repeat (keeps_step || apply valid_log || apply valid_sql); done. Qed.

Lemma valid_judge p : safe (Dbs.judgeLocalConflict std_hash cfg mysql_query_ok open_ok p).
Proof.
  unfold Dbs.judgeLocalConflict, Dbs.judgeGlobalConflict, Dbs.sqlUpdateNeedLocalConflict. apply valid_deref. intros x t Ht.
  repeat (apply valid_write || apply valid_check || apply valid_sql || apply valid_log || apply valid_cache || (apply valid_retResult; [small|done]) ||
          (apply valid_deref; intros ? ? ?) || (apply valid_send; cbn; split_and!; [small|done]) || keeps_step); done.
Qed.

Lemma valid_solve data : DbtmMsg_valid data → safe (Dbs.solve std_hash cfg mysql_query_ok remove_ok data).
Proof using Hstale.
  intros Hd. unfold Dbs.solve, Dbs.sqlUpdateNeedGlobalConflict, Dbs.sqlDelete. keeps_step. destruct (Hstale _ _ Hd Ha) as (Hcmd & Hid & Hlsn).
  repeat (apply valid_sql || apply valid_log || apply valid_cache || apply valid_at || (apply valid_retResult; [small|done]) || keeps_step); done.
Qed.

Lemma valid_run_task : safe (Dbs.run_task std_hash cfg mysql_query_ok open_ok remove_ok).
Proof using Hstale.
  unfold Dbs.run_task, Dbs.getLsn. keeps_step. destruct (Dbs.tasks_ s) as [|t rest] eqn:Htasks; [keeps_step|].
  destruct Hs as [_ HF]. rewrite Htasks in HF. apply Forall_cons_1 in HF as [Ht Hrest]. keeps_step.
  { keeps_step. by intros s1 [H1 _]. }
  destruct t as [id|p|data]; [|apply valid_judge|by apply valid_solve]. keeps_step. apply valid_send. cbn. split_and!; [small|done|done].
Qed.
End dbs.

(** *** Log service *)

Section wheel.
Abbreviation good_timer := (λ tm : TimeWheel.Timer (F := Z), int32_ok (TimeWheel.fn tm)).

Lemma valid_addTimer t id w tm w' : int32_ok id → wheel_valid w → TimeWheel.addTimer t id w = Ok (tm, w') → wheel_valid w'.
Proof.
  intros Hid Hw. unfold TimeWheel.addTimer. destruct (_ =? 0); [done|]. destruct (_ <? 0); [done|].
  destruct (TimeWheel.slots_ w !! _) as [l|] eqn:Hl; [|done]. intros [= _ <-]. unfold wheel_valid. cbn.
  apply Forall_insert; [done|]. apply Forall_app. split; [by eapply (Forall_lookup_1 _ _ _ _ Hw)|by constructor].
Qed.

Lemma valid_tick_slot l : Forall good_timer l → Forall good_timer (TimeWheel.tick_slot l).1 ∧ Forall (λ x, int32_ok x.2) (TimeWheel.tick_slot l).2.
Proof.
  induction 1 as [|tm l Htm _ [IH1 IH2]]; cbn; [by split|]. destruct (TimeWheel.tick_slot l) as [kept fired]. cbn in *.
  destruct (_ <? _); cbn; split; try done; by constructor.
Qed.

Lemma valid_ticks n w fired w' : wheel_valid w → TimeWheel.ticks n w = Ok (fired, w') → wheel_valid w' ∧ Forall (λ x, int32_ok x.2) fired.
Proof.
  revert w fired. induction n as [|n IH]; intros w fired Hw; cbn [TimeWheel.ticks]; [intros [= <- <-]; by split|].
  destruct (TimeWheel.tick w) as [[f1 w1]|] eqn:Ht; [|done]. cbn [rbind].
  destruct (TimeWheel.ticks n w1) as [[f2 w2]|] eqn:Hts; [|done]. intros [= <- <-].
  assert (wheel_valid w1 ∧ Forall (λ x, int32_ok x.2) f1) as [Hw1 Hf1].
  { unfold TimeWheel.tick in Ht. destruct (_ =? 0); [done|]. destruct (TimeWheel.slots_ w !! _) as [l|] eqn:Hl; [|done]. cbn [of_option rbind] in Ht.
    pose proof (valid_tick_slot l (Forall_lookup_1 _ _ _ _ Hw Hl)) as [Hk Hf]. destruct (TimeWheel.tick_slot l) as [kept f]. injection Ht as <- <-.
    split; [|done]. unfold wheel_valid. cbn. by apply Forall_insert. }
  destruct (IH w1 f2 Hw1 Hts) as [Hw2 Hf2]. split; [done|]. by apply Forall_app.
Qed.
End wheel.

Section dbtl.
Context `{Stale} (cfg : Config.ConfigManager) (open_ok : string → bool) (rocks_write_ok : bool).
Abbreviation safe := (keeps sends_valid dbtl_valid).

Lemma valid_tables id : safe (Dbtl.answer_at id) ∧ safe (Dbtl.retry_at id) ∧ safe (Dbtl.log_at id).
Proof. unfold Dbtl.answer_at, Dbtl.retry_at, Dbtl.log_at. split_and!; repeat keeps_step; done. Qed.

Lemma valid_playLog id : int32_ok id → safe (Dbtl.playLog id).
Proof.
  intros Hid. unfold Dbtl.playLog. keeps_step. apply keeps_seq.
  { repeat (keeps_step || apply valid_tables); [done|]. apply keeps_for_each. intros x _. repeat (keeps_step || apply valid_tables); done. }
  intros []. repeat (keeps_step || apply valid_tables). apply keeps_for_each. intros pos _. repeat keeps_step. apply valid_send. cbn. split; [done|]. cbn. by apply Forall_true.
Qed.

Lemma valid_dbtl_ret cmd id lsn c : int32_ok cmd → int32_ok id → safe (Dbtl.retResult cmd id lsn c).
Proof. intros Hc Hid. unfold Dbtl.retResult. apply valid_send. destruct (_ =? _); cbn; (split_and!; [done|done|small]). Qed.

Lemma valid_LogPlayer_solve d : int32_ok (LogPlayerMsg_txid d) → safe (Dbtl.LogPlayer_solve cfg d).
Proof.
  intros Hid. unfold Dbtl.LogPlayer_solve. repeat (keeps_step || apply valid_tables || apply valid_log); try done.
  intros l1 [H1 _]. split; [done|]. cbn. by eapply valid_addTimer; [|apply Hs|].
Qed.

Lemma valid_wheel_step ms : safe (Dbtl.wheel_step ms).
Proof.
  unfold Dbtl.wheel_step, TimeWheel.takeAllTimeout. keeps_step. destruct Hs as [_ Hw]. keeps_step. destruct a as [fired w].
  destruct (TimeWheel.ticks _ _) as [[f1 w1]|] eqn:Ht; [|done]. injection Ha as <- <-. destruct (valid_ticks _ _ _ _ Hw Ht) as [Hw1 Hf1]. keeps_step.
  - keeps_step. by intros l1 [H1 _].
  - apply keeps_for_each. intros [i id] [j Hj]%list_elem_of_lookup_1. apply valid_playLog. exact (Forall_lookup_1 _ _ _ _ Hf1 Hj).
Qed.

Lemma valid_dbtl_onMessage c m : RootMsg_valid m → safe (Dbtl.onMessage cfg c m).
Proof.
  intros Hm. unfold Dbtl.onMessage, Dbtl.solve. destruct m as [| | | |d| | | | |d]; try apply keeps_ret; destruct Hm as (Hcmd & Hid & _).
  - repeat (keeps_step || apply valid_log || (apply valid_dbtl_ret; [small|done])); [|done].
    intros l [H1 H2]. split; [|done]. apply Forall_app. split; [done|]. constructor; [|done]. by destruct (Config.dbtlUseRocksDb_ cfg).
  - repeat (keeps_step || apply valid_log || by apply valid_LogPlayer_solve).
Qed.

Lemma valid_dbtl_task : safe (Dbtl.run_task rocks_write_ok open_ok).
Proof.
  unfold Dbtl.run_task. keeps_step. destruct (Dbtl.tasks_ s) as [|t rest] eqn:Htasks; [keeps_step|].
  destruct Hs as [HF _]. rewrite Htasks in HF. apply Forall_cons_1 in HF as [Ht Hrest]. keeps_step.
  { keeps_step. by intros l [_ H2]. }
  destruct t as [id data c|id data c]; cbn in Ht; unfold Dbtl.writeToDisk, Dbtl.writeToDiskByRocksDb.
  all: repeat (apply valid_log || (apply valid_playLog; done) || (apply valid_dbtl_ret; [small|done]) || keeps_step); try done.
  apply keeps_for_each. intros d _. repeat (apply valid_tables || keeps_step); done.
Qed.
End dbtl.

(** *** Every step of a node *)

Lemma at_node_valid {S} (inj : S → nstate) (I : S → Prop) (m : prog S event unit) s es r :
  keeps sends_valid I m → (∀ s, I s → node_valid (inj s)) → I s → at_node inj (m s) = (es, r) →
  Forall sends_valid es ∧ ∀ s', r = Ok s' → node_valid s'.
Proof.
  intros Hm Hinj HI. destruct (Hm s HI) as [HQ HΦ]. unfold at_node. intros [= <- <-]. split; [done|].
  destruct (m s) as [es' [[a s1]|f]]; [|done]. intros s' [= <-]. by eapply Hinj, HΦ.
Qed.

Section node.
Context `{Stale} (Hstale : stale_int32).
Context (std_hash : string → Z) (cfg : Config.ConfigManager) (mysql_query_ok : string → bool) (open_ok remove_ok : string → bool) (rocks_write_ok : bool).

Lemma node_step_valid s i es r :
  node_valid s → input_valid i → node_step std_hash cfg mysql_query_ok open_ok remove_ok rocks_write_ok s i = (es, r) →
  Forall sends_valid es ∧ ∀ s', r = Ok s' → node_valid s'.
Proof using Hstale.
  intros Hs Hi. destruct s as [g|e|d|l], i as [c m|k c| |ms]; cbn [node_step].
  all: try (intros [= <- <-]; split; [constructor|by intros s' [= <-]]).
  - by apply (at_node_valid SGtm gtm_valid); [apply valid_gtm|..].
  - by apply (at_node_valid SEs (λ _, True)); [apply valid_es|..].
  - destruct k; intros [= <- <-]; (split; [constructor|by intros s' [= <-]]).
  - by apply (at_node_valid SDbs dbs_valid); [apply valid_dbs_onMessage|..].
  - destruct k; intros [= <- <-]; (split; [by repeat constructor|by intros s' [= <-]]).
  - by apply (at_node_valid SDbs dbs_valid); [apply valid_run_task|..].
  - by apply (at_node_valid SDbtl dbtl_valid); [apply valid_dbtl_onMessage|..].
  - destruct k; intros [= <- <-]; (split; [constructor|by intros s' [= <-]]).
  - by apply (at_node_valid SDbtl dbtl_valid); [apply valid_dbtl_task|..].
  - by apply (at_node_valid SDbtl dbtl_valid); [apply valid_wheel_step|..].
Qed.
End node.

End Wire32.

(** ** The network of bytes *)
Module WireCluster.
Import Cluster Wire32.

Record bpacket := mkbpacket { b_node : node; b_conn : conn; b_bytes : list Byte.byte }.

(** Nodes, their receive buffers, bytes in flight and the events so far. *)
Record bcluster := mkbcluster {
  b_nodes : gmap node nstate;
  b_bufs : gmap (node * conn) Buffer.Buffer;
  b_net : list bpacket;
  b_log : list (node * event) }.

(** A message below the limit of the library. *)
Definition fits (m : RootMsg) : Prop := RootMsg_size m + 200 < FLATBUFFERS_MAX_BUFFER_SIZE.
Definition event_fits (e : event) : Prop := match e with ESend _ m => fits m | _ => True end.

(** The receive buffer of a connection: muduo makes it with the connection. *)
Definition inbuf (bufs : gmap (node * conn) Buffer.Buffer) (n : node) (c : conn) : Buffer.Buffer :=
  default (Buffer.Buffer_new Buffer.kInitialSize) (bufs !! (n, c)).

(** Bytes arrive, and the first lines of the handler read them. *)
Definition arrive (bytes : list Byte.byte) (b : Buffer.Buffer) : result (RootMsg * Buffer.Buffer) :=
  let? b := Buffer.append bytes b in Buffer.receive b.

(** The bytes of the first [k] messages in flight on a connection. *)
Fixpoint take_conn (n : node) (c : conn) (k : nat) (net : list bpacket) : option (list Byte.byte * list bpacket) :=
  match k, net with
  | O, _ => Some ([], net)
  | S _, [] => None
  | S k', p :: net =>
      if decide ((b_node p, b_conn p) = (n, c)) then prod_map (app (b_bytes p)) id <$> take_conn n c k' net
      else prod_map id (cons p) <$> take_conn n c k net
  end.

Section wire.
Context `{Stale} (std_hash : string → Z) (cfg : Config.ConfigManager).
Context (mysql_query_ok : string → bool) (open_ok remove_ok : string → bool) (rocks_write_ok : bool).
Context (peer : node → conn → option (node * conn)).
Abbreviation step := (cstep std_hash cfg mysql_query_ok open_ok remove_ok rocks_write_ok peer).
Abbreviation node_step := (node_step std_hash cfg mysql_query_ok open_ok remove_ok rocks_write_ok).

(** What the events of [n] put on the wire. *)
Fixpoint broute (n : node) (es : list event) : result (list bpacket) :=
  match es with
  | [] => Ok []
  | ESend c m :: es =>
      let? bytes := serialize m in
      let? rest := broute n es in
      Ok (match peer n c with Some (n', c') => mkbpacket n' c' bytes :: rest | None => rest end)
  | _ :: es => broute n es
  end.

Definition after (nodes : gmap node nstate) (n : node) (r : result nstate) : gmap node nstate :=
  match r with Ok s' => <[n := s']> nodes | Err _ => delete n nodes end.

(** The bytes of one or more messages are delivered and handled, or reading
    them fails; another input is handled; bytes are lost; the environment
    sends a message. *)
Inductive bstep : bcluster → bcluster → Prop :=
| bs_deliver nodes bufs net log n s c k bytes net' m b es r ps :
    nodes !! n = Some s → take_conn n c (S k) net = Some (bytes, net') → Z.of_nat (length bytes) < Buffer.memory →
    arrive bytes (inbuf bufs n c) = Ok (m, b) → node_step s (IMsg c m) = (es, r) →
    Forall event_fits es → broute n es = Ok ps →
    bstep (mkbcluster nodes bufs net log)
      (mkbcluster (after nodes n r) (<[(n, c) := b]> bufs) (net' ++ ps) (log ++ (pair n <$> es)))
| bs_unreadable nodes bufs net log n s c k bytes net' f :
    nodes !! n = Some s → take_conn n c (S k) net = Some (bytes, net') → Z.of_nat (length bytes) < Buffer.memory →
    arrive bytes (inbuf bufs n c) = Err f →
    bstep (mkbcluster nodes bufs net log) (mkbcluster (delete n nodes) bufs net' log)
| bs_other nodes bufs net log n s i es r ps :
    nodes !! n = Some s → match i with IMsg _ _ => False | IUp k c => role peer n c = Some k | _ => True end →
    node_step s i = (es, r) → Forall event_fits es → broute n es = Ok ps →
    bstep (mkbcluster nodes bufs net log) (mkbcluster (after nodes n r) bufs (net ++ ps) (log ++ (pair n <$> es)))
| bs_lose nodes bufs pre p post log :
    bstep (mkbcluster nodes bufs (pre ++ p :: post) log) (mkbcluster nodes bufs (pre ++ post) log)
| bs_env nodes bufs net log n c n' c' m bytes :
    peer n c = Some (n', c') → env_msg n.1 n'.1 m = true → RootMsg_valid m → fits m → serialize m = Ok bytes →
    bstep (mkbcluster nodes bufs net log) (mkbcluster nodes bufs (net ++ [mkbpacket n' c' bytes]) log).

Definition binitial (B : bcluster) : Prop :=
  map_Forall (λ n s, fresh_node n s ∧ node_valid s) (b_nodes B) ∧ b_bufs B = ∅ ∧ b_net B = [] ∧ b_log B = [].

(** ** Simulation *)

(** The bytes of a packet are those of the message. *)
Definition carries (q : bpacket) (p : packet) : Prop :=
  b_node q = p_node p ∧ b_conn q = p_conn p ∧ RootMsg_valid (p_msg p) ∧
  serialize (p_msg p) = Ok (b_bytes q) ∧ deserialize (b_bytes q) = Ok (p_msg p).

Definition buffer_idle (b : Buffer.Buffer) : Prop :=
  Buffer.wf_buffer b ∧ Buffer.content b = [] ∧ Buffer.sized b.

Record simulated (B : bcluster) (C : cluster) : Prop := {
  sim_nodes : c_nodes C = b_nodes B;
  sim_log : c_log C = b_log B;
  sim_net : Forall2 carries (b_net B) (c_net C);
  sim_bufs : ∀ n c, buffer_idle (inbuf (b_bufs B) n c);
  sim_valid : map_Forall (λ _, node_valid) (b_nodes B) }.

Lemma idle_new : buffer_idle (Buffer.Buffer_new Buffer.kInitialSize).
Proof.
  destruct (Buffer.Buffer_new_ok Buffer.kInitialSize) as [Hw Hc]. split; [done|]. split; [done|]. by apply Buffer.Buffer_new_sized.
Qed.

(** The first message of a delivery is read, whatever follows it. *)
Lemma arrive_first b first rest m :
  buffer_idle b → Z.of_nat (length (first ++ rest)) < Buffer.memory → deserialize first = Ok m → ∃ b', arrive (first ++ rest) b = Ok (m, b') ∧ buffer_idle b'.
Proof.
  intros (Hw & Hc & Hl) Hmem Hm. unfold arrive.
  destruct (Buffer.append_sized (first ++ rest) b Hw Hl) as (b1 & Hb1 & Hw1 & Hl1 & Hc1); [by rewrite Hc|]. rewrite Hb1. cbn [rbind]. rewrite Hc in Hc1.
  destruct (Buffer.receive_ok b1 first rest m) as (b' & Hr & Hw' & Hc' & Hb'); [done|apply Hl1|done|done|]. exists b'. split; [done|].
  split; [done|]. split; [done|]. unfold Buffer.sized. by rewrite Hb'.
Qed.

(** Bytes taken from the network, and the messages they belong to. *)
Lemma take_conn_sublist n c k bnet bytes bnet' cnet :
  take_conn n c k bnet = Some (bytes, bnet') → Forall2 carries bnet cnet →
  ∃ cnet', Forall2 carries bnet' cnet' ∧ cnet' `sublist_of` cnet.
Proof.
  intros Ht HF. revert k bytes bnet' Ht. induction HF as [|q p bnet cnet Hqp HF IH]; intros [|k] bytes bnet'; cbn [take_conn].
  - intros [= <- <-]. by exists [].
  - done.
  - intros [= <- <-]. exists (p :: cnet). split; [by constructor|done].
  - destruct (decide _) as [Heq|Hne].
    + destruct (take_conn n c k bnet) as [[bs rest]|] eqn:Ht; [|done]. intros [= <- <-].
      destruct (IH _ _ _ Ht) as (cnet' & HF' & Hsub). exists cnet'. split; [done|]. by apply sublist_cons.
    + destruct (take_conn n c (S k) bnet) as [[bs rest]|] eqn:Ht; [|done]. intros [= <- <-].
      destruct (IH _ _ _ Ht) as (cnet' & HF' & Hsub). exists (p :: cnet'). split; [by constructor|by apply sublist_skip].
Qed.

Lemma take_conn_first n c k bnet bytes bnet' cnet :
  take_conn n c (S k) bnet = Some (bytes, bnet') → Forall2 carries bnet cnet →
  ∃ m first rest net1 cnet', bytes = first ++ rest ∧ RootMsg_valid m ∧ serialize m = Ok first ∧ deserialize first = Ok m ∧
    ready peer n (IMsg c m) cnet net1 ∧ Forall2 carries bnet' cnet' ∧ cnet' `sublist_of` net1.
Proof.
  intros Ht HF. assert (∃ m first rest pre post cnet', bytes = first ++ rest ∧ RootMsg_valid m ∧ serialize m = Ok first ∧ deserialize first = Ok m ∧
    Forall (λ p, (p_node p, p_conn p) ≠ (n, c)) pre ∧ cnet = pre ++ mkpacket n c m :: post ∧
    Forall2 carries bnet' cnet' ∧ cnet' `sublist_of` pre ++ post) as (m & first & rest & pre & post & cnet' & -> & Hv & Hser & Hm & Hpre & -> & HF' & Hsub).
  2: { exists m, first, rest, (pre ++ post), cnet'. split_and!; try done. by constructor. }
  revert bytes bnet' Ht. induction HF as [|q p bnet cnet Hqp HF IH]; intros bytes bnet'; cbn [take_conn]; [done|].
  destruct Hqp as (Hn & Hc & Hv & Hser & Hde) eqn:Hcar. destruct (decide _) as [Heq|Hne].
  - destruct (take_conn n c k bnet) as [[bs rest]|] eqn:Ht; [|done]. intros [= <- <-].
    destruct (take_conn_sublist _ _ _ _ _ _ _ Ht HF) as (cnet' & HF' & Hsub).
    exists (p_msg p), (b_bytes q), bs, [], cnet, cnet'. split_and!; try done. rewrite Hn, Hc in Heq. destruct p. cbn in *. by simplify_eq.
  - destruct (take_conn n c (S k) bnet) as [[bs rest]|] eqn:Ht; [|done]. intros [= <- <-].
    destruct (IH _ _ eq_refl) as (m & first & rest' & pre & post & cnet' & -> & Hv' & Hser' & Hm & Hpre & -> & HF' & Hsub).
    exists m, first, rest', (p :: pre), post, (p :: cnet'). split_and!; try done.
    + constructor; [|done]. by rewrite <- Hn, <- Hc.
    + by constructor.
    + by apply sublist_skip.
Qed.

(** Losing messages, one by one. *)
Lemma lose_sublist nodes net net' x log : net' `sublist_of` net → rtc step (mkcluster nodes (net ++ x) log) (mkcluster nodes (net' ++ x) log).
Proof.
  intros Hsub. assert (∀ pre, rtc step (mkcluster nodes (pre ++ net ++ x) log) (mkcluster nodes (pre ++ net' ++ x) log)) as Hpre; [|exact (Hpre [])].
  induction Hsub as [|p l1 l2 _ IH|p l1 l2 _ IH]; intros pre; [done| |].
  - specialize (IH (pre ++ [p])). by rewrite <- !app_assoc in IH.
  - eapply rtc_l; [apply cs_lose|apply IH].
Qed.

(** Serializing what a node sends. *)
Lemma broute_carries n es ps : Forall sends_valid es → Forall event_fits es → broute n es = Ok ps → Forall2 carries ps (route peer n es).
Proof.
  intros Hv Hf. revert ps Hf. induction Hv as [|e es He _ IH]; intros ps Hf; [intros [= <-]; constructor|].
  apply Forall_cons_1 in Hf as [Hfe Hf]. destruct e; try (by apply IH). cbn [broute]. cbn in He, Hfe.
  destruct (serialize_ok m He Hfe) as (bytes & Hser & Hde). rewrite Hser. cbn [rbind].
  destruct (broute n es) as [rest|] eqn:Hr; [|done]. intros [= <-]. specialize (IH _ Hf eq_refl).
  unfold route. cbn [omap list_omap]. destruct (peer n c) as [[n' c']|]; cbn; [|exact IH]. constructor; [|exact IH]. done.
Qed.

Lemma after_valid nodes n r : map_Forall (λ _ : node, node_valid) nodes → (∀ s', r = Ok s' → node_valid s') → map_Forall (λ _ : node, node_valid) (after nodes n r).
Proof. intros Hn Hr. destruct r as [s'|]; cbn; [apply map_Forall_insert_2; auto|by apply map_Forall_delete]. Qed.

Lemma simulated_step B B' C : stale_int32 → simulated B C → bstep B B' → ∃ C', rtc step C C' ∧ simulated B' C'.
Proof.
  intros Hstale [Hn Hl Hnet Hbuf Hval] Hstep. destruct C as [cn cnet clog].
  destruct Hstep as [nodes bufs net log n s c k bytes net' m b es r ps Hs Ht Hmem Ha Hrun Hfit Hps
    |nodes bufs net log n s c k bytes net' f Hs Ht Hmem Ha|nodes bufs net log n s i es r ps Hs Hi Hrun Hfit Hps
    |nodes bufs pre p post log|nodes bufs net log n c n' c' m bytes Hp Henv Hv Hfit Hser]; cbn in *; subst.
  - destruct (take_conn_first _ _ _ _ _ _ _ Ht Hnet) as (m' & first & rest & net1 & cnet' & -> & Hvm & _ & Hm & Hready & HF' & Hsub).
    destruct (arrive_first _ _ rest _ (Hbuf n c) Hmem Hm) as (b' & Hb' & Hidle). rewrite Ha in Hb'. injection Hb' as <- <-.
    destruct (node_step_valid Hstale _ _ _ _ _ _ s (IMsg c m) es r (Hval n s Hs) Hvm Hrun) as [Hes Hr].
    eexists. split; [eapply rtc_l; [by eapply cs_run|by apply lose_sublist]|]. split; cbn; [done|done| | |by apply after_valid].
    + apply Forall2_app; [done|by apply broute_carries].
    + intros n1 c1. unfold inbuf. destruct (decide ((n, c) = (n1, c1))) as [[= <- <-]|Hne].
      * by rewrite lookup_insert_eq.
      * rewrite lookup_insert_ne by done. apply Hbuf.
  - destruct (take_conn_first _ _ _ _ _ _ _ Ht Hnet) as (m' & first & rest & net1 & cnet' & -> & Hvm & _ & Hm & _).
    destruct (arrive_first _ _ rest _ (Hbuf n c) Hmem Hm) as (b' & Hb' & _). by rewrite Ha in Hb'.
  - assert (input_valid i) as Hvi by (by destruct i). assert (ready peer n i cnet cnet) as Hready by (by destruct i; [|constructor..]).
    destruct (node_step_valid Hstale _ _ _ _ _ _ s i es r (Hval n s Hs) Hvi Hrun) as [Hes Hr].
    eexists. split; [apply rtc_once; by eapply cs_run|]. split; cbn; [done|done| |done|by apply after_valid].
    apply Forall2_app; [done|by apply broute_carries].
  - apply Forall2_app_inv_l in Hnet as (l1 & l2 & Hpre & Hpost & ->). apply Forall2_cons_inv_l in Hpost as (p' & l3 & Hp & Hpost & ->).
    eexists. split; [apply rtc_once, cs_lose|]. split; cbn; try done. by apply Forall2_app.
  - destruct (serialize_ok m Hv Hfit) as (bytes' & Hser' & Hde). rewrite Hser in Hser'. injection Hser' as <-.
    eexists. split; [apply rtc_once; by eapply cs_env|]. split; cbn; try done. apply Forall2_app; [done|]. by repeat constructor.
Qed.

Lemma simulated_run B0 B : stale_int32 → binitial B0 → rtc bstep B0 B → ∃ C, rtc step (mkcluster (b_nodes B0) [] []) C ∧ simulated B C.
Proof.
  intros Hstale (Hn & Hb & Hnet & Hl). apply (rtc_ind_r (λ B, ∃ C, rtc step (mkcluster (b_nodes B0) [] []) C ∧ simulated B C)).
  - eexists. split; [done|]. split; cbn; [done|done|by rewrite Hnet| |].
    + intros n c. unfold inbuf. rewrite Hb, lookup_empty. apply idle_new.
    + intros n s Hs. by apply (Hn n s).
  - intros B1 B2 _ Hs (C & HC & Hsim). destruct (simulated_step _ _ _ Hstale Hsim Hs) as (C' & HC' & Hsim'). exists C'. split; [by etrans|done].
Qed.

(** (C3) The bytes refine the messages.  In the network of bytes messages are
    below 2 GB ([event_fits]) and arrive whole: a delivery holds the bytes of
    one or several messages of a connection, less than 2^60 in all and never a
    piece of a message (muduo may
    split a long message; [buffer_split_message] says what happens then), and
    each process handles its inputs one at a time.  If an integer field read
    from a freed message is still one of 32 bits ([stale_int32]), every run of
    this network is matched by a run of the cluster of messages with the same
    processes in the same states and the same events, and what is in flight
    are the bytes of the messages in flight. *)
Theorem wire_refines_cluster B0 B :
  stale_int32 → binitial B0 → rtc bstep B0 B →
  ∃ C, reachable std_hash cfg mysql_query_ok open_ok remove_ok rocks_write_ok peer C ∧
    c_nodes C = b_nodes B ∧ c_log C = b_log B ∧ Forall2 carries (b_net B) (c_net C).
Proof.
  intros Hstale Hi Hrun. destruct (simulated_run B0 B Hstale Hi Hrun) as (C & HC & [H1 H2 H3 _ _]). exists C. split_and!; try done.
  exists (mkcluster (b_nodes B0) [] []). split; [|done]. split; [|done]. destruct Hi as [Hn _]. intros n s Hs. by apply (Hn n s).
Qed.

(** (C22) Whole messages are read in bounds: in every reachable state of the
    network of bytes, in which messages are below 2 GB and arrive whole (a
    piece of a message, which the handler would read beyond, is not part of
    this network), and if an integer field read from a freed message is still
    one of 32 bits, whatever number of messages a delivery of less than 2^60
    bytes takes, the bytes are read as one message, the first one, with
    integers of 32 bits. *)
Theorem wire_reads_in_bounds B0 B n c k bytes net :
  stale_int32 → binitial B0 → rtc bstep B0 B → take_conn n c (S k) (b_net B) = Some (bytes, net) →
  Z.of_nat (length bytes) < Buffer.memory →
  ∃ m b first rest, arrive bytes (inbuf (b_bufs B) n c) = Ok (m, b) ∧ bytes = first ++ rest ∧ serialize m = Ok first ∧ RootMsg_valid m.
Proof.
  intros Hstale Hi Hrun Ht Hmem. destruct (simulated_run B0 B Hstale Hi Hrun) as (C & _ & [_ _ H3 H4 _]).
  destruct (take_conn_first _ _ _ _ _ _ _ Ht H3) as (m & first & rest & _ & _ & -> & Hv & Hser & Hm & _).
  destruct (arrive_first _ _ rest _ (H4 n c) Hmem Hm) as (b & Hb & _). by exists m, b, first, rest.
Qed.

End wire.

(** ** Witnesses: two requests of a client read as one *)

Definition wire_request (type : string) : RootMsg := Msg_GtmMsg (mkGtmMsg kGetTxid 0 false (Some type)).
Definition wire_bytes (m : RootMsg) : list Byte.byte := match serialize m with Ok b => b | Err _ => [] end.

Definition wire_start : bcluster := mkbcluster {[(KGtm, 0%nat) := SGtm GTM.GTM_new]} ∅ [] [].

Definition wire_middle : bcluster :=
  mkbcluster {[(KGtm, 0%nat) := SGtm GTM.GTM_new]} ∅
    ([mkbpacket (KGtm, 0%nat) 0 (wire_bytes (wire_request "buy"))] ++ [mkbpacket (KGtm, 0%nat) 0 (wire_bytes (wire_request "sell"))]) [].

Abbreviation wire_step := (bstep (H := stale_kept) Mhash.hash_first Dbs.cfg0 Dbs.all_ok Dbs.all_ok Dbs.all_ok true demo_peer).

Lemma wire_initial : binitial wire_start.
Proof.
  split_and!; [|reflexivity..]. apply map_Forall_singleton. split; [reflexivity|]. split; [unfold int32_ok; cbn; lia|apply map_Forall_empty].
Defined.

Lemma wire_reaches_middle : rtc wire_step wire_start wire_middle.
Proof.
  assert (∀ ty, RootMsg_valid (wire_request ty)) as Hv by (intros ty; split; unfold int32_ok; cbn; unfold kGetTxid; lia).
  eapply rtc_l; [eapply (bs_env _ _ _ _ _ _ _ _ _ _ _ (KClient, 0%nat) 0 (KGtm, 0%nat) 0 (wire_request "buy") (wire_bytes (wire_request "buy")))|].
  1-5: first [apply Hv|vm_compute; reflexivity].
  cbn [app]. apply rtc_once. eapply (bs_env _ _ _ _ _ _ _ _ _ _ _ (KClient, 0%nat) 0 (KGtm, 0%nat) 0 (wire_request "sell") (wire_bytes (wire_request "sell"))).
  all: first [apply Hv|vm_compute; reflexivity].
Qed.

Lemma wire_stale_int32 : stale_int32 (H := stale_kept).
Proof. by intros d d' Hd [= <-]. Qed.

(** Both requests in one delivery: only the first one is answered. *)
Lemma wire_refines_cluster_witness :
  ∃ B C, rtc wire_step wire_start B ∧
    b_log B = [((KGtm, 0%nat), ESend 0 (Msg_AppMsg (mkAppMsg kTxid 0 (Some []))))] ∧
    reachable (H := stale_kept) Mhash.hash_first Dbs.cfg0 Dbs.all_ok Dbs.all_ok Dbs.all_ok true demo_peer C ∧ c_log C = b_log B.
Proof.
  assert (∃ B, wire_step wire_middle B ∧ b_log B = [((KGtm, 0%nat), ESend 0 (Msg_AppMsg (mkAppMsg kTxid 0 (Some []))))]) as (B & Hstep & Hlog).
  { eexists. split.
    - eapply (bs_deliver _ _ _ _ _ _ _ _ _ _ _ (KGtm, 0%nat) (SGtm GTM.GTM_new) 0 1); [reflexivity|vm_compute; reflexivity|vm_compute; reflexivity|vm_compute; reflexivity|vm_compute; reflexivity| |vm_compute; reflexivity].
      repeat constructor.
    - reflexivity. }
  assert (rtc wire_step wire_start B) as Hrun by (eapply rtc_r; [exact wire_reaches_middle|exact Hstep]).
  destruct (wire_refines_cluster (H := stale_kept) Mhash.hash_first Dbs.cfg0 Dbs.all_ok Dbs.all_ok Dbs.all_ok true demo_peer wire_start B wire_stale_int32 wire_initial Hrun)
    as (C & HC & _ & HlogC & _).
  exists B, C. split_and!; [exact Hrun|exact Hlog|exact HC|exact HlogC].
Defined.

Lemma wire_reads_in_bounds_witness :
  ∃ bytes net m b first rest, take_conn (KGtm, 0%nat) 0 2 (b_net wire_middle) = Some (bytes, net) ∧
    arrive bytes (inbuf (b_bufs wire_middle) (KGtm, 0%nat) 0) = Ok (m, b) ∧ bytes = first ++ rest ∧ serialize m = Ok first ∧ RootMsg_valid m.
Proof.
  destruct (take_conn (KGtm, 0%nat) 0 2 (b_net wire_middle)) as [[bytes net]|] eqn:Ht; [|vm_compute in Ht; discriminate].
  assert (Z.of_nat (length bytes) < Buffer.memory) as Hmem by (vm_compute in Ht; injection Ht as <- _; vm_compute; reflexivity).
  destruct (wire_reads_in_bounds (H := stale_kept) Mhash.hash_first Dbs.cfg0 Dbs.all_ok Dbs.all_ok Dbs.all_ok true demo_peer
    wire_start wire_middle (KGtm, 0%nat) 0 1 bytes net wire_stale_int32 wire_initial wire_reaches_middle Ht Hmem) as (m & b & first & rest & H1 & H2 & H3 & H4).
  exists bytes, net, m, b, first, rest. split_and!; [reflexivity|exact H1|exact H2|exact H3|exact H4].
Defined.

End WireCluster.
