(* ===== verification/ClusterShipped.v ===== *)
(** * The processes of this repository by themselves

    The runs of Cluster.v in which the environment does not play an entity
    service: database services get their messages from the entity service of
    src/transaction/entity_service alone.  Its data messages carry one of the
    two sets, its commits name transactions that were never collected, and
    either ends the database service.  So in every run no database service
    sends anything, no log is stored or played, and the transaction manager
    only hands out ids. *)

From stdpp Require Import base gmap strings list.
From S2P Require Import Prelude NetMsg Hash TimeWheel Config Gtm App Es Dbs Dbtl Cluster.

Module Shipped.
Import Cluster.

(** What the entity service sends to the database service. *)
Definition one_sided (d : DbServiceMsg) : Prop :=
  (DbServiceMsg_cmd d = kData ∧ (DbServiceMsg_readSet d = None ∨ DbServiceMsg_writeSet d = None)) ∨ DbServiceMsg_cmd d = kCommit.

(** Messages in flight. *)
Definition inert_msg (to : kind) (m : RootMsg) : Prop :=
  match to, m with
  | KDbs, Msg_DbServiceMsg d => one_sided d
  | KDbs, _ => False
  | KDbtl, Msg_LogPlayerMsg _ => True
  | KDbtl, _ => False
  | KGtm, Msg_GtmMsg d => GtmMsg_cmd d = kGetTxid
  | KGtm, _ => False
  | _, _ => True
  end.

(** Processes in which nothing is under way. *)
Definition inert_node (s : nstate) : Prop :=
  match s with
  | SDbs d => Dbs.tasks_ d = [] ∧ Dbs.txidTrans_ d = ∅
  | SDbtl l => Dbtl.tasks_ l = [] ∧ map_Forall (λ _ v, v = []) (Dbtl.retryTable_ l) ∧ Forall (λ v, v = []) (TimeWheel.slots_ (Dbtl.timeWheel_ l))
  | _ => True
  end.

(** Events: entity services forward statements and commits, the transaction
    manager hands out ids, the others only log. *)
Definition inert_event (n : node) (e : event) : Prop :=
  match n.1, e with
  | KEs, ESend _ (Msg_DbServiceMsg d) => one_sided d
  | KGtm, ESend _ (Msg_AppMsg d) => AppMsg_cmd d = kTxid
  | KEs, ELog _ _ | KGtm, ELog _ _ | KDbs, ELog _ _ | KDbtl, ELog _ _ => True
  | _, _ => False
  end.

Section nodes.
Context `{Stale} (std_hash : string → Z) (cfg : Config.ConfigManager).
Context (mysql_query_ok : string → bool) (open_ok remove_ok : string → bool) (rocks_write_ok : bool).
Context (peer : node → conn → option (node * conn)).
Abbreviation node_step := (node_step std_hash cfg mysql_query_ok open_ok remove_ok rocks_write_ok).


(** *** Database service *)

(** A commit without a transaction, and data without a set. *)
Lemma dbs_dies c d s :
  Dbs.txidTrans_ s = ∅ → one_sided d → Dbs.onMessage (Some c) (Msg_DbServiceMsg d) s = ([], Err NullDeref).
Proof.
  intros He [[Hcmd Hset]|Hcmd].
  - apply Dbs.needs_both_sets; [|done..]. intros id p. by rewrite He, lookup_empty.
  - unfold Dbs.onMessage. rewrite Hcmd. change (kCommit =? kData) with false. change (kCommit =? kCommit) with true. cbv iota.
    apply bind_fault. unfold Dbs.assign, Dbs.txidTrans_at, bind, get, modify. rewrite He. by rewrite subscript_none.
Qed.

Lemma dbs_idle s : Dbs.tasks_ s = [] → Dbs.run_task std_hash cfg mysql_query_ok open_ok remove_ok s = ([], Ok (tt, s)).
Proof. intros Ht. unfold Dbs.run_task, bind, get. by rewrite Ht. Qed.

(** *** Log service *)

Section log_service.
Context (i : nat).
Abbreviation n := (KDbtl, i).
Abbreviation I := (λ l, inert_node (SDbtl l)).
Abbreviation inert := (keeps (inert_event n) I).

Lemma inert_answer id : inert (Dbtl.answer_at id).
Proof. unfold Dbtl.answer_at. repeat keeps_step; done. Qed.

Lemma inert_retry id l : I l → wp (inert_event n) (Dbtl.retry_at id) (λ v l', v = [] ∧ I l') l.
Proof.
  intros (Ht & Hr & Hw). unfold Dbtl.retry_at. repeat wp_step. destruct (subscript [] id (Dbtl.retryTable_ l)) as [v m] eqn:Hsub.
  repeat wp_step. unfold subscript in Hsub. destruct (Dbtl.retryTable_ l !! id) as [x|] eqn:Hx; injection Hsub as <- <-.
  - by split; [apply (Hr id)|].
  - split; [done|]. split_and!; [done| |done]. by apply map_Forall_insert_2.
Qed.

(** A database that reports a failure of a log it never got ends the service. *)
Lemma inert_LogPlayer_solve d : inert (Dbtl.LogPlayer_solve cfg d).
Proof.
  unfold Dbtl.LogPlayer_solve. destruct (_ =? kExecTranSucc).
  { repeat (keeps_step || apply inert_answer). done. }
  destruct (_ =? kExecTranFail); [|by apply keeps_emit].
  intros l HI. apply wp_bind. eapply wp_mono; [by apply inert_retry|]. intros v l' [-> HI']. wp_step. apply wp_lift.
  intros old Hold. unfold Dbtl.load_at in Hold. cbn in Hold. by destruct (_ && _).
Qed.

Lemma tick_empty (w : TimeWheel.TimeWheel (F := Z)) fired w' :
  Forall (λ v, v = []) (TimeWheel.slots_ w) → TimeWheel.tick w = Ok (fired, w') →
  fired = [] ∧ Forall (λ v, v = []) (TimeWheel.slots_ w').
Proof.
  intros HF. unfold TimeWheel.tick. destruct (_ =? 0); [done|].
  destruct (TimeWheel.slots_ w !! _) as [v|] eqn:Hv; [|done]. cbn. rewrite (Forall_lookup_1 _ _ _ _ HF Hv). cbn.
  intros [= <- <-]. split; [done|]. by apply Forall_insert.
Qed.

Lemma ticks_empty k : ∀ (w : TimeWheel.TimeWheel (F := Z)) fired w',
  Forall (λ v, v = []) (TimeWheel.slots_ w) → TimeWheel.ticks k w = Ok (fired, w') →
  fired = [] ∧ Forall (λ v, v = []) (TimeWheel.slots_ w').
Proof.
  induction k as [|k IH]; intros w fired w' HF; cbn; [by intros [= <- <-]|].
  destruct (TimeWheel.tick w) as [[f1 w1]|] eqn:Ht; [|done]. destruct (tick_empty _ _ _ HF Ht) as [-> H1]. cbn.
  destruct (TimeWheel.ticks k w1) as [[f2 w2]|] eqn:Hts; [|done]. destruct (IH _ _ _ H1 Hts) as [-> H2]. cbn. by intros [= <- <-].
Qed.

Lemma inert_wheel ms : inert (Dbtl.wheel_step ms).
Proof.
  intros l (Ht & Hr & Hw). unfold Dbtl.wheel_step. repeat wp_step. intros [fired w] Hfired.
  unfold TimeWheel.takeAllTimeout in Hfired. destruct (TimeWheel.ticks _ _) as [[f1 w1]|] eqn:Hts; [|done]. injection Hfired as <- <-.
  destruct (ticks_empty _ _ _ _ Hw Hts) as [-> H1]. repeat wp_step. cbn [for_each]. wp_step. by split_and!.
Qed.
End log_service.

(** *** Transaction manager and entity service *)

Lemma gtm_inert i c m g :
  inert_msg KGtm m → wp (inert_event (KGtm, i)) (GTM.onMessage (Some c) m) (λ _ g', inert_node (SGtm g')) g.
Proof.
  intros Hm. destruct m; try done. cbn in Hm. unfold GTM.onMessage. repeat wp_step. intros d' [= <-]. rewrite Hm.
  change (kGetTxid =? kGetTxid) with true. cbv iota. repeat wp_step. intros ty _. split; rewrite GTM.getTxid_spec; [by repeat constructor|done].
Qed.

Lemma es_send i p d e : one_sided d → wp (inert_event (KEs, i)) (send p (Msg_DbServiceMsg d)) (λ _ e', inert_node (SEs e')) e.
Proof. intros Hd. by apply wp_send. Qed.

Lemma es_inert i c m e : wp (inert_event (KEs, i)) (ES.onMessage (Some c) m) (λ _ e', inert_node (SEs e')) e.
Proof.
  unfold ES.onMessage. repeat wp_step. intros d _. repeat wp_step. destruct (_ || _).
  - unfold ES.solve. repeat wp_step. intros key _. repeat wp_step. destruct (_ || _); repeat wp_step.
    + intros attr _. repeat wp_step. intros val _. repeat wp_step. apply es_send. left. cbn. auto.
    + apply es_send. left. cbn. auto.
  - destruct (_ =? kCommit); [|destruct (_ || _); [by wp_step|by apply wp_emit]].
    unfold ES.forward. repeat wp_step. apply es_send. by right.
Qed.

(** *** Every step *)

Lemma at_node_inert {S} (inj : S → nstate) (m : prog S event unit) n s es r :
  wp (inert_event n) m (λ _ s', inert_node (inj s')) s → at_node inj (m s) = (es, r) →
  Forall (inert_event n) es ∧ ∀ s', r = Ok s' → inert_node s'.
Proof.
  intros [HQ HΦ]. unfold at_node. intros [= <- <-]. split; [done|].
  destruct (m s) as [es' [[a s1]|f]]; [|done]. intros s' [= <-]. by eapply HΦ.
Qed.

Lemma wp_line {S} n sev txt (Φ : unit → S → Prop) s :
  inert_event n (ELog sev txt) → Φ tt s → wp (inert_event n) (LOG sev txt) Φ s.
Proof. apply wp_emit. Qed.

Lemma inert_step n s j es r :
  node_inv peer n s → inert_node s → match j with IMsg _ m => inert_msg n.1 m | _ => True end → node_step s j = (es, r) →
  Forall (inert_event n) es ∧ ∀ s', r = Ok s' → inert_node s'.
Proof.
  intros Hinv Hs Hj. destruct n as [k i], s as [g|e|d|l], k; try done; destruct j as [c m|k c| |ms]; cbn [Cluster.node_step].
  all: try (intros [= <- <-]; split; [by constructor|by intros s' [= <-]]).
  - apply at_node_inert. by apply gtm_inert.
  - apply at_node_inert. by apply es_inert.
  - destruct k; try (intros [= <- <-]; split; [by constructor|by intros s' [= <-]]).
  - destruct m; try done. destruct Hs. unfold at_node. rewrite dbs_dies by done. by intros [= <- <-].
  - destruct k; try (intros [= <- <-]; split; [by constructor|by intros s' [= <-]]); apply at_node_inert;
      unfold Dbs.onDbtlConnection, Dbs.onGtmConnection; wp_step; (apply wp_line; [done|by wp_step]).
  - destruct Hs as [Ht Hs]. unfold at_node. rewrite dbs_idle by done. intros [= <- <-]. split; [constructor|]. by intros s' [= <-].
  - apply at_node_inert. destruct m; try done. unfold Dbtl.onMessage. destruct (_ || _); [by apply inert_LogPlayer_solve|by apply wp_emit].
  - destruct k; try (intros [= <- <-]; split; [by constructor|by intros s' [= <-]]).
  - destruct Hs as (Ht & Hs). unfold at_node, Dbtl.run_task, bind, get. rewrite Ht. intros [= <- <-]. split; [constructor|]. by intros s' [= <-].
  - apply at_node_inert. by apply inert_wheel.
Qed.

(** ** Runs in which only this repository's entity services speak *)

(** A step in which the environment plays clients and databases only. *)
Inductive sstep : cluster → cluster → Prop :=
| ss_run nodes net log n s i net' es r :
    nodes !! n = Some s → ready peer n i net net' → node_step s i = (es, r) →
    sstep (mkcluster nodes net log)
      (mkcluster (match r with Ok s' => <[n := s']> nodes | Err _ => delete n nodes end)
        (net' ++ route peer n es) (log ++ (pair n <$> es)))
| ss_lose nodes pre p post log :
    sstep (mkcluster nodes (pre ++ p :: post) log) (mkcluster nodes (pre ++ post) log)
| ss_env nodes net log n c n' c' m :
    peer n c = Some (n', c') → n.1 ≠ KEs → env_msg n.1 n'.1 m = true →
    sstep (mkcluster nodes net log) (mkcluster nodes (net ++ [mkpacket n' c' m]) log).

Abbreviation step := (cstep std_hash cfg mysql_query_ok open_ok remove_ok rocks_write_ok peer).

Lemma sstep_cstep C C' : sstep C C' → step C C'.
Proof. intros []; by econstructor. Qed.

Record inert (C : cluster) : Prop := {
  in_nodes : map_Forall (λ _, inert_node) (c_nodes C);
  in_net : Forall (λ p, inert_msg (p_node p).1 (p_msg p)) (c_net C);
  in_log : Forall (λ ne, inert_event ne.1 ne.2) (c_log C) }.

Lemma route_inert n es :
  Forall (good peer n) es → Forall (inert_event n) es → Forall (λ p, inert_msg (p_node p).1 (p_msg p)) (route peer n es).
Proof.
  intros Hg Hi. apply Forall_forall. intros p (e & Hin & He)%list_elem_of_omap. rewrite Forall_forall in Hg, Hi.
  pose proof (Hg e Hin) as Hty. specialize (Hi e Hin). destruct e; try done.
  destruct (peer n c) as [[n' c']|] eqn:Hp; [|done]. injection He as <-. cbn.
  specialize (Hty n'.1 ltac:(unfold role; by rewrite Hp)). destruct n as [[] i], m; try done; by destruct n' as [[] i'].
Qed.

Context (peer_sym : ∀ n c n' c', peer n c = Some (n', c') → peer n' c' = Some (n, c)).

Lemma inert_sstep C C' : cluster_inv peer C → inert C → sstep C C' → inert C'.
Proof.
  intros [Hn Hnet Hlog] [In Inet Ilog] Hstep.
  destruct Hstep as [nodes net log n s i net' es r Hs Hready Hrun|nodes pre p post log|nodes net log n c n' c' m Hp Hne Henv]; cbn in *.
  - destruct (ready_ok _ _ _ _ _ Hready Hnet) as [Hi _].
    assert (match i with IMsg _ m => inert_msg n.1 m | _ => True end ∧ Forall (λ p, inert_msg (p_node p).1 (p_msg p)) net') as [Hm Hnet'].
    { destruct Hready as [c m pre post _|k c net0 Hr|net0|ms net0]; [|done..].
      apply Forall_app in Inet as [Hpre [Hp Hpost]%Forall_cons_1]. split; [exact Hp|by apply Forall_app]. }
    destruct (node_step_ok _ _ _ _ _ _ _ n s i es r (Hn n s Hs) Hi Hrun) as [Hes _].
    destruct (inert_step n s i es r (Hn n s Hs) (In n s Hs) Hm Hrun) as [Ies Hr]. split; cbn.
    + destruct r as [s'|]; [apply map_Forall_insert_2; auto|by apply map_Forall_delete].
    + apply Forall_app. split; [done|by apply route_inert].
    + apply Forall_app. split; [done|]. by apply Forall_fmap.
  - apply Forall_app in Inet as [Hpre [_ Hpost]%Forall_cons_1]. split; cbn; [done|by apply Forall_app|done].
  - split; cbn; [done| |done]. apply Forall_app. split; [done|]. constructor; [|done].
    destruct n as [[] i], n' as [[] i'], m; try done. by apply Z.eqb_eq.
Qed.

Lemma fresh_inert n s : fresh_node n s → inert_node s.
Proof.
  destruct n as [[] j], s; cbn; try done.
  - by intros ->.
  - intros (junk & now & ->). split_and!; [done|done|]. by apply Forall_replicate.
Qed.

Lemma sruns_inert C0 C : initial C0 → rtc sstep C0 C → inert C ∧ cluster_inv peer C.
Proof using peer_sym.
  intros Hinit Hrun. pose proof Hinit as (Hn & Hnet & Hlog).
  assert (inert C0) as H0.
  { split; [|by rewrite Hnet|by rewrite Hlog]. intros n s Hs. eapply fresh_inert. by apply Hn. }
  assert (cluster_inv peer C0) as H1 
    by exact (reachable_inv std_hash cfg mysql_query_ok open_ok remove_ok rocks_write_ok peer peer_sym C0 (ex_intro _ C0 (conj Hinit (rtc_refl _ _)))).
  revert Hrun. apply (rtc_ind_r (λ C, inert C ∧ cluster_inv peer C)); [done|]. intros C1 C2 _ Hs [IH1 IH2].
  split; [by eapply inert_sstep|]. eapply cluster_inv_step; [done..|by apply sstep_cstep].
Qed.

(** (C21) The processes of this repository by themselves decide nothing: in
    every run in which clients ask the transaction manager for ids (and send it
    nothing else), clients send entity services whatever they like, databases
    send the log services whatever they like, and each process handles its
    messages, tasks and timers one at a time: the database services and the log
    services send nothing, store nothing and run no statement (all that they
    emit are lines of the log), the transaction manager sends nothing but ids,
    and a database service ends with the first message that it takes.  Nothing
    is assumed of what a read of freed memory gives. *)
Theorem cluster_shipped_inert C0 C :
  initial C0 → rtc sstep C0 C →
  (∀ n e, (n, e) ∈ c_log C →
     match n.1, e with
     | KDbs, ELog _ _ | KDbtl, ELog _ _ => True
     | KGtm, ESend _ (Msg_AppMsg d) => AppMsg_cmd d = kTxid
     | KGtm, ELog _ _ | KEs, _ => True
     | _, _ => False
     end) ∧
  (∀ i s c m net', c_nodes C !! (KDbs, i) = Some s → ready peer (KDbs, i) (IMsg c m) (c_net C) net' →
     node_step s (IMsg c m) = ([], Err NullDeref)).
Proof using peer_sym.
  intros Hinit Hrun. destruct (sruns_inert C0 C Hinit Hrun) as [[In Inet Ilog] [Hn _ _]]. split.
  - intros n e [j Hj]%list_elem_of_lookup_1. pose proof (Forall_lookup_1 _ _ _ _ Ilog Hj) as He. cbn in He. unfold inert_event in He.
    by destruct n.1, e; try destruct m.
  - intros i s c m net' Hs Hready. specialize (Hn _ _ Hs). specialize (In _ _ Hs). destruct s; try done.
    inversion Hready as [c' m' pre post Hpre Heq Hnet| | |]; subst. rewrite <- Hnet in Inet.
    apply Forall_app in Inet as [_ [Hm _]%Forall_cons_1]. cbn in Hm. destruct m; try done.
    destruct In. cbn [Cluster.node_step]. unfold at_node. by rewrite dbs_dies.
Qed.

(** ** Runs by computation *)

Abbreviation exec := (exec std_hash cfg mysql_query_ok open_ok remove_ok rocks_write_ok peer).
Abbreviation exec_all := (exec_all std_hash cfg mysql_query_ok open_ok remove_ok rocks_write_ok peer).

(** Not the environment in the part of an entity service. *)
Definition shipped_move (x : move) : Prop := match x with MEnv n _ _ => n.1 ≠ KEs | _ => True end.

Lemma exec_input_sstep n i net C C' :
  ready peer n i (c_net C) net → exec_input std_hash cfg mysql_query_ok open_ok remove_ok rocks_write_ok peer n i net C = Some C' → sstep C C'.
Proof.
  intros Hr He. unfold exec_input in He. destruct C as [nodes net0 log]. cbn in *.
  destruct (nodes !! n) as [s|] eqn:Hs; [|done]. cbn in He. destruct (node_step s i) as [es r] eqn:Hrun.
  injection He as <-. by eapply ss_run.
Qed.

Lemma exec_sstep x C C' : shipped_move x → exec x C = Some C' → sstep C C'.
Proof.
  destruct x as [n c|n k c|n|n ms|n c m]; cbn; intros Hx He.
  - destruct (take_msg n c (c_net C)) as [[m net]|] eqn:Ht; [|done]. eapply exec_input_sstep; [by apply take_msg_ready|exact He].
  - destruct (decide _); [|done]. eapply exec_input_sstep; [by constructor|exact He].
  - eapply exec_input_sstep; [by constructor|exact He].
  - eapply exec_input_sstep; [by constructor|exact He].
  - destruct (peer n c) as [[n' c']|] eqn:Hp; [|done]. cbn in He. destruct (env_msg n.1 n'.1 m) eqn:Hm; [|done].
    injection He as <-. destruct C. by eapply ss_env.
Qed.

Lemma exec_all_ssteps xs C C' : Forall shipped_move xs → exec_all xs C = Some C' → rtc sstep C C'.
Proof.
  intros HF. revert C. induction HF as [|x xs Hx _ IH]; intros C; cbn; [by intros [= <-]|].
  destruct (exec x C) as [C1|] eqn:He; [|done]. intros Hr. eapply rtc_l; [by eapply exec_sstep|by apply IH].
Qed.

End nodes.

(** ** Witness: the insert of src/transaction/app, up to the database service *)

Definition small_peer (n : node) (c : conn) : option (node * conn) :=
  match n, c with
  | (KClient, 0%nat), 0%nat => Some ((KGtm, 0%nat), 0%nat)
  | (KGtm, 0%nat), 0%nat => Some ((KClient, 0%nat), 0%nat)
  | (KClient, 0%nat), 1%nat => Some ((KEs, 0%nat), 0%nat)
  | (KEs, 0%nat), 0%nat => Some ((KClient, 0%nat), 1%nat)
  | (KEs, 0%nat), 1%nat => Some ((KDbs, 0%nat), 0%nat)
  | (KDbs, 0%nat), 0%nat => Some ((KEs, 0%nat), 1%nat)
  | _, _ => None
  end.

Lemma small_peer_sym n c n' c' : small_peer n c = Some (n', c') → small_peer n' c' = Some (n, c).
Proof. destruct n as [[] [|j]], c as [|[|c]]; cbn; intros [= <- <-]; done. Defined.

Definition small_cluster : cluster :=
  mkcluster (<[(KGtm, 0%nat) := SGtm GTM.GTM_new]> (<[(KEs, 0%nat) := SEs ES.ES_new]>
    {[(KDbs, 0%nat) := SDbs Dbs.DbService_new]})) [] [].

Definition small_moves : list move :=
  [MEnv (KClient, 0%nat) 0%nat (Msg_GtmMsg (mkGtmMsg kGetTxid 0 false (Some "buy"))); MDeliver (KGtm, 0%nat) 0%nat;
   MUp (KEs, 0%nat) KDbs 1%nat;
   MEnv (KClient, 0%nat) 1%nat (Msg_ESMsg (mkESMsg kAdd 0 false 0 (Some "row") (Some "col") (Some "val"))); MDeliver (KEs, 0%nat) 0%nat].

Definition small_final : option cluster :=
  exec_all (H := stale_kept) Mhash.hash_first Dbs.cfg0 Dbs.all_ok Dbs.all_ok Dbs.all_ok true small_peer small_moves small_cluster.

Definition insert_msg : RootMsg :=
  Msg_DbServiceMsg (mkDbServiceMsg kData 0 false None (Some [mkData (Some "row") (Some "col") (Some "val")])).

Lemma small_initial : initial small_cluster.
Proof.
  split; [|split; reflexivity]. unfold small_cluster. cbn [c_nodes]. do 2 (apply map_Forall_insert_2; [reflexivity|]).
  apply map_Forall_singleton. reflexivity.
Defined.

Lemma small_run C :
  small_final = Some C →
  rtc (sstep (H := stale_kept) Mhash.hash_first Dbs.cfg0 Dbs.all_ok Dbs.all_ok Dbs.all_ok true small_peer) small_cluster C.
Proof. apply (exec_all_ssteps (H := stale_kept)). unfold small_moves. repeat constructor; discriminate. Defined.

Lemma cluster_shipped_inert_witness :
  ∃ C s, small_final = Some C ∧ c_nodes C !! (KDbs, 0%nat) = Some s ∧ length (c_log C) = 2%nat ∧
    node_step (H := stale_kept) Mhash.hash_first Dbs.cfg0 Dbs.all_ok Dbs.all_ok Dbs.all_ok true s (IMsg 0 insert_msg) = ([], Err NullDeref).
Proof.
  destruct small_final as [C|] eqn:HC; [|vm_compute in HC; discriminate]. exists C, (SDbs Dbs.DbService_new).
  assert (c_nodes C !! (KDbs, 0%nat) = Some (SDbs Dbs.DbService_new) ∧ length (c_log C) = 2%nat ∧
    ∃ net', take_msg (KDbs, 0%nat) 0 (c_net C) = Some (insert_msg, net')) as (Hs & Hl & net' & Ht).
  { unfold small_final in HC. cbn in HC. injection HC as <-. cbn. split_and!; [reflexivity..|]. eexists. reflexivity. }
  split_and!; [reflexivity|exact Hs|exact Hl|].
  refine (proj2 (cluster_shipped_inert (H := stale_kept) Mhash.hash_first Dbs.cfg0 Dbs.all_ok Dbs.all_ok Dbs.all_ok true small_peer
    small_peer_sym small_cluster C small_initial (small_run C HC)) 0%nat _ 0%nat insert_msg net' Hs (take_msg_ready _ _ _ _ _ _ Ht)).
Defined.

End Shipped.
